(* ===== verification/_CoqProject ===== *)
-Q . S2P
Prelude.v
CorHdr.v
SigParse.v
SigGrammar.v
Opcodes.v
ILList.v
ILCode.v
ILImport.v
Runtime.v
ILExport.v
Com.v
ILRoundTrip.v
ILDecoder.v
ILProbes.v
ILInstrument.v
ConcStack.v
ConcHeap.v
TypeInfo.v
MemBuffer.v
Protocol.v
WinPipe.v
Commands.v
ConcThreads.v
ConcProbes.v
ConcProbeSpec.v
ConcInstrument.v
CovTracker.v
CovSpec.v
CovReport.v
CovInstrument.v
CovSystem.v
CovInterleave.v
CovSession.v
Session.v
