(* ===== verification/Prelude.v ===== *)
(** * Verification of the native components of V#

    V# explores .NET programs symbolically.  Its engine is managed code; two
    native profilers, loaded into the .NET runtime, do the work the engine cannot
    do itself.  This development models them and proves what makes them
    correct.

    ** The program

    [VSharp.CoverageInstrumenter/profiler] records which code a test has
    covered.  When the runtime is about to compile a method it calls
    [CorProfiler::JITCompilationStarted]; [Instrumenter::instrument] decides
    whether the method is to be instrumented, gives it a number and calls
    [RewriteIL], which imports the method's IL into a list of instructions, inserts
    calls of probes and exports the list again.  At run time the probes and the
    exception callbacks feed the [ThreadTracker] and the [CoverageTracker], and
    the managed side fetches a report with [GetHistory] and reads it with
    [VSharp.Utils/CoverageDeserializer.fs].

    [VSharp.ClrInteraction] runs a program concolically.  Its [Instrumenter] sends
    every method compiled after main was reached to the engine and hands the
    runtime the body the engine answers with.  Probes before and
    after every IL instruction keep, for each thread, a stack of frames with one
    flag per value (concrete or symbolic), and for each heap object a mask with
    one bit per byte.  An instruction with a symbolic operand is sent as a
    command over a socket to the engine, whose answer updates values and flags.
    New objects are recorded with a description of their class.

    Both are COM libraries: the runtime asks [DllGetClassObject] for a factory, the
    factory for a profiler, and the profiler to initialize itself.

    ** The files

    - [Prelude.v]: outcomes of native code (a failing [HRESULT], a C++ exception,
      undefined behaviour), the state monad [st], machine integers, little-endian
      bytes, arrays with checked access, loops.
    - [CorHdr.v], [Runtime.v]: constants of the metadata, and the calls of the
      runtime that both instrumenters make, as a record of parameters.
    - [SigParse.v]: [sigparse.h], the parser of metadata signatures, with the
      compressed numbers of [coreclr/inc/cor.h]; [SigGrammar.v]: the grammar of the
      header's comment and the theorems about the parser.
    - [Opcodes.v]: [opcode.def] and the tables that [ILRewriter.cpp] derives from
      it.
    - [ILList.v], [ILCode.v]: [ILInstr], [EHClause], [ILRewriter]; the linked
      list as a store of nodes with a sentinel; the encoding of a list.
    - [ILImport.v], [ILExport.v]: [ILRewriter::Import] and [Export] with their
      parts; [ILRoundTrip.v]: their composition; [ILDecoder.v]:
      [coreclr/inc/corhlpr.h] and [corhlpr.cpp], which both profilers include as
      source, the decoder of method bodies in memory and the functions that emit
      them.
    - [ILProbes.v], [ILInstrument.v]: [RewriteIL], the insertion of probes, and
      the theorems about it.
    - [ConcStack.v]: [memory/stack.cpp]; [ConcHeap.v]: [memory/heap.cpp],
      [memory/intervalTree.h] and the garbage collector's callbacks;
      [MemBuffer.v]: the operand buffer of [memory/memory.cpp];
      [Protocol.v]: [communication/protocol.cpp] over the interface
      [Communicator] (a class) with the Unix socket as its instance, the message
      lemmas proved from laws that every transport keeps (a second class);
      [WinPipe.v]: [communication/windowsFifoCommunicator.cpp], the Windows pipe
      as another instance;
      [Commands.v]: commands, their byte images and the shared state;
      [ConcThreads.v]: the accesses of several threads to that state's current
      stack, step by step;
      [ConcProbes.v]: every probe of [probes.h]; [ConcProbeSpec.v]: their
      theorems; [ConcInstrument.v]: [instrumenter.cpp], which sends methods to
      the engine and restores them after main; [TypeInfo.v]: [ObjectAllocated] of
      [corProfiler.cpp] with [resolveType] and [serializeType].
    - [CovTracker.v]: [threadStorage.h], [threadTracker.cpp],
      [coverageTracker.cpp], [serialization.h], [probes.cpp], [profilerState.cpp],
      [api.cpp] and the exception callbacks of [corProfiler.cpp];
      [CovSpec.v]: the machine per thread it follows; [CovReport.v]: the report
      and its managed reader; [CovInstrument.v]: [instrumenter.cpp] and
      [JITCompilationStarted]; [CovSystem.v]: compilations, probes, exceptions and
      [GetHistory] together, from the first compilation to what the engine reads;
      [CovInterleave.v]: the callback and [Shutdown] as sequences of steps that
      interleave.
    - [Com.v]: [dllmain.cpp], [classFactory.cpp], [cComPtr.h] and the reference
      counts of both libraries; [Session.v]: [Initialize] and [Shutdown] of the
      concolic profiler and [unixFifoCommunicator.cpp]; [CovSession.v]: those of the
      coverage tool.

    A record of the model has the fields of the C++ class, a definition has the
    name of the function it translates, and a function that changes the state of
    an object is a computation in [st] over that object's record.

    ** What is shown

    - IL: importing and exporting a method gives back its bytes
      ([import_export_roundtrip]); the import is total on arbitrary bytes
      ([ImportIL_total]); the loop of [Export] that widens short branches ends in
      its buffer with every branch reaching its target ([export_code_correct]);
      instrumentation only inserts [nop]s and whole probe calls, so that control
      and exception clauses see the same code ([instrument_transparent]), and its
      result is what the runtime is given ([RewriteIL_body]).  The same from bytes
      in memory to bytes in memory: what the decoder reads of the exported body is
      the method that was read before ([method_bytes_roundtrip]), or its
      instrumented list ([RewriteIL_decodes]), and what the emitting functions
      write is decoded as what they were given ([emitted_method_decodes]).
    - Concreteness: frames implement bounded stacks of flags
      ([frame_refines_stack]) whose counters let the engine's copy follow as long
      as symbolic values are popped by the operation that counts them
      ([pops_tracking_mirrors], [call_stack_mirrors]; some probes do otherwise,
      [silent_pop_unnoticed]); the heap implements a map
      from addresses to flags ([heap_refines_flag_map]) that survives a garbage
      collection ([gc_keeps_survivors], [gc_virtual_addresses]); a new object is
      recorded with bytes from which its class is read back
      ([ObjectAllocated_spec]), the vectors in between always agreeing
      ([resolved_vectors_agree]) and unknown classes ending in an exception
      ([unresolved_type_throws]); the probes of
      concrete instructions track exactly the flags ([quiet_probes_track]),
      across calls and returns ([call_passes_flags], [return_passes_flag]);
      threads do not disturb each other while their accesses to the current stack
      do not overlap ([threads_isolated]), and do when they race for it
      ([wrong_stack_stays]).
    - Communication: messages survive the wire in however many pieces their bodies
      arrive ([message_roundtrip]), though a split length is refused
      ([split_length_refused]), and operands their buffers ([operand_roundtrip],
      [operands_roundtrip]);
      commands are serialized inside their block and hold what the engine
      needs ([serialize_spec], [initCommand_spec], [sendCommand_exchange]); a
      method is sent to the engine once and gets the body it answers with
      ([instrument_exchange]), which decodes to the engine's code and clauses
      ([exportIL_decodes]), its original being remembered although the runtime
      gives out the new body from then on ([originals_kept]).  A
      session starts with the exact exchange of [Initialize_starts] or not at all
      ([Initialize_refuses]) and ends with [Shutdown_ends]; over the Windows pipe
      it starts with the same exchange ([pipe_session_starts]), and a failing read
      refuses the message ([pipe_failure_refused]) where the socket's is written in
      front of the buffer ([read_error_underruns]).
    - Coverage: whatever the order of the threads' callbacks, none of them aborted
      inside main, the tracker reports per thread the events between its entry of
      main and its exit ([coverage_refines_machine]); the engine reads back exactly
      that ([report_roundtrip]); a method is numbered and rewritten once
      ([instrument_once]).  Together, for compilations, such events and fetches one
      after the other in any order, the engine reads for each ended activation of
      main where in the compiled methods its events happened
      ([coverage_system_refines]).  When
      callbacks and the shutdown interleave step by step, bodies still carry
      numbers of their own ([interleaved_bodies_numbered]) and the shutdown leaves
      the loop in which it waits ([shutdown_leaves_loop]), but it does not wait for
      a callback between its test and its count, whose method the report then lacks
      ([late_callback_misses_report]).
    - Signatures: the parser reads exactly the signatures of the grammar
      ([parse_complete]) and what it accepts is derived in the grammar with its
      three lenient rules, the kind being masked out of the first byte
      ([parse_sound]); it ends on every blob
      ([parse_terminates]) and reads back what the runtime's writer compresses
      ([compress_roundtrip]).
    - COM: for every client that follows the rules no deleted object is used and
      every reference is given back ([references_counted]).
    - Faults of the code that modelling showed are theorems too:
      [tailcall_ret_unprobed], [Object_write_clobbers_cell],
      [four_operands_overrun], [read_error_underruns],
      [PushFrame_newobj_overruns], [thread_abort_undefined],
      [second_report_misses_thread], [undo_uses_last_locals],
      [main_after_skip_undefined], [truncated_token_read_beyond],
      [unknown_type_accepted], [late_callback_misses_report],
      [method_numbered_twice], [wrong_stack_stays], [silent_pop_unnoticed],
      [split_length_refused], [open_long_path_overruns],
      [unknown_interface_leaks].

    ** Bounds and fuel

    Integers are kept at their width by [wrap] and [sint].  Loops that are not
    structural take fuel: the walk over the instruction list has one unit per
    node of the store, the [goto again] loop of [Export] one per instruction (each
    round widens a branch) and the import one per byte of code; running out is the
    error [OutOfFuel], which the theorems about these loops exclude.  The read
    loop of the protocol has its fuel as a parameter; one unit per byte of the
    message is enough, because every read that does not fail delivers a byte.  The
    signature parser has two units more than the blob has bytes, and
    [parse_terminates] shows that they are enough; [resolveType] has its depth as a
    parameter, one unit per level of the class's description; the wait for a
    debugger has the seconds it may last.

    ** Not modelled

    The engine (F# and C#), but for the reader of the coverage report; the
    vendored runtime headers and platform layer, whose interfaces are parameters
    ([Runtime], the allocator of method bodies, the class queries, the system calls
    of the connection); callbacks that do nothing; logging; running out of
    memory.  Threads interleave at whole probes or storage operations, in
    [ConcThreads.v] at the single accesses to the globals that lead to the current
    stack, and in [CovInterleave.v] at single accesses of the shared objects of the
    compilation callback: data races inside one of these steps are outside the
    model, and so is [GetHistory] running beside other callbacks.  A coverage
    rewriting starts from the body in the method's module, which is what the
    runtime answers as long as no body was set for the method before. *)

From stdpp Require Export prelude list gmap sets strings.
From stdpp Require Import sorting.
From Stdlib Require Export ZArith Lia ZifyBool.

#[global] Set Default Proof Using "Type".
#[export] Set Default Goal Selector "!".

(** ** Outcomes of native code *)

(** What a call of the native code can do besides returning: a failing
    [HRESULT] handed to the caller by [IfFailRet]/[return], a C++ exception
    raised by [FAIL_LOUD], undefined behaviour (a dereference of a null or
    dangling pointer, an access out of the bounds of an array), and the model's
    own fuel running out, which every termination theorem excludes. *)
Inductive error :=
  | HResult (hr : Z)
  | Thrown (msg : string)
  | Undefined
  | OutOfFuel.

Inductive result (A : Type) :=
  | Ok (a : A)
  | Err (e : error).
Arguments Ok {A} a.
Arguments Err {A} e.

#[export] Instance result_ret : MRet result := @Ok.
#[export] Instance result_bind : MBind result := fun A B f m =>
  match m with Ok a => f a | Err e => Err e end.

#[export] Instance error_eq_dec : EqDecision error.
Proof. solve_decision. Defined.

(** A computation over a state [S]; an error ends it. *)
Definition st (S A : Type) : Type := S -> result (A * S).

#[export] Instance st_ret S : MRet (st S) := fun A a s => Ok (a, s).
#[export] Instance st_bind S : MBind (st S) := fun A B f m s =>
  match m s with Ok (a, s') => f a s' | Err e => Err e end.

Definition st_get {S} : st S S := fun s => Ok (s, s).
Definition st_put {S} (s' : S) : st S unit := fun _ => Ok (tt, s').
Definition st_modify {S} (f : S -> S) : st S unit := fun s => Ok (tt, f s).
Definition st_fail {S A} (e : error) : st S A := fun _ => Err e.
Definition st_lift {S A} (r : result A) : st S A := fun s =>
  match r with Ok a => Ok (a, s) | Err e => Err e end.
(** A read of memory that is undefined behaviour where there is none. *)
Definition st_read {S A} (f : S -> option A) : st S A := fun s =>
  match f s with Some a => Ok (a, s) | None => Err Undefined end.

Lemma result_bind_ok {A B} (m : result A) (f : A -> result B) b :
  (m ≫= f) = Ok b <-> exists a, m = Ok a /\ f a = Ok b.
Proof.
  unfold mbind, result_bind. destruct m; split; [eauto|intros (? & [= ->] & ?); done|done|intros (? & ? & ?); done].
Qed.

Lemma st_bind_ok {S A B} (m : st S A) (f : A -> st S B) s b s' :
  (m ≫= f) s = Ok (b, s') <-> exists a s1, m s = Ok (a, s1) /\ f a s1 = Ok (b, s').
Proof.
  unfold mbind, st_bind. destruct (m s) as [[a s1]|e]; split;
    [eauto|intros (? & ? & [= -> ->] & ?); done|done|intros (? & ? & ? & ?); done].
Qed.

Lemma st_bind_run {S A B} (m : st S A) (f : A -> st S B) s a s1 :
  m s = Ok (a, s1) -> (m ≫= f) s = f a s1.
Proof. unfold mbind, st_bind. by intros ->. Qed.

Lemma st_bind_err {S A B} (m : st S A) (f : A -> st S B) s e :
  m s = Err e -> (m ≫= f) s = Err e.
Proof. unfold mbind, st_bind. by intros ->. Qed.

Lemma st_ret_bind {S A B} (a : A) (f : A -> st S B) s : (mret a ≫= f) s = f a s.
Proof. done. Qed.

Lemma st_bind_assoc {S A B C} (m : st S A) (f : A -> st S B) (g : B -> st S C) s :
  ((m ≫= f) ≫= g) s = (m ≫= fun a => f a ≫= g) s.
Proof. unfold mbind, st_bind. by destruct (m s) as [[a s1]|e]. Qed.

Lemma st_get_bind {S B} (f : S -> st S B) s : (st_get ≫= f) s = f s s.
Proof. done. Qed.
Lemma st_modify_bind {S B} (g : S -> S) (f : unit -> st S B) s : (st_modify g ≫= f) s = f tt (g s).
Proof. done. Qed.

(** Runs the next step of a sequence. *)
Ltac run_step L := rewrite (st_bind_run _ _ _ _ _ L).

(** Opens every bind of a successful run in the hypotheses. *)
Ltac st_inv :=
  repeat match goal with
  | H : mbind _ _ _ = Ok (_, _) |- _ => apply st_bind_ok in H as (? & ? & ? & H)
  | H : mret _ _ = Ok (_, _) |- _ => unfold mret, st_ret in H
  | H : st_ret _ _ _ _ = Ok (_, _) |- _ => unfold st_ret in H
  | H : st_get _ = Ok (_, _) |- _ => unfold st_get in H
  | H : st_modify _ _ = Ok (_, _) |- _ => unfold st_modify in H
  | H : st_put _ _ = Ok (_, _) |- _ => unfold st_put in H
  | H : st_fail _ _ = Ok (_, _) |- _ => unfold st_fail in H; discriminate H
  | H : Ok _ = Ok _ |- _ => injection H as ?; subst
  | H : Err _ = Ok _ |- _ => discriminate H
  end; simplify_eq/=.

(** ** Machine integers

    A [w]-bit unsigned integer is a [Z] between [0] and [2 ^ w]; [wrap w] is
    the conversion to it, [sint w] the conversion to the signed type of the
    same width. *)
Local Open Scope Z_scope.

Definition wrap (w z : Z) : Z := z mod 2 ^ w.
Definition sint (w z : Z) : Z :=
  let u := wrap w z in if u <? 2 ^ (w - 1) then u else u - 2 ^ w.
Definition is_uint (w z : Z) : Prop := 0 <= z < 2 ^ w.
Definition is_sint (w z : Z) : Prop := - 2 ^ (w - 1) <= z < 2 ^ (w - 1).

Create HintDb words.
Create Rewrite HintDb words.

Lemma wrap_range w z : 0 <= w -> is_uint w (wrap w z).
Proof. intros. apply Z.mod_pos_bound. lia. Qed.

Lemma wrap_small w z : is_uint w z -> wrap w z = z.
Proof. intros. by apply Z.mod_small. Qed.

Lemma wrap_wrap w z : 0 <= w -> wrap w (wrap w z) = wrap w z.
Proof. intros. apply wrap_small, wrap_range. lia. Qed.

Lemma pow2_split w : 0 < w -> 2 ^ w = 2 * 2 ^ (w - 1).
Proof. intros. rewrite <- Z.pow_succ_r by lia. f_equal. lia. Qed.

Lemma sint_range w z : 0 < w -> is_sint w (sint w z).
Proof.
  intros Hw. unfold sint, is_sint. pose proof (wrap_range w z ltac:(lia)) as H.
  unfold is_uint in H. rewrite (pow2_split w Hw) in *.
  destruct (Z.ltb_spec (wrap w z) (2 ^ (w - 1))); lia.
Qed.

Lemma wrap_sint w z : 0 < w -> wrap w (sint w z) = wrap w z.
Proof.
  intros Hw. unfold sint. destruct (_ <? _); [by apply wrap_wrap; lia|].
  unfold wrap. rewrite Zminus_mod_idemp_l.
  replace (z - 2 ^ w) with (z + (-1) * 2 ^ w) by lia. apply Z.mod_add. lia.
Qed.

Lemma sint_wrap w z : 0 <= w -> sint w (wrap w z) = sint w z.
Proof. intros. unfold sint. by rewrite wrap_wrap. Qed.

Lemma sint_small w z : 0 < w -> is_sint w z -> sint w z = z.
Proof.
  intros Hw H. unfold sint, is_sint in *. unfold wrap.
  destruct (Z.ltb_spec z 0) as [Hz|Hz].
  - rewrite (pow2_split w Hw) in *.
    rewrite <- (Z.mod_add z 1) by lia. rewrite Z.mod_small by lia.
    destruct (Z.ltb_spec (z + 1 * (2 * 2 ^ (w - 1))) (2 ^ (w - 1))); lia.
  - rewrite Z.mod_small by (rewrite (pow2_split w Hw); lia).
    destruct (Z.ltb_spec z (2 ^ (w - 1))); lia.
Qed.

Lemma sint_uint w z : 0 < w -> 0 <= z < 2 ^ (w - 1) -> sint w z = z.
Proof. intros. apply sint_small; unfold is_sint; lia. Qed.

Lemma sint_inj w a b : 0 < w -> sint w a = sint w b -> wrap w a = wrap w b.
Proof. intros Hw H. by rewrite <- (wrap_sint w a), <- (wrap_sint w b), H. Qed.

Lemma wrap_eq_sint w a b : wrap w a = wrap w b -> sint w a = sint w b.
Proof. intros H. unfold sint. by rewrite H. Qed.

Lemma wrap_add_l w a b : wrap w (wrap w a + b) = wrap w (a + b).
Proof. apply Zplus_mod_idemp_l. Qed.
Lemma wrap_add_r w a b : wrap w (a + wrap w b) = wrap w (a + b).
Proof. apply Zplus_mod_idemp_r. Qed.
Lemma wrap_sub_l w a b : wrap w (wrap w a - b) = wrap w (a - b).
Proof. apply Zminus_mod_idemp_l. Qed.
Lemma wrap_sub_r w a b : wrap w (a - wrap w b) = wrap w (a - b).
Proof. apply Zminus_mod_idemp_r. Qed.

Lemma wrap_wrap_le n w z : 0 <= n <= w -> wrap n (wrap w z) = wrap n z.
Proof.
  intros H. unfold wrap. apply Z.mod_mod_divide. exists (2 ^ (w - n)).
  rewrite <- Z.pow_add_r by lia. f_equal. lia.
Qed.

#[export] Hint Resolve wrap_range sint_range : words.
#[export] Hint Rewrite wrap_add_l wrap_add_r wrap_sub_l wrap_sub_r : words.

(** Putting a field below another one. *)
Lemma lor_shiftl_add x k b : 0 <= k -> 0 <= b < 2 ^ k -> Z.lor (Z.shiftl x k) b = x * 2 ^ k + b.
Proof.
  intros Hk Hb. rewrite <- Z.shiftl_mul_pow2 by lia.
  assert (Z.land (Z.shiftl x k) b = 0) as H0.
  { apply Z.bits_inj'. intros n Hn. rewrite Z.land_spec, Z.bits_0.
    destruct (Z.ltb_spec n k).
    - by rewrite Z.shiftl_spec_low by lia.
    - rewrite <- (Z.mod_small b (2 ^ k)) by lia. rewrite Z.mod_pow2_bits_high by lia. apply andb_false_r. }
  by rewrite <- (Z.lxor_lor _ _ H0), <- (Z.add_nocarry_lxor _ _ H0).
Qed.

(** Evaluates bit operations on constants. *)
Ltac is_Zcst r := lazymatch r with Z0 => idtac | Zpos _ => idtac | Zneg _ => idtac end.
Ltac bit_consts :=
  repeat match goal with
  | |- context [Z.land ?a ?b] =>
      let r := eval vm_compute in (Z.land a b) in is_Zcst r; change (Z.land a b) with r
  | H : context [Z.land ?a ?b] |- _ =>
      let r := eval vm_compute in (Z.land a b) in is_Zcst r; change (Z.land a b) with r in H
  | |- context [Z.lor ?a ?b] =>
      let r := eval vm_compute in (Z.lor a b) in is_Zcst r; change (Z.lor a b) with r
  | H : context [Z.lor ?a ?b] |- _ =>
      let r := eval vm_compute in (Z.lor a b) in is_Zcst r; change (Z.lor a b) with r in H
  end.

(** ** Bytes, little endian *)

Definition is_byte (b : Z) : Prop := 0 <= b < 256.
#[export] Instance is_byte_dec b : Decision (is_byte b).
Proof. unfold is_byte. apply _. Defined.

(** The [n] bytes of the memory image of an integer. *)
Fixpoint le_bytes (n : nat) (z : Z) : list Z :=
  match n with
  | O => []
  | S n => z mod 256 :: le_bytes n (z / 256)
  end.

(** The unsigned integer a memory image stands for. *)
Fixpoint le_Z (bs : list Z) : Z :=
  match bs with
  | [] => 0
  | b :: bs => b + 256 * le_Z bs
  end.

Lemma take_length_take {A} n (l : list A) : take (length (take n l)) l = take n l.
Proof.
  rewrite length_take. destruct (Nat.min_spec n (length l)) as [[_ ->]|[H ->]]; [done|]. by rewrite !take_ge by lia.
Qed.

Lemma length_le_bytes n z : length (le_bytes n z) = n.
Proof. revert z. induction n; intros; simpl; auto. Qed.

Lemma length_flat_map_le n l : length (flat_map (le_bytes n) l) = (n * length l)%nat.
Proof. induction l as [|x l IH]; cbn [flat_map length]; [lia|]. rewrite length_app, length_le_bytes, IH. lia. Qed.

Lemma le_bytes_is_byte n z : Forall is_byte (le_bytes n z).
Proof.
  revert z. induction n; intros z; simpl; constructor; auto.
  apply Z.mod_pos_bound. lia.
Qed.

Lemma pow2_bytes_succ n : 2 ^ (8 * Z.of_nat (S n)) = 256 * 2 ^ (8 * Z.of_nat n).
Proof.
  replace (8 * Z.of_nat (S n)) with (8 + 8 * Z.of_nat n) by lia.
  by rewrite Z.pow_add_r by lia.
Qed.

Lemma le_Z_bytes n z : le_Z (le_bytes n z) = wrap (8 * Z.of_nat n) z.
Proof.
  revert z. induction n as [|n IH]; intros z; cbn [le_bytes le_Z].
  - unfold wrap. by rewrite Z.mod_1_r.
  - rewrite IH. unfold wrap. rewrite pow2_bytes_succ, Z.rem_mul_r; lia.
Qed.

Lemma le_bytes_Z bs : Forall is_byte bs -> le_bytes (length bs) (le_Z bs) = bs.
Proof.
  induction 1 as [|b bs Hb Hbs IH]; [done|]. unfold is_byte in Hb. cbn [length le_bytes le_Z].
  rewrite (Z.mul_comm 256), Z.mod_add, Z.mod_small, Z.div_add, Z.div_small by lia.
  rewrite Z.add_0_l, IH. done.
Qed.

Lemma le_Z_range bs : Forall is_byte bs -> 0 <= le_Z bs < 2 ^ (8 * Z.of_nat (length bs)).
Proof.
  intros H. pose proof (le_Z_bytes (length bs) (le_Z bs)) as E.
  rewrite (le_bytes_Z bs H) in E. rewrite E. apply wrap_range. lia.
Qed.

Lemma le_bytes_wrap n z : le_bytes n (wrap (8 * Z.of_nat n) z) = le_bytes n z.
Proof.
  rewrite <- le_Z_bytes. pose proof (le_bytes_Z _ (le_bytes_is_byte n z)) as H.
  by rewrite length_le_bytes in H.
Qed.

Lemma le_bytes_eq n a b : wrap (8 * Z.of_nat n) a = wrap (8 * Z.of_nat n) b -> le_bytes n a = le_bytes n b.
Proof. intros H. by rewrite <- (le_bytes_wrap n a), <- (le_bytes_wrap n b), H. Qed.

(** Two fields of whole bytes in one word. *)
Lemma le_bytes_join n m a b :
  is_uint (8 * Z.of_nat n) a -> le_bytes (n + m) (a + b * 2 ^ (8 * Z.of_nat n)) = le_bytes n a ++ le_bytes m b.
Proof.
  revert a. unfold is_uint. induction n as [|n IH]; intros a Ha.
  { change (2 ^ (8 * Z.of_nat 0)) with 1 in *. simpl. f_equal. lia. }
  rewrite pow2_bytes_succ in *. set (P := 2 ^ (8 * Z.of_nat n)) in *.
  replace (a + b * (256 * P)) with (a + b * P * 256) by lia. simpl.
  rewrite Z.mod_add, Z.div_add by done. f_equal. apply IH.
  split; [apply Z.div_pos; lia|apply Z.div_lt_upper_bound; lia].
Qed.

(** ** Arrays

    A block of memory is a list of bytes (or of words); an access out of its
    bounds has no value. *)

(** The [n] elements from index [i] on. *)
Definition read_at {A} (buf : list A) (i : Z) (n : nat) : option (list A) :=
  if (0 <=? i) && (i + Z.of_nat n <=? Z.of_nat (length buf))
  then Some (take n (drop (Z.to_nat i) buf)) else None.

(** Overwrites the elements from index [i] on. *)
Definition write_at {A} (buf : list A) (i : Z) (bs : list A) : option (list A) :=
  if (0 <=? i) && (i + Z.of_nat (length bs) <=? Z.of_nat (length buf))
  then Some (take (Z.to_nat i) buf ++ bs ++ drop (Z.to_nat i + length bs) buf) else None.

(** [bs] stands in [buf] from index [i] on. *)
Definition seg_at {A} (buf : list A) (i : Z) (bs : list A) : Prop :=
  read_at buf i (length bs) = Some bs.

Lemma read_at_length {A} (buf : list A) i n bs : read_at buf i n = Some bs -> length bs = n.
Proof.
  unfold read_at. destruct (_ && _) eqn:E; [|done]. intros [= <-].
  rewrite length_take, length_drop. lia.
Qed.

Lemma read_at_app_r {A} (pre bs post : list A) :
  read_at (pre ++ bs ++ post) (Z.of_nat (length pre)) (length bs) = Some bs.
Proof.
  unfold read_at. rewrite !length_app.
  destruct (_ && _) eqn:E; [|exfalso; lia]. f_equal.
  rewrite Nat2Z.id, drop_app_length, take_app_length. done.
Qed.

Lemma write_at_length {A} (buf : list A) i bs buf' :
  write_at buf i bs = Some buf' -> length buf' = length buf.
Proof.
  unfold write_at. destruct (_ && _) eqn:E; [|done]. intros [= <-].
  rewrite !length_app, length_take, length_drop. lia.
Qed.

Lemma write_at_some {A} (buf : list A) i bs :
  0 <= i -> i + Z.of_nat (length bs) <= Z.of_nat (length buf) -> is_Some (write_at buf i bs).
Proof. intros. unfold write_at. destruct (_ && _) eqn:E; [eauto|exfalso; lia]. Qed.

Lemma write_at_seg {A} (buf : list A) i bs buf' :
  write_at buf i bs = Some buf' -> seg_at buf' i bs.
Proof.
  unfold write_at, seg_at. destruct (_ && _) eqn:E; [|done]. intros [= <-].
  assert (i = Z.of_nat (length (take (Z.to_nat i) buf))) as Hi.
  { rewrite length_take. lia. }
  rewrite Hi at 3. apply read_at_app_r.
Qed.

Lemma write_at_read_other {A} (buf : list A) i bs buf' j n :
  write_at buf i bs = Some buf' ->
  j + Z.of_nat n <= i \/ i + Z.of_nat (length bs) <= j ->
  read_at buf' j n = read_at buf j n.
Proof.
  intros Hw Hd. pose proof (write_at_length _ _ _ _ Hw) as Hl.
  unfold read_at. rewrite Hl. destruct (_ && _) eqn:E; [|done]. f_equal.
  unfold write_at in Hw. destruct (_ && _) eqn:E'; [|done]. injection Hw as <-.
  apply list_eq. intros k. destruct (decide (k < n)%nat) as [Hk|Hk].
  2:{ rewrite !lookup_take_ge by lia. done. }
  rewrite !lookup_take_lt by lia. rewrite !lookup_drop.
  destruct Hd as [Hd|Hd].
  - rewrite lookup_app_l by (rewrite length_take; lia). apply lookup_take_lt. lia.
  - rewrite lookup_app_r by (rewrite length_take; lia).
    rewrite length_take. rewrite lookup_app_r by lia. rewrite lookup_drop. f_equal. lia.
Qed.

Lemma write_at_seg_other {A} (buf : list A) i bs buf' j bs' :
  write_at buf i bs = Some buf' ->
  j + Z.of_nat (length bs') <= i \/ i + Z.of_nat (length bs) <= j ->
  seg_at buf j bs' -> seg_at buf' j bs'.
Proof. intros Hw Hd. unfold seg_at. by rewrite (write_at_read_other _ _ _ _ _ _ Hw Hd). Qed.

Lemma read_at_split {A} (buf : list A) i n m bs :
  read_at buf i (n + m) = Some bs <->
  exists b1 b2, bs = b1 ++ b2 /\ read_at buf i n = Some b1 /\ read_at buf (i + Z.of_nat n) m = Some b2.
Proof.
  assert (Hd : 0 <= i -> drop (Z.to_nat (i + Z.of_nat n)) buf = drop n (drop (Z.to_nat i) buf)).
  { intros. rewrite drop_drop. f_equal. lia. }
  unfold read_at. split.
  - destruct (_ && _) eqn:E; [|done]. intros [= <-]. rewrite Hd by lia.
    exists (take n (drop (Z.to_nat i) buf)), (take m (drop n (drop (Z.to_nat i) buf))).
    split; [by rewrite take_take_drop|].
    split; case_match; try done; exfalso; lia.
  - intros (b1 & b2 & -> & H1 & H2).
    destruct (_ && _) eqn:E1 in H1; [|done]. destruct (_ && _) eqn:E2 in H2; [|done].
    rewrite Hd in H2 by lia. injection H1 as <-. injection H2 as <-.
    case_match; [|exfalso; lia]. by rewrite take_take_drop.
Qed.

Lemma seg_at_app {A} (buf : list A) i b1 b2 :
  seg_at buf i (b1 ++ b2) <-> seg_at buf i b1 /\ seg_at buf (i + Z.of_nat (length b1)) b2.
Proof.
  unfold seg_at. rewrite length_app, read_at_split. split.
  - intros (c1 & c2 & Heq & H1 & H2). apply app_inj_1 in Heq as [-> ->]; [done|].
    by apply read_at_length in H1.
  - intros [H1 H2]. eauto.
Qed.

Lemma seg_at_read {A} (buf : list A) i n bs : read_at buf i n = Some bs -> seg_at buf i bs.
Proof. intros H. unfold seg_at. by rewrite (read_at_length _ _ _ _ H). Qed.

Lemma seg_at_prefix {A} (buf : list A) b1 b2 :
  seg_at buf 0 b1 -> seg_at buf (Z.of_nat (length b1)) b2 -> seg_at buf 0 (b1 ++ b2).
Proof. intros. by apply seg_at_app. Qed.

Lemma seg_at_Forall {A} (P : A -> Prop) buf i bs : Forall P buf -> seg_at buf i bs -> Forall P bs.
Proof.
  intros HP. unfold seg_at, read_at. destruct (_ && _); [|done]. intros [= <-].
  by apply Forall_take, Forall_drop.
Qed.

Lemma seg_at_1 {A} (buf : list A) o b : 0 <= o -> buf !! Z.to_nat o = Some b -> seg_at buf o [b].
Proof.
  intros H0 H. pose proof (lookup_lt_Some _ _ _ H). unfold seg_at, read_at. simpl.
  destruct (_ && _) eqn:E; [|exfalso; lia]. by rewrite (drop_S _ _ _ H).
Qed.

Lemma seg_at_all {A} (buf bs : list A) : seg_at buf 0 bs -> length bs = length buf -> bs = buf.
Proof.
  unfold seg_at, read_at. intros H Hl. destruct (_ && _); [|done]. injection H as <-.
  rewrite Hl. by rewrite drop_0, firstn_all.
Qed.

Lemma seg_at_nil {A} (buf : list A) i : 0 <= i <= Z.of_nat (length buf) -> seg_at buf i [].
Proof. intros H. unfold seg_at, read_at. simpl. destruct (_ && _) eqn:E; [done|exfalso; lia]. Qed.

(** ** Loops *)

(** A [for] loop over a list, with an accumulator. *)
Fixpoint st_fold {S A B} (f : B -> A -> st S A) (l : list B) (a : A) : st S A :=
  match l with
  | [] => mret a
  | b :: l => a' ← f b a; st_fold f l a'
  end.

Lemma st_fold_app {S A B} (f : B -> A -> st S A) l1 l2 a s :
  st_fold f (l1 ++ l2) a s = (st_fold f l1 a ≫= st_fold f l2) s.
Proof.
  revert a s. induction l1 as [|b l1 IH]; intros a s; [done|]. simpl.
  unfold mbind, st_bind. destruct (f b a s) as [[a' s']|e]; [apply IH|done].
Qed.

(** Invariant rule for a loop that ends normally. *)
Lemma st_fold_inv {S A B} (f : B -> A -> st S A) (I : list B -> A -> S -> Prop) :
  (forall b done a s a' s', I done a s -> f b a s = Ok (a', s') -> I (done ++ [b]) a' s') ->
  forall l done a s a' s', I done a s -> st_fold f l a s = Ok (a', s') -> I (done ++ l) a' s'.
Proof.
  intros Hstep l. induction l as [|b l IH]; intros don a s a' s' HI H; simpl in H.
  - unfold mret, st_ret in H. simplify_eq. by rewrite app_nil_r.
  - apply st_bind_ok in H as (a1 & s1 & H1 & H2).
    replace (don ++ b :: l) with ((don ++ [b]) ++ l) by (by rewrite <- app_assoc). eapply IH; eauto.
Qed.

(** ** Parts of the state a computation leaves alone *)

Definition preserves {S X A} (R : S -> X) (m : st S A) : Prop :=
  forall s a s', m s = Ok (a, s') -> R s' = R s.

Section preserves.
Context {S X : Type} (R : S -> X).

Lemma preserves_ret {A} (a : A) : preserves R (mret a).
Proof. by intros s a' s' [= <- <-]. Qed.
Lemma preserves_bind {A B} (m : st S A) (f : A -> st S B) :
  preserves R m -> (forall a, preserves R (f a)) -> preserves R (m ≫= f).
Proof.
  intros Hm Hf s b s' H. apply st_bind_ok in H as (a & s1 & H1 & H2).
  by rewrite (Hf _ _ _ _ H2), (Hm _ _ _ H1).
Qed.
Lemma preserves_get : preserves R st_get.
Proof. by intros s a s' [= <- <-]. Qed.
Lemma preserves_read {A} (f : S -> option A) : preserves R (st_read f).
Proof. intros s a s'. unfold st_read. destruct (f s); [|done]. by intros [= <- <-]. Qed.
Lemma preserves_fail {A} e : preserves R (@st_fail S A e).
Proof. by intros s a s'. Qed.
Lemma preserves_lift {A} (r : result A) : preserves R (st_lift r).
Proof. intros s a s'. unfold st_lift. destruct r; [|done]. by intros [= <- <-]. Qed.
Lemma preserves_modify f : (forall s, R (f s) = R s) -> preserves R (st_modify f).
Proof. intros H s a s' [= <- <-]. apply H. Qed.
Lemma preserves_fold {A B} (f : B -> A -> st S A) l :
  (forall b a, preserves R (f b a)) -> forall a, preserves R (st_fold f l a).
Proof.
  intros Hf. induction l as [|b l IH]; intros a; [apply preserves_ret|].
  apply preserves_bind; [apply Hf|apply IH].
Qed.
End preserves.

Create HintDb preserves.
#[export] Hint Resolve preserves_ret preserves_get preserves_read preserves_fail preserves_lift : preserves.

(** Walks through the binds and branches of a computation. *)
Ltac preserve :=
  repeat first
    [ progress intros
    | solve [eauto with preserves]
    | progress simplify_eq/=
    | apply preserves_bind
    | apply preserves_fold
    | case_match ].

(** ** Ordered maps *)

(** A [std::map] is traversed in the order of its keys. *)
Definition key_le {A} (x y : Z * A) : Prop := fst x <= fst y.
#[export] Instance key_le_dec {A} (x y : Z * A) : Decision (key_le x y).
Proof. unfold key_le. apply _. Defined.
Definition map_items {A} (m : gmap Z A) : list (Z * A) := merge_sort key_le (map_to_list m).

Lemma map_items_perm {A} (m : gmap Z A) : Permutation (map_items m) (map_to_list m).
Proof. apply merge_sort_Permutation. Qed.

(** ** Reading a sequence of bytes from its front *)

Definition take_bytes (n : nat) (bytes : list Z) : option (list Z * list Z) :=
  if (n <=? length bytes)%nat then Some (take n bytes, drop n bytes) else None.

Lemma take_bytes_app n l rest : length l = n -> take_bytes n (l ++ rest) = Some (l, rest).
Proof.
  intros <-. unfold take_bytes. destruct (Nat.leb_spec (length l) (length (l ++ rest))) as [_|H].
  - by rewrite take_app_length, drop_app_length.
  - rewrite length_app in H. lia.
Qed.
