(* ===== verification/CorHdr.v ===== *)
(** * Constants of the runtime's metadata

    Enumerators of [coreclr/inc/corhdr.h] that both profilers use: the element
    types of signatures and the calling convention of the probes. *)

From S2P Require Import Prelude.
Local Open Scope Z_scope.

Definition ELEMENT_TYPE_VOID : Z := 0x1.
Definition ELEMENT_TYPE_BOOLEAN : Z := 0x2.
Definition ELEMENT_TYPE_CHAR : Z := 0x3.
Definition ELEMENT_TYPE_I1 : Z := 0x4.
Definition ELEMENT_TYPE_U1 : Z := 0x5.
Definition ELEMENT_TYPE_I2 : Z := 0x6.
Definition ELEMENT_TYPE_U2 : Z := 0x7.
Definition ELEMENT_TYPE_I4 : Z := 0x8.
Definition ELEMENT_TYPE_U4 : Z := 0x9.
Definition ELEMENT_TYPE_I8 : Z := 0xa.
Definition ELEMENT_TYPE_U8 : Z := 0xb.
Definition ELEMENT_TYPE_R4 : Z := 0xc.
Definition ELEMENT_TYPE_R8 : Z := 0xd.
Definition ELEMENT_TYPE_PTR : Z := 0xf.
Definition ELEMENT_TYPE_I : Z := 0x18.
Definition ELEMENT_TYPE_U : Z := 0x19.

Definition IMAGE_CEE_CS_CALLCONV_STDCALL : Z := 0x2.
