(* ===== verification/SigParse.v ===== *)
(** * The metadata signature parser

    [sigparse.h]: a recursive-descent parser of the runtime's signature blobs.
    A client derives from [SigParser] and overrides the [Notify...] methods; the
    model keeps the sequence of notifications.  A method of the parser returns a
    [bool] and fills an out parameter: here it returns an [option].

    The pointers [pbCur] and [pbEnd] are offsets from [pbBase]; [pbBase] is the
    memory from the blob on, which reaches beyond [pbEnd] when the blob stands
    in a larger block.  A read of memory that is not there is undefined
    behaviour.

    SigGrammar.v gives the grammar of the header's comment and shows that the
    parser reads it. *)

From S2P Require Import Prelude.
Local Open Scope Z_scope.

(** ** Constants *)

Definition ELEMENT_TYPE_VOID : Z := 0x01.
Definition ELEMENT_TYPE_BOOLEAN : Z := 0x02.
Definition ELEMENT_TYPE_CHAR : Z := 0x03.
Definition ELEMENT_TYPE_I1 : Z := 0x04.
Definition ELEMENT_TYPE_U1 : Z := 0x05.
Definition ELEMENT_TYPE_I2 : Z := 0x06.
Definition ELEMENT_TYPE_U2 : Z := 0x07.
Definition ELEMENT_TYPE_I4 : Z := 0x08.
Definition ELEMENT_TYPE_U4 : Z := 0x09.
Definition ELEMENT_TYPE_I8 : Z := 0x0a.
Definition ELEMENT_TYPE_U8 : Z := 0x0b.
Definition ELEMENT_TYPE_R4 : Z := 0x0c.
Definition ELEMENT_TYPE_R8 : Z := 0x0d.
Definition ELEMENT_TYPE_STRING : Z := 0x0e.
Definition ELEMENT_TYPE_PTR : Z := 0x0f.
Definition ELEMENT_TYPE_BYREF : Z := 0x10.
Definition ELEMENT_TYPE_VALUETYPE : Z := 0x11.
Definition ELEMENT_TYPE_CLASS : Z := 0x12.
Definition ELEMENT_TYPE_VAR : Z := 0x13.
Definition ELEMENT_TYPE_ARRAY : Z := 0x14.
Definition ELEMENT_TYPE_GENERICINST : Z := 0x15.
Definition ELEMENT_TYPE_TYPEDBYREF : Z := 0x16.
Definition ELEMENT_TYPE_I : Z := 0x18.
Definition ELEMENT_TYPE_U : Z := 0x19.
Definition ELEMENT_TYPE_FNPTR : Z := 0x1b.
Definition ELEMENT_TYPE_OBJECT : Z := 0x1c.
Definition ELEMENT_TYPE_SZARRAY : Z := 0x1d.
Definition ELEMENT_TYPE_MVAR : Z := 0x1e.
Definition ELEMENT_TYPE_CMOD_REQD : Z := 0x1f.
Definition ELEMENT_TYPE_CMOD_OPT : Z := 0x20.
Definition ELEMENT_TYPE_SENTINEL : Z := 0x41.
Definition ELEMENT_TYPE_PINNED : Z := 0x45.

Definition SIG_METHOD_VARARG : Z := 0x5.
Definition SIG_FIELD : Z := 0x6.
Definition SIG_LOCAL_SIG : Z := 0x7.
Definition SIG_PROPERTY : Z := 0x8.
Definition SIG_GENERIC : Z := 0x10.

(** ** State *)

(** The notifications, one constructor per virtual method. *)
Inductive event :=
  | NotifyBeginMethod (elem_type : Z)
  | NotifyEndMethod
  | NotifyParamCount (n : Z)
  | NotifyBeginRetType
  | NotifyEndRetType
  | NotifyBeginParam
  | NotifyEndParam
  | NotifySentinal
  | NotifyGenericParamCount (n : Z)
  | NotifyBeginField (elem_type : Z)
  | NotifyEndField
  | NotifyBeginLocals (elem_type : Z)
  | NotifyEndLocals
  | NotifyLocalsCount (n : Z)
  | NotifyBeginLocal
  | NotifyEndLocal
  | NotifyConstraint (elem_type : Z)
  | NotifyBeginProperty (elem_type : Z)
  | NotifyEndProperty
  | NotifyBeginArrayShape
  | NotifyEndArrayShape
  | NotifyRank (n : Z)
  | NotifyNumSizes (n : Z)
  | NotifySize (n : Z)
  | NotifyNumLoBounds (n : Z)
  | NotifyLoBound (n : Z)
  | NotifyBeginType
  | NotifyEndType
  | NotifyTypedByref
  | NotifyByref
  | NotifyVoid
  | NotifyCustomMod (cmod token : Z)
  | NotifyTypeSimple (elem_type : Z)
  | NotifyTypeDefOrRef (token : Z)
  | NotifyTypeGenericInst (elem_type token number : Z)
  | NotifyTypeGenericTypeVariable (number : Z)
  | NotifyTypeGenericMemberVariable (number : Z)
  | NotifyTypeValueType
  | NotifyTypeClass
  | NotifyTypePointer
  | NotifyTypeFunctionPointer
  | NotifyTypeArray
  | NotifyTypeSzArray.

Record SigParser := mkSigParser {
  pbBase : list Z;
  pbCur : nat;
  pbEnd : nat;
  notified : list event
}.

(** The parser [n] bytes further, after some notifications. *)
Definition adv (n : nat) (ev : list event) (s : SigParser) : SigParser :=
  mkSigParser (pbBase s) (pbCur s + n) (pbEnd s) (notified s ++ ev).

(** A method of the parser: [None] for [return false]. *)
Definition sp (A : Type) : Type := st SigParser (option A).
Definition sp_ret {A} (a : A) : sp A := fun s => Ok (Some a, s).
Definition sp_false {A} : sp A := fun s => Ok (None, s).
(** [if (!m) return false;] before the rest. *)
Definition sp_bind {A B} (m : sp A) (k : A -> sp B) : sp B := fun s =>
  match m s with
  | Ok (Some a, s') => k a s'
  | Ok (None, s') => Ok (None, s')
  | Err e => Err e
  end.
Notation "x <~ m ;; k" := (sp_bind m (fun x => k))
  (at level 100, m at next level, k at level 200, right associativity).
Notation "m ;;~ k" := (sp_bind m (fun _ => k)) (at level 100, k at level 200, right associativity).

Definition Notify (e : event) : sp unit := fun s => Ok (Some tt, adv 0 [e] s).
(** [*pbCur] and [pbCur++]. *)
Definition deref : sp Z := fun s =>
  match pbBase s !! pbCur s with Some b => Ok (Some b, s) | None => Err Undefined end.
Definition skip : sp unit := fun s => Ok (Some tt, adv 1 [] s).
(** [pbCur >= pbEnd] *)
Definition at_end : sp bool := fun s => Ok (Some (pbEnd s <=? pbCur s)%nat, s).
Definition out_of_fuel {A} : sp A := st_fail OutOfFuel.

(** [for (i = 0; i < n; i++) if (!body) return false;] *)
Fixpoint times (fuel : nat) (n : Z) (body : sp unit) : sp unit :=
  match fuel with
  | O => out_of_fuel
  | S fuel => if n <=? 0 then sp_ret tt else body ;;~ times fuel (n - 1) body
  end.

(** ** Bytes, numbers and tokens *)

Definition ParseByte : sp Z :=
  e <~ at_end ;; if e then sp_false else b <~ deref ;; skip ;;~ sp_ret b.

Definition ParseNumber : sp Z :=
  b1 <~ ParseByte ;;
  if b1 =? 0xff then sp_false else
  if Z.land b1 0x80 =? 0 then sp_ret b1 else
  b2 <~ ParseByte ;;
  if Z.land b1 0x40 =? 0 then sp_ret (Z.lor (Z.shiftl (Z.land b1 0x3f) 8) b2) else
  if negb (Z.land b1 0x20 =? 0) then sp_false else
  b3 <~ ParseByte ;;
  b4 <~ ParseByte ;;
  sp_ret (Z.lor (Z.lor (Z.lor (Z.shiftl (Z.land b1 0x1f) 24) (Z.shiftl b2 16)) (Z.shiftl b3 8)) b4).

(** [*pData++] of the runtime's header, which does not know [pbEnd]. *)
Definition next : sp Z := b <~ deref ;; skip ;;~ sp_ret b.

Definition CorSigUncompressBigData : sp Z :=
  b <~ deref ;;
  if Z.land b 0xC0 =? 0x80 then
    b1 <~ next ;; b2 <~ next ;;
    sp_ret (Z.lor (Z.shiftl (Z.land b1 0x3f) 8) b2)
  else
    b1 <~ next ;; b2 <~ next ;; b3 <~ next ;; b4 <~ next ;;
    sp_ret (Z.lor (Z.lor (Z.lor (Z.shiftl (Z.land b1 0x1f) 24) (Z.shiftl b2 16)) (Z.shiftl b3 8)) b4).

Definition CorSigUncompressData : sp Z :=
  b <~ deref ;; if Z.land b 0x80 =? 0 then next else CorSigUncompressBigData.

Definition mdtTypeRef : Z := 0x01000000.
Definition mdtTypeDef : Z := 0x02000000.
Definition mdtTypeSpec : Z := 0x1b000000.
Definition mdtBaseType : Z := 0x72000000.

(** The argument is masked with 3. *)
Definition CorSigDecodeTokenType (encoded : Z) : Z :=
  nth (Z.to_nat encoded) [mdtTypeDef; mdtTypeRef; mdtTypeSpec; mdtBaseType] 0.
Definition TokenFromRid (rid tktype : Z) : Z := Z.lor rid tktype.

Definition CorSigUncompressToken : sp Z :=
  tk <~ CorSigUncompressData ;;
  sp_ret (TokenFromRid (Z.shiftr tk 2) (CorSigDecodeTokenType (Z.land tk 0x3))).

Definition ParseTypeDefOrRefEncoded : sp Z := CorSigUncompressToken.

(** ** Custom modifiers and array shapes *)

Definition is_cmod (b : Z) : bool := (b =? ELEMENT_TYPE_CMOD_OPT) || (b =? ELEMENT_TYPE_CMOD_REQD).

Definition ParseCustomMod : sp unit :=
  cmod <~ ParseByte ;;
  if is_cmod cmod then
    token <~ ParseTypeDefOrRefEncoded ;; Notify (NotifyCustomMod cmod token)
  else sp_false.

Fixpoint ParseOptionalCustomMods (fuel : nat) : sp unit :=
  match fuel with
  | O => out_of_fuel
  | S fuel =>
      e <~ at_end ;; if e then sp_ret tt else
      b <~ deref ;;
      if is_cmod b then ParseCustomMod ;;~ ParseOptionalCustomMods fuel else sp_ret tt
  end.

Fixpoint ParseOptionalCustomModsOrConstraint (fuel : nat) : sp unit :=
  match fuel with
  | O => out_of_fuel
  | S fuel =>
      e <~ at_end ;; if e then sp_ret tt else
      b <~ deref ;;
      if is_cmod b then ParseCustomMod ;;~ ParseOptionalCustomModsOrConstraint fuel else
      if b =? ELEMENT_TYPE_PINNED then
        Notify (NotifyConstraint b) ;;~ skip ;;~ ParseOptionalCustomModsOrConstraint fuel
      else sp_ret tt
  end.

Definition ParseArrayShape (fuel : nat) : sp unit :=
  Notify NotifyBeginArrayShape ;;~
  rank <~ ParseNumber ;; Notify (NotifyRank rank) ;;~
  numsizes <~ ParseNumber ;; Notify (NotifyNumSizes numsizes) ;;~
  times fuel numsizes (size <~ ParseNumber ;; Notify (NotifySize size)) ;;~
  numlobounds <~ ParseNumber ;; Notify (NotifyNumLoBounds numlobounds) ;;~
  times fuel numlobounds (size <~ ParseNumber ;; Notify (NotifyLoBound size)) ;;~
  Notify NotifyEndArrayShape.

(** ** Types and methods, which refer to each other *)

(** The optional [BYREF] before a type. *)
Definition byref_type (b : Z) (ParseType : sp unit) : sp unit :=
  (if b =? ELEMENT_TYPE_BYREF then Notify NotifyByref ;;~ skip else sp_ret tt) ;;~ ParseType.

Section Nested.
Variable fuel : nat.
Variable ParseType : sp unit.

Definition ParseParam : sp unit :=
  Notify NotifyBeginParam ;;~
  ParseOptionalCustomMods fuel ;;~
  e <~ at_end ;; if e then sp_false else
  b <~ deref ;;
  (if b =? ELEMENT_TYPE_TYPEDBYREF then Notify NotifyTypedByref ;;~ skip
   else byref_type b ParseType) ;;~
  Notify NotifyEndParam.

Definition ParseRetType : sp unit :=
  Notify NotifyBeginRetType ;;~
  ParseOptionalCustomMods fuel ;;~
  e <~ at_end ;; if e then sp_false else
  b <~ deref ;;
  (if b =? ELEMENT_TYPE_TYPEDBYREF then Notify NotifyTypedByref ;;~ skip else
   if b =? ELEMENT_TYPE_VOID then Notify NotifyVoid ;;~ skip else
   byref_type b ParseType) ;;~
  Notify NotifyEndRetType.

(** The loop of [ParseMethod] over the parameters; [seen] is [fEncounteredSentinal]. *)
Fixpoint method_params (k : nat) (n : Z) (seen : bool) : sp unit :=
  match k with
  | O => out_of_fuel
  | S k =>
      if n <=? 0 then sp_ret tt else
      e <~ at_end ;; if e then sp_false else
      b <~ deref ;;
      if b =? ELEMENT_TYPE_SENTINEL then
        if seen then sp_false else
        Notify NotifySentinal ;;~ skip ;;~ ParseParam ;;~ method_params k (n - 1) true
      else ParseParam ;;~ method_params k (n - 1) seen
  end.

Definition ParseMethod (elem_type : Z) : sp unit :=
  Notify (NotifyBeginMethod elem_type) ;;~
  (if Z.land elem_type SIG_GENERIC =? 0 then sp_ret tt else
     gen_param_count <~ ParseNumber ;; Notify (NotifyGenericParamCount gen_param_count)) ;;~
  param_count <~ ParseNumber ;; Notify (NotifyParamCount param_count) ;;~
  ParseRetType ;;~
  method_params fuel param_count false ;;~
  Notify NotifyEndMethod.

Definition simple_types : list Z :=
  [ELEMENT_TYPE_BOOLEAN; ELEMENT_TYPE_CHAR; ELEMENT_TYPE_I1; ELEMENT_TYPE_U1; ELEMENT_TYPE_U2;
   ELEMENT_TYPE_I2; ELEMENT_TYPE_I4; ELEMENT_TYPE_U4; ELEMENT_TYPE_I8; ELEMENT_TYPE_U8;
   ELEMENT_TYPE_R4; ELEMENT_TYPE_R8; ELEMENT_TYPE_I; ELEMENT_TYPE_U; ELEMENT_TYPE_STRING;
   ELEMENT_TYPE_OBJECT].
Definition is_simple (b : Z) : bool := bool_decide (b ∈ simple_types).

(** The [switch] of [ParseType]; an element type without a case is passed over. *)
Definition type_body (elem_type : Z) : sp unit :=
  if is_simple elem_type then Notify (NotifyTypeSimple elem_type) else
  if elem_type =? ELEMENT_TYPE_PTR then
    Notify NotifyTypePointer ;;~
    ParseOptionalCustomMods fuel ;;~
    e <~ at_end ;; if e then sp_false else
    b <~ deref ;;
    if b =? ELEMENT_TYPE_VOID then skip ;;~ Notify NotifyVoid else ParseType
  else if elem_type =? ELEMENT_TYPE_CLASS then
    Notify NotifyTypeClass ;;~
    token <~ ParseTypeDefOrRefEncoded ;; Notify (NotifyTypeDefOrRef token)
  else if elem_type =? ELEMENT_TYPE_VALUETYPE then
    Notify NotifyTypeValueType ;;~
    token <~ ParseTypeDefOrRefEncoded ;; Notify (NotifyTypeDefOrRef token)
  else if elem_type =? ELEMENT_TYPE_FNPTR then
    Notify NotifyTypeFunctionPointer ;;~
    c <~ ParseByte ;; ParseMethod c
  else if elem_type =? ELEMENT_TYPE_ARRAY then
    Notify NotifyTypeArray ;;~ ParseType ;;~ ParseArrayShape fuel
  else if elem_type =? ELEMENT_TYPE_SZARRAY then
    Notify NotifyTypeSzArray ;;~ ParseOptionalCustomMods fuel ;;~ ParseType
  else if elem_type =? ELEMENT_TYPE_GENERICINST then
    c <~ ParseByte ;;
    if negb (c =? ELEMENT_TYPE_CLASS) && negb (c =? ELEMENT_TYPE_VALUETYPE) then sp_false else
    token <~ ParseTypeDefOrRefEncoded ;;
    number <~ ParseNumber ;;
    Notify (NotifyTypeGenericInst c token number) ;;~
    times fuel number ParseType
  else if elem_type =? ELEMENT_TYPE_VAR then
    number <~ ParseNumber ;; Notify (NotifyTypeGenericTypeVariable number)
  else if elem_type =? ELEMENT_TYPE_MVAR then
    number <~ ParseNumber ;; Notify (NotifyTypeGenericMemberVariable number)
  else sp_ret tt.
End Nested.

Fixpoint ParseType (fuel : nat) : sp unit :=
  match fuel with
  | O => out_of_fuel
  | S fuel =>
      Notify NotifyBeginType ;;~
      elem_type <~ ParseByte ;;
      type_body fuel (ParseType fuel) elem_type ;;~
      Notify NotifyEndType
  end.

(** ** The kinds of signature *)

Definition ParseField (fuel : nat) (elem_type : Z) : sp unit :=
  Notify (NotifyBeginField elem_type) ;;~
  ParseOptionalCustomMods fuel ;;~ ParseType fuel ;;~
  Notify NotifyEndField.

Definition ParseProperty (fuel : nat) (elem_type : Z) : sp unit :=
  Notify (NotifyBeginProperty elem_type) ;;~
  param_count <~ ParseNumber ;; Notify (NotifyParamCount param_count) ;;~
  ParseOptionalCustomMods fuel ;;~ ParseType fuel ;;~
  times fuel param_count (ParseParam fuel (ParseType fuel)) ;;~
  Notify NotifyEndProperty.

Definition ParseLocal (fuel : nat) : sp unit :=
  Notify NotifyBeginLocal ;;~
  e <~ at_end ;; if e then sp_false else
  b <~ deref ;;
  (if b =? ELEMENT_TYPE_TYPEDBYREF then Notify NotifyTypedByref ;;~ skip else
   ParseOptionalCustomModsOrConstraint fuel ;;~
   e <~ at_end ;; if e then sp_false else
   b <~ deref ;; byref_type b (ParseType fuel)) ;;~
  Notify NotifyEndLocal.

Definition ParseLocals (fuel : nat) (elem_type : Z) : sp unit :=
  Notify (NotifyBeginLocals elem_type) ;;~
  local_count <~ ParseNumber ;; Notify (NotifyLocalsCount local_count) ;;~
  times fuel local_count (ParseLocal fuel) ;;~
  Notify NotifyEndLocals.

Definition parse_signature (fuel : nat) : sp unit :=
  elem_type <~ ParseByte ;;
  let kind := Z.land elem_type 0xf in
  if kind <=? SIG_METHOD_VARARG then ParseMethod fuel (ParseType fuel) elem_type else
  if kind =? SIG_FIELD then ParseField fuel elem_type else
  if kind =? SIG_LOCAL_SIG then ParseLocals fuel elem_type else
  if kind =? SIG_PROPERTY then ParseProperty fuel elem_type else
  sp_false.

(** [Parse(pb, cbBuffer)], with the memory from [pb] on. *)
Definition Parse (pb : list Z) (cbBuffer : nat) : result (option unit * SigParser) :=
  parse_signature (cbBuffer + 2) (mkSigParser pb 0 cbBuffer []).
