(* ===== verification/SigGrammar.v ===== *)
(** * The grammar of metadata signatures and the parser's correctness

    The productions of the comment at the top of [sigparse.h] as inductive
    relations between bytes and notifications, and the parser of SigParse.v
    against them: completeness ([parses], what a method reads wherever the bytes
    of a phrase stand), soundness and termination together ([sound]), and what
    the parser accepts beyond the grammar. *)

From S2P Require Import Prelude SigParse.
Local Open Scope Z_scope.
Local Ltac Zify.zify_post_hook ::= Z.div_mod_to_equations.

(** ** The writer of the runtime's header *)

Definition BYTE (z : Z) : Z := wrap 8 z.

(** The bytes written, [None] for the result [-1]. *)
Definition CorSigCompressData (iLen : Z) : option (list Z) :=
  if iLen <=? 0x7F then Some [BYTE iLen] else
  if iLen <=? 0x3FFF then Some [BYTE (Z.lor (Z.shiftr iLen 8) 0x80); BYTE (Z.land iLen 0xff)] else
  if iLen <=? 0x1FFFFFFF then
    Some [BYTE (Z.lor (Z.shiftr iLen 24) 0xC0); BYTE (Z.land (Z.shiftr iLen 16) 0xff);
          BYTE (Z.land (Z.shiftr iLen 8) 0xff); BYTE (Z.land iLen 0xff)]
  else None.

Definition RidFromToken (tk : Z) : Z := Z.land tk 0x00ffffff.
Definition TypeFromToken (tk : Z) : Z := Z.land tk 0xff000000.

Definition CorSigCompressToken (tk : Z) : option (list Z) :=
  let rid := RidFromToken tk in
  let ulTyp := TypeFromToken tk in
  if 0x3FFFFFF <? rid then None else
  let rid := wrap 32 (Z.shiftl rid 2) in
  let rid :=
    if ulTyp =? CorSigDecodeTokenType 1 then Z.lor rid 0x1 else
    if ulTyp =? CorSigDecodeTokenType 2 then Z.lor rid 0x2 else
    if ulTyp =? CorSigDecodeTokenType 3 then Z.lor rid 0x3 else rid in
  CorSigCompressData rid.

(** ** The grammar

    The relations below relate the bytes of a phrase to the notifications it
    stands for.  They are the productions of the comment at the top of
    [sigparse.h].  With [lax] they also hold what the parser accepts beyond
    it: an element type without a production, a compressed token whose first
    byte starts with three ones, and a function pointer to something that is
    not a method.  In both forms the kind of a signature is the low four bits of
    its first byte, as the parser reads it; the productions name the whole byte
    ([field_high_bits] below), so the grammar is wider than the comment there. *)

(** A 29-bit number in one, two or four bytes. *)
Inductive Number : list Z -> Z -> Prop :=
  | Number1 n : 0 <= n < 0x80 -> Number [n] n
  | Number2 n : 0 <= n < 0x4000 -> Number [0x80 + n / 2 ^ 8; n mod 2 ^ 8] n
  | Number4 n : 0 <= n < 0x20000000 ->
      Number [0xC0 + n / 2 ^ 24; n / 2 ^ 16 mod 2 ^ 8; n / 2 ^ 8 mod 2 ^ 8; n mod 2 ^ 8] n.

(** The token of table [n mod 4] with index [n / 4]. *)
Definition coded_token (n : Z) : Z := TokenFromRid (n / 4) (CorSigDecodeTokenType (n mod 4)).

Inductive TypeDefOrRefEncoded (lax : bool) : list Z -> Z -> Prop :=
  | Encoded_number bs n : Number bs n -> TypeDefOrRefEncoded lax bs (coded_token n)
  | Encoded_lax n : lax = true -> 0 <= n < 0x20000000 ->
      TypeDefOrRefEncoded lax
        [0xE0 + n / 2 ^ 24; n / 2 ^ 16 mod 2 ^ 8; n / 2 ^ 8 mod 2 ^ 8; n mod 2 ^ 8] (coded_token n).

Inductive CustomMods (lax : bool) : list Z -> list event -> Prop :=
  | Mods_nil : CustomMods lax [] []
  | Mods_cons c bs tok bs' ev : is_cmod c = true -> TypeDefOrRefEncoded lax bs tok ->
      CustomMods lax bs' ev -> CustomMods lax (c :: bs ++ bs') (NotifyCustomMod c tok :: ev).

Inductive ModsOrConstraint (lax : bool) : list Z -> list event -> Prop :=
  | MoC_nil : ModsOrConstraint lax [] []
  | MoC_mod c bs tok bs' ev : is_cmod c = true -> TypeDefOrRefEncoded lax bs tok ->
      ModsOrConstraint lax bs' ev -> ModsOrConstraint lax (c :: bs ++ bs') (NotifyCustomMod c tok :: ev)
  | MoC_constraint bs' ev : ModsOrConstraint lax bs' ev ->
      ModsOrConstraint lax (ELEMENT_TYPE_PINNED :: bs') (NotifyConstraint ELEMENT_TYPE_PINNED :: ev).

(** [n] phrases in a row. *)
Inductive Repeat (P : list Z -> list event -> Prop) : Z -> list Z -> list event -> Prop :=
  | Repeat_nil : Repeat P 0 [] []
  | Repeat_cons bs ev n bs' ev' : P bs ev -> 0 <= n -> Repeat P n bs' ev' ->
      Repeat P (n + 1) (bs ++ bs') (ev ++ ev').

(** A number with its notification. *)
Inductive Noted (notify : Z -> event) : list Z -> list event -> Prop :=
  | Noted_number bs n : Number bs n -> Noted notify bs [notify n].

(** ArrayShape ::= Rank NumSizes Size* NumLoBounds LoBound* *)
Inductive ArrayShape : list Z -> list event -> Prop :=
  | Shape br rank bk k bs es bl l bs' el :
      Number br rank -> Number bk k -> Repeat (Noted NotifySize) k bs es ->
      Number bl l -> Repeat (Noted NotifyLoBound) l bs' el ->
      ArrayShape (br ++ bk ++ bs ++ bl ++ bs')
        (NotifyBeginArrayShape :: NotifyRank rank :: NotifyNumSizes k :: es ++
         NotifyNumLoBounds l :: el ++ [NotifyEndArrayShape]).

(** The calling conventions of methods. *)
Definition is_method (c : Z) : bool := Z.land c 0xf <=? SIG_METHOD_VARARG.

(** The element types the [switch] of [ParseType] has a case for. *)
Definition known_types : list Z :=
  simple_types ++
  [ELEMENT_TYPE_PTR; ELEMENT_TYPE_CLASS; ELEMENT_TYPE_VALUETYPE; ELEMENT_TYPE_FNPTR;
   ELEMENT_TYPE_ARRAY; ELEMENT_TYPE_SZARRAY; ELEMENT_TYPE_GENERICINST; ELEMENT_TYPE_VAR;
   ELEMENT_TYPE_MVAR].
Definition is_known (b : Z) : bool := bool_decide (b ∈ known_types).

(** What a type notifies between [NotifyBeginType] and [NotifyEndType]. *)
Definition in_type (ev : list event) : list event := NotifyBeginType :: ev ++ [NotifyEndType].

Section Grammar.
Variable lax : bool.

Inductive Type_ : list Z -> list event -> Prop :=
  | Type_simple e : is_simple e = true -> Type_ [e] (in_type [NotifyTypeSimple e])
  | Type_unknown e : lax = true -> is_known e = false -> Type_ [e] (in_type [])
  | Type_ptr_void bm em : CustomMods lax bm em ->
      Type_ (ELEMENT_TYPE_PTR :: bm ++ [ELEMENT_TYPE_VOID]) (in_type (NotifyTypePointer :: em ++ [NotifyVoid]))
  | Type_ptr bm em bt et : CustomMods lax bm em -> Type_ bt et ->
      Type_ (ELEMENT_TYPE_PTR :: bm ++ bt) (in_type (NotifyTypePointer :: em ++ et))
  | Type_class bs tok : TypeDefOrRefEncoded lax bs tok ->
      Type_ (ELEMENT_TYPE_CLASS :: bs) (in_type [NotifyTypeClass; NotifyTypeDefOrRef tok])
  | Type_valuetype bs tok : TypeDefOrRefEncoded lax bs tok ->
      Type_ (ELEMENT_TYPE_VALUETYPE :: bs) (in_type [NotifyTypeValueType; NotifyTypeDefOrRef tok])
  | Type_fnptr c bs ev : lax || is_method c = true -> Method c bs ev ->
      Type_ (ELEMENT_TYPE_FNPTR :: c :: bs) (in_type (NotifyTypeFunctionPointer :: ev))
  | Type_array bt et bs es : Type_ bt et -> ArrayShape bs es ->
      Type_ (ELEMENT_TYPE_ARRAY :: bt ++ bs) (in_type (NotifyTypeArray :: et ++ es))
  | Type_szarray bm em bt et : CustomMods lax bm em -> Type_ bt et ->
      Type_ (ELEMENT_TYPE_SZARRAY :: bm ++ bt) (in_type (NotifyTypeSzArray :: em ++ et))
  | Type_genericinst c bs tok bn n bt et : c = ELEMENT_TYPE_CLASS \/ c = ELEMENT_TYPE_VALUETYPE ->
      TypeDefOrRefEncoded lax bs tok -> Number bn n -> Types n bt et ->
      Type_ (ELEMENT_TYPE_GENERICINST :: c :: bs ++ bn ++ bt) (in_type (NotifyTypeGenericInst c tok n :: et))
  | Type_var bs n : Number bs n -> Type_ (ELEMENT_TYPE_VAR :: bs) (in_type [NotifyTypeGenericTypeVariable n])
  | Type_mvar bs n : Number bs n -> Type_ (ELEMENT_TYPE_MVAR :: bs) (in_type [NotifyTypeGenericMemberVariable n])
with Types : Z -> list Z -> list event -> Prop :=
  | Types_nil : Types 0 [] []
  | Types_cons bt et n bs ev : Type_ bt et -> 0 <= n -> Types n bs ev -> Types (n + 1) (bt ++ bs) (et ++ ev)
(** [BYREF] Type *)
with ByrefType : list Z -> list event -> Prop :=
  | No_byref bt et : Type_ bt et -> ByrefType bt et
  | Byref bt et : Type_ bt et -> ByrefType (ELEMENT_TYPE_BYREF :: bt) (NotifyByref :: et)
(** CustomMod* ( TYPEDBYREF | [BYREF] Type ) *)
with Param : list Z -> list event -> Prop :=
  | Param_typedbyref bm em : CustomMods lax bm em ->
      Param (bm ++ [ELEMENT_TYPE_TYPEDBYREF]) (NotifyBeginParam :: em ++ [NotifyTypedByref; NotifyEndParam])
  | Param_type bm em bt et : CustomMods lax bm em -> ByrefType bt et ->
      Param (bm ++ bt) (NotifyBeginParam :: em ++ et ++ [NotifyEndParam])
(** CustomMod* ( VOID | TYPEDBYREF | [BYREF] Type ) *)
with RetType : list Z -> list event -> Prop :=
  | Ret_typedbyref bm em : CustomMods lax bm em ->
      RetType (bm ++ [ELEMENT_TYPE_TYPEDBYREF]) (NotifyBeginRetType :: em ++ [NotifyTypedByref; NotifyEndRetType])
  | Ret_void bm em : CustomMods lax bm em ->
      RetType (bm ++ [ELEMENT_TYPE_VOID]) (NotifyBeginRetType :: em ++ [NotifyVoid; NotifyEndRetType])
  | Ret_type bm em bt et : CustomMods lax bm em -> ByrefType bt et ->
      RetType (bm ++ bt) (NotifyBeginRetType :: em ++ et ++ [NotifyEndRetType])
(** Param* [SENTINEL Param+], with [n] parameters in all; [seen] after the sentinel *)
with MethodParams : bool -> Z -> list Z -> list event -> Prop :=
  | MParams_nil seen : MethodParams seen 0 [] []
  | MParams_cons seen bp ep n bs ev : Param bp ep -> 0 <= n -> MethodParams seen n bs ev ->
      MethodParams seen (n + 1) (bp ++ bs) (ep ++ ev)
  | MParams_sentinel bp ep n bs ev : Param bp ep -> 0 <= n -> MethodParams true n bs ev ->
      MethodParams false (n + 1) (ELEMENT_TYPE_SENTINEL :: bp ++ bs) (NotifySentinal :: ep ++ ev)
(** [GenParamCount] ParamCount RetType Param* [SENTINEL Param+], after the calling convention *)
with Method : Z -> list Z -> list event -> Prop :=
  | Method_plain c bn n br er bp ep : Z.land c SIG_GENERIC = 0 ->
      Number bn n -> RetType br er -> MethodParams false n bp ep ->
      Method c (bn ++ br ++ bp)
        (NotifyBeginMethod c :: NotifyParamCount n :: er ++ ep ++ [NotifyEndMethod])
  | Method_generic c bg g bn n br er bp ep : Z.land c SIG_GENERIC <> 0 ->
      Number bg g -> Number bn n -> RetType br er -> MethodParams false n bp ep ->
      Method c (bg ++ bn ++ br ++ bp)
        (NotifyBeginMethod c :: NotifyGenericParamCount g :: NotifyParamCount n :: er ++ ep ++ [NotifyEndMethod]).

(** TYPEDBYREF | ([CustomMod] [Constraint])* [BYREF] Type *)
Inductive Local_ : list Z -> list event -> Prop :=
  | Local_typedbyref : Local_ [ELEMENT_TYPE_TYPEDBYREF] [NotifyBeginLocal; NotifyTypedByref; NotifyEndLocal]
  | Local_type bm em bt et : ModsOrConstraint lax bm em -> ByrefType bt et ->
      Local_ (bm ++ bt) (NotifyBeginLocal :: em ++ et ++ [NotifyEndLocal]).

Inductive Signature : list Z -> list event -> Prop :=
  | Sig_method c bs ev : is_method c = true -> Method c bs ev -> Signature (c :: bs) ev
  | Sig_field c bm em bt et : Z.land c 0xf = SIG_FIELD -> CustomMods lax bm em -> Type_ bt et ->
      Signature (c :: bm ++ bt) (NotifyBeginField c :: em ++ et ++ [NotifyEndField])
  | Sig_property c bn n bm em bt et bp ep : Z.land c 0xf = SIG_PROPERTY -> Number bn n ->
      CustomMods lax bm em -> Type_ bt et -> Repeat Param n bp ep ->
      Signature (c :: bn ++ bm ++ bt ++ bp)
        (NotifyBeginProperty c :: NotifyParamCount n :: em ++ et ++ ep ++ [NotifyEndProperty])
  | Sig_locals c bn n bl el : Z.land c 0xf = SIG_LOCAL_SIG -> Number bn n -> Repeat Local_ n bl el ->
      Signature (c :: bn ++ bl)
        (NotifyBeginLocals c :: NotifyLocalsCount n :: el ++ [NotifyEndLocals]).
End Grammar.

Scheme Type_mind := Minimality for Type_ Sort Prop
  with Types_mind := Minimality for Types Sort Prop
  with ByrefType_mind := Minimality for ByrefType Sort Prop
  with Param_mind := Minimality for Param Sort Prop
  with RetType_mind := Minimality for RetType Sort Prop
  with MethodParams_mind := Minimality for MethodParams Sort Prop
  with Method_mind := Minimality for Method Sort Prop.
Combined Scheme grammar_mind from Type_mind, Types_mind, ByrefType_mind, Param_mind, RetType_mind,
  MethodParams_mind, Method_mind.

(** ** What a method of the parser reads

    [parses m bs a ev]: wherever [bs] stands before the end of the blob, [m]
    succeeds with [a], has read exactly [bs] and has notified [ev]. *)

Definition parses {A} (m : sp A) (bs : list Z) (a : A) (ev : list event) : Prop :=
  forall s rest, drop (pbCur s) (pbBase s) = bs ++ rest -> (pbCur s + length bs <= pbEnd s)%nat ->
    m s = Ok (Some a, adv (length bs) ev s).

Lemma adv_adv n ev n' ev' s : adv n' ev' (adv n ev s) = adv (n + n') (ev ++ ev') s.
Proof. unfold adv; simpl. by rewrite Nat.add_assoc, app_assoc. Qed.
Lemma adv_0 s : adv 0 [] s = s.
Proof. destruct s. unfold adv; simpl. by rewrite Nat.add_0_r, app_nil_r. Qed.

Section Parses.
Context {A B : Type}.
Implicit Types (m : sp A) (k : A -> sp B) (bs : list Z) (ev : list event).

Lemma parses_bind m k bs bs1 bs2 a b ev ev1 ev2 :
  parses m bs1 a ev1 -> parses (k a) bs2 b ev2 -> bs = bs1 ++ bs2 -> ev = ev1 ++ ev2 ->
  parses (sp_bind m k) bs b ev.
Proof.
  intros Hm Hk -> -> s rest Hd He. rewrite length_app in He. unfold sp_bind.
  rewrite (Hm s (bs2 ++ rest)); [|by rewrite Hd, <- app_assoc|lia].
  rewrite (Hk _ rest); cbn [adv pbCur pbBase pbEnd]; [|rewrite <- drop_drop, Hd, <- app_assoc; apply drop_app_length|lia].
  by rewrite adv_adv, length_app.
Qed.

Lemma parses_ret (a : A) : parses (sp_ret a) [] a [].
Proof. intros s rest _ _. simpl. by rewrite adv_0. Qed.

Lemma parses_notify e (k : unit -> sp B) bs b ev :
  parses (k tt) bs b ev -> parses (sp_bind (Notify e) k) bs b (e :: ev).
Proof.
  intros Hk s rest Hd He. cbn [sp_bind Notify]. unfold sp_bind, Notify.
  rewrite (Hk _ rest); cbn [adv pbCur pbBase pbEnd]; [|by rewrite Nat.add_0_r|lia].
  by rewrite adv_adv.
Qed.

(** A look at the next byte, with or without the test for the end. *)
Lemma parses_deref (k : Z -> sp B) c bs b ev :
  parses (k c) (c :: bs) b ev -> parses (sp_bind deref k) (c :: bs) b ev.
Proof.
  intros Hk s rest Hd He. unfold sp_bind, deref.
  assert (pbBase s !! pbCur s = Some c) as ->.
  { rewrite <- (Nat.add_0_r (pbCur s)), <- lookup_drop, Hd. done. }
  by apply (Hk s rest).
Qed.

Lemma parses_at_end (k : bool -> sp B) c bs b ev :
  parses (k false) (c :: bs) b ev -> parses (sp_bind at_end k) (c :: bs) b ev.
Proof.
  intros Hk s rest Hd He. unfold sp_bind, at_end. simpl in He.
  destruct (Nat.leb_spec (pbEnd s) (pbCur s)); [lia|]. by apply (Hk s rest).
Qed.

Lemma parses_skip (k : unit -> sp B) c bs b ev :
  parses (k tt) bs b ev -> parses (sp_bind skip k) (c :: bs) b ev.
Proof.
  intros Hk s rest Hd He. simpl in He. unfold sp_bind, skip.
  rewrite (Hk _ rest); cbn [adv pbCur pbBase pbEnd]; [|by rewrite <- drop_drop, Hd|lia].
  by rewrite adv_adv.
Qed.
End Parses.

(** *** Numbers and tokens *)

Lemma lor_bytes2 x b : is_byte b -> Z.lor (Z.shiftl x 8) b = x * 2 ^ 8 + b.
Proof. intros. apply lor_shiftl_add; [lia|]. unfold is_byte in *; lia. Qed.

Lemma lor_bytes4 x b2 b3 b4 : is_byte b2 -> is_byte b3 -> is_byte b4 ->
  Z.lor (Z.lor (Z.lor (Z.shiftl x 24) (Z.shiftl b2 16)) (Z.shiftl b3 8)) b4 =
  x * 2 ^ 24 + b2 * 2 ^ 16 + b3 * 2 ^ 8 + b4.
Proof.
  unfold is_byte. intros. rewrite (lor_shiftl_add x 24 (Z.shiftl b2 16)) by (rewrite ?Z.shiftl_mul_pow2; lia).
  replace (x * 2 ^ 24 + Z.shiftl b2 16) with (Z.shiftl (x * 2 ^ 8 + b2) 16) by (rewrite !Z.shiftl_mul_pow2; lia).
  rewrite (lor_shiftl_add _ 16 (Z.shiftl b3 8)) by (rewrite ?Z.shiftl_mul_pow2; lia).
  replace ((x * 2 ^ 8 + b2) * 2 ^ 16 + Z.shiftl b3 8) with (Z.shiftl ((x * 2 ^ 8 + b2) * 2 ^ 8 + b3) 8)
    by (rewrite !Z.shiftl_mul_pow2; lia).
  rewrite (lor_shiftl_add _ 8 b4) by lia. lia.
Qed.

(** A fact about bytes that can be evaluated on each of them. *)
Lemma byte_forall (f : Z -> bool) : forallb f (seqZ 0 256) = true -> forall b, is_byte b -> f b = true.
Proof.
  intros H b Hb. apply (proj1 (forallb_forall f _) H), list_elem_of_In, elem_of_seqZ.
  unfold is_byte in Hb. lia.
Qed.

(** The tests of the first byte, as ranges. *)
Record byte_bits (b : Z) : Prop := {
  bits_80 : (Z.land b 0x80 =? 0) = (b <? 0x80);
  bits_C0 : (Z.land b 0xC0 =? 0x80) = (0x80 <=? b) && (b <? 0xC0);
  bits_40 : 0x80 <= b -> (Z.land b 0x40 =? 0) = (b <? 0xC0);
  bits_20 : 0xC0 <= b -> (Z.land b 0x20 =? 0) = (b <? 0xE0);
  bits_3f : Z.land b 0x3f = b mod 0x40;
  bits_1f : Z.land b 0x1f = b mod 0x20
}.

Lemma byte_bits_of b : is_byte b -> byte_bits b.
Proof.
  intros Hb.
  assert (eqb (Z.land b 0x80 =? 0) (b <? 0x80) &&
    eqb (Z.land b 0xC0 =? 0x80) ((0x80 <=? b) && (b <? 0xC0)) &&
    implb (0x80 <=? b) (eqb (Z.land b 0x40 =? 0) (b <? 0xC0)) &&
    implb (0xC0 <=? b) (eqb (Z.land b 0x20 =? 0) (b <? 0xE0)) = true) as H.
  { revert b Hb. apply byte_forall. vm_compute. reflexivity. }
  rewrite !andb_true_iff, !eqb_true_iff in H. destruct H as [[[H1 H2] H3] H4].
  split; [done|done| | | |].
  - intros Hle. rewrite (proj2 (Z.leb_le _ _) Hle) in H3. by apply eqb_prop in H3.
  - intros Hle. rewrite (proj2 (Z.leb_le _ _) Hle) in H4. by apply eqb_prop in H4.
  - by apply (Z.land_ones b 6).
  - by apply (Z.land_ones b 5).
Qed.

Lemma parses_byte {B} (k : Z -> sp B) c bs b ev :
  parses (k c) bs b ev -> parses (sp_bind ParseByte k) (c :: bs) b ev.
Proof.
  intros Hk. eapply (parses_bind _ _ _ [c] bs c b ev [] ev); [|done|done|done].
  apply parses_at_end, parses_deref, parses_skip, parses_ret.
Qed.

Lemma parses_next {B} (k : Z -> sp B) c bs b ev :
  parses (k c) bs b ev -> parses (sp_bind next k) (c :: bs) b ev.
Proof.
  intros Hk. eapply (parses_bind _ _ _ [c] bs c b ev [] ev); [|done|done|done].
  apply parses_deref, parses_skip, parses_ret.
Qed.

(** Splits the digits of a number into bytes. *)
Lemma number_bytes n : 0 <= n < 0x20000000 ->
  0 <= n / 2 ^ 24 < 0x20 /\ is_byte (n / 2 ^ 16 mod 2 ^ 8) /\ is_byte (n / 2 ^ 8 mod 2 ^ 8) /\
  is_byte (n mod 2 ^ 8) /\
  n / 2 ^ 24 * 2 ^ 24 + n / 2 ^ 16 mod 2 ^ 8 * 2 ^ 16 + n / 2 ^ 8 mod 2 ^ 8 * 2 ^ 8 + n mod 2 ^ 8 = n.
Proof.
  intros Hn. unfold is_byte.
  assert (n / 2 ^ 24 = n / 2 ^ 8 / 2 ^ 8 / 2 ^ 8) as -> by (rewrite !Z.div_div by lia; f_equal; lia).
  assert (n / 2 ^ 16 = n / 2 ^ 8 / 2 ^ 8) as -> by (rewrite !Z.div_div by lia; f_equal; lia).
  repeat split; lia.
Qed.

Lemma ParseNumber_parses bs n : Number bs n -> parses ParseNumber bs n [].
Proof.
  intros H. unfold ParseNumber. destruct H as [n Hn|n Hn|n Hn].
  - pose proof (byte_bits_of n ltac:(unfold is_byte; lia)) as Hb.
    apply parses_byte. destruct (Z.eqb_spec n 0xff); [lia|].
    rewrite (bits_80 _ Hb), (proj2 (Z.ltb_lt _ _)) by lia. apply parses_ret.
  - pose proof (byte_bits_of (0x80 + n / 2 ^ 8) ltac:(unfold is_byte; lia)) as Hb.
    apply parses_byte. destruct (Z.eqb_spec (0x80 + n / 2 ^ 8) 0xff); [lia|].
    rewrite (bits_80 _ Hb), (proj2 (Z.ltb_ge _ _)) by lia. apply parses_byte.
    rewrite (bits_40 _ Hb), (proj2 (Z.ltb_lt _ _)) by lia.
    rewrite (bits_3f _ Hb), lor_bytes2 by (unfold is_byte; lia).
    replace ((0x80 + n / 2 ^ 8) mod 0x40 * 2 ^ 8 + n mod 2 ^ 8) with n by lia. apply parses_ret.
  - destruct (number_bytes n Hn) as (H1 & H2 & H3 & H4 & Hsum).
    pose proof (byte_bits_of (0xC0 + n / 2 ^ 24) ltac:(unfold is_byte; lia)) as Hb.
    apply parses_byte. destruct (Z.eqb_spec (0xC0 + n / 2 ^ 24) 0xff); [lia|].
    rewrite (bits_80 _ Hb), (proj2 (Z.ltb_ge _ _)) by lia. apply parses_byte.
    rewrite (bits_40 _ Hb), (proj2 (Z.ltb_ge _ _)) by lia.
    rewrite (bits_20 _ Hb), (proj2 (Z.ltb_lt _ _)) by lia. apply parses_byte, parses_byte.
    rewrite (bits_1f _ Hb), lor_bytes4 by done.
    replace ((0xC0 + n / 2 ^ 24) mod 0x20) with (n / 2 ^ 24) by lia. rewrite Hsum. apply parses_ret.
Qed.

Lemma coded_token_bits n : 0 <= n ->
  TokenFromRid (Z.shiftr n 2) (CorSigDecodeTokenType (Z.land n 0x3)) = coded_token n.
Proof. intros. unfold coded_token. change 0x3 with (Z.ones 2). by rewrite Z.shiftr_div_pow2, Z.land_ones by lia. Qed.

Lemma Token_parses lax bs tok : TypeDefOrRefEncoded lax bs tok -> parses ParseTypeDefOrRefEncoded bs tok [].
Proof.
  assert (forall c n, 0xC0 <= c < 0x100 -> c mod 0x20 = n / 2 ^ 24 -> 0 <= n < 0x20000000 ->
    parses CorSigUncompressToken [c; n / 2 ^ 16 mod 2 ^ 8; n / 2 ^ 8 mod 2 ^ 8; n mod 2 ^ 8] (coded_token n) []) as H4.
  { intros c n Hc Hm Hn. pose proof (byte_bits_of c ltac:(unfold is_byte; lia)) as Hb.
    destruct (number_bytes n Hn) as (H1 & H2 & H3 & H4 & Hsum).
    eapply (parses_bind _ _ _ _ [] n _ _ []); [|rewrite coded_token_bits by lia; apply parses_ret|by rewrite app_nil_r|done].
    unfold CorSigUncompressData. apply parses_deref. rewrite (bits_80 _ Hb), (proj2 (Z.ltb_ge _ _)) by lia.
    unfold CorSigUncompressBigData. apply parses_deref.
    rewrite (bits_C0 _ Hb), (proj2 (Z.ltb_ge c 0xC0)), andb_false_r by lia.
    apply parses_next, parses_next, parses_next, parses_next.
    rewrite (bits_1f _ Hb), lor_bytes4, Hm, Hsum by done. apply parses_ret. }
  unfold ParseTypeDefOrRefEncoded.
  intros [bs' n [k Hk|k Hk|k Hk]|n _ Hn]; [| |apply H4; lia|apply H4; lia].
  - eapply (parses_bind _ _ _ _ [] k _ _ []); [|rewrite coded_token_bits by lia; apply parses_ret|by rewrite app_nil_r|done].
    unfold CorSigUncompressData. apply parses_deref.
    rewrite (bits_80 _ (byte_bits_of k ltac:(unfold is_byte; lia))), (proj2 (Z.ltb_lt _ _)) by lia.
    apply parses_deref, parses_skip, parses_ret.
  - pose proof (byte_bits_of (0x80 + k / 2 ^ 8) ltac:(unfold is_byte; lia)) as Hb.
    eapply (parses_bind _ _ _ _ [] k _ _ []); [|rewrite coded_token_bits by lia; apply parses_ret|by rewrite app_nil_r|done].
    unfold CorSigUncompressData. apply parses_deref. rewrite (bits_80 _ Hb), (proj2 (Z.ltb_ge _ _)) by lia.
    unfold CorSigUncompressBigData. apply parses_deref.
    rewrite (bits_C0 _ Hb), (proj2 (Z.leb_le _ _)), (proj2 (Z.ltb_lt _ _)) by lia. simpl andb.
    apply parses_next, parses_next.
    rewrite (bits_3f _ Hb), lor_bytes2 by (unfold is_byte; lia).
    replace ((0x80 + k / 2 ^ 8) mod 0x40 * 2 ^ 8 + k mod 2 ^ 8) with k by lia. apply parses_ret.
Qed.

Lemma Number_nonempty bs n : Number bs n -> (1 <= length bs)%nat.
Proof. intros []; simpl; lia. Qed.

(** *** Phrases in sequence *)

Lemma parses_number {B} (k : Z -> sp B) bs n bs' b ev :
  Number bs n -> parses (k n) bs' b ev -> parses (sp_bind ParseNumber k) (bs ++ bs') b ev.
Proof. intros Hn Hk. by eapply (parses_bind _ _ _ _ _ _ _ _ _ _ (ParseNumber_parses _ _ Hn) Hk). Qed.

Lemma parses_token {B} lax (k : Z -> sp B) bs tok bs' b ev :
  TypeDefOrRefEncoded lax bs tok -> parses (k tok) bs' b ev ->
  parses (sp_bind ParseTypeDefOrRefEncoded k) (bs ++ bs') b ev.
Proof. intros Hn Hk. by eapply (parses_bind _ _ _ _ _ _ _ _ _ _ (Token_parses _ _ _ Hn) Hk). Qed.

(** A notification at the end. *)
Lemma parses_last e : parses (Notify e) [] tt [e].
Proof. intros s rest _ _. unfold Notify. done. Qed.

Lemma parses_then {A B} (m : sp A) (k : A -> sp B) a bs bs' b ev ev' :
  parses m bs a ev -> parses (k a) bs' b ev' -> parses (sp_bind m k) (bs ++ bs') b (ev ++ ev').
Proof. intros Hm Hk. by eapply (parses_bind _ _ _ _ _ _ _ _ _ _ Hm Hk). Qed.

Lemma parses_end {A} (m : sp A) (k : A -> sp unit) a bs ev e :
  parses m bs a ev -> parses (k a) [] tt [e] -> parses (sp_bind m k) bs tt (ev ++ [e]).
Proof. intros Hm Hk. rewrite <- (app_nil_r bs). by eapply parses_then. Qed.

Lemma ParseCustomMod_parses lax c bs tok : is_cmod c = true -> TypeDefOrRefEncoded lax bs tok ->
  parses ParseCustomMod (c :: bs) tt [NotifyCustomMod c tok].
Proof.
  intros Hc Ht. unfold ParseCustomMod. apply parses_byte. rewrite Hc.
  rewrite <- (app_nil_r bs). eapply parses_token; [done|]. apply parses_last.
Qed.

(** [m] reads [bs] where a byte of [p] follows before the end. *)
Definition parses_before (p : Z -> bool) (m : sp unit) bs ev : Prop :=
  forall c s rest, p c = true -> drop (pbCur s) (pbBase s) = bs ++ c :: rest ->
    (pbCur s + length bs < pbEnd s)%nat -> m s = Ok (Some tt, adv (length bs) ev s).

Lemma parses_before_then {B} p m (k : unit -> sp B) c bs bs' b ev ev' :
  parses_before p m bs ev -> p c = true -> parses (k tt) (c :: bs') b ev' ->
  parses (sp_bind m k) (bs ++ c :: bs') b (ev ++ ev').
Proof.
  intros Hm Hc Hk s rest Hd He. rewrite length_app in He. simpl in He. unfold sp_bind.
  rewrite (Hm c s (bs' ++ rest)); [|done|by rewrite Hd, <- app_assoc|lia].
  rewrite (Hk _ rest); cbn [adv pbCur pbBase pbEnd]; [|rewrite <- drop_drop, Hd, <- app_assoc; apply drop_app_length|simpl; lia].
  by rewrite adv_adv, length_app.
Qed.

Lemma parses_before_stop p (k : Z -> sp unit) (ke : sp unit) :
  (forall c, p c = true -> k c = sp_ret tt) ->
  parses_before p (e <~ at_end ;; if e then ke else b <~ deref ;; k b) [] [].
Proof.
  intros Hk c s rest Hc Hd He. unfold sp_bind, at_end. simpl in He, Hd.
  destruct (Nat.leb_spec (pbEnd s) (pbCur s)); [lia|]. unfold deref.
  assert (pbBase s !! pbCur s = Some c) as ->.
  { rewrite <- (Nat.add_0_r (pbCur s)), <- lookup_drop, Hd. done. }
  rewrite Hk by done. unfold sp_ret. by rewrite adv_0.
Qed.

(** One more round of a loop that looks ahead. *)
Lemma parses_before_step p (m : sp unit) (k : unit -> sp unit) bs bs' ev ev' :
  parses m bs tt ev -> parses_before p (k tt) bs' ev' ->
  parses_before p (sp_bind m k) (bs ++ bs') (ev ++ ev').
Proof.
  intros Hm Hk c s rest Hc Hd He. rewrite length_app in He. rewrite <- app_assoc in Hd. unfold sp_bind.
  rewrite (Hm s (bs' ++ c :: rest)) by (done || lia).
  rewrite (Hk c _ rest); cbn [adv pbCur pbBase pbEnd]; [|done|rewrite <- drop_drop, Hd; apply drop_app_length|lia].
  by rewrite adv_adv, length_app.
Qed.

Lemma parses_before_peek p (k : Z -> sp unit) (ke : sp unit) c bs ev :
  parses_before p (k c) (c :: bs) ev ->
  parses_before p (e <~ at_end ;; if e then ke else b <~ deref ;; k b) (c :: bs) ev.
Proof.
  intros Hk c' s rest Hc Hd He. unfold sp_bind, at_end. simpl in He.
  destruct (Nat.leb_spec (pbEnd s) (pbCur s)); [lia|]. unfold deref.
  assert (pbBase s !! pbCur s = Some c) as ->.
  { rewrite <- (Nat.add_0_r (pbCur s)), <- lookup_drop, Hd. done. }
  apply (Hk c' s rest); [done..|]. simpl; lia.
Qed.

Definition not_cmod (b : Z) : bool := negb (is_cmod b).
Definition not_cmod_pinned (b : Z) : bool := negb (is_cmod b) && negb (b =? ELEMENT_TYPE_PINNED).

(** Modifiers end at a byte that is none. *)
Lemma Mods_parses lax fuel bm em : CustomMods lax bm em -> (length bm < fuel)%nat ->
  parses_before not_cmod (ParseOptionalCustomMods fuel) bm em.
Proof.
  intros Hm. revert fuel. induction Hm as [|c bt tok bs' ev' Hc Ht Hm IH]; intros [|fuel] Hf; try (simpl in Hf; lia).
  - apply parses_before_stop. intros c Hc. unfold not_cmod in Hc. by rewrite (proj1 (negb_true_iff _) Hc).
  - apply parses_before_peek. cbn [length] in Hf. rewrite length_app in Hf. rewrite Hc.
    apply (parses_before_step _ _ _ (c :: bt) bs' [_] ev'); [by eapply ParseCustomMod_parses|]. apply IH. lia.
Qed.

Lemma ModsOrConstraint_parses lax fuel bm em : ModsOrConstraint lax bm em -> (length bm < fuel)%nat ->
  parses_before not_cmod_pinned (ParseOptionalCustomModsOrConstraint fuel) bm em.
Proof.
  intros Hm. revert fuel.
  induction Hm as [|c bt tok bs' ev' Hc Ht Hm IH|bs' ev' Hm IH]; intros [|fuel] Hf; try (simpl in Hf; lia).
  - apply parses_before_stop. intros c [H1 H2]%andb_true_iff.
    by rewrite (proj1 (negb_true_iff _) H1), (proj1 (negb_true_iff _) H2).
  - apply parses_before_peek. cbn [length] in Hf. rewrite length_app in Hf. rewrite Hc.
    apply (parses_before_step _ _ _ (c :: bt) bs' [_] ev'); [by eapply ParseCustomMod_parses|]. apply IH. lia.
  - apply parses_before_peek. cbn [length] in Hf.
    change (is_cmod ELEMENT_TYPE_PINNED) with false. rewrite Z.eqb_refl. cbn match.
    assert (parses (Notify (NotifyConstraint ELEMENT_TYPE_PINNED) ;;~ skip) [ELEMENT_TYPE_PINNED] tt
              [NotifyConstraint ELEMENT_TYPE_PINNED]) as H1.
    { apply parses_notify. intros s rest _ _. done. }
    intros c s rest Hc Hd He.
    pose proof (parses_before_step not_cmod_pinned _ (fun _ => ParseOptionalCustomModsOrConstraint fuel)
      _ bs' _ ev' H1 ltac:(apply IH; lia) c s rest Hc Hd He) as H2. exact H2.
Qed.

(** A loop over [n] phrases. *)
Lemma times_parses (P : list Z -> list event -> Prop) (body : sp unit) n bs ev :
  Repeat P n bs ev ->
  (forall bs' ev', P bs' ev' -> (length bs' <= length bs)%nat -> (1 <= length bs')%nat /\ parses body bs' tt ev') ->
  forall fuel, (length bs < fuel)%nat -> parses (times fuel n body) bs tt ev.
Proof.
  induction 1 as [|bs1 ev1 n bs' ev' H1 Hn _ IH]; intros HP [|fuel] Hf; try lia; cbn [times].
  - apply parses_ret.
  - destruct (Z.leb_spec (n + 1) 0); [lia|]. rewrite length_app in *.
    destruct (HP _ _ H1) as [Hl Hb]; [lia|]. apply (parses_then _ _ tt); [done|].
    replace (n + 1 - 1) with n by lia. apply IH; [|lia]. intros. apply HP; [done|lia].
Qed.

Lemma Noted_parses notify bs ev : Noted notify bs ev ->
  (1 <= length bs)%nat /\ parses (size <~ ParseNumber ;; Notify (notify size)) bs tt ev.
Proof.
  intros [bs' n Hn]. split; [by eapply Number_nonempty|].
  rewrite <- (app_nil_r bs'). eapply parses_number; [done|]. apply parses_last.
Qed.

Lemma ArrayShape_parses fuel bs ev : ArrayShape bs ev -> (length bs < fuel)%nat ->
  parses (ParseArrayShape fuel) bs tt ev.
Proof.
  intros [br rank bk k bs' es bl l bs'' el Hr Hk Hs Hl Hb] Hf. rewrite !length_app in Hf.
  unfold ParseArrayShape. apply parses_notify. eapply parses_number; [done|]. apply parses_notify.
  eapply parses_number; [done|]. apply parses_notify.
  apply (parses_then _ _ tt); [eapply times_parses; [done|intros; by apply Noted_parses|lia]|].
  eapply parses_number; [done|]. apply parses_notify.
  apply parses_end with tt; [|apply parses_last].
  eapply times_parses; [done|intros; by apply Noted_parses|lia].
Qed.

(** ** Completeness *)

Definition starts (p : Z -> bool) (bs : list Z) : Prop := match bs with b :: _ => p b = true | [] => False end.

(** No documented type starts with a byte that means something else where a type can stand. *)
Definition plain (b : Z) : bool :=
  not_cmod_pinned b && negb (b =? ELEMENT_TYPE_TYPEDBYREF) && negb (b =? ELEMENT_TYPE_SENTINEL) &&
  negb (b =? ELEMENT_TYPE_VOID).

Lemma known_plain b : is_known b = true -> plain b = true /\ (b =? ELEMENT_TYPE_BYREF) = false.
Proof.
  intros Hb%bool_decide_eq_true.
  assert (forallb (fun b => plain b && negb (b =? ELEMENT_TYPE_BYREF)) known_types = true) as H by reflexivity.
  rewrite forallb_forall in H. specialize (H b (proj1 (list_elem_of_In _ _) Hb)).
  by rewrite andb_true_iff, negb_true_iff in H.
Qed.

Lemma simple_known b : is_simple b = true -> is_known b = true.
Proof.
  unfold is_simple, is_known, known_types. rewrite !bool_decide_eq_true. set_solver.
Qed.

(** What the phrases of the grammar promise of the parser. *)
Definition type_ok (bs : list Z) (ev : list event) : Prop :=
  starts is_known bs /\ forall fuel, (length bs < fuel)%nat -> parses (ParseType fuel) bs tt ev.
Definition byref_ok (bs : list Z) (ev : list event) : Prop :=
  starts plain bs /\ forall fuel c bs', bs = c :: bs' -> (length bs < fuel)%nat ->
    parses (byref_type c (ParseType fuel)) bs tt ev.
Definition param_ok (bs : list Z) (ev : list event) : Prop :=
  starts (fun b => negb (b =? ELEMENT_TYPE_SENTINEL)) bs /\
  forall fuel, (length bs < fuel)%nat -> parses (ParseParam fuel (ParseType fuel)) bs tt ev.
Definition ret_ok (bs : list Z) (ev : list event) : Prop :=
  forall fuel, (length bs < fuel)%nat -> parses (ParseRetType fuel (ParseType fuel)) bs tt ev.
Definition params_ok (seen : bool) (n : Z) (bs : list Z) (ev : list event) : Prop :=
  forall fuel k, (length bs < fuel)%nat -> (length bs < k)%nat ->
    parses (method_params fuel (ParseType fuel) k n seen) bs tt ev.
Definition method_ok (c : Z) (bs : list Z) (ev : list event) : Prop :=
  forall fuel, (length bs < fuel)%nat -> parses (ParseMethod fuel (ParseType fuel) c) bs tt ev.

Lemma starts_cons p bs : starts p bs -> exists b bs', bs = b :: bs' /\ p b = true.
Proof. destruct bs; simpl; [done|eauto]. Qed.

Lemma starts_length p bs : starts p bs -> (1 <= length bs)%nat.
Proof. destruct bs; simpl; [done|lia]. Qed.

Lemma type_ok_intro e bs ev : is_known e = true ->
  (forall fuel, (length bs < fuel)%nat -> parses (type_body fuel (ParseType fuel) e) bs tt ev) ->
  type_ok (e :: bs) (in_type ev).
Proof.
  intros He H. split; [done|]. intros [|fuel] Hf; simpl in Hf; [lia|]. cbn [ParseType].
  apply parses_notify, parses_byte. apply parses_end with tt; [|apply parses_last]. apply H. lia.
Qed.

Lemma plain_not_cmod b : plain b = true -> not_cmod b = true /\ not_cmod_pinned b = true /\
  (b =? ELEMENT_TYPE_TYPEDBYREF) = false /\ (b =? ELEMENT_TYPE_SENTINEL) = false /\ (b =? ELEMENT_TYPE_VOID) = false.
Proof. unfold plain, not_cmod_pinned, not_cmod. rewrite !andb_true_iff, !negb_true_iff. tauto. Qed.

Lemma mods_start lax bm em p b bs : CustomMods lax bm em ->
  p ELEMENT_TYPE_CMOD_OPT = true -> p ELEMENT_TYPE_CMOD_REQD = true -> p b = true -> starts p (bm ++ b :: bs).
Proof.
  intros Hm Ho Hr Hb. destruct Hm as [|c bt tok bs' ev' Hc]; simpl; [done|]. unfold is_cmod in Hc.
  destruct (Z.eqb_spec c ELEMENT_TYPE_CMOD_OPT) as [->|]; [done|].
  by destruct (Z.eqb_spec c ELEMENT_TYPE_CMOD_REQD) as [->|].
Qed.

Lemma byref_ok_type bt et : type_ok bt et -> byref_ok bt et /\ byref_ok (ELEMENT_TYPE_BYREF :: bt) (NotifyByref :: et).
Proof.
  intros [(b & bs & -> & Hb)%starts_cons Ht]. destruct (known_plain b Hb) as [Hp Hr]. split; (split; [done|]).
  - intros fuel c bs' [= <- <-] Hf. unfold byref_type. rewrite Hr.
    apply (parses_then _ _ tt [] (b :: bs) tt [] et); [apply parses_ret|auto].
  - intros fuel c bs' [= <- <-] Hf. unfold byref_type. rewrite Z.eqb_refl.
    apply (parses_then _ _ tt [ELEMENT_TYPE_BYREF] (b :: bs) tt [NotifyByref] et); [|apply Ht; simpl in *; lia].
    apply parses_notify. intros s rest _ _. done.
Qed.

Lemma param_ok_typedbyref bm em : CustomMods false bm em ->
  param_ok (bm ++ [ELEMENT_TYPE_TYPEDBYREF]) (NotifyBeginParam :: em ++ [NotifyTypedByref; NotifyEndParam]).
Proof.
  intros Hm. split; [by eapply mods_start|]. intros fuel Hf. rewrite length_app in Hf. simpl in Hf.
  unfold ParseParam. apply parses_notify.
  eapply parses_before_then; [by eapply Mods_parses; [|lia]|done|].
  apply parses_at_end, parses_deref. rewrite Z.eqb_refl. apply (parses_end _ _ tt _ [_]); [|apply parses_last].
  apply parses_notify. by intros s rest _ _.
Qed.

Lemma param_ok_type bm em bt et : CustomMods false bm em -> byref_ok bt et ->
  param_ok (bm ++ bt) (NotifyBeginParam :: em ++ et ++ [NotifyEndParam]).
Proof.
  intros Hm [(b & bs & -> & Hb)%starts_cons Ht]. destruct (plain_not_cmod b Hb) as (Hc & _ & Ht1 & Ht2 & _).
  split; [eapply mods_start; [done..|by rewrite Ht2]|]. intros fuel Hf. rewrite length_app in Hf.
  unfold ParseParam. apply parses_notify.
  eapply parses_before_then; [by eapply Mods_parses; [|lia]|done|].
  apply parses_at_end, parses_deref. rewrite Ht1. apply (parses_end _ _ tt); [|apply parses_last].
  by eapply Ht; [|lia].
Qed.

Lemma ret_ok_simple bm em c e : CustomMods false bm em ->
  c = ELEMENT_TYPE_TYPEDBYREF /\ e = NotifyTypedByref \/ c = ELEMENT_TYPE_VOID /\ e = NotifyVoid ->
  ret_ok (bm ++ [c]) (NotifyBeginRetType :: em ++ [e; NotifyEndRetType]).
Proof.
  intros Hm Hc fuel Hf. rewrite length_app in Hf. simpl in Hf. unfold ParseRetType. apply parses_notify.
  eapply parses_before_then; [by eapply Mods_parses; [|lia]|by destruct Hc as [[-> _]|[-> _]]|].
  apply parses_at_end, parses_deref. apply (parses_end _ _ tt _ [_]); [|apply parses_last].
  destruct Hc as [[-> ->]|[-> ->]]; simpl; apply parses_notify; by intros s rest _ _.
Qed.

Lemma ret_ok_type bm em bt et : CustomMods false bm em -> byref_ok bt et ->
  ret_ok (bm ++ bt) (NotifyBeginRetType :: em ++ et ++ [NotifyEndRetType]).
Proof.
  intros Hm [(b & bs & -> & Hb)%starts_cons Ht]. destruct (plain_not_cmod b Hb) as (Hc & _ & Ht1 & _ & Ht3).
  intros fuel Hf. rewrite length_app in Hf. unfold ParseRetType. apply parses_notify.
  eapply parses_before_then; [by eapply Mods_parses; [|lia]|done|].
  apply parses_at_end, parses_deref. rewrite Ht1, Ht3. apply (parses_end _ _ tt); [|apply parses_last].
  by eapply Ht; [|lia].
Qed.

Lemma params_ok_cons seen bp ep n bs ev : param_ok bp ep -> 0 <= n -> params_ok seen n bs ev ->
  params_ok seen (n + 1) (bp ++ bs) (ep ++ ev).
Proof.
  intros [(b & bp' & -> & Hb)%starts_cons Hp] Hn Hs fuel [|k] Hf Hk; rewrite length_app in Hf, Hk;
    simpl in Hf, Hk; [lia|]. cbn [method_params].
  destruct (Z.leb_spec (n + 1) 0); [lia|]. simpl app. apply parses_at_end, parses_deref.
  rewrite (proj1 (negb_true_iff _) Hb).
  apply (parses_then _ _ tt (b :: bp')); [apply Hp; simpl; lia|].
  replace (n + 1 - 1) with n by lia. apply Hs; lia.
Qed.

Lemma params_ok_sentinel bp ep n bs ev : param_ok bp ep -> 0 <= n -> params_ok true n bs ev ->
  params_ok false (n + 1) (ELEMENT_TYPE_SENTINEL :: bp ++ bs) (NotifySentinal :: ep ++ ev).
Proof.
  intros [_ Hp] Hn Hs fuel [|k] Hf Hk; simpl in Hf, Hk; rewrite length_app in Hf, Hk; [lia|].
  cbn [method_params]. destruct (Z.leb_spec (n + 1) 0); [lia|]. apply parses_at_end, parses_deref.
  rewrite Z.eqb_refl. cbn match. apply parses_notify, parses_skip.
  apply (parses_then _ _ tt); [apply Hp; lia|]. replace (n + 1 - 1) with n by lia. apply Hs; lia.
Qed.

Lemma method_ok_intro c bg eg bn n br er bp ep :
  parses (if Z.land c SIG_GENERIC =? 0 then sp_ret tt else
    gen_param_count <~ ParseNumber ;; Notify (NotifyGenericParamCount gen_param_count)) bg tt eg ->
  Number bn n -> ret_ok br er -> params_ok false n bp ep ->
  method_ok c (bg ++ bn ++ br ++ bp)
    (NotifyBeginMethod c :: eg ++ NotifyParamCount n :: er ++ ep ++ [NotifyEndMethod]).
Proof.
  intros Hg Hn Hr Hp fuel Hf. rewrite !length_app in Hf. unfold ParseMethod. apply parses_notify.
  apply (parses_then _ _ tt); [done|]. eapply parses_number; [done|]. apply parses_notify.
  apply (parses_then _ _ tt); [apply Hr; lia|]. apply (parses_end _ _ tt); [|apply parses_last]. apply Hp; lia.
Qed.

Lemma type_ok_tail e bs ev : is_known e = true ->
  (forall fuel, (length bs < fuel)%nat -> parses (type_body fuel (ParseType fuel) e) (bs ++ []) tt ev) ->
  type_ok (e :: bs) (in_type ev).
Proof. intros He H. apply type_ok_intro; [done|]. by setoid_rewrite app_nil_r in H. Qed.

Ltac case_type H := apply H; [reflexivity|]; intros fuel Hf; rewrite ?length_app in Hf; cbn [type_body].

(** Every phrase of the documented grammar is parsed as it is. *)
Lemma grammar_parses :
  (forall bs ev, Type_ false bs ev -> type_ok bs ev) /\
  (forall n bs ev, Types false n bs ev -> Repeat type_ok n bs ev) /\
  (forall bs ev, ByrefType false bs ev -> byref_ok bs ev) /\
  (forall bs ev, Param false bs ev -> param_ok bs ev) /\
  (forall bs ev, RetType false bs ev -> ret_ok bs ev) /\
  (forall seen n bs ev, MethodParams false seen n bs ev -> params_ok seen n bs ev) /\
  (forall c bs ev, Method false c bs ev -> method_ok c bs ev).
Proof.
  apply grammar_mind.
  - intros e He. apply type_ok_intro; [by apply simple_known|]. intros fuel _. unfold type_body. rewrite He.
    apply parses_last.
  - done.
  - intros bm em Hm. case_type type_ok_intro. simpl in Hf.
    apply parses_notify. eapply parses_before_then; [eapply Mods_parses; [done|lia]|done|].
    apply parses_at_end, parses_deref. apply parses_skip, parses_last.
  - intros bm em bt et Hm _ [(b & bs & -> & Hb)%starts_cons Ht]. case_type type_ok_intro.
    destruct (known_plain b Hb) as [(Hc & _ & _ & _ & Hv)%plain_not_cmod _].
    apply parses_notify. eapply parses_before_then; [eapply Mods_parses; [done|lia]|done|].
    apply parses_at_end, parses_deref. rewrite Hv. apply Ht. lia.
  - intros bs tok Htok. case_type type_ok_tail. apply parses_notify. eapply parses_token; [done|]. apply parses_last.
  - intros bs tok Htok. case_type type_ok_tail. apply parses_notify. eapply parses_token; [done|]. apply parses_last.
  - intros c bs ev _ _ IH. case_type type_ok_intro. simpl in Hf. apply parses_notify, parses_byte, IH. lia.
  - intros bt et bs es _ [_ Ht] Hs. case_type type_ok_intro. apply parses_notify.
    apply (parses_then _ _ tt); [apply Ht; lia|]. apply ArrayShape_parses; [done|lia].
  - intros bm em bt et Hm _ [(b & bs & -> & Hb)%starts_cons Ht]. case_type type_ok_intro.
    destruct (known_plain b Hb) as [(Hc & _)%plain_not_cmod _].
    apply parses_notify. eapply parses_before_then; [eapply Mods_parses; [done|lia]|done|]. apply Ht. lia.
  - intros c bs tok bn n bt et Hc Htok Hn _ Ht. case_type type_ok_intro. simpl in Hf. rewrite !length_app in Hf.
    apply parses_byte. replace (negb _ && negb _) with false by (by destruct Hc as [-> | ->]).
    eapply parses_token; [done|]. eapply parses_number; [done|]. apply parses_notify.
    eapply times_parses; [done| |lia]. intros bs' ev' [Hs Hp] Hl. split; [by eapply starts_length|]. apply Hp. lia.
  - intros bs n Hn. case_type type_ok_tail. eapply parses_number; [done|]. apply parses_last.
  - intros bs n Hn. case_type type_ok_tail. eapply parses_number; [done|]. apply parses_last.
  - constructor.
  - intros. by constructor.
  - intros bt et _ Ht. by apply byref_ok_type.
  - intros bt et _ Ht. by apply byref_ok_type.
  - intros. by apply param_ok_typedbyref.
  - intros. by apply param_ok_type.
  - intros. apply ret_ok_simple; auto.
  - intros. apply ret_ok_simple; auto.
  - intros. by apply ret_ok_type.
  - intros seen fuel [|k] _ Hk; [simpl in Hk; lia|]. apply parses_ret.
  - intros. by apply params_ok_cons.
  - intros. by apply params_ok_sentinel.
  - intros c bn n br er bp ep Hc Hn _ Hr _ Hp. apply (method_ok_intro c [] []); [|done..].
    rewrite Hc. apply parses_ret.
  - intros c bg g bn n br er bp ep Hc Hg Hn _ Hr _ Hp.
    apply (method_ok_intro c bg [NotifyGenericParamCount g]); [|done..].
    destruct (Z.eqb_spec (Z.land c SIG_GENERIC) 0); [done|]. rewrite <- (app_nil_r bg).
    eapply parses_number; [done|]. apply parses_last.
Qed.

Definition grammar_type := proj1 grammar_parses.
Definition grammar_byref := proj1 (proj2 (proj2 grammar_parses)).
Definition grammar_param := proj1 (proj2 (proj2 (proj2 grammar_parses))).
Definition grammar_method := proj2 (proj2 (proj2 (proj2 (proj2 (proj2 grammar_parses))))).

Lemma Local_parses bs ev fuel : Local_ false bs ev -> (length bs < fuel)%nat ->
  (1 <= length bs)%nat /\ parses (ParseLocal fuel) bs tt ev.
Proof.
  intros [|bm em bt et Hm Hb] Hf.
  - split; [simpl; lia|]. unfold ParseLocal. apply parses_notify, parses_at_end, parses_deref.
    apply (parses_end _ _ tt _ [_]); [|apply parses_last]. apply parses_notify. by intros s rest _ _.
  - destruct (grammar_byref _ _ Hb) as [(b & bt' & -> & Hp)%starts_cons Ht].
    destruct (plain_not_cmod b Hp) as (_ & Hc & Htb & _). rewrite length_app in Hf. simpl in Hf.
    split; [rewrite length_app; simpl; lia|].
    assert (exists c bs', bm ++ b :: bt' = c :: bs' /\ (c =? ELEMENT_TYPE_TYPEDBYREF) = false) as (c & bs' & Hbs & Hct).
    { destruct Hm as [|c bt tok bs'' ev' Hcm|]; simpl; eauto. exists c. eexists. split; [done|].
      unfold is_cmod in Hcm. destruct (Z.eqb_spec c ELEMENT_TYPE_CMOD_OPT) as [->|]; [done|].
      by destruct (Z.eqb_spec c ELEMENT_TYPE_CMOD_REQD) as [->|]. }
    unfold ParseLocal. apply parses_notify. rewrite Hbs. apply parses_at_end, parses_deref. rewrite Hct, <- Hbs.
    rewrite app_assoc. apply (parses_end _ _ tt); [|apply parses_last].
    eapply parses_before_then; [eapply ModsOrConstraint_parses; [done|lia]|done|].
    apply parses_at_end, parses_deref. by eapply Ht; [|simpl; lia].
Qed.

Lemma signature_parses bs ev fuel : Signature false bs ev -> (length bs < fuel)%nat ->
  parses (parse_signature fuel) bs tt ev.
Proof.
  intros H Hf. destruct H as [c bs' ev' Hc H|c bm em bt et Hc Hm Ht|c bn n bm em bt et bp ep Hc Hn Hm Ht Hp|c bn n bl el Hc Hn Hl];
    simpl in Hf; rewrite ?length_app in Hf; unfold parse_signature; apply parses_byte.
  - unfold is_method in Hc. rewrite Hc. apply grammar_method; [done|lia].
  - rewrite Hc. cbn -[ParseField]. unfold ParseField. apply parses_notify.
    destruct (grammar_type _ _ Ht) as [(b & bt' & -> & (Hb & _)%known_plain)%starts_cons Hpt].
    eapply parses_before_then; [eapply Mods_parses; [done|lia]|by apply plain_not_cmod|].
    apply (parses_end _ _ tt); [|apply parses_last]. apply Hpt. lia.
  - rewrite Hc. cbn -[ParseProperty]. unfold ParseProperty. apply parses_notify.
    eapply parses_number; [done|]. apply parses_notify.
    destruct (grammar_type _ _ Ht) as [(b & bt' & -> & (Hb & _)%known_plain)%starts_cons Hpt].
    eapply parses_before_then; [eapply Mods_parses; [done|lia]|by apply plain_not_cmod|].
    apply (parses_then _ _ tt (b :: bt')); [apply Hpt; lia|]. apply (parses_end _ _ tt); [|apply parses_last].
    eapply times_parses; [done| |lia]. intros bs' ev' [Hs Hpp]%grammar_param Hl. split; [by eapply starts_length|].
    apply Hpp. lia.
  - rewrite Hc. cbn -[ParseLocals]. unfold ParseLocals. apply parses_notify.
    eapply parses_number; [done|]. apply parses_notify. apply (parses_end _ _ tt); [|apply parses_last].
    eapply times_parses; [done| |lia]. intros bs' ev' Hlo Hle. apply Local_parses; [done|lia].
Qed.

(** ** Soundness and termination

    [sound p N m R]: from a state where [p] holds with at most [N] bytes left,
    [m] returns, and where it succeeds it has read bytes that [R] relates to its
    result and notifications.  The only other outcome is a read of memory that is
    not there, which needs memory that ends less than four bytes beyond the blob. *)
Definition slack : nat := 4.

(** What is known where a method starts: that the cursor is at most [k] bytes
    too far, the byte it is at besides, or that it is before the end at a byte. *)
Inductive pre := Over (k : nat) | At (k : nat) (b : Z) | Peek (b : Z).
Definition holds (p : pre) (s : SigParser) : Prop :=
  match p with
  | Over k => (pbCur s <= pbEnd s + k)%nat /\ (k <= slack)%nat
  | At k b => (pbCur s <= pbEnd s + k)%nat /\ (k < slack)%nat /\ pbBase s !! pbCur s = Some b
  | Peek b => (pbCur s < pbEnd s)%nat /\ pbBase s !! pbCur s = Some b
  end.
Definition Any : pre := Over slack.
Definition Inside : pre := Over 0.

Lemma holds_any p s : holds p s -> holds Any s.
Proof. destruct p; simpl; lia. Qed.
Lemma holds_inside b s : holds (Peek b) s -> holds Inside s.
Proof. simpl; unfold slack; lia. Qed.
Lemma holds_adv0 p ev s : holds p s -> holds p (adv 0 ev s).
Proof. destruct p; simpl; by rewrite Nat.add_0_r. Qed.

Definition read_from (s : SigParser) (bs : list Z) : Prop := take (length bs) (drop (pbCur s) (pbBase s)) = bs.

Definition sound {A} (p : pre) (N : nat) (m : sp A) (R : list Z -> A -> list event -> Prop) : Prop :=
  forall s, Forall is_byte (pbBase s) -> holds p s -> (pbEnd s - pbCur s <= N)%nat ->
  match m s with
  | Ok (r, s') => pbBase s' = pbBase s /\ pbEnd s' = pbEnd s /\ holds Any s' /\
      forall a, r = Some a -> exists bs ev, s' = adv (length bs) ev s /\ read_from s bs /\ R bs a ev
  | Err e => e = Undefined /\ (length (pbBase s) < pbEnd s + slack)%nat
  end.

Section Sound.
Context {A B : Type}.
Implicit Types (m : sp A) (k : A -> sp B).

Lemma sound_weaken p q N m R : (forall s, holds q s -> holds p s) -> sound p N m R -> sound q N m R.
Proof. intros Hpq H s Hb Hq. apply H; auto. Qed.

Lemma sound_any p N m R : sound Any N m R -> sound p N m R.
Proof. apply sound_weaken, holds_any. Qed.

Lemma sound_inside b N m R : sound Inside N m R -> sound (Peek b) N m R.
Proof. apply sound_weaken, holds_inside. Qed.

Lemma sound_mono p N m (R R' : list Z -> A -> list event -> Prop) :
  sound p N m R -> (forall bs a ev, R bs a ev -> R' bs a ev) -> sound p N m R'.
Proof.
  intros H HR s Hb Hp HN. specialize (H s Hb Hp HN). destruct (m s) as [[r s']|]; [|done].
  destruct H as (? & ? & ? & H). split_and!; [done..|]. intros a Ha.
  destruct (H a Ha) as (bs & ev & ? & ? & ?). eauto 6.
Qed.

Lemma sound_less p N N' m R : (N' <= N)%nat -> sound p N m R -> sound p N' m R.
Proof. intros HN H s Hb Hp Hl. apply H; [done..|lia]. Qed.

Lemma read_from_app s bs bs' : read_from s bs -> read_from (adv (length bs) [] s) bs' -> read_from s (bs ++ bs').
Proof.
  unfold read_from. cbn [adv pbCur pbBase]. intros H1 H2. rewrite <- drop_drop in H2.
  rewrite length_app. rewrite <- (take_drop (length bs) (drop (pbCur s) (pbBase s))), H1.
  rewrite take_app_add. by rewrite H2.
Qed.

Lemma sound_bind p N m k R1 R :
  sound p N m R1 ->
  (forall a bs ev, R1 bs a ev ->
    sound Any (N - length bs) (k a) (fun bs' b ev' => R (bs ++ bs') b (ev ++ ev'))) ->
  sound p N (sp_bind m k) R.
Proof.
  intros Hm Hk s Hb Hp HN. specialize (Hm s Hb Hp HN). unfold sp_bind.
  destruct (m s) as [[[a|] s1]|e]; [|destruct Hm as (? & ? & ? & _); by split_and!|done].
  destruct Hm as (Eb & Ee & Ha & Hm). destruct (Hm a eq_refl) as (bs & ev & -> & Hr & HR).
  specialize (Hk a bs ev HR (adv (length bs) ev s)). cbn [adv pbBase pbEnd pbCur] in Hk.
  specialize (Hk Hb Ha ltac:(lia)). destruct (k a _) as [[r s2]|e]; [|done].
  destruct Hk as (Eb' & Ee' & Ha' & Hk). split_and!; [done..|]. intros b Hr'.
  destruct (Hk b Hr') as (bs' & ev' & -> & Hr2 & HR').
  exists (bs ++ bs'), (ev ++ ev'). rewrite adv_adv, <- length_app. split; [done|]. split; [|done].
  by apply read_from_app.
Qed.

Lemma sound_ret p N (a : A) (R : list Z -> A -> list event -> Prop) : R [] a [] -> sound p N (sp_ret a) R.
Proof.
  intros HR s Hb Hp%holds_any HN. cbn [sp_ret]. split_and!; [done..|].
  intros a' [= <-]. exists [], []. by rewrite adv_0.
Qed.

Lemma sound_false p N (R : list Z -> A -> list event -> Prop) : sound p N sp_false R.
Proof.
  intros s Hb Hp%holds_any HN. cbn [sp_false]. by split_and!.
Qed.

Lemma sound_notify p N e (k : unit -> sp B) (R : list Z -> B -> list event -> Prop) :
  sound p N (k tt) (fun bs b ev => R bs b (e :: ev)) -> sound p N (sp_bind (Notify e) k) R.
Proof.
  intros Hk s Hb Hp HN. unfold sp_bind, Notify.
  specialize (Hk (adv 0 [e] s) Hb (holds_adv0 _ _ _ Hp)). cbn [adv pbCur pbEnd pbBase] in Hk. specialize (Hk ltac:(lia)).
  destruct (k tt _) as [[r s2]|e']; [|done]. destruct Hk as (? & ? & ? & Hk). split_and!; [done..|].
  intros b Hr. destruct (Hk b Hr) as (bs & ev & -> & Hrd & HR). exists bs, (e :: ev).
  rewrite adv_adv. split; [done|]. split; [|done]. unfold read_from in *. simpl in Hrd.
  by rewrite Nat.add_0_r in Hrd.
Qed.
End Sound.

Lemma read_nil s : read_from s [].
Proof. done. Qed.
Lemma read_cons s b bs : pbBase s !! pbCur s = Some b -> read_from (adv 1 [] s) bs -> read_from s (b :: bs).
Proof.
  intros Hb H. apply (read_from_app s [b] bs); [|done]. unfold read_from. simpl.
  rewrite (drop_S _ b) by done. done.
Qed.

Lemma lookup_byte (mem : list Z) i b : Forall is_byte mem -> mem !! i = Some b -> is_byte b.
Proof. intros H Hb. by apply (Forall_lookup_1 _ _ _ _ H Hb). Qed.

Lemma lookup_end {A} (mem : list A) i : mem !! i = None -> (length mem <= i)%nat.
Proof. apply lookup_ge_None_1. Qed.

Section SoundBytes.
Context {B : Type}.
Implicit Types (R : list Z -> B -> list event -> Prop).

(** A look at a byte that may be beyond the end. *)
Lemma sound_deref k N (kk : Z -> sp B) R : (k < slack)%nat ->
  (forall b, is_byte b -> sound (At k b) N (kk b) R) -> sound (Over k) N (sp_bind deref kk) R.
Proof.
  intros Hk H s Hb [Hp _] HN. unfold sp_bind, deref. destruct (_ !! _) as [b|] eqn:El.
  - apply H; try done. by eapply lookup_byte.
  - apply lookup_end in El. split; [done|lia].
Qed.

Lemma sound_deref_at k c N (kk : Z -> sp B) R :
  sound (At k c) N (kk c) R -> sound (At k c) N (sp_bind deref kk) R.
Proof. intros H s Hb Hp HN. unfold sp_bind, deref. rewrite (proj2 (proj2 Hp)). by apply H. Qed.

Lemma sound_next_at k c N (kk : Z -> sp B) R :
  sound (Over (k + 1)) (N - 1) (kk c) (fun bs a ev => R (c :: bs) a ev) ->
  sound (At k c) N (sp_bind next kk) R.
Proof.
  intros Hk s Hb (Hp & Hs & El) HN. unfold next, sp_bind, deref, skip, sp_ret. rewrite El.
  specialize (Hk (adv 1 [] s) Hb). cbn [adv holds pbCur pbEnd pbBase] in Hk.
  specialize (Hk ltac:(split; lia) ltac:(lia)).
  destruct (kk c _) as [[r s']|]; [|done]. destruct Hk as (? & ? & ? & Hk). split_and!; [done..|].
  intros a Ha. destruct (Hk a Ha) as (bs & ev & -> & Hr & HR). exists (c :: bs), ev.
  rewrite adv_adv. split; [done|]. split; [by apply read_cons|done].
Qed.

Lemma sound_next k N (kk : Z -> sp B) R : (k < slack)%nat ->
  (forall b, is_byte b -> sound (Over (k + 1)) (N - 1) (kk b) (fun bs a ev => R (b :: bs) a ev)) ->
  sound (Over k) N (sp_bind next kk) R.
Proof.
  intros Hk H s Hb Hp HN.
  assert (sound (Over k) N (sp_bind deref (fun _ => sp_bind next kk)) R) as Hd.
  { apply sound_deref; [done|]. intros b Hbb. by apply sound_next_at, H. }
  specialize (Hd s Hb Hp HN). revert Hd. unfold next, sp_bind, deref. destruct (pbBase s !! pbCur s) eqn:E; [|done].
  by rewrite ?E.
Qed.

Lemma sound_at_end N (ke : sp B) (k : Z -> sp B) R :
  sound Any N ke R -> (forall b, is_byte b -> (1 <= N)%nat -> sound (Peek b) N (k b) R) ->
  sound Any N (e <~ at_end ;; if e then ke else b <~ deref ;; k b) R.
Proof.
  intros He Hk s Hb Hp HN. unfold sp_bind, at_end.
  destruct (Nat.leb_spec (pbEnd s) (pbCur s)) as [Hle|Hlt]; [by apply He|].
  unfold deref. destruct (pbBase s !! pbCur s) as [b|] eqn:El.
  - apply Hk; try done; [by eapply lookup_byte|lia].
  - apply lookup_end in El. unfold slack. split; [done|lia].
Qed.

Lemma sound_skip b N (k : unit -> sp B) R :
  sound Inside (N - 1) (k tt) (fun bs a ev => R (b :: bs) a ev) -> sound (Peek b) N (sp_bind skip k) R.
Proof.
  intros Hk s Hb [Hlt El] HN. unfold sp_bind, skip. specialize (Hk (adv 1 [] s) Hb).
  cbn [adv holds Inside pbCur pbEnd pbBase] in Hk. specialize (Hk ltac:(split; lia) ltac:(lia)).
  destruct (k tt _) as [[r s']|]; [|done]. destruct Hk as (? & ? & ? & Hk). split_and!; [done..|].
  intros a Ha. destruct (Hk a Ha) as (bs & ev & -> & Hr & HR). exists (b :: bs), ev.
  rewrite adv_adv. split; [done|]. split; [by apply read_cons|done].
Qed.

Lemma sound_byte p N (k : Z -> sp B) R :
  (forall b, is_byte b -> (1 <= N)%nat -> sound Inside (N - 1) (k b) (fun bs a ev => R (b :: bs) a ev)) ->
  sound p N (sp_bind ParseByte k) R.
Proof.
  intros Hk. apply sound_any.
  assert (sound Any N (e <~ at_end ;; if e then sp_false else b <~ deref ;; skip ;;~ k b) R) as H.
  { apply sound_at_end; [apply sound_false|]. intros b Hb HN. by apply sound_skip, Hk. }
  intros s Hb Hp HN. specialize (H s Hb Hp HN). revert H. unfold ParseByte, sp_bind, at_end.
  destruct (_ <=? _)%nat; [done|]. unfold deref. by destruct (_ !! _).
Qed.
End SoundBytes.

Lemma two_bytes b1 b2 : is_byte b2 -> 0x80 <= b1 < 0xC0 ->
  exists n, 0 <= n < 0x4000 /\ b1 mod 0x40 * 2 ^ 8 + b2 = n /\ [b1; b2] = [0x80 + n / 2 ^ 8; n mod 2 ^ 8].
Proof.
  unfold is_byte. intros. eexists. split; [|split; [reflexivity|]]; [lia|]. f_equal; [lia|]. f_equal. lia.
Qed.

(** The four bytes of a large number. *)
Lemma four_bytes c b1 b2 b3 b4 : is_byte b2 -> is_byte b3 -> is_byte b4 -> c <= b1 < c + 0x20 -> c mod 0x20 = 0 ->
  exists n, 0 <= n < 0x20000000 /\ b1 mod 0x20 * 2 ^ 24 + b2 * 2 ^ 16 + b3 * 2 ^ 8 + b4 = n /\
  [b1; b2; b3; b4] = [c + n / 2 ^ 24; n / 2 ^ 16 mod 2 ^ 8; n / 2 ^ 8 mod 2 ^ 8; n mod 2 ^ 8].
Proof.
  unfold is_byte. intros. eexists. split; [|split; [reflexivity|]]; [lia|].
  repeat (f_equal; [lia|]). f_equal. lia.
Qed.

Lemma sound_ParseNumber p N :
  sound p N ParseNumber (fun bs n ev => Number bs n /\ ev = [] /\ (1 <= N)%nat).
Proof.
  unfold ParseNumber. apply sound_byte. intros b1 H1 HN. pose proof (byte_bits_of b1 H1) as Hb.
  unfold is_byte in *. destruct (Z.eqb_spec b1 0xff); [apply sound_false|].
  rewrite (bits_80 _ Hb). destruct (Z.ltb_spec b1 0x80).
  { apply sound_ret. split; [|done]. constructor. lia. }
  apply sound_byte. intros b2 H2 _. rewrite (bits_40 _ Hb) by lia. destruct (Z.ltb_spec b1 0xC0).
  { apply sound_ret. split; [|done]. rewrite (bits_3f _ Hb), lor_bytes2 by done.
    destruct (two_bytes b1 b2) as (v & Hv & -> & ->); [done|lia|]. by constructor. }
  rewrite (bits_20 _ Hb) by lia. destruct (Z.ltb_spec b1 0xE0); [|apply sound_false].
  apply sound_byte. intros b3 Hb3 _. apply sound_byte. intros b4 Hb4 _.
  apply sound_ret. split; [|done]. rewrite (bits_1f _ Hb), lor_bytes4 by done. unfold is_byte in *.
  destruct (four_bytes 0xC0 b1 b2 b3 b4) as (v & Hv & -> & ->); [done..|lia|done|]. by constructor.
Qed.

Lemma sound_CorSigUncompressData N :
  sound Inside N CorSigUncompressData
    (fun bs n ev => 0 <= n /\ TypeDefOrRefEncoded true bs (coded_token n) /\ ev = []).
Proof.
  unfold CorSigUncompressData, CorSigUncompressBigData. apply sound_deref; [unfold slack; lia|].
  intros b1 H1. pose proof (byte_bits_of b1 H1) as Hb. rewrite (bits_80 _ Hb). unfold is_byte in H1.
  destruct (Z.ltb_spec b1 0x80).
  { assert (sound (At 0 b1) N (sp_bind next sp_ret) (fun bs n ev =>
      0 <= n /\ TypeDefOrRefEncoded true bs (coded_token n) /\ ev = [])) as Hn.
    { apply sound_next_at, sound_ret. split; [lia|]. split; [|done]. constructor. constructor. lia. }
    intros s Hm Hp HN. specialize (Hn s Hm Hp HN). revert Hn. unfold sp_bind. by destruct (next s) as [[[]]|]. }
  apply sound_deref_at. rewrite (bits_C0 _ Hb), (proj2 (Z.leb_le _ _)) by lia. simpl andb.
  destruct (Z.ltb_spec b1 0xC0).
  - apply sound_next_at, sound_next; [unfold slack; lia|]. intros b2 H2. apply sound_ret.
    rewrite (bits_3f _ Hb), lor_bytes2 by done. destruct (two_bytes b1 b2) as (v & Hv & -> & ->); [done|lia|].
    split; [lia|]. split; [|done]. constructor. by constructor.
  - apply sound_next_at, sound_next; [unfold slack; lia|]. intros b2 Hb2.
    apply sound_next; [unfold slack; lia|]. intros b3 Hb3.
    apply sound_next; [unfold slack; lia|]. intros b4 Hb4. apply sound_ret.
    rewrite (bits_1f _ Hb), lor_bytes4 by done. destruct (Z.ltb_spec b1 0xE0).
    + destruct (four_bytes 0xC0 b1 b2 b3 b4) as (v & Hv & -> & ->); [done..|lia|done|].
      split; [lia|]. split; [|done]. constructor. by constructor.
    + destruct (four_bytes 0xE0 b1 b2 b3 b4) as (v & Hv & -> & ->); [done..|lia|done|].
      split; [lia|]. split; [|done]. by constructor 2.
Qed.

Lemma sound_token N :
  sound Inside N ParseTypeDefOrRefEncoded (fun bs tok ev => TypeDefOrRefEncoded true bs tok /\ ev = []).
Proof.
  eapply sound_bind; [apply sound_CorSigUncompressData|]. cbn beta. intros n bs ev (Hn & Ht & ->).
  apply sound_ret. by rewrite app_nil_r, coded_token_bits.
Qed.

(** The phrase read, which took at least one byte. *)
Definition reads (P : list Z -> list event -> Prop) (N : nat) (bs : list Z) (_ : unit) (ev : list event) : Prop :=
  P bs ev /\ (1 <= length bs)%nat /\ (1 <= N)%nat.

Lemma sound_notify_last p N e : sound p N (Notify e) (fun bs _ ev => bs = [] /\ ev = [e]).
Proof.
  intros s Hb Hp%holds_any HN. cbn [Notify]. split_and!; [done..|by apply holds_adv0|].
  intros a [= <-]. by exists [], [e].
Qed.

(** A notification at the end. *)
Lemma sound_end {A} p N (m : sp A) (k : A -> sp unit) e R1 R :
  sound p N m R1 -> (forall a, k a = Notify (e a)) -> (forall bs a ev, R1 bs a ev -> R bs tt (ev ++ [e a])) ->
  sound p N (sp_bind m k) R.
Proof.
  intros Hm Hk HR. eapply sound_bind; [done|]. intros a bs ev H1. rewrite Hk.
  eapply sound_mono; [apply sound_notify_last|]. intros bs' [] ev' [-> ->]. rewrite app_nil_r. auto.
Qed.

Lemma Token_nonempty lax bs tok : TypeDefOrRefEncoded lax bs tok -> (1 <= length bs)%nat.
Proof. intros [bs' n H|]; [by eapply Number_nonempty|simpl; lia]. Qed.

Lemma sound_ParseCustomMod p N : sound p N ParseCustomMod
  (fun bs _ ev => exists c bt tok, bs = c :: bt /\ ev = [NotifyCustomMod c tok] /\ is_cmod c = true /\
    TypeDefOrRefEncoded true bt tok /\ (1 <= N)%nat).
Proof.
  unfold ParseCustomMod. apply sound_byte. intros c Hc HN. destruct (is_cmod c) eqn:E; [|apply sound_false].
  eapply sound_end; [apply sound_token|done|]. cbn beta. intros bs tok ev [Ht ->]. by exists c, bs, tok.
Qed.

Lemma sound_mods fuel N : (N < fuel)%nat ->
  sound Any N (ParseOptionalCustomMods fuel) (fun bs _ ev => CustomMods true bs ev).
Proof.
  revert N. induction fuel as [|fuel IH]; intros N HN; [lia|]. cbn [ParseOptionalCustomMods].
  apply sound_at_end; [apply sound_ret; constructor|]. intros b Hb H1.
  destruct (is_cmod b) eqn:E; [|apply sound_ret; constructor].
  eapply sound_bind; [apply sound_ParseCustomMod|]. cbn beta. intros _ bs ev (c & bt & tok & -> & -> & Hc & Ht & _).
  eapply sound_mono; [apply IH; simpl; lia|]. cbn beta. intros bs' _ ev' Hm. simpl. by constructor.
Qed.

Lemma sound_mods_or_constraint fuel N : (N < fuel)%nat ->
  sound Any N (ParseOptionalCustomModsOrConstraint fuel) (fun bs _ ev => ModsOrConstraint true bs ev).
Proof.
  revert N. induction fuel as [|fuel IH]; intros N HN; [lia|]. cbn [ParseOptionalCustomModsOrConstraint].
  apply sound_at_end; [apply sound_ret; constructor|]. intros b Hb H1.
  destruct (is_cmod b) eqn:E.
  - eapply sound_bind; [apply sound_ParseCustomMod|]. cbn beta. intros _ bs ev (c & bt & tok & -> & -> & Hc & Ht & _).
    eapply sound_mono; [apply IH; simpl; lia|]. cbn beta. intros bs' _ ev' Hm. simpl. by constructor.
  - destruct (Z.eqb_spec b ELEMENT_TYPE_PINNED) as [->|]; [|apply sound_ret; constructor].
    apply sound_notify, sound_skip, sound_any. eapply sound_mono; [apply IH; lia|]. cbn beta.
    intros bs' _ ev' Hm. by constructor.
Qed.

Lemma sound_times (P : list Z -> list event -> Prop) (body : sp unit) fuel n N : 0 <= n -> (N < fuel)%nat ->
  (forall N', (N' <= N)%nat -> sound Any N' body (reads P N')) ->
  sound Any N (times fuel n body) (fun bs _ ev => Repeat P n bs ev).
Proof.
  revert n N. induction fuel as [|fuel IH]; intros n N Hn HN Hb; [lia|]. cbn [times].
  destruct (Z.leb_spec n 0).
  { apply sound_ret. replace n with 0 by lia. constructor. }
  eapply sound_bind; [by apply Hb|]. cbn beta. intros _ bs ev (Hp & Hl & HN1).
  eapply sound_mono; [apply IH; [lia|lia|]|].
  - intros N' HN'. apply Hb. lia.
  - cbn beta. intros bs' _ ev' Hr. replace n with (n - 1 + 1) by lia. constructor; [done|lia|done].
Qed.

Lemma Number_nonneg bs n : Number bs n -> 0 <= n.
Proof. intros []; lia. Qed.

Lemma sound_noted N notify : sound Any N (size <~ ParseNumber ;; Notify (notify size)) (reads (Noted notify) N).
Proof.
  eapply sound_end; [apply sound_ParseNumber|done|]. cbn beta. intros bs n ev (Hn & -> & HN).
  split; [by constructor|]. split; [by eapply Number_nonempty|done].
Qed.

Lemma sound_ParseArrayShape fuel N : (N < fuel)%nat ->
  sound Any N (ParseArrayShape fuel) (fun bs _ ev => ArrayShape bs ev).
Proof.
  intros HN. unfold ParseArrayShape. apply sound_notify.
  eapply sound_bind; [apply sound_ParseNumber|]. cbn beta. intros rank br er (Hr & -> & _). apply sound_notify.
  eapply sound_bind; [apply sound_ParseNumber|]. cbn beta. intros k bk ek (Hk & -> & _). apply sound_notify.
  eapply sound_bind; [apply sound_times; [by eapply Number_nonneg|lia|intros; apply sound_noted]|]. cbn beta.
  intros _ bs es Hs.
  eapply sound_bind; [apply sound_ParseNumber|]. cbn beta. intros l bl el (Hl & -> & _). apply sound_notify.
  eapply sound_end; [apply sound_times; [by eapply Number_nonneg|lia|intros; apply sound_noted]|done|]. cbn beta.
  intros bs' _ es' Hs'. simpl. by apply Shape.
Qed.

(** Phrases are not empty. *)
Lemma Type_nonempty lax bs ev : Type_ lax bs ev -> (1 <= length bs)%nat.
Proof. intros []; simpl; lia. Qed.
Lemma Byref_nonempty lax bs ev : ByrefType lax bs ev -> (1 <= length bs)%nat.
Proof. intros []; simpl; [by eapply Type_nonempty|lia]. Qed.
Lemma Param_nonempty lax bs ev : Param lax bs ev -> (1 <= length bs)%nat.
Proof. intros [|? ? ? ? ? ?%Byref_nonempty]; rewrite length_app; simpl; lia. Qed.
Lemma Local_nonempty lax bs ev : Local_ lax bs ev -> (1 <= length bs)%nat.
Proof. intros [|? ? ? ? ? ?%Byref_nonempty]; rewrite ?length_app; simpl; lia. Qed.

Lemma Types_Repeat lax n bs ev : Repeat (Type_ lax) n bs ev -> Types lax n bs ev.
Proof. induction 1; by constructor. Qed.

Section SoundNested.
Variable fuel : nat.
Variable ParseType : sp unit.
Hypothesis sound_type : forall N, (N < fuel)%nat -> sound Any N ParseType (reads (Type_ true) N).

Lemma sound_byref_type b N : (N < fuel)%nat ->
  sound (Peek b) N (byref_type b ParseType) (fun bs _ ev => ByrefType true bs ev).
Proof using sound_type.
  intros HN. unfold byref_type. destruct (Z.eqb_spec b ELEMENT_TYPE_BYREF) as [->|].
  - assert (sound (Peek ELEMENT_TYPE_BYREF) N (Notify NotifyByref ;;~ skip ;;~ ParseType)
      (fun bs _ ev => ByrefType true bs ev)) as H.
    { apply sound_notify, sound_skip, sound_any. eapply sound_mono; [apply sound_type; lia|].
      intros bs [] ev [Ht _]. by constructor. }
    intros s Hm Hp Hl. exact (H s Hm Hp Hl).
  - apply sound_any. eapply sound_bind; [by apply sound_ret with (R := fun bs _ ev => bs = [] /\ ev = [])|].
    cbn beta. intros [] bs ev [-> ->]. eapply sound_mono; [apply sound_type; simpl; lia|].
    intros bs [] ev [Ht _]. by constructor.
Qed.

(** What follows the modifiers: one byte with a notification of its own, or a type. *)
Lemma sound_byte_case c e N :
  sound (Peek c) N (Notify e ;;~ skip) (fun bs _ ev => bs = [c] /\ ev = [e]).
Proof.
  apply sound_notify.
  assert (sound (Peek c) N (skip ;;~ sp_ret tt) (fun bs (_ : unit) ev => bs = [c] /\ e :: ev = [e])) as H.
  { by apply sound_skip, sound_ret. }
  intros s Hm Hp Hl. specialize (H s Hm Hp Hl). exact H.
Qed.

Lemma sound_ParseParam N : (N < fuel)%nat -> sound Any N (ParseParam fuel ParseType) (reads (Param true) N).
Proof using sound_type.
  intros HN. unfold ParseParam. apply sound_notify.
  eapply sound_bind; [by apply sound_mods|]. cbn beta. intros [] bm em Hm.
  apply sound_at_end; [apply sound_false|]. intros b Hb H1.
  destruct (Z.eqb_spec b ELEMENT_TYPE_TYPEDBYREF) as [->|].
  - eapply sound_end; [apply sound_byte_case|done|]. cbn beta. intros bs [] ev [-> ->].
    assert (Param true (bm ++ [ELEMENT_TYPE_TYPEDBYREF]) (NotifyBeginParam :: em ++ [NotifyTypedByref; NotifyEndParam]))
      as HP by by constructor.
    split; [done|]. split; [by eapply Param_nonempty|lia].
  - eapply sound_end; [apply sound_byref_type; lia|done|]. cbn beta. intros bs [] ev Ht.
    assert (Param true (bm ++ bs) (NotifyBeginParam :: em ++ ev ++ [NotifyEndParam])) as HP by by constructor.
    split; [done|]. split; [by eapply Param_nonempty|lia].
Qed.

Lemma sound_ParseRetType N : (N < fuel)%nat ->
  sound Any N (ParseRetType fuel ParseType) (fun bs _ ev => RetType true bs ev).
Proof using sound_type.
  intros HN. unfold ParseRetType. apply sound_notify.
  eapply sound_bind; [by apply sound_mods|]. cbn beta. intros [] bm em Hm.
  apply sound_at_end; [apply sound_false|]. intros b Hb H1.
  destruct (Z.eqb_spec b ELEMENT_TYPE_TYPEDBYREF) as [->|];
    [|destruct (Z.eqb_spec b ELEMENT_TYPE_VOID) as [->|]].
  - eapply sound_end; [apply sound_byte_case|done|]. cbn beta. intros bs [] ev [-> ->]. by constructor.
  - eapply sound_end; [apply sound_byte_case|done|]. cbn beta. intros bs [] ev [-> ->]. by constructor.
  - eapply sound_end; [apply sound_byref_type; lia|done|]. cbn beta. intros bs [] ev Ht. by constructor.
Qed.

Lemma sound_method_params k n seen N : 0 <= n -> (N < fuel)%nat -> (N < k)%nat ->
  sound Any N (method_params fuel ParseType k n seen) (fun bs _ ev => MethodParams true seen n bs ev).
Proof using sound_type.
  revert n seen N. induction k as [|k IH]; intros n seen N Hn HN Hk; [lia|]. cbn [method_params].
  destruct (Z.leb_spec n 0).
  { apply sound_ret. replace n with 0 by lia. constructor. }
  apply sound_at_end; [apply sound_false|]. intros b Hb H1.
  assert (forall seen' bs ev, Param true bs ev -> (1 <= length bs)%nat ->
    sound Any (N - length bs) (method_params fuel ParseType k (n - 1) seen')
      (fun bs' _ ev' => MethodParams true seen' (n - 1) bs' ev')) as Hrest.
  { intros seen' bs ev Hp Hl. apply IH; lia. }
  destruct (Z.eqb_spec b ELEMENT_TYPE_SENTINEL) as [->|].
  - destruct seen; [apply sound_false|]. apply sound_notify, sound_skip, sound_any.
    eapply sound_bind; [apply sound_ParseParam; lia|]. cbn beta. intros _ bp ep (Hp & Hl & _).
    eapply sound_mono; [eapply sound_less; [|by eapply Hrest]; lia|]. cbn beta.
    intros bs _ ev Hm. replace n with (n - 1 + 1) by lia. constructor; [done|lia|done].
  - apply sound_any. eapply sound_bind; [by apply sound_ParseParam|]. cbn beta. intros _ bp ep (Hp & Hl & _).
    eapply sound_mono; [by eapply Hrest|]. cbn beta.
    intros bs _ ev Hm. replace n with (n - 1 + 1) by lia. constructor; [done|lia|done].
Qed.

Lemma sound_ParseMethod c p N : (N < fuel)%nat ->
  sound p N (ParseMethod fuel ParseType c) (fun bs _ ev => Method true c bs ev).
Proof using sound_type.
  intros HN. apply sound_any. unfold ParseMethod. apply sound_notify.
  apply sound_bind with (fun bg (_ : unit) eg => Z.land c SIG_GENERIC = 0 /\ bg = [] /\ eg = [] \/
    Z.land c SIG_GENERIC <> 0 /\ exists g, Number bg g /\ eg = [NotifyGenericParamCount g]).
  { destruct (Z.eqb_spec (Z.land c SIG_GENERIC) 0); [apply sound_ret; auto|].
    eapply sound_end; [apply sound_ParseNumber|done|]. cbn beta. intros bg g eg (Hg & -> & _). eauto. }
  intros _ bg eg Hg.
  eapply sound_bind; [apply sound_ParseNumber|]. cbn beta. intros n bn en (Hn & -> & _). apply sound_notify.
  eapply sound_bind; [apply sound_ParseRetType; lia|]. cbn beta. intros _ br er Hr.
  eapply sound_end; [apply sound_method_params; [by eapply Number_nonneg|lia|lia]|done|]. cbn beta.
  intros bp _ ep Hp. destruct Hg as [(Hc & -> & ->)|(Hc & g & Hg & ->)]; simpl; by constructor.
Qed.
End SoundNested.

(** The cases of [ParseType], each with the production it reads. *)
Section SoundType.
Variable fuel : nat.
Hypothesis sound_type : forall N, (N < fuel)%nat -> sound Any N (ParseType fuel) (reads (Type_ true) N).

Definition body_of (e : Z) (bs : list Z) (_ : unit) (ev : list event) : Prop :=
  Type_ true (e :: bs) (in_type ev).

Lemma sound_ptr N : (N < fuel)%nat ->
  sound Inside N (type_body fuel (ParseType fuel) ELEMENT_TYPE_PTR) (body_of ELEMENT_TYPE_PTR).
Proof using sound_type.
  intros HN. apply sound_any. cbn -[sp_bind ParseOptionalCustomMods ParseType]. apply sound_notify.
  eapply sound_bind; [by apply sound_mods|]. cbn beta. intros [] bm em Hm.
  apply sound_at_end; [apply sound_false|]. intros b Hb H1.
  destruct (Z.eqb_spec b ELEMENT_TYPE_VOID) as [->|].
  - apply sound_skip. eapply sound_mono; [apply sound_notify_last|]. cbn beta. intros bs [] ev [-> ->].
    by constructor.
  - apply sound_any. eapply sound_mono; [apply sound_type; lia|]. intros bs [] ev [Ht _]. by constructor.
Qed.

Lemma sound_fnptr N : (N < fuel)%nat ->
  sound Inside N (type_body fuel (ParseType fuel) ELEMENT_TYPE_FNPTR) (body_of ELEMENT_TYPE_FNPTR).
Proof using sound_type.
  intros HN. cbn -[sp_bind ParseMethod ParseType]. apply sound_notify, sound_byte. intros c Hc H1.
  eapply sound_mono; [apply sound_ParseMethod; [done|lia]|]. cbn beta. intros bs [] ev Hm. by constructor.
Qed.

Lemma sound_array N : (N < fuel)%nat ->
  sound Inside N (type_body fuel (ParseType fuel) ELEMENT_TYPE_ARRAY) (body_of ELEMENT_TYPE_ARRAY).
Proof using sound_type.
  intros HN. apply sound_any. cbn -[sp_bind ParseArrayShape ParseType]. apply sound_notify.
  eapply sound_bind; [by apply sound_type|]. intros [] bt et [Ht _].
  eapply sound_mono; [apply sound_ParseArrayShape; lia|]. cbn beta. intros bs [] ev Hs. by constructor.
Qed.

Lemma sound_szarray N : (N < fuel)%nat ->
  sound Inside N (type_body fuel (ParseType fuel) ELEMENT_TYPE_SZARRAY) (body_of ELEMENT_TYPE_SZARRAY).
Proof using sound_type.
  intros HN. apply sound_any. cbn -[sp_bind ParseOptionalCustomMods ParseType]. apply sound_notify.
  eapply sound_bind; [by apply sound_mods|]. cbn beta. intros [] bm em Hm.
  eapply sound_mono; [apply sound_type; lia|]. intros bs [] ev [Ht _]. by constructor.
Qed.

Lemma sound_genericinst N : (N < fuel)%nat ->
  sound Inside N (type_body fuel (ParseType fuel) ELEMENT_TYPE_GENERICINST) (body_of ELEMENT_TYPE_GENERICINST).
Proof using sound_type.
  intros HN. cbn -[sp_bind times ParseType]. apply sound_byte. intros c Hc H1.
  destruct (negb _ && negb _) eqn:E; [apply sound_false|].
  eapply sound_bind; [apply sound_token|]. cbn beta. intros tok bs es [Ht ->].
  eapply sound_bind; [apply sound_ParseNumber|]. cbn beta. intros n bn en (Hn & -> & _). apply sound_notify.
  eapply sound_mono; [apply sound_times; [by eapply Number_nonneg|lia|intros; apply sound_type; lia]|].
  cbn beta. intros bt [] et Hr%Types_Repeat. unfold body_of. apply Type_genericinst; [|done..].
  destruct (Z.eqb_spec c ELEMENT_TYPE_CLASS); [auto|]. destruct (Z.eqb_spec c ELEMENT_TYPE_VALUETYPE); [auto|done].
Qed.

Lemma sound_token_type e N : e = ELEMENT_TYPE_CLASS \/ e = ELEMENT_TYPE_VALUETYPE ->
  sound Inside N (type_body fuel (ParseType fuel) e) (body_of e).
Proof.
  intros [-> | ->]; cbn -[sp_bind ParseType]; apply sound_notify;
    (eapply sound_end; [apply sound_token|done|]); cbn beta; intros bs tok ev [Ht ->]; by constructor.
Qed.

Lemma sound_var_type e N : e = ELEMENT_TYPE_VAR \/ e = ELEMENT_TYPE_MVAR ->
  sound Inside N (type_body fuel (ParseType fuel) e) (body_of e).
Proof.
  intros [-> | ->]; cbn -[sp_bind ParseType ParseNumber];
    (eapply sound_end; [apply sound_ParseNumber|done|]); cbn beta; intros bs n ev (Hn & -> & _); by constructor.
Qed.

Lemma sound_type_body e N : (N < fuel)%nat ->
  sound Inside N (type_body fuel (ParseType fuel) e) (body_of e).
Proof using sound_type.
  intros HN. destruct (is_known e) eqn:Ek.
  - destruct (is_simple e) eqn:Es.
    { unfold type_body. rewrite Es. eapply sound_mono; [apply sound_notify_last|]. cbn beta.
      intros bs [] ev [-> ->]. by constructor. }
    apply bool_decide_eq_true in Ek. apply bool_decide_eq_false in Es.
    unfold known_types in Ek. apply elem_of_app in Ek as [Ek|Ek]; [done|].
    repeat (apply elem_of_cons in Ek as [->|Ek]);
      [by apply sound_ptr|apply sound_token_type; auto|apply sound_token_type; auto|by apply sound_fnptr
      |by apply sound_array|by apply sound_szarray|by apply sound_genericinst
      |apply sound_var_type; auto|apply sound_var_type; auto|by apply elem_of_nil in Ek].
  - assert (forall c, is_known c = true -> (e =? c) = false) as Hne.
    { intros c Hc. destruct (Z.eqb_spec e c) as [->|]; [congruence|done]. }
    unfold type_body. destruct (is_simple e) eqn:Es; [by rewrite simple_known in Ek|].
    rewrite !Hne by done. apply sound_ret. by constructor.
Qed.
End SoundType.

Lemma sound_ParseType fuel N : (N < fuel)%nat -> sound Any N (ParseType fuel) (reads (Type_ true) N).
Proof.
  revert N. induction fuel as [|fuel IH]; intros N HN; [lia|]. cbn [ParseType]. apply sound_notify, sound_byte.
  intros e He H1. eapply sound_end; [apply sound_type_body; [done|lia]|done|]. cbn beta. intros bs [] ev Ht.
  split; [exact Ht|]. simpl. lia.
Qed.

Lemma sound_ParseLocal fuel N : (N < fuel)%nat -> sound Any N (ParseLocal fuel) (reads (Local_ true) N).
Proof.
  intros HN. unfold ParseLocal. apply sound_notify, sound_at_end; [apply sound_false|]. intros b Hb H1.
  destruct (Z.eqb_spec b ELEMENT_TYPE_TYPEDBYREF) as [->|].
  - eapply sound_end; [apply sound_byte_case|done|]. cbn beta. intros bs [] ev [-> ->].
    split; [constructor|simpl; lia].
  - apply sound_any. apply sound_bind with
      (fun bs (_ : unit) ev => exists bm em bt et, bs = bm ++ bt /\ ev = em ++ et /\
         ModsOrConstraint true bm em /\ ByrefType true bt et).
    { eapply sound_bind; [by apply sound_mods_or_constraint|]. cbn beta. intros _ bm em Hm.
      apply sound_at_end; [apply sound_false|]. intros c Hc _.
      eapply sound_mono; [apply sound_byref_type with (fuel := fuel); [intros; by apply sound_ParseType|lia]|]. cbn beta.
      intros bt [] et Ht. by exists bm, em, bt, et. }
    intros _ bs ev (bm & em & bt & et & -> & -> & Hm & Ht). eapply sound_mono; [apply sound_notify_last|].
    cbn beta. intros bs' [] ev' [-> ->]. rewrite app_nil_r, <- app_assoc.
    assert (Local_ true (bm ++ bt) (NotifyBeginLocal :: em ++ et ++ [NotifyEndLocal])) as HL by by constructor.
    split; [done|]. split; [by eapply Local_nonempty|lia].
Qed.

Lemma sound_signature fuel N : (N < fuel)%nat ->
  sound Any N (parse_signature fuel) (fun bs _ ev => Signature true bs ev).
Proof.
  intros HN. assert (forall N, (N < fuel)%nat -> sound Any N (ParseType fuel) (reads (Type_ true) N)) as HT.
  { intros. by apply sound_ParseType. }
  unfold parse_signature. apply sound_byte. intros c Hc H1. cbn zeta.
  destruct (Z.land c 0xf <=? SIG_METHOD_VARARG) eqn:Em.
  { eapply sound_mono; [apply sound_ParseMethod; [done|lia]|]. cbn beta. intros bs [] ev Hm. by constructor. }
  apply sound_any. destruct (Z.eqb_spec (Z.land c 0xf) SIG_FIELD) as [Ef|].
  { unfold ParseField. apply sound_notify. eapply sound_bind; [apply sound_mods; lia|]. cbn beta. intros _ bm em Hm.
    eapply sound_end; [apply HT; lia|done|]. cbn beta. intros bt [] et [Ht _]. by apply Sig_field. }
  destruct (Z.eqb_spec (Z.land c 0xf) SIG_LOCAL_SIG) as [El|].
  { unfold ParseLocals. apply sound_notify. eapply sound_bind; [apply sound_ParseNumber|]. cbn beta.
    intros k bn en (Hn & -> & _). apply sound_notify.
    eapply sound_end; [apply sound_times; [by eapply Number_nonneg|lia|intros; apply sound_ParseLocal; lia]|done|].
    cbn beta. intros bl _ el Hl. by apply Sig_locals. }
  destruct (Z.eqb_spec (Z.land c 0xf) SIG_PROPERTY) as [Ep|]; [|apply sound_false].
  unfold ParseProperty. apply sound_notify. eapply sound_bind; [apply sound_ParseNumber|]. cbn beta.
  intros k bn en (Hn & -> & _). apply sound_notify.
  eapply sound_bind; [apply sound_mods; lia|]. cbn beta. intros _ bm em Hm.
  eapply sound_bind; [apply HT; lia|]. cbn beta. intros _ bt et [Ht _].
  eapply sound_end; [apply sound_times; [by eapply Number_nonneg|lia|intros; apply (sound_ParseParam fuel); [done|lia]]|done|].
  cbn beta. intros bp _ ep Hp. simpl. by apply Sig_property.
Qed.

(** ** Properties *)

(** C26: Every signature of the documented grammar is parsed: from a blob that
    starts with its bytes the parser reads exactly them and notifies its client
    of exactly the phrases of the signature, in order, whatever follows. *)
Theorem parse_complete bs ev rest cbBuffer :
  Signature false bs ev -> (length bs <= cbBuffer)%nat ->
  Parse (bs ++ rest) cbBuffer = Ok (Some tt, mkSigParser (bs ++ rest) (length bs) cbBuffer ev).
Proof.
  intros H Hl. unfold Parse. by rewrite (signature_parses bs ev (cbBuffer + 2) H ltac:(lia) _ rest).
Qed.

(** [instance class Foo&(!0, modopt(Bar) int32[,], ..., typedref)]: a generic
    method with modifiers, an array shape and a sentinel. *)
Definition method_example : list Z :=
  [0x30; 1; 3; 0x10; 0x12; 0x05; 0x13; 0; 0x20; 0x49; 0x14; 0x08; 2; 1; 0x81; 0x00; 0; 0x41; 0x16].
Definition method_example_events : list event :=
  [NotifyBeginMethod 0x30; NotifyGenericParamCount 1; NotifyParamCount 3;
   NotifyBeginRetType; NotifyByref; NotifyBeginType; NotifyTypeClass; NotifyTypeDefOrRef 0x01000001; NotifyEndType;
   NotifyEndRetType;
   NotifyBeginParam; NotifyBeginType; NotifyTypeGenericTypeVariable 0; NotifyEndType; NotifyEndParam;
   NotifyBeginParam; NotifyCustomMod 0x20 0x01000012; NotifyBeginType; NotifyTypeArray; NotifyBeginType;
   NotifyTypeSimple 0x08; NotifyEndType; NotifyBeginArrayShape; NotifyRank 2; NotifyNumSizes 1; NotifySize 256;
   NotifyNumLoBounds 0; NotifyEndArrayShape; NotifyEndType; NotifyEndParam;
   NotifySentinal; NotifyBeginParam; NotifyTypedByref; NotifyEndParam; NotifyEndMethod].

Example method_example_parses :
  Parse method_example 19 = Ok (Some tt, mkSigParser method_example 19 19 method_example_events).
Proof. vm_compute. reflexivity. Qed.

Lemma field_example : Signature false [0x06; 0x1d; 0x12; 0x05]
  [NotifyBeginField 6; NotifyBeginType; NotifyTypeSzArray; NotifyBeginType; NotifyTypeClass;
   NotifyTypeDefOrRef 0x01000001; NotifyEndType; NotifyEndType; NotifyEndField].
Proof.
  apply (Sig_field false 6 [] [] [0x1d; 0x12; 0x05]
    (in_type (NotifyTypeSzArray :: [] ++ in_type [NotifyTypeClass; NotifyTypeDefOrRef 0x01000001])));
    [done|constructor|].
  apply (Type_szarray false [] [] [0x12; 0x05]); [constructor|].
  apply (Type_class false [0x05] (coded_token 5)). constructor. constructor. lia.
Qed.

Lemma parse_complete_witness :
  Parse ([0x06; 0x1d; 0x12; 0x05] ++ [0xff]) 5 =
  Ok (Some tt, mkSigParser [0x06; 0x1d; 0x12; 0x05; 0xff] 4 5
    [NotifyBeginField 6; NotifyBeginType; NotifyTypeSzArray; NotifyBeginType; NotifyTypeClass;
     NotifyTypeDefOrRef 0x01000001; NotifyEndType; NotifyEndType; NotifyEndField]).
Proof. apply parse_complete; [apply field_example|simpl; lia]. Defined.

(** C27: What the parser accepts is a signature of the grammar extended with the
    three things it lets pass and with the kind masked out of the first byte: the
    bytes read are derived as the notifications it made, and a token that is cut
    off by the end makes it read at most four bytes beyond. *)
Theorem parse_sound pb cbBuffer s :
  Forall is_byte pb -> Parse pb cbBuffer = Ok (Some tt, s) ->
  exists bs rest, pb = bs ++ rest /\ pbCur s = length bs /\ (length bs <= cbBuffer + 4)%nat /\
    Signature true bs (notified s).
Proof.
  intros Hb H. pose proof (sound_signature (cbBuffer + 2) cbBuffer ltac:(lia)
    (mkSigParser pb 0 cbBuffer []) Hb) as Hs. cbn [Any holds pbCur pbEnd pbBase] in Hs.
  specialize (Hs ltac:(unfold slack; lia) ltac:(lia)). unfold Parse in H. rewrite H in Hs.
  destruct Hs as (_ & He & [Hc _] & Hs). destruct (Hs tt eq_refl) as (bs & ev & -> & Hr & HS).
  unfold read_from in Hr. simpl in *. exists bs, (drop (length bs) pb).
  split_and!; [|done|unfold slack in Hc; lia|done]. rewrite <- Hr at 1. by rewrite take_drop.
Qed.

Lemma parse_sound_witness :
  exists bs rest, method_example ++ [7] = bs ++ rest /\
    pbCur (mkSigParser (method_example ++ [7]) 19 20 method_example_events) = length bs /\
    (length bs <= 20 + 4)%nat /\ Signature true bs method_example_events.
Proof.
  apply (parse_sound (method_example ++ [7]) 20 (mkSigParser (method_example ++ [7]) 19 20 method_example_events)).
  - repeat constructor; discriminate.
  - vm_compute. reflexivity.
Defined.

(** C28: The parser returns on every blob, also where a count promises far more
    phrases than there are bytes, and its cursor ends at most four bytes beyond
    the blob; the only other outcome is a read of memory that is not there, when
    less than four bytes follow the blob. *)
Theorem parse_terminates pb cbBuffer :
  Forall is_byte pb ->
  (exists r s, Parse pb cbBuffer = Ok (r, s) /\ (pbCur s <= cbBuffer + 4)%nat) \/
  (Parse pb cbBuffer = Err Undefined /\ (length pb < cbBuffer + 4)%nat).
Proof.
  intros Hb. pose proof (sound_signature (cbBuffer + 2) cbBuffer ltac:(lia)
    (mkSigParser pb 0 cbBuffer []) Hb) as Hs. cbn [Any holds pbCur pbEnd pbBase] in Hs.
  specialize (Hs ltac:(unfold slack; lia) ltac:(lia)). unfold Parse.
  destruct (parse_signature _ _) as [[r s]|e].
  - left. exists r, s. split; [done|]. destruct Hs as (_ & He & [Hc _] & _). simpl in He. rewrite He in Hc.
    unfold slack in Hc. lia.
  - right. destruct Hs as [-> Hl]. split; [done|]. unfold slack in Hl. lia.
Qed.

Lemma parse_terminates_witness :
  (exists r s, Parse [0x00; 0xdf; 0xff; 0xff; 0xff; 1; 8; 0; 0; 0; 0] 7 = Ok (r, s) /\ (pbCur s <= 7 + 4)%nat) \/
  (Parse [0x00; 0xdf; 0xff; 0xff; 0xff; 1; 8; 0; 0; 0; 0] 7 = Err Undefined /\ (11 < 7 + 4)%nat).
Proof. apply (parse_terminates [0x00; 0xdf; 0xff; 0xff; 0xff; 1; 8; 0; 0; 0; 0] 7). repeat constructor; discriminate. Defined.

Example method_with_missing_params :
  Parse [0x00; 0xdf; 0xff; 0xff; 0xff; 1; 8; 0; 0; 0; 0] 7 =
  Ok (None, mkSigParser [0x00; 0xdf; 0xff; 0xff; 0xff; 1; 8; 0; 0; 0; 0] 7 7
    [NotifyBeginMethod 0; NotifyParamCount 0x1fffffff; NotifyBeginRetType; NotifyVoid; NotifyEndRetType;
     NotifyBeginParam; NotifyBeginType; NotifyTypeSimple 8; NotifyEndType; NotifyEndParam]).
Proof. vm_compute. reflexivity. Qed.

(** What the runtime's writer makes of a number is a number of the grammar. *)
Lemma compress_number n : 0 <= n < 0x20000000 -> exists bs, CorSigCompressData n = Some bs /\ Number bs n.
Proof.
  intros Hn. unfold CorSigCompressData, BYTE, wrap.
  assert (forall m, 0 <= m -> Z.land m 0xff mod 2 ^ 8 = m mod 2 ^ 8) as Hff.
  { intros m Hm. change 0xff with (Z.ones 8). rewrite Z.land_ones by lia. lia. }
  assert (forall m, is_byte m -> implb (m <? 0x40) (Z.lor m 0x80 =? 0x80 + m) &&
    implb (m <? 0x20) (Z.lor m 0xC0 =? 0xC0 + m) = true) as Hor.
  { apply byte_forall. vm_compute. reflexivity. }
  unfold is_byte in Hor. rewrite !Z.shiftr_div_pow2 by lia.
  destruct (Z.leb_spec n 0x7F); [eexists; split; [done|]; rewrite Z.mod_small by lia; constructor; lia|].
  destruct (Z.leb_spec n 0x3FFF); [|destruct (Z.leb_spec n 0x1FFFFFFF); [|lia]].
  - eexists. split; [done|]. specialize (Hor (n / 2 ^ 8) ltac:(lia)). rewrite (proj2 (Z.ltb_lt _ _)) in Hor by lia.
    apply andb_true_iff in Hor as [Hor%Z.eqb_eq _]. rewrite Hor, Hff, Z.mod_small by lia. constructor. lia.
  - eexists. split; [done|]. specialize (Hor (n / 2 ^ 24) ltac:(lia)).
    apply andb_true_iff in Hor as [_ Hor]. rewrite (proj2 (Z.ltb_lt _ 0x20)) in Hor by lia.
    apply Z.eqb_eq in Hor. rewrite Hor, !Hff, (Z.mod_small (0xC0 + _)) by lia. constructor. lia.
Qed.

(** The parts of a token. *)
Lemma token_parts rid k : 0 <= rid < 0x1000000 -> 0 <= k < 4 ->
  RidFromToken (TokenFromRid rid (CorSigDecodeTokenType k)) = rid /\
  TypeFromToken (TokenFromRid rid (CorSigDecodeTokenType k)) = CorSigDecodeTokenType k.
Proof.
  intros Hr Hk. unfold RidFromToken, TypeFromToken, TokenFromRid.
  rewrite !Z.land_lor_distr_l.
  assert (Z.land rid 0xffffff = rid) as ->.
  { change 0xffffff with (Z.ones 24). rewrite Z.land_ones by lia. lia. }
  assert (Z.land rid 0xff000000 = 0) as ->.
  { apply Z.bits_inj'. intros i Hi. rewrite Z.land_spec, Z.bits_0. change 0xff000000 with (Z.shiftl 0xff 24).
    destruct (Z.ltb_spec i 24); [rewrite Z.shiftl_spec_low by lia; apply andb_false_r|].
    rewrite <- (Z.mod_small rid (2 ^ 24)) by lia. by rewrite Z.mod_pow2_bits_high by lia. }
  assert (k = 0 \/ k = 1 \/ k = 2 \/ k = 3) as [-> | [-> | [-> | ->]]] by lia; split; try reflexivity; apply Z.lor_0_r.
Qed.

Lemma low_bits rid k : 0 <= rid -> 0 <= k < 4 ->
  (if CorSigDecodeTokenType k =? CorSigDecodeTokenType 1 then Z.lor (rid * 4) 0x1 else
   if CorSigDecodeTokenType k =? CorSigDecodeTokenType 2 then Z.lor (rid * 4) 0x2 else
   if CorSigDecodeTokenType k =? CorSigDecodeTokenType 3 then Z.lor (rid * 4) 0x3 else rid * 4) = rid * 4 + k.
Proof.
  intros Hr Hk. assert (forall j, 0 <= j < 4 -> Z.lor (rid * 4) j = rid * 4 + j) as Hl.
  { intros j Hj. change (rid * 4) with (rid * 2 ^ 2). rewrite <- Z.shiftl_mul_pow2 by lia.
    rewrite lor_shiftl_add by lia. by rewrite Z.shiftl_mul_pow2 by lia. }
  rewrite !Hl by lia.
  assert (k = 0 \/ k = 1 \/ k = 2 \/ k = 3) as [-> | [-> | [-> | ->]]] by lia; lazy -[Z.add Z.mul]; lia.
Qed.

(** The number and the token the runtime's writer compresses into a
    signature are what the parser reads back, over the whole range of 29 bits
    and for each of the four token tables. *)
Theorem compress_roundtrip n tktype rid :
  0 <= n < 0x20000000 -> tktype ∈ [mdtTypeDef; mdtTypeRef; mdtTypeSpec; mdtBaseType] -> 0 <= rid < 0x1000000 ->
  exists bn bt, CorSigCompressData n = Some bn /\ CorSigCompressToken (TokenFromRid rid tktype) = Some bt /\
    forall rest s, drop (pbCur s) (pbBase s) = bn ++ bt ++ rest -> (pbCur s + length (bn ++ bt) <= pbEnd s)%nat ->
      (n' <~ ParseNumber ;; tok <~ ParseTypeDefOrRefEncoded ;; sp_ret (n', tok)) s =
      Ok (Some (n, TokenFromRid rid tktype), adv (length (bn ++ bt)) [] s).
Proof.
  intros Hn Ht Hr. destruct (compress_number n Hn) as (bn & Hbn & HN).
  assert (exists k, 0 <= k < 4 /\ tktype = CorSigDecodeTokenType k) as (k & Hk & ->).
  { repeat (apply elem_of_cons in Ht as [->|Ht]); [by exists 0|by exists 1|by exists 2|by exists 3|by apply elem_of_nil in Ht]. }
  destruct (compress_number (rid * 4 + k) ltac:(lia)) as (bt & Hbt & HT).
  assert (CorSigCompressToken (TokenFromRid rid (CorSigDecodeTokenType k)) = Some bt) as Hc.
  { rewrite <- Hbt. unfold CorSigCompressToken. destruct (token_parts rid k Hr Hk) as [-> ->].
    destruct (Z.ltb_spec 0x3FFFFFF rid); [lia|]. rewrite Z.shiftl_mul_pow2, wrap_small by (unfold is_uint; lia).
    f_equal. change (2 ^ 2) with 4. apply low_bits; lia. }
  exists bn, bt. do 2 (split; [done|]). intros rest s Hd Hl. rewrite app_assoc in Hd.
  revert s rest Hd Hl. change (parses (n' <~ ParseNumber ;; tok <~ ParseTypeDefOrRefEncoded ;; sp_ret (n', tok))
    (bn ++ bt) (n, TokenFromRid rid (CorSigDecodeTokenType k)) []).
  eapply parses_number; [done|]. rewrite <- (app_nil_r bt). eapply (parses_token false); [by constructor|].
  unfold coded_token. replace ((rid * 4 + k) / 4) with rid by lia. replace ((rid * 4 + k) mod 4) with k by lia.
  apply parses_ret.
Qed.

Lemma compress_roundtrip_witness :
  exists bn bt, CorSigCompressData 0x4000 = Some bn /\ CorSigCompressToken (TokenFromRid 0x123456 mdtTypeSpec) = Some bt /\
    forall rest s, drop (pbCur s) (pbBase s) = bn ++ bt ++ rest -> (pbCur s + length (bn ++ bt) <= pbEnd s)%nat ->
      (n' <~ ParseNumber ;; tok <~ ParseTypeDefOrRefEncoded ;; sp_ret (n', tok)) s =
      Ok (Some (0x4000, TokenFromRid 0x123456 mdtTypeSpec), adv (length (bn ++ bt)) [] s).
Proof. apply compress_roundtrip; [lia|set_solver|lia]. Defined.

(** Every element type the parser has no case for, the documented
    [TYPEDBYREF] and [VOID] included where a type must stand, is accepted as a
    type without any notification of what it is. *)
Theorem unknown_type_accepted e rest :
  is_known e = false -> is_cmod e = false ->
  Parse (SIG_FIELD :: e :: rest) 2 =
  Ok (Some tt, mkSigParser (SIG_FIELD :: e :: rest) 2 2
    [NotifyBeginField SIG_FIELD; NotifyBeginType; NotifyEndType; NotifyEndField]).
Proof.
  intros Hk Hc. assert (forall c, is_known c = true -> (e =? c) = false) as Hne.
  { intros c Hk'. destruct (Z.eqb_spec e c) as [->|]; [congruence|done]. }
  assert (parses (parse_signature 4) [SIG_FIELD; e] tt
    [NotifyBeginField SIG_FIELD; NotifyBeginType; NotifyEndType; NotifyEndField]) as H.
  { unfold parse_signature. apply parses_byte. apply parses_notify.
    apply (parses_before_then not_cmod _ _ e [] [] _ []);
      [by apply (Mods_parses false _ _ _ (Mods_nil _)); simpl; lia|unfold not_cmod; by rewrite Hc|].
    apply parses_end with (a := tt) (ev := in_type []); [|apply parses_last].
    cbn [ParseType]. apply parses_notify, parses_byte. apply (parses_end _ _ tt _ []); [|apply parses_last].
    unfold type_body. destruct (is_simple e) eqn:Es; [by rewrite simple_known in Hk|].
    rewrite !Hne by done. apply parses_ret. }
  unfold Parse. rewrite (H _ rest); [done|done|simpl; lia].
Qed.

Lemma unknown_type_accepted_witness :
  is_known 0x2a = false /\ is_cmod 0x2a = false /\
  Parse [SIG_FIELD; 0x2a] 2 =
  Ok (Some tt, mkSigParser [SIG_FIELD; 0x2a] 2 2
    [NotifyBeginField SIG_FIELD; NotifyBeginType; NotifyEndType; NotifyEndField]).
Proof. do 2 (split; [reflexivity|]). by apply (unknown_type_accepted 0x2a []). Defined.

(** The end of the blob plays no part in a read of a token. *)
Definition with_end (e : nat) (s : SigParser) : SigParser := mkSigParser (pbBase s) (pbCur s) e (notified s).
Definition ignores_end {A} (m : sp A) : Prop := forall e s a s', m s = Ok (Some a, s') ->
  m (with_end e s) = Ok (Some a, with_end e s').

Lemma ignores_bind {A B} (m : sp A) (k : A -> sp B) :
  ignores_end m -> (forall a, ignores_end (k a)) -> ignores_end (sp_bind m k).
Proof.
  intros Hm Hk e s b s' H. unfold sp_bind in *. destruct (m s) as [[[a|] s1]|] eqn:E; [|done..].
  rewrite (Hm e s a s1 E). by apply Hk.
Qed.
Lemma ignores_ret {A} (a : A) : ignores_end (sp_ret a).
Proof. intros e s b s' [= -> ->]. done. Qed.
Lemma ignores_skip : ignores_end skip.
Proof. intros e s b s' [= <- <-]. done. Qed.
Lemma ignores_deref : ignores_end deref.
Proof.
  intros e s b s' H. unfold deref in *. cbn [with_end pbBase pbCur].
  destruct (pbBase s !! pbCur s); [|done]. by injection H as <- <-.
Qed.

Lemma token_ignores_end : ignores_end ParseTypeDefOrRefEncoded.
Proof.
  assert (ignores_end next) as Hn.
  { apply ignores_bind; [apply ignores_deref|intros b]. apply ignores_bind; [apply ignores_skip|intros _; apply ignores_ret]. }
  apply ignores_bind; [|intros tk; apply ignores_ret]. apply ignores_bind; [apply ignores_deref|intros b].
  destruct (_ =? 0); [done|]. apply ignores_bind; [apply ignores_deref|intros b'].
  destruct (_ =? 0x80); repeat (apply ignores_bind; [done|intros ?]); apply ignores_ret.
Qed.

(** C39: A field signature that ends right after [CLASS] or [VALUETYPE], where its
    token must stand, is accepted all the same: whatever token the memory behind
    the blob holds is read and notified, and when there is no such memory the
    behaviour is undefined. *)
Theorem truncated_token_read_beyond e bs tok rest :
  e = ELEMENT_TYPE_CLASS \/ e = ELEMENT_TYPE_VALUETYPE -> TypeDefOrRefEncoded true bs tok ->
  Parse (SIG_FIELD :: e :: bs ++ rest) 2 =
    Ok (Some tt, mkSigParser (SIG_FIELD :: e :: bs ++ rest) (2 + length bs) 2
      [NotifyBeginField SIG_FIELD; NotifyBeginType; (if e =? ELEMENT_TYPE_CLASS then NotifyTypeClass else NotifyTypeValueType);
       NotifyTypeDefOrRef tok; NotifyEndType; NotifyEndField]) /\
  Parse [SIG_FIELD; e] 2 = Err Undefined.
Proof.
  intros He Ht.
  assert (forall ev, ParseTypeDefOrRefEncoded (mkSigParser (SIG_FIELD :: e :: bs ++ rest) 2 2 ev) =
    Ok (Some tok, mkSigParser (SIG_FIELD :: e :: bs ++ rest) (2 + length bs) 2 ev)) as H.
  { intros ev. pose proof (Token_parses true bs tok Ht
      (mkSigParser (SIG_FIELD :: e :: bs ++ rest) 2 (2 + length bs) ev) rest eq_refl ltac:(simpl; lia)) as Hp.
    apply (token_ignores_end 2%nat) in Hp. unfold with_end, adv in Hp. cbn [pbBase pbCur pbEnd notified] in Hp.
    by rewrite app_nil_r in Hp. }
  revert H. generalize (2 + length bs)%nat. generalize (bs ++ rest). intros l c H. pose proof (Nat.add_0_r c) as H0. lazy in H0.
  destruct He as [-> | ->]; (split; [|reflexivity]);
    lazy -[ParseTypeDefOrRefEncoded] in H; lazy -[ParseTypeDefOrRefEncoded]; rewrite H; by rewrite !H0.
Qed.

Lemma truncated_token_read_beyond_witness :
  Parse [SIG_FIELD; ELEMENT_TYPE_VALUETYPE; 0x81; 0x01; 0xff] 2 =
    Ok (Some tt, mkSigParser [SIG_FIELD; ELEMENT_TYPE_VALUETYPE; 0x81; 0x01; 0xff] 4 2
      [NotifyBeginField SIG_FIELD; NotifyBeginType; NotifyTypeValueType; NotifyTypeDefOrRef (coded_token 0x101);
       NotifyEndType; NotifyEndField]) /\
  Parse [SIG_FIELD; ELEMENT_TYPE_VALUETYPE] 2 = Err Undefined.
Proof.
  apply (truncated_token_read_beyond ELEMENT_TYPE_VALUETYPE [0x81; 0x01] (coded_token 0x101) [0xff]); [by right|].
  constructor. apply (Number2 0x101). lia.
Defined.

(** The kind of a signature is in the low four bits of its first byte; the
    parser does not look at the others, so it takes a field whose byte is not
    [FIELD]. *)
Example field_high_bits : Parse [0x86; ELEMENT_TYPE_I4] 2 =
  Ok (Some tt, mkSigParser [0x86; ELEMENT_TYPE_I4] 2 2
    [NotifyBeginField 0x86; NotifyBeginType; NotifyTypeSimple ELEMENT_TYPE_I4; NotifyEndType; NotifyEndField]).
Proof. reflexivity. Qed.
