(* ===== verification/Opcodes.v ===== *)
(** * The opcode tables of the IL rewriter

    The CIL opcode list of [coreclr/inc/opcode.def], which
    [profiler/ILRewriter.cpp] includes three times: for the enumeration
    [OPCODE], for the operand table [s_OpCodeFlags] and for the stack table
    [k_rgnStackPushes]; and the printer [opcodetostr].  The theorems check the
    three tables against each other: the encoding bytes of every opcode are its
    number, operands have a bounded size, and the short branches have long
    forms at a constant distance. *)

From S2P Require Import Prelude.
Local Open Scope Z_scope.

(** ** opcode.def *)

(** The operand column of [opcode.def]. *)
Inductive operand :=
  | InlineNone | ShortInlineVar | InlineVar | ShortInlineI | InlineI | InlineI8
  | ShortInlineR | InlineR | ShortInlineBrTarget | InlineBrTarget | InlineMethod
  | InlineField | InlineType | InlineString | InlineSig | InlineRVA | InlineTok
  | InlineSwitch.

(** The two stack behaviour columns. *)
Inductive stack_pop := Pop0 | Pop1 | PopI | PopI8 | PopR4 | PopR8 | PopRef | VarPop.
Inductive stack_push := Push0 | Push1 | PushI | PushI8 | PushR4 | PushR8 | PushRef | VarPush.

Inductive opcode_kind := IPrimitive | IMacro | IObjModel | IInternal | IPrefix.
Inductive control_flow := NEXT | BREAK | CALL | RETURN | BRANCH | COND_BRANCH | THROW | META.

(** One line of [opcode.def]; [c] is the canonical name. *)
Record opdef := OPDEF {
  od_c : string; od_s : string;
  od_pop : list stack_pop; od_push : list stack_push;
  od_args : operand; od_type : opcode_kind;
  od_l : Z; od_s1 : Z; od_s2 : Z; od_ctrl : control_flow
}.

#[export] Instance operand_eq_dec : EqDecision operand.
Proof. solve_decision. Defined.
#[export] Instance control_flow_eq_dec : EqDecision control_flow.
Proof. solve_decision. Defined.

(** The one-byte opcodes. *)
Definition opcode_def_one_byte : list opdef := [
  OPDEF "CEE_NOP" "nop" [Pop0] [Push0] InlineNone IPrimitive 1 0xFF 0x00 NEXT;
  OPDEF "CEE_BREAK" "break" [Pop0] [Push0] InlineNone IPrimitive 1 0xFF 0x01 BREAK;
  OPDEF "CEE_LDARG_0" "ldarg.0" [Pop0] [Push1] InlineNone IMacro 1 0xFF 0x02 NEXT;
  OPDEF "CEE_LDARG_1" "ldarg.1" [Pop0] [Push1] InlineNone IMacro 1 0xFF 0x03 NEXT;
  OPDEF "CEE_LDARG_2" "ldarg.2" [Pop0] [Push1] InlineNone IMacro 1 0xFF 0x04 NEXT;
  OPDEF "CEE_LDARG_3" "ldarg.3" [Pop0] [Push1] InlineNone IMacro 1 0xFF 0x05 NEXT;
  OPDEF "CEE_LDLOC_0" "ldloc.0" [Pop0] [Push1] InlineNone IMacro 1 0xFF 0x06 NEXT;
  OPDEF "CEE_LDLOC_1" "ldloc.1" [Pop0] [Push1] InlineNone IMacro 1 0xFF 0x07 NEXT;
  OPDEF "CEE_LDLOC_2" "ldloc.2" [Pop0] [Push1] InlineNone IMacro 1 0xFF 0x08 NEXT;
  OPDEF "CEE_LDLOC_3" "ldloc.3" [Pop0] [Push1] InlineNone IMacro 1 0xFF 0x09 NEXT;
  OPDEF "CEE_STLOC_0" "stloc.0" [Pop1] [Push0] InlineNone IMacro 1 0xFF 0x0A NEXT;
  OPDEF "CEE_STLOC_1" "stloc.1" [Pop1] [Push0] InlineNone IMacro 1 0xFF 0x0B NEXT;
  OPDEF "CEE_STLOC_2" "stloc.2" [Pop1] [Push0] InlineNone IMacro 1 0xFF 0x0C NEXT;
  OPDEF "CEE_STLOC_3" "stloc.3" [Pop1] [Push0] InlineNone IMacro 1 0xFF 0x0D NEXT;
  OPDEF "CEE_LDARG_S" "ldarg.s" [Pop0] [Push1] ShortInlineVar IMacro 1 0xFF 0x0E NEXT;
  OPDEF "CEE_LDARGA_S" "ldarga.s" [Pop0] [PushI] ShortInlineVar IMacro 1 0xFF 0x0F NEXT;
  OPDEF "CEE_STARG_S" "starg.s" [Pop1] [Push0] ShortInlineVar IMacro 1 0xFF 0x10 NEXT;
  OPDEF "CEE_LDLOC_S" "ldloc.s" [Pop0] [Push1] ShortInlineVar IMacro 1 0xFF 0x11 NEXT;
  OPDEF "CEE_LDLOCA_S" "ldloca.s" [Pop0] [PushI] ShortInlineVar IMacro 1 0xFF 0x12 NEXT;
  OPDEF "CEE_STLOC_S" "stloc.s" [Pop1] [Push0] ShortInlineVar IMacro 1 0xFF 0x13 NEXT;
  OPDEF "CEE_LDNULL" "ldnull" [Pop0] [PushRef] InlineNone IPrimitive 1 0xFF 0x14 NEXT;
  OPDEF "CEE_LDC_I4_M1" "ldc.i4.m1" [Pop0] [PushI] InlineNone IMacro 1 0xFF 0x15 NEXT;
  OPDEF "CEE_LDC_I4_0" "ldc.i4.0" [Pop0] [PushI] InlineNone IMacro 1 0xFF 0x16 NEXT;
  OPDEF "CEE_LDC_I4_1" "ldc.i4.1" [Pop0] [PushI] InlineNone IMacro 1 0xFF 0x17 NEXT;
  OPDEF "CEE_LDC_I4_2" "ldc.i4.2" [Pop0] [PushI] InlineNone IMacro 1 0xFF 0x18 NEXT;
  OPDEF "CEE_LDC_I4_3" "ldc.i4.3" [Pop0] [PushI] InlineNone IMacro 1 0xFF 0x19 NEXT;
  OPDEF "CEE_LDC_I4_4" "ldc.i4.4" [Pop0] [PushI] InlineNone IMacro 1 0xFF 0x1A NEXT;
  OPDEF "CEE_LDC_I4_5" "ldc.i4.5" [Pop0] [PushI] InlineNone IMacro 1 0xFF 0x1B NEXT;
  OPDEF "CEE_LDC_I4_6" "ldc.i4.6" [Pop0] [PushI] InlineNone IMacro 1 0xFF 0x1C NEXT;
  OPDEF "CEE_LDC_I4_7" "ldc.i4.7" [Pop0] [PushI] InlineNone IMacro 1 0xFF 0x1D NEXT;
  OPDEF "CEE_LDC_I4_8" "ldc.i4.8" [Pop0] [PushI] InlineNone IMacro 1 0xFF 0x1E NEXT;
  OPDEF "CEE_LDC_I4_S" "ldc.i4.s" [Pop0] [PushI] ShortInlineI IMacro 1 0xFF 0x1F NEXT;
  OPDEF "CEE_LDC_I4" "ldc.i4" [Pop0] [PushI] InlineI IPrimitive 1 0xFF 0x20 NEXT;
  OPDEF "CEE_LDC_I8" "ldc.i8" [Pop0] [PushI8] InlineI8 IPrimitive 1 0xFF 0x21 NEXT;
  OPDEF "CEE_LDC_R4" "ldc.r4" [Pop0] [PushR4] ShortInlineR IPrimitive 1 0xFF 0x22 NEXT;
  OPDEF "CEE_LDC_R8" "ldc.r8" [Pop0] [PushR8] InlineR IPrimitive 1 0xFF 0x23 NEXT;
  OPDEF "CEE_UNUSED49" "unused" [Pop0] [Push0] InlineNone IPrimitive 1 0xFF 0x24 NEXT;
  OPDEF "CEE_DUP" "dup" [Pop1] [Push1; Push1] InlineNone IPrimitive 1 0xFF 0x25 NEXT;
  OPDEF "CEE_POP" "pop" [Pop1] [Push0] InlineNone IPrimitive 1 0xFF 0x26 NEXT;
  OPDEF "CEE_JMP" "jmp" [Pop0] [Push0] InlineMethod IPrimitive 1 0xFF 0x27 CALL;
  OPDEF "CEE_CALL" "call" [VarPop] [VarPush] InlineMethod IPrimitive 1 0xFF 0x28 CALL;
  OPDEF "CEE_CALLI" "calli" [VarPop] [VarPush] InlineSig IPrimitive 1 0xFF 0x29 CALL;
  OPDEF "CEE_RET" "ret" [VarPop] [Push0] InlineNone IPrimitive 1 0xFF 0x2A RETURN;
  OPDEF "CEE_BR_S" "br.s" [Pop0] [Push0] ShortInlineBrTarget IMacro 1 0xFF 0x2B BRANCH;
  OPDEF "CEE_BRFALSE_S" "brfalse.s" [PopI] [Push0] ShortInlineBrTarget IMacro 1 0xFF 0x2C COND_BRANCH;
  OPDEF "CEE_BRTRUE_S" "brtrue.s" [PopI] [Push0] ShortInlineBrTarget IMacro 1 0xFF 0x2D COND_BRANCH;
  OPDEF "CEE_BEQ_S" "beq.s" [Pop1; Pop1] [Push0] ShortInlineBrTarget IMacro 1 0xFF 0x2E COND_BRANCH;
  OPDEF "CEE_BGE_S" "bge.s" [Pop1; Pop1] [Push0] ShortInlineBrTarget IMacro 1 0xFF 0x2F COND_BRANCH;
  OPDEF "CEE_BGT_S" "bgt.s" [Pop1; Pop1] [Push0] ShortInlineBrTarget IMacro 1 0xFF 0x30 COND_BRANCH;
  OPDEF "CEE_BLE_S" "ble.s" [Pop1; Pop1] [Push0] ShortInlineBrTarget IMacro 1 0xFF 0x31 COND_BRANCH;
  OPDEF "CEE_BLT_S" "blt.s" [Pop1; Pop1] [Push0] ShortInlineBrTarget IMacro 1 0xFF 0x32 COND_BRANCH;
  OPDEF "CEE_BNE_UN_S" "bne.un.s" [Pop1; Pop1] [Push0] ShortInlineBrTarget IMacro 1 0xFF 0x33 COND_BRANCH;
  OPDEF "CEE_BGE_UN_S" "bge.un.s" [Pop1; Pop1] [Push0] ShortInlineBrTarget IMacro 1 0xFF 0x34 COND_BRANCH;
  OPDEF "CEE_BGT_UN_S" "bgt.un.s" [Pop1; Pop1] [Push0] ShortInlineBrTarget IMacro 1 0xFF 0x35 COND_BRANCH;
  OPDEF "CEE_BLE_UN_S" "ble.un.s" [Pop1; Pop1] [Push0] ShortInlineBrTarget IMacro 1 0xFF 0x36 COND_BRANCH;
  OPDEF "CEE_BLT_UN_S" "blt.un.s" [Pop1; Pop1] [Push0] ShortInlineBrTarget IMacro 1 0xFF 0x37 COND_BRANCH;
  OPDEF "CEE_BR" "br" [Pop0] [Push0] InlineBrTarget IPrimitive 1 0xFF 0x38 BRANCH;
  OPDEF "CEE_BRFALSE" "brfalse" [PopI] [Push0] InlineBrTarget IPrimitive 1 0xFF 0x39 COND_BRANCH;
  OPDEF "CEE_BRTRUE" "brtrue" [PopI] [Push0] InlineBrTarget IPrimitive 1 0xFF 0x3A COND_BRANCH;
  OPDEF "CEE_BEQ" "beq" [Pop1; Pop1] [Push0] InlineBrTarget IMacro 1 0xFF 0x3B COND_BRANCH;
  OPDEF "CEE_BGE" "bge" [Pop1; Pop1] [Push0] InlineBrTarget IMacro 1 0xFF 0x3C COND_BRANCH;
  OPDEF "CEE_BGT" "bgt" [Pop1; Pop1] [Push0] InlineBrTarget IMacro 1 0xFF 0x3D COND_BRANCH;
  OPDEF "CEE_BLE" "ble" [Pop1; Pop1] [Push0] InlineBrTarget IMacro 1 0xFF 0x3E COND_BRANCH;
  OPDEF "CEE_BLT" "blt" [Pop1; Pop1] [Push0] InlineBrTarget IMacro 1 0xFF 0x3F COND_BRANCH;
  OPDEF "CEE_BNE_UN" "bne.un" [Pop1; Pop1] [Push0] InlineBrTarget IMacro 1 0xFF 0x40 COND_BRANCH;
  OPDEF "CEE_BGE_UN" "bge.un" [Pop1; Pop1] [Push0] InlineBrTarget IMacro 1 0xFF 0x41 COND_BRANCH;
  OPDEF "CEE_BGT_UN" "bgt.un" [Pop1; Pop1] [Push0] InlineBrTarget IMacro 1 0xFF 0x42 COND_BRANCH;
  OPDEF "CEE_BLE_UN" "ble.un" [Pop1; Pop1] [Push0] InlineBrTarget IMacro 1 0xFF 0x43 COND_BRANCH;
  OPDEF "CEE_BLT_UN" "blt.un" [Pop1; Pop1] [Push0] InlineBrTarget IMacro 1 0xFF 0x44 COND_BRANCH;
  OPDEF "CEE_SWITCH" "switch" [PopI] [Push0] InlineSwitch IPrimitive 1 0xFF 0x45 COND_BRANCH;
  OPDEF "CEE_LDIND_I1" "ldind.i1" [PopI] [PushI] InlineNone IPrimitive 1 0xFF 0x46 NEXT;
  OPDEF "CEE_LDIND_U1" "ldind.u1" [PopI] [PushI] InlineNone IPrimitive 1 0xFF 0x47 NEXT;
  OPDEF "CEE_LDIND_I2" "ldind.i2" [PopI] [PushI] InlineNone IPrimitive 1 0xFF 0x48 NEXT;
  OPDEF "CEE_LDIND_U2" "ldind.u2" [PopI] [PushI] InlineNone IPrimitive 1 0xFF 0x49 NEXT;
  OPDEF "CEE_LDIND_I4" "ldind.i4" [PopI] [PushI] InlineNone IPrimitive 1 0xFF 0x4A NEXT;
  OPDEF "CEE_LDIND_U4" "ldind.u4" [PopI] [PushI] InlineNone IPrimitive 1 0xFF 0x4B NEXT;
  OPDEF "CEE_LDIND_I8" "ldind.i8" [PopI] [PushI8] InlineNone IPrimitive 1 0xFF 0x4C NEXT;
  OPDEF "CEE_LDIND_I" "ldind.i" [PopI] [PushI] InlineNone IPrimitive 1 0xFF 0x4D NEXT;
  OPDEF "CEE_LDIND_R4" "ldind.r4" [PopI] [PushR4] InlineNone IPrimitive 1 0xFF 0x4E NEXT;
  OPDEF "CEE_LDIND_R8" "ldind.r8" [PopI] [PushR8] InlineNone IPrimitive 1 0xFF 0x4F NEXT;
  OPDEF "CEE_LDIND_REF" "ldind.ref" [PopI] [PushRef] InlineNone IPrimitive 1 0xFF 0x50 NEXT;
  OPDEF "CEE_STIND_REF" "stind.ref" [PopI; PopI] [Push0] InlineNone IPrimitive 1 0xFF 0x51 NEXT;
  OPDEF "CEE_STIND_I1" "stind.i1" [PopI; PopI] [Push0] InlineNone IPrimitive 1 0xFF 0x52 NEXT;
  OPDEF "CEE_STIND_I2" "stind.i2" [PopI; PopI] [Push0] InlineNone IPrimitive 1 0xFF 0x53 NEXT;
  OPDEF "CEE_STIND_I4" "stind.i4" [PopI; PopI] [Push0] InlineNone IPrimitive 1 0xFF 0x54 NEXT;
  OPDEF "CEE_STIND_I8" "stind.i8" [PopI; PopI8] [Push0] InlineNone IPrimitive 1 0xFF 0x55 NEXT;
  OPDEF "CEE_STIND_R4" "stind.r4" [PopI; PopR4] [Push0] InlineNone IPrimitive 1 0xFF 0x56 NEXT;
  OPDEF "CEE_STIND_R8" "stind.r8" [PopI; PopR8] [Push0] InlineNone IPrimitive 1 0xFF 0x57 NEXT;
  OPDEF "CEE_ADD" "add" [Pop1; Pop1] [Push1] InlineNone IPrimitive 1 0xFF 0x58 NEXT;
  OPDEF "CEE_SUB" "sub" [Pop1; Pop1] [Push1] InlineNone IPrimitive 1 0xFF 0x59 NEXT;
  OPDEF "CEE_MUL" "mul" [Pop1; Pop1] [Push1] InlineNone IPrimitive 1 0xFF 0x5A NEXT;
  OPDEF "CEE_DIV" "div" [Pop1; Pop1] [Push1] InlineNone IPrimitive 1 0xFF 0x5B NEXT;
  OPDEF "CEE_DIV_UN" "div.un" [Pop1; Pop1] [Push1] InlineNone IPrimitive 1 0xFF 0x5C NEXT;
  OPDEF "CEE_REM" "rem" [Pop1; Pop1] [Push1] InlineNone IPrimitive 1 0xFF 0x5D NEXT;
  OPDEF "CEE_REM_UN" "rem.un" [Pop1; Pop1] [Push1] InlineNone IPrimitive 1 0xFF 0x5E NEXT;
  OPDEF "CEE_AND" "and" [Pop1; Pop1] [Push1] InlineNone IPrimitive 1 0xFF 0x5F NEXT;
  OPDEF "CEE_OR" "or" [Pop1; Pop1] [Push1] InlineNone IPrimitive 1 0xFF 0x60 NEXT;
  OPDEF "CEE_XOR" "xor" [Pop1; Pop1] [Push1] InlineNone IPrimitive 1 0xFF 0x61 NEXT;
  OPDEF "CEE_SHL" "shl" [Pop1; Pop1] [Push1] InlineNone IPrimitive 1 0xFF 0x62 NEXT;
  OPDEF "CEE_SHR" "shr" [Pop1; Pop1] [Push1] InlineNone IPrimitive 1 0xFF 0x63 NEXT;
  OPDEF "CEE_SHR_UN" "shr.un" [Pop1; Pop1] [Push1] InlineNone IPrimitive 1 0xFF 0x64 NEXT;
  OPDEF "CEE_NEG" "neg" [Pop1] [Push1] InlineNone IPrimitive 1 0xFF 0x65 NEXT;
  OPDEF "CEE_NOT" "not" [Pop1] [Push1] InlineNone IPrimitive 1 0xFF 0x66 NEXT;
  OPDEF "CEE_CONV_I1" "conv.i1" [Pop1] [PushI] InlineNone IPrimitive 1 0xFF 0x67 NEXT;
  OPDEF "CEE_CONV_I2" "conv.i2" [Pop1] [PushI] InlineNone IPrimitive 1 0xFF 0x68 NEXT;
  OPDEF "CEE_CONV_I4" "conv.i4" [Pop1] [PushI] InlineNone IPrimitive 1 0xFF 0x69 NEXT;
  OPDEF "CEE_CONV_I8" "conv.i8" [Pop1] [PushI8] InlineNone IPrimitive 1 0xFF 0x6A NEXT;
  OPDEF "CEE_CONV_R4" "conv.r4" [Pop1] [PushR4] InlineNone IPrimitive 1 0xFF 0x6B NEXT;
  OPDEF "CEE_CONV_R8" "conv.r8" [Pop1] [PushR8] InlineNone IPrimitive 1 0xFF 0x6C NEXT;
  OPDEF "CEE_CONV_U4" "conv.u4" [Pop1] [PushI] InlineNone IPrimitive 1 0xFF 0x6D NEXT;
  OPDEF "CEE_CONV_U8" "conv.u8" [Pop1] [PushI8] InlineNone IPrimitive 1 0xFF 0x6E NEXT;
  OPDEF "CEE_CALLVIRT" "callvirt" [VarPop] [VarPush] InlineMethod IObjModel 1 0xFF 0x6F CALL;
  OPDEF "CEE_CPOBJ" "cpobj" [PopI; PopI] [Push0] InlineType IObjModel 1 0xFF 0x70 NEXT;
  OPDEF "CEE_LDOBJ" "ldobj" [PopI] [Push1] InlineType IObjModel 1 0xFF 0x71 NEXT;
  OPDEF "CEE_LDSTR" "ldstr" [Pop0] [PushRef] InlineString IObjModel 1 0xFF 0x72 NEXT;
  OPDEF "CEE_NEWOBJ" "newobj" [VarPop] [PushRef] InlineMethod IObjModel 1 0xFF 0x73 CALL;
  OPDEF "CEE_CASTCLASS" "castclass" [PopRef] [PushRef] InlineType IObjModel 1 0xFF 0x74 NEXT;
  OPDEF "CEE_ISINST" "isinst" [PopRef] [PushI] InlineType IObjModel 1 0xFF 0x75 NEXT;
  OPDEF "CEE_CONV_R_UN" "conv.r.un" [Pop1] [PushR8] InlineNone IPrimitive 1 0xFF 0x76 NEXT;
  OPDEF "CEE_UNUSED58" "unused" [Pop0] [Push0] InlineNone IPrimitive 1 0xFF 0x77 NEXT;
  OPDEF "CEE_UNUSED1" "unused" [Pop0] [Push0] InlineNone IPrimitive 1 0xFF 0x78 NEXT;
  OPDEF "CEE_UNBOX" "unbox" [PopRef] [PushI] InlineType IPrimitive 1 0xFF 0x79 NEXT;
  OPDEF "CEE_THROW" "throw" [PopRef] [Push0] InlineNone IObjModel 1 0xFF 0x7A THROW;
  OPDEF "CEE_LDFLD" "ldfld" [PopRef] [Push1] InlineField IObjModel 1 0xFF 0x7B NEXT;
  OPDEF "CEE_LDFLDA" "ldflda" [PopRef] [PushI] InlineField IObjModel 1 0xFF 0x7C NEXT;
  OPDEF "CEE_STFLD" "stfld" [PopRef; Pop1] [Push0] InlineField IObjModel 1 0xFF 0x7D NEXT;
  OPDEF "CEE_LDSFLD" "ldsfld" [Pop0] [Push1] InlineField IObjModel 1 0xFF 0x7E NEXT;
  OPDEF "CEE_LDSFLDA" "ldsflda" [Pop0] [PushI] InlineField IObjModel 1 0xFF 0x7F NEXT;
  OPDEF "CEE_STSFLD" "stsfld" [Pop1] [Push0] InlineField IObjModel 1 0xFF 0x80 NEXT;
  OPDEF "CEE_STOBJ" "stobj" [PopI; Pop1] [Push0] InlineType IPrimitive 1 0xFF 0x81 NEXT;
  OPDEF "CEE_CONV_OVF_I1_UN" "conv.ovf.i1.un" [Pop1] [PushI] InlineNone IPrimitive 1 0xFF 0x82 NEXT;
  OPDEF "CEE_CONV_OVF_I2_UN" "conv.ovf.i2.un" [Pop1] [PushI] InlineNone IPrimitive 1 0xFF 0x83 NEXT;
  OPDEF "CEE_CONV_OVF_I4_UN" "conv.ovf.i4.un" [Pop1] [PushI] InlineNone IPrimitive 1 0xFF 0x84 NEXT;
  OPDEF "CEE_CONV_OVF_I8_UN" "conv.ovf.i8.un" [Pop1] [PushI8] InlineNone IPrimitive 1 0xFF 0x85 NEXT;
  OPDEF "CEE_CONV_OVF_U1_UN" "conv.ovf.u1.un" [Pop1] [PushI] InlineNone IPrimitive 1 0xFF 0x86 NEXT;
  OPDEF "CEE_CONV_OVF_U2_UN" "conv.ovf.u2.un" [Pop1] [PushI] InlineNone IPrimitive 1 0xFF 0x87 NEXT;
  OPDEF "CEE_CONV_OVF_U4_UN" "conv.ovf.u4.un" [Pop1] [PushI] InlineNone IPrimitive 1 0xFF 0x88 NEXT;
  OPDEF "CEE_CONV_OVF_U8_UN" "conv.ovf.u8.un" [Pop1] [PushI8] InlineNone IPrimitive 1 0xFF 0x89 NEXT;
  OPDEF "CEE_CONV_OVF_I_UN" "conv.ovf.i.un" [Pop1] [PushI] InlineNone IPrimitive 1 0xFF 0x8A NEXT;
  OPDEF "CEE_CONV_OVF_U_UN" "conv.ovf.u.un" [Pop1] [PushI] InlineNone IPrimitive 1 0xFF 0x8B NEXT;
  OPDEF "CEE_BOX" "box" [Pop1] [PushRef] InlineType IPrimitive 1 0xFF 0x8C NEXT;
  OPDEF "CEE_NEWARR" "newarr" [PopI] [PushRef] InlineType IObjModel 1 0xFF 0x8D NEXT;
  OPDEF "CEE_LDLEN" "ldlen" [PopRef] [PushI] InlineNone IObjModel 1 0xFF 0x8E NEXT;
  OPDEF "CEE_LDELEMA" "ldelema" [PopRef; PopI] [PushI] InlineType IObjModel 1 0xFF 0x8F NEXT;
  OPDEF "CEE_LDELEM_I1" "ldelem.i1" [PopRef; PopI] [PushI] InlineNone IObjModel 1 0xFF 0x90 NEXT;
  OPDEF "CEE_LDELEM_U1" "ldelem.u1" [PopRef; PopI] [PushI] InlineNone IObjModel 1 0xFF 0x91 NEXT;
  OPDEF "CEE_LDELEM_I2" "ldelem.i2" [PopRef; PopI] [PushI] InlineNone IObjModel 1 0xFF 0x92 NEXT;
  OPDEF "CEE_LDELEM_U2" "ldelem.u2" [PopRef; PopI] [PushI] InlineNone IObjModel 1 0xFF 0x93 NEXT;
  OPDEF "CEE_LDELEM_I4" "ldelem.i4" [PopRef; PopI] [PushI] InlineNone IObjModel 1 0xFF 0x94 NEXT;
  OPDEF "CEE_LDELEM_U4" "ldelem.u4" [PopRef; PopI] [PushI] InlineNone IObjModel 1 0xFF 0x95 NEXT;
  OPDEF "CEE_LDELEM_I8" "ldelem.i8" [PopRef; PopI] [PushI8] InlineNone IObjModel 1 0xFF 0x96 NEXT;
  OPDEF "CEE_LDELEM_I" "ldelem.i" [PopRef; PopI] [PushI] InlineNone IObjModel 1 0xFF 0x97 NEXT;
  OPDEF "CEE_LDELEM_R4" "ldelem.r4" [PopRef; PopI] [PushR4] InlineNone IObjModel 1 0xFF 0x98 NEXT;
  OPDEF "CEE_LDELEM_R8" "ldelem.r8" [PopRef; PopI] [PushR8] InlineNone IObjModel 1 0xFF 0x99 NEXT;
  OPDEF "CEE_LDELEM_REF" "ldelem.ref" [PopRef; PopI] [PushRef] InlineNone IObjModel 1 0xFF 0x9A NEXT;
  OPDEF "CEE_STELEM_I" "stelem.i" [PopRef; PopI; PopI] [Push0] InlineNone IObjModel 1 0xFF 0x9B NEXT;
  OPDEF "CEE_STELEM_I1" "stelem.i1" [PopRef; PopI; PopI] [Push0] InlineNone IObjModel 1 0xFF 0x9C NEXT;
  OPDEF "CEE_STELEM_I2" "stelem.i2" [PopRef; PopI; PopI] [Push0] InlineNone IObjModel 1 0xFF 0x9D NEXT;
  OPDEF "CEE_STELEM_I4" "stelem.i4" [PopRef; PopI; PopI] [Push0] InlineNone IObjModel 1 0xFF 0x9E NEXT;
  OPDEF "CEE_STELEM_I8" "stelem.i8" [PopRef; PopI; PopI8] [Push0] InlineNone IObjModel 1 0xFF 0x9F NEXT;
  OPDEF "CEE_STELEM_R4" "stelem.r4" [PopRef; PopI; PopR4] [Push0] InlineNone IObjModel 1 0xFF 0xA0 NEXT;
  OPDEF "CEE_STELEM_R8" "stelem.r8" [PopRef; PopI; PopR8] [Push0] InlineNone IObjModel 1 0xFF 0xA1 NEXT;
  OPDEF "CEE_STELEM_REF" "stelem.ref" [PopRef; PopI; PopRef] [Push0] InlineNone IObjModel 1 0xFF 0xA2 NEXT;
  OPDEF "CEE_LDELEM" "ldelem" [PopRef; PopI] [Push1] InlineType IObjModel 1 0xFF 0xA3 NEXT;
  OPDEF "CEE_STELEM" "stelem" [PopRef; PopI; Pop1] [Push0] InlineType IObjModel 1 0xFF 0xA4 NEXT;
  OPDEF "CEE_UNBOX_ANY" "unbox.any" [PopRef] [Push1] InlineType IObjModel 1 0xFF 0xA5 NEXT;
  OPDEF "CEE_UNUSED5" "unused" [Pop0] [Push0] InlineNone IPrimitive 1 0xFF 0xA6 NEXT;
  OPDEF "CEE_UNUSED6" "unused" [Pop0] [Push0] InlineNone IPrimitive 1 0xFF 0xA7 NEXT;
  OPDEF "CEE_UNUSED7" "unused" [Pop0] [Push0] InlineNone IPrimitive 1 0xFF 0xA8 NEXT;
  OPDEF "CEE_UNUSED8" "unused" [Pop0] [Push0] InlineNone IPrimitive 1 0xFF 0xA9 NEXT;
  OPDEF "CEE_UNUSED9" "unused" [Pop0] [Push0] InlineNone IPrimitive 1 0xFF 0xAA NEXT;
  OPDEF "CEE_UNUSED10" "unused" [Pop0] [Push0] InlineNone IPrimitive 1 0xFF 0xAB NEXT;
  OPDEF "CEE_UNUSED11" "unused" [Pop0] [Push0] InlineNone IPrimitive 1 0xFF 0xAC NEXT;
  OPDEF "CEE_UNUSED12" "unused" [Pop0] [Push0] InlineNone IPrimitive 1 0xFF 0xAD NEXT;
  OPDEF "CEE_UNUSED13" "unused" [Pop0] [Push0] InlineNone IPrimitive 1 0xFF 0xAE NEXT;
  OPDEF "CEE_UNUSED14" "unused" [Pop0] [Push0] InlineNone IPrimitive 1 0xFF 0xAF NEXT;
  OPDEF "CEE_UNUSED15" "unused" [Pop0] [Push0] InlineNone IPrimitive 1 0xFF 0xB0 NEXT;
  OPDEF "CEE_UNUSED16" "unused" [Pop0] [Push0] InlineNone IPrimitive 1 0xFF 0xB1 NEXT;
  OPDEF "CEE_UNUSED17" "unused" [Pop0] [Push0] InlineNone IPrimitive 1 0xFF 0xB2 NEXT;
  OPDEF "CEE_CONV_OVF_I1" "conv.ovf.i1" [Pop1] [PushI] InlineNone IPrimitive 1 0xFF 0xB3 NEXT;
  OPDEF "CEE_CONV_OVF_U1" "conv.ovf.u1" [Pop1] [PushI] InlineNone IPrimitive 1 0xFF 0xB4 NEXT;
  OPDEF "CEE_CONV_OVF_I2" "conv.ovf.i2" [Pop1] [PushI] InlineNone IPrimitive 1 0xFF 0xB5 NEXT;
  OPDEF "CEE_CONV_OVF_U2" "conv.ovf.u2" [Pop1] [PushI] InlineNone IPrimitive 1 0xFF 0xB6 NEXT;
  OPDEF "CEE_CONV_OVF_I4" "conv.ovf.i4" [Pop1] [PushI] InlineNone IPrimitive 1 0xFF 0xB7 NEXT;
  OPDEF "CEE_CONV_OVF_U4" "conv.ovf.u4" [Pop1] [PushI] InlineNone IPrimitive 1 0xFF 0xB8 NEXT;
  OPDEF "CEE_CONV_OVF_I8" "conv.ovf.i8" [Pop1] [PushI8] InlineNone IPrimitive 1 0xFF 0xB9 NEXT;
  OPDEF "CEE_CONV_OVF_U8" "conv.ovf.u8" [Pop1] [PushI8] InlineNone IPrimitive 1 0xFF 0xBA NEXT;
  OPDEF "CEE_UNUSED50" "unused" [Pop0] [Push0] InlineNone IPrimitive 1 0xFF 0xBB NEXT;
  OPDEF "CEE_UNUSED18" "unused" [Pop0] [Push0] InlineNone IPrimitive 1 0xFF 0xBC NEXT;
  OPDEF "CEE_UNUSED19" "unused" [Pop0] [Push0] InlineNone IPrimitive 1 0xFF 0xBD NEXT;
  OPDEF "CEE_UNUSED20" "unused" [Pop0] [Push0] InlineNone IPrimitive 1 0xFF 0xBE NEXT;
  OPDEF "CEE_UNUSED21" "unused" [Pop0] [Push0] InlineNone IPrimitive 1 0xFF 0xBF NEXT;
  OPDEF "CEE_UNUSED22" "unused" [Pop0] [Push0] InlineNone IPrimitive 1 0xFF 0xC0 NEXT;
  OPDEF "CEE_UNUSED23" "unused" [Pop0] [Push0] InlineNone IPrimitive 1 0xFF 0xC1 NEXT;
  OPDEF "CEE_REFANYVAL" "refanyval" [Pop1] [PushI] InlineType IPrimitive 1 0xFF 0xC2 NEXT;
  OPDEF "CEE_CKFINITE" "ckfinite" [Pop1] [PushR8] InlineNone IPrimitive 1 0xFF 0xC3 NEXT;
  OPDEF "CEE_UNUSED24" "unused" [Pop0] [Push0] InlineNone IPrimitive 1 0xFF 0xC4 NEXT;
  OPDEF "CEE_UNUSED25" "unused" [Pop0] [Push0] InlineNone IPrimitive 1 0xFF 0xC5 NEXT;
  OPDEF "CEE_MKREFANY" "mkrefany" [PopI] [Push1] InlineType IPrimitive 1 0xFF 0xC6 NEXT;
  OPDEF "CEE_UNUSED59" "unused" [Pop0] [Push0] InlineNone IPrimitive 1 0xFF 0xC7 NEXT;
  OPDEF "CEE_UNUSED60" "unused" [Pop0] [Push0] InlineNone IPrimitive 1 0xFF 0xC8 NEXT;
  OPDEF "CEE_UNUSED61" "unused" [Pop0] [Push0] InlineNone IPrimitive 1 0xFF 0xC9 NEXT;
  OPDEF "CEE_UNUSED62" "unused" [Pop0] [Push0] InlineNone IPrimitive 1 0xFF 0xCA NEXT;
  OPDEF "CEE_UNUSED63" "unused" [Pop0] [Push0] InlineNone IPrimitive 1 0xFF 0xCB NEXT;
  OPDEF "CEE_UNUSED64" "unused" [Pop0] [Push0] InlineNone IPrimitive 1 0xFF 0xCC NEXT;
  OPDEF "CEE_UNUSED65" "unused" [Pop0] [Push0] InlineNone IPrimitive 1 0xFF 0xCD NEXT;
  OPDEF "CEE_UNUSED66" "unused" [Pop0] [Push0] InlineNone IPrimitive 1 0xFF 0xCE NEXT;
  OPDEF "CEE_UNUSED67" "unused" [Pop0] [Push0] InlineNone IPrimitive 1 0xFF 0xCF NEXT;
  OPDEF "CEE_LDTOKEN" "ldtoken" [Pop0] [PushI] InlineTok IPrimitive 1 0xFF 0xD0 NEXT;
  OPDEF "CEE_CONV_U2" "conv.u2" [Pop1] [PushI] InlineNone IPrimitive 1 0xFF 0xD1 NEXT;
  OPDEF "CEE_CONV_U1" "conv.u1" [Pop1] [PushI] InlineNone IPrimitive 1 0xFF 0xD2 NEXT;
  OPDEF "CEE_CONV_I" "conv.i" [Pop1] [PushI] InlineNone IPrimitive 1 0xFF 0xD3 NEXT;
  OPDEF "CEE_CONV_OVF_I" "conv.ovf.i" [Pop1] [PushI] InlineNone IPrimitive 1 0xFF 0xD4 NEXT;
  OPDEF "CEE_CONV_OVF_U" "conv.ovf.u" [Pop1] [PushI] InlineNone IPrimitive 1 0xFF 0xD5 NEXT;
  OPDEF "CEE_ADD_OVF" "add.ovf" [Pop1; Pop1] [Push1] InlineNone IPrimitive 1 0xFF 0xD6 NEXT;
  OPDEF "CEE_ADD_OVF_UN" "add.ovf.un" [Pop1; Pop1] [Push1] InlineNone IPrimitive 1 0xFF 0xD7 NEXT;
  OPDEF "CEE_MUL_OVF" "mul.ovf" [Pop1; Pop1] [Push1] InlineNone IPrimitive 1 0xFF 0xD8 NEXT;
  OPDEF "CEE_MUL_OVF_UN" "mul.ovf.un" [Pop1; Pop1] [Push1] InlineNone IPrimitive 1 0xFF 0xD9 NEXT;
  OPDEF "CEE_SUB_OVF" "sub.ovf" [Pop1; Pop1] [Push1] InlineNone IPrimitive 1 0xFF 0xDA NEXT;
  OPDEF "CEE_SUB_OVF_UN" "sub.ovf.un" [Pop1; Pop1] [Push1] InlineNone IPrimitive 1 0xFF 0xDB NEXT;
  OPDEF "CEE_ENDFINALLY" "endfinally" [Pop0] [Push0] InlineNone IPrimitive 1 0xFF 0xDC RETURN;
  OPDEF "CEE_LEAVE" "leave" [Pop0] [Push0] InlineBrTarget IPrimitive 1 0xFF 0xDD BRANCH;
  OPDEF "CEE_LEAVE_S" "leave.s" [Pop0] [Push0] ShortInlineBrTarget IPrimitive 1 0xFF 0xDE BRANCH;
  OPDEF "CEE_STIND_I" "stind.i" [PopI; PopI] [Push0] InlineNone IPrimitive 1 0xFF 0xDF NEXT;
  OPDEF "CEE_CONV_U" "conv.u" [Pop1] [PushI] InlineNone IPrimitive 1 0xFF 0xE0 NEXT;
  OPDEF "CEE_UNUSED26" "unused" [Pop0] [Push0] InlineNone IPrimitive 1 0xFF 0xE1 NEXT;
  OPDEF "CEE_UNUSED27" "unused" [Pop0] [Push0] InlineNone IPrimitive 1 0xFF 0xE2 NEXT;
  OPDEF "CEE_UNUSED28" "unused" [Pop0] [Push0] InlineNone IPrimitive 1 0xFF 0xE3 NEXT;
  OPDEF "CEE_UNUSED29" "unused" [Pop0] [Push0] InlineNone IPrimitive 1 0xFF 0xE4 NEXT;
  OPDEF "CEE_UNUSED30" "unused" [Pop0] [Push0] InlineNone IPrimitive 1 0xFF 0xE5 NEXT;
  OPDEF "CEE_UNUSED31" "unused" [Pop0] [Push0] InlineNone IPrimitive 1 0xFF 0xE6 NEXT;
  OPDEF "CEE_UNUSED32" "unused" [Pop0] [Push0] InlineNone IPrimitive 1 0xFF 0xE7 NEXT;
  OPDEF "CEE_UNUSED33" "unused" [Pop0] [Push0] InlineNone IPrimitive 1 0xFF 0xE8 NEXT;
  OPDEF "CEE_UNUSED34" "unused" [Pop0] [Push0] InlineNone IPrimitive 1 0xFF 0xE9 NEXT;
  OPDEF "CEE_UNUSED35" "unused" [Pop0] [Push0] InlineNone IPrimitive 1 0xFF 0xEA NEXT;
  OPDEF "CEE_UNUSED36" "unused" [Pop0] [Push0] InlineNone IPrimitive 1 0xFF 0xEB NEXT;
  OPDEF "CEE_UNUSED37" "unused" [Pop0] [Push0] InlineNone IPrimitive 1 0xFF 0xEC NEXT;
  OPDEF "CEE_UNUSED38" "unused" [Pop0] [Push0] InlineNone IPrimitive 1 0xFF 0xED NEXT;
  OPDEF "CEE_UNUSED39" "unused" [Pop0] [Push0] InlineNone IPrimitive 1 0xFF 0xEE NEXT;
  OPDEF "CEE_UNUSED40" "unused" [Pop0] [Push0] InlineNone IPrimitive 1 0xFF 0xEF NEXT;
  OPDEF "CEE_UNUSED41" "unused" [Pop0] [Push0] InlineNone IPrimitive 1 0xFF 0xF0 NEXT;
  OPDEF "CEE_UNUSED42" "unused" [Pop0] [Push0] InlineNone IPrimitive 1 0xFF 0xF1 NEXT;
  OPDEF "CEE_UNUSED43" "unused" [Pop0] [Push0] InlineNone IPrimitive 1 0xFF 0xF2 NEXT;
  OPDEF "CEE_UNUSED44" "unused" [Pop0] [Push0] InlineNone IPrimitive 1 0xFF 0xF3 NEXT;
  OPDEF "CEE_UNUSED45" "unused" [Pop0] [Push0] InlineNone IPrimitive 1 0xFF 0xF4 NEXT;
  OPDEF "CEE_UNUSED46" "unused" [Pop0] [Push0] InlineNone IPrimitive 1 0xFF 0xF5 NEXT;
  OPDEF "CEE_UNUSED47" "unused" [Pop0] [Push0] InlineNone IPrimitive 1 0xFF 0xF6 NEXT;
  OPDEF "CEE_UNUSED48" "unused" [Pop0] [Push0] InlineNone IPrimitive 1 0xFF 0xF7 NEXT;
  OPDEF "CEE_PREFIX7" "prefix7" [Pop0] [Push0] InlineNone IInternal 1 0xFF 0xF8 META;
  OPDEF "CEE_PREFIX6" "prefix6" [Pop0] [Push0] InlineNone IInternal 1 0xFF 0xF9 META;
  OPDEF "CEE_PREFIX5" "prefix5" [Pop0] [Push0] InlineNone IInternal 1 0xFF 0xFA META;
  OPDEF "CEE_PREFIX4" "prefix4" [Pop0] [Push0] InlineNone IInternal 1 0xFF 0xFB META;
  OPDEF "CEE_PREFIX3" "prefix3" [Pop0] [Push0] InlineNone IInternal 1 0xFF 0xFC META;
  OPDEF "CEE_PREFIX2" "prefix2" [Pop0] [Push0] InlineNone IInternal 1 0xFF 0xFD META;
  OPDEF "CEE_PREFIX1" "prefix1" [Pop0] [Push0] InlineNone IInternal 1 0xFF 0xFE META;
  OPDEF "CEE_PREFIXREF" "prefixref" [Pop0] [Push0] InlineNone IInternal 1 0xFF 0xFF META
].

(** The opcodes behind the [0xFE] lead byte. *)
Definition opcode_def_two_bytes : list opdef := [
  OPDEF "CEE_ARGLIST" "arglist" [Pop0] [PushI] InlineNone IPrimitive 2 0xFE 0x00 NEXT;
  OPDEF "CEE_CEQ" "ceq" [Pop1; Pop1] [PushI] InlineNone IPrimitive 2 0xFE 0x01 NEXT;
  OPDEF "CEE_CGT" "cgt" [Pop1; Pop1] [PushI] InlineNone IPrimitive 2 0xFE 0x02 NEXT;
  OPDEF "CEE_CGT_UN" "cgt.un" [Pop1; Pop1] [PushI] InlineNone IPrimitive 2 0xFE 0x03 NEXT;
  OPDEF "CEE_CLT" "clt" [Pop1; Pop1] [PushI] InlineNone IPrimitive 2 0xFE 0x04 NEXT;
  OPDEF "CEE_CLT_UN" "clt.un" [Pop1; Pop1] [PushI] InlineNone IPrimitive 2 0xFE 0x05 NEXT;
  OPDEF "CEE_LDFTN" "ldftn" [Pop0] [PushI] InlineMethod IPrimitive 2 0xFE 0x06 NEXT;
  OPDEF "CEE_LDVIRTFTN" "ldvirtftn" [PopRef] [PushI] InlineMethod IPrimitive 2 0xFE 0x07 NEXT;
  OPDEF "CEE_UNUSED56" "unused" [Pop0] [Push0] InlineNone IPrimitive 2 0xFE 0x08 NEXT;
  OPDEF "CEE_LDARG" "ldarg" [Pop0] [Push1] InlineVar IPrimitive 2 0xFE 0x09 NEXT;
  OPDEF "CEE_LDARGA" "ldarga" [Pop0] [PushI] InlineVar IPrimitive 2 0xFE 0x0A NEXT;
  OPDEF "CEE_STARG" "starg" [Pop1] [Push0] InlineVar IPrimitive 2 0xFE 0x0B NEXT;
  OPDEF "CEE_LDLOC" "ldloc" [Pop0] [Push1] InlineVar IPrimitive 2 0xFE 0x0C NEXT;
  OPDEF "CEE_LDLOCA" "ldloca" [Pop0] [PushI] InlineVar IPrimitive 2 0xFE 0x0D NEXT;
  OPDEF "CEE_STLOC" "stloc" [Pop1] [Push0] InlineVar IPrimitive 2 0xFE 0x0E NEXT;
  OPDEF "CEE_LOCALLOC" "localloc" [PopI] [PushI] InlineNone IPrimitive 2 0xFE 0x0F NEXT;
  OPDEF "CEE_UNUSED57" "unused" [Pop0] [Push0] InlineNone IPrimitive 2 0xFE 0x10 NEXT;
  OPDEF "CEE_ENDFILTER" "endfilter" [PopI] [Push0] InlineNone IPrimitive 2 0xFE 0x11 RETURN;
  OPDEF "CEE_UNALIGNED" "unaligned." [Pop0] [Push0] ShortInlineI IPrefix 2 0xFE 0x12 META;
  OPDEF "CEE_VOLATILE" "volatile." [Pop0] [Push0] InlineNone IPrefix 2 0xFE 0x13 META;
  OPDEF "CEE_TAILCALL" "tail." [Pop0] [Push0] InlineNone IPrefix 2 0xFE 0x14 META;
  OPDEF "CEE_INITOBJ" "initobj" [PopI] [Push0] InlineType IObjModel 2 0xFE 0x15 NEXT;
  OPDEF "CEE_CONSTRAINED" "constrained." [Pop0] [Push0] InlineType IPrefix 2 0xFE 0x16 META;
  OPDEF "CEE_CPBLK" "cpblk" [PopI; PopI; PopI] [Push0] InlineNone IPrimitive 2 0xFE 0x17 NEXT;
  OPDEF "CEE_INITBLK" "initblk" [PopI; PopI; PopI] [Push0] InlineNone IPrimitive 2 0xFE 0x18 NEXT;
  OPDEF "CEE_UNUSED69" "unused" [Pop0] [Push0] InlineNone IPrimitive 2 0xFE 0x19 NEXT;
  OPDEF "CEE_RETHROW" "rethrow" [Pop0] [Push0] InlineNone IObjModel 2 0xFE 0x1A THROW;
  OPDEF "CEE_UNUSED51" "unused" [Pop0] [Push0] InlineNone IPrimitive 2 0xFE 0x1B NEXT;
  OPDEF "CEE_SIZEOF" "sizeof" [Pop0] [PushI] InlineType IPrimitive 2 0xFE 0x1C NEXT;
  OPDEF "CEE_REFANYTYPE" "refanytype" [Pop1] [PushI] InlineNone IPrimitive 2 0xFE 0x1D NEXT;
  OPDEF "CEE_READONLY" "readonly." [Pop0] [Push0] InlineNone IPrefix 2 0xFE 0x1E META;
  OPDEF "CEE_UNUSED53" "unused" [Pop0] [Push0] InlineNone IPrimitive 2 0xFE 0x1F NEXT;
  OPDEF "CEE_UNUSED54" "unused" [Pop0] [Push0] InlineNone IPrimitive 2 0xFE 0x20 NEXT;
  OPDEF "CEE_UNUSED55" "unused" [Pop0] [Push0] InlineNone IPrimitive 2 0xFE 0x21 NEXT;
  OPDEF "CEE_UNUSED70" "unused" [Pop0] [Push0] InlineNone IPrimitive 2 0xFE 0x22 NEXT
].

(** Opcodes internal to the runtime; they have no encoding ([MOOT] is 0). *)
Definition opcode_def_internal : list opdef := [
  OPDEF "CEE_ILLEGAL" "illegal" [Pop0] [Push0] InlineNone IInternal 0 0x00 0x00 META;
  OPDEF "CEE_MACRO_END" "endmac" [Pop0] [Push0] InlineNone IInternal 0 0x00 0x00 META;
  OPDEF "CEE_CODE_LABEL" "codelabel" [Pop0] [Push0] InlineNone IInternal 0 0x00 0x00 META
].

Definition opcode_def : list opdef :=
  opcode_def_one_byte ++ opcode_def_two_bytes ++ opcode_def_internal.

(** ** The enumeration OPCODE *)

(** The enumerators of [OPCODE] are numbered by the lines of [opcode.def];
    [CEE_COUNT] and [CEE_SWITCH_ARG] follow them. *)
Definition enum_value (c : string) : option Z :=
  match list_find (fun d => od_c d = c) opcode_def with
  | Some (n, _) => Some (Z.of_nat n)
  | None => None
  end.

Definition CEE_COUNT : Z := 294.
Definition CEE_SWITCH_ARG : Z := 295.

Definition CEE_NOP : Z := 0x00.
Definition CEE_LDC_I4_0 : Z := 0x16.
Definition CEE_LDC_I4 : Z := 0x20.
Definition CEE_LDC_I8 : Z := 0x21.
Definition CEE_CALL : Z := 0x28.
Definition CEE_CALLI : Z := 0x29.
Definition CEE_RET : Z := 0x2A.
Definition CEE_BR_S : Z := 0x2B.
Definition CEE_BLT_UN_S : Z := 0x37.
Definition CEE_BR : Z := 0x38.
Definition CEE_BLT_UN : Z := 0x44.
Definition CEE_SWITCH : Z := 0x45.
Definition CEE_CALLVIRT : Z := 0x6F.
Definition CEE_NEWOBJ : Z := 0x73.
Definition CEE_THROW : Z := 0x7A.
Definition CEE_STSFLD : Z := 0x80.
Definition CEE_ENDFINALLY : Z := 0xDC.
Definition CEE_LEAVE : Z := 0xDD.
Definition CEE_LEAVE_S : Z := 0xDE.
Definition CEE_PREFIX7 : Z := 0xF8.
Definition CEE_PREFIX2 : Z := 0xFD.
Definition CEE_PREFIX1 : Z := 0xFE.
Definition CEE_ENDFILTER : Z := 0x111.
Definition CEE_UNALIGNED : Z := 0x112.
Definition CEE_VOLATILE : Z := 0x113.
Definition CEE_TAILCALL : Z := 0x114.
Definition CEE_CONSTRAINED : Z := 0x116.
Definition CEE_RETHROW : Z := 0x11A.
Definition CEE_READONLY : Z := 0x11E.

(** The enumerators the rewriter names, with the values above. *)
Definition named_opcodes : list (string * Z) := [
  ("CEE_NOP", CEE_NOP); ("CEE_LDC_I4_0", CEE_LDC_I4_0); ("CEE_LDC_I4", CEE_LDC_I4);
  ("CEE_LDC_I8", CEE_LDC_I8); ("CEE_CALL", CEE_CALL); ("CEE_CALLI", CEE_CALLI);
  ("CEE_RET", CEE_RET); ("CEE_BR_S", CEE_BR_S); ("CEE_BLT_UN_S", CEE_BLT_UN_S);
  ("CEE_BR", CEE_BR); ("CEE_BLT_UN", CEE_BLT_UN); ("CEE_SWITCH", CEE_SWITCH);
  ("CEE_CALLVIRT", CEE_CALLVIRT); ("CEE_NEWOBJ", CEE_NEWOBJ); ("CEE_THROW", CEE_THROW);
  ("CEE_STSFLD", CEE_STSFLD); ("CEE_ENDFINALLY", CEE_ENDFINALLY); ("CEE_LEAVE", CEE_LEAVE);
  ("CEE_LEAVE_S", CEE_LEAVE_S); ("CEE_PREFIX7", CEE_PREFIX7); ("CEE_PREFIX2", CEE_PREFIX2);
  ("CEE_PREFIX1", CEE_PREFIX1); ("CEE_ENDFILTER", CEE_ENDFILTER);
  ("CEE_UNALIGNED", CEE_UNALIGNED); ("CEE_VOLATILE", CEE_VOLATILE);
  ("CEE_TAILCALL", CEE_TAILCALL); ("CEE_CONSTRAINED", CEE_CONSTRAINED);
  ("CEE_RETHROW", CEE_RETHROW); ("CEE_READONLY", CEE_READONLY)
]%string.

(** ** s_OpCodeFlags *)

Definition OPCODEFLAGS_SizeMask : Z := 0x0F.
Definition OPCODEFLAGS_BranchTarget : Z := 0x10.
Definition OPCODEFLAGS_Switch : Z := 0x20.

(** The macros [s_OpCodeFlags] gives the operand column. *)
Definition operand_flags (a : operand) : Z :=
  match a with
  | InlineNone => 0
  | ShortInlineVar => 1
  | InlineVar => 2
  | ShortInlineI => 1
  | InlineI => 4
  | InlineI8 => 8
  | ShortInlineR => 4
  | InlineR => 8
  | ShortInlineBrTarget => Z.lor 1 OPCODEFLAGS_BranchTarget
  | InlineBrTarget => Z.lor 4 OPCODEFLAGS_BranchTarget
  | InlineMethod => 4
  | InlineField => 4
  | InlineType => 4
  | InlineString => 4
  | InlineSig => 4
  | InlineRVA => 4
  | InlineTok => 4
  | InlineSwitch => Z.lor 0 OPCODEFLAGS_Switch
  end.

Definition s_OpCodeFlags : list Z :=
  ((fun d => operand_flags (od_args d)) <$> opcode_def)
    ++ [0 (* CEE_COUNT *); Z.lor 4 OPCODEFLAGS_BranchTarget (* CEE_SWITCH_ARG *)].

(** ** k_rgnStackPushes *)

(** The macros [k_rgnStackPushes] gives the push column. *)
Definition push_count (p : stack_push) : Z :=
  match p with
  | Push0 => 0
  | Push1 | PushI | PushI8 | PushR4 | PushR8 | PushRef => 1
  | VarPush => 1
  end.

Definition k_rgnStackPushes : list Z :=
  ((fun d => foldr Z.add 0 (push_count <$> od_push d)) <$> opcode_def)
    ++ [0 (* CEE_COUNT *); 0 (* CEE_SWITCH_ARG *)].

(** An access [table[opcode]] of the two tables. *)
Definition opcode_lookup (table : list Z) (opcode : Z) : option Z :=
  if (0 <=? opcode) && (opcode <=? CEE_SWITCH_ARG) then table !! Z.to_nat opcode else None.

Definition opcode_flags : Z -> option Z := opcode_lookup s_OpCodeFlags.
Definition opcode_pushes : Z -> option Z := opcode_lookup k_rgnStackPushes.

(** ** Opcode classes *)

Definition OpcodeIsBranch (opcode : Z) : bool :=
  ((CEE_BR_S <=? opcode) && (opcode <=? CEE_SWITCH))
  || (opcode =? CEE_LEAVE) || (opcode =? CEE_LEAVE_S).

Definition IsPrefix (opcode : Z) : bool :=
  (opcode =? CEE_TAILCALL) || (opcode =? CEE_UNALIGNED) || (opcode =? CEE_VOLATILE)
  || (opcode =? CEE_READONLY) || (opcode =? CEE_CONSTRAINED).

(** ** opcodetostr *)

(** The tests of [opcodetostr], lines 30 to 178. *)
Definition opcodetostr_rows_0 : list (string * string) := [
  ("CEE_NOP", "nop");
  ("CEE_BREAK", "break");
  ("CEE_LDARG_0", "ldarg.0");
  ("CEE_LDARG_1", "ldarg.1");
  ("CEE_LDARG_2", "ldarg.2");
  ("CEE_LDARG_3", "ldarg.3");
  ("CEE_LDLOC_0", "ldloc.0");
  ("CEE_LDLOC_1", "ldloc.1");
  ("CEE_LDLOC_2", "ldloc.2");
  ("CEE_LDLOC_3", "ldloc.3");
  ("CEE_STLOC_0", "stloc.0");
  ("CEE_STLOC_1", "stloc.1");
  ("CEE_STLOC_2", "stloc.2");
  ("CEE_STLOC_3", "stloc.3");
  ("CEE_LDARG_S", "ldarg.s");
  ("CEE_LDARGA_S", "ldarga.s");
  ("CEE_STARG_S", "starg.s");
  ("CEE_LDLOC_S", "ldloc.s");
  ("CEE_LDLOCA_S", "ldloca.s");
  ("CEE_STLOC_S", "stloc.s");
  ("CEE_LDNULL", "ldnull");
  ("CEE_LDC_I4_M1", "ldc.i4.m1");
  ("CEE_LDC_I4_0", "ldc.i4.0");
  ("CEE_LDC_I4_1", "ldc.i4.1");
  ("CEE_LDC_I4_2", "ldc.i4.2");
  ("CEE_LDC_I4_3", "ldc.i4.3");
  ("CEE_LDC_I4_4", "ldc.i4.4");
  ("CEE_LDC_I4_5", "ldc.i4.5");
  ("CEE_LDC_I4_6", "ldc.i4.6");
  ("CEE_LDC_I4_7", "ldc.i4.7");
  ("CEE_LDC_I4_8", "ldc.i4.8");
  ("CEE_LDC_I4_S", "ldc.i4.s");
  ("CEE_LDC_I4", "ldc.i4");
  ("CEE_LDC_I8", "ldc.i8");
  ("CEE_LDC_R4", "ldc.r4");
  ("CEE_LDC_R8", "ldc.r8");
  ("CEE_UNUSED49", "unused");
  ("CEE_DUP", "dup");
  ("CEE_POP", "pop");
  ("CEE_JMP", "jmp");
  ("CEE_CALL", "call");
  ("CEE_CALLI", "calli");
  ("CEE_RET", "ret");
  ("CEE_BR_S", "br.s");
  ("CEE_BRFALSE_S", "brfalse.s");
  ("CEE_BRTRUE_S", "brtrue.s");
  ("CEE_BEQ_S", "beq.s");
  ("CEE_BGE_S", "bge.s");
  ("CEE_BGT_S", "bgt.s");
  ("CEE_BLE_S", "ble.s");
  ("CEE_BLT_S", "blt.s");
  ("CEE_BNE_UN_S", "bne.un.s");
  ("CEE_BGE_UN_S", "bge.un.s");
  ("CEE_BGT_UN_S", "bgt.un.s");
  ("CEE_BLE_UN_S", "ble.un.s");
  ("CEE_BLT_UN_S", "blt.un.s");
  ("CEE_BR", "br");
  ("CEE_BRFALSE", "brfalse");
  ("CEE_BRTRUE", "brtrue");
  ("CEE_BEQ", "beq");
  ("CEE_BGE", "bge");
  ("CEE_BGT", "bgt");
  ("CEE_BLE", "ble");
  ("CEE_BLT", "blt");
  ("CEE_BNE_UN", "bne.un");
  ("CEE_BGE_UN", "bge.un");
  ("CEE_BGT_UN", "bgt.un");
  ("CEE_BLE_UN", "ble.un");
  ("CEE_BLT_UN", "blt.un");
  ("CEE_SWITCH", "switch");
  ("CEE_LDIND_I1", "ldind.i1");
  ("CEE_LDIND_U1", "ldind.u1");
  ("CEE_LDIND_I2", "ldind.i2");
  ("CEE_LDIND_U2", "ldind.u2");
  ("CEE_LDIND_I4", "ldind.i4");
  ("CEE_LDIND_U4", "ldind.u4");
  ("CEE_LDIND_I8", "ldind.i8");
  ("CEE_LDIND_I", "ldind.i");
  ("CEE_LDIND_R4", "ldind.r4");
  ("CEE_LDIND_R8", "ldind.r8");
  ("CEE_LDIND_REF", "ldind.ref");
  ("CEE_STIND_REF", "stind.ref");
  ("CEE_STIND_I1", "stind.i1");
  ("CEE_STIND_I2", "stind.i2");
  ("CEE_STIND_I4", "stind.i4");
  ("CEE_STIND_I8", "stind.i8");
  ("CEE_STIND_R4", "stind.r4");
  ("CEE_STIND_R8", "stind.r8");
  ("CEE_ADD", "add");
  ("CEE_SUB", "sub");
  ("CEE_MUL", "mul");
  ("CEE_DIV", "div");
  ("CEE_DIV_UN", "div.un");
  ("CEE_REM", "rem");
  ("CEE_REM_UN", "rem.un");
  ("CEE_AND", "and");
  ("CEE_OR", "or");
  ("CEE_XOR", "xor");
  ("CEE_SHL", "shl");
  ("CEE_SHR", "shr");
  ("CEE_SHR_UN", "shr.un");
  ("CEE_NEG", "neg");
  ("CEE_NOT", "not");
  ("CEE_CONV_I1", "conv.i1");
  ("CEE_CONV_I2", "conv.i2");
  ("CEE_CONV_I4", "conv.i4");
  ("CEE_CONV_I8", "conv.i8");
  ("CEE_CONV_R4", "conv.r4");
  ("CEE_CONV_R8", "conv.r8");
  ("CEE_CONV_U4", "conv.u4");
  ("CEE_CONV_U8", "conv.u8");
  ("CEE_CALLVIRT", "callvirt");
  ("CEE_CPOBJ", "cpobj");
  ("CEE_LDOBJ", "ldobj");
  ("CEE_LDSTR", "ldstr");
  ("CEE_NEWOBJ", "newobj");
  ("CEE_CASTCLASS", "castclass");
  ("CEE_ISINST", "isinst");
  ("CEE_CONV_R_UN", "conv.r.un");
  ("CEE_UNUSED58", "unused");
  ("CEE_UNUSED1", "unused");
  ("CEE_UNBOX", "unbox");
  ("CEE_THROW", "throw");
  ("CEE_LDFLD", "ldfld");
  ("CEE_LDFLDA", "ldflda");
  ("CEE_STFLD", "stfld");
  ("CEE_LDSFLD", "ldsfld");
  ("CEE_LDSFLDA", "ldsflda");
  ("CEE_STSFLD", "stsfld");
  ("CEE_STOBJ", "stobj");
  ("CEE_CONV_OVF_I1_UN", "conv.ovf.i1.un");
  ("CEE_CONV_OVF_I2_UN", "conv.ovf.i2.un");
  ("CEE_CONV_OVF_I4_UN", "conv.ovf.i4.un");
  ("CEE_CONV_OVF_I8_UN", "conv.ovf.i8.un");
  ("CEE_CONV_OVF_U1_UN", "conv.ovf.u1.un");
  ("CEE_CONV_OVF_U2_UN", "conv.ovf.u2.un");
  ("CEE_CONV_OVF_U4_UN", "conv.ovf.u4.un");
  ("CEE_CONV_OVF_U8_UN", "conv.ovf.u8.un");
  ("CEE_CONV_OVF_I_UN", "conv.ovf.i.un");
  ("CEE_CONV_OVF_U_UN", "conv.ovf.u.un");
  ("CEE_BOX", "box");
  ("CEE_NEWARR", "newarr");
  ("CEE_LDLEN", "ldlen");
  ("CEE_LDELEMA", "ldelema");
  ("CEE_LDELEM_I1", "ldelem.i1");
  ("CEE_LDELEM_U1", "ldelem.u1");
  ("CEE_LDELEM_I2", "ldelem.i2");
  ("CEE_LDELEM_U2", "ldelem.u2");
  ("CEE_LDELEM_I4", "ldelem.i4")
]%string.

(** The tests of [opcodetostr], lines 179 to 285. *)
Definition opcodetostr_rows_1 : list (string * string) := [
  ("CEE_LDELEM_U4", "ldelem.u4");
  ("CEE_LDELEM_I8", "ldelem.i8");
  ("CEE_LDELEM_I", "ldelem.i");
  ("CEE_LDELEM_R4", "ldelem.r4");
  ("CEE_LDELEM_R8", "ldelem.r8");
  ("CEE_LDELEM_REF", "ldelem.ref");
  ("CEE_STELEM_I", "stelem.i");
  ("CEE_STELEM_I1", "stelem.i1");
  ("CEE_STELEM_I2", "stelem.i2");
  ("CEE_STELEM_I4", "stelem.i4");
  ("CEE_STELEM_I8", "stelem.i8");
  ("CEE_STELEM_R4", "stelem.r4");
  ("CEE_STELEM_R8", "stelem.r8");
  ("CEE_STELEM_REF", "stelem.ref");
  ("CEE_LDELEM", "ldelem");
  ("CEE_STELEM", "stelem");
  ("CEE_UNBOX_ANY", "unbox.any");
  ("CEE_UNUSED5", "unused");
  ("CEE_UNUSED6", "unused");
  ("CEE_UNUSED7", "unused");
  ("CEE_UNUSED8", "unused");
  ("CEE_UNUSED9", "unused");
  ("CEE_UNUSED10", "unused");
  ("CEE_UNUSED11", "unused");
  ("CEE_UNUSED12", "unused");
  ("CEE_UNUSED13", "unused");
  ("CEE_UNUSED14", "unused");
  ("CEE_UNUSED15", "unused");
  ("CEE_UNUSED16", "unused");
  ("CEE_UNUSED17", "unused");
  ("CEE_CONV_OVF_I1", "conv.ovf.i1");
  ("CEE_CONV_OVF_U1", "conv.ovf.u1");
  ("CEE_CONV_OVF_I2", "conv.ovf.i2");
  ("CEE_CONV_OVF_U2", "conv.ovf.u2");
  ("CEE_CONV_OVF_I4", "conv.ovf.i4");
  ("CEE_CONV_OVF_U4", "conv.ovf.u4");
  ("CEE_CONV_OVF_I8", "conv.ovf.i8");
  ("CEE_CONV_OVF_U8", "conv.ovf.u8");
  ("CEE_UNUSED50", "unused");
  ("CEE_UNUSED18", "unused");
  ("CEE_UNUSED19", "unused");
  ("CEE_UNUSED20", "unused");
  ("CEE_UNUSED21", "unused");
  ("CEE_UNUSED22", "unused");
  ("CEE_UNUSED23", "unused");
  ("CEE_REFANYVAL", "refanyval");
  ("CEE_CKFINITE", "ckfinite");
  ("CEE_UNUSED24", "unused");
  ("CEE_UNUSED25", "unused");
  ("CEE_MKREFANY", "mkrefany");
  ("CEE_UNUSED59", "unused");
  ("CEE_UNUSED60", "unused");
  ("CEE_UNUSED61", "unused");
  ("CEE_UNUSED62", "unused");
  ("CEE_UNUSED63", "unused");
  ("CEE_UNUSED64", "unused");
  ("CEE_UNUSED65", "unused");
  ("CEE_UNUSED66", "unused");
  ("CEE_UNUSED67", "unused");
  ("CEE_LDTOKEN", "ldtoken");
  ("CEE_CONV_U2", "conv.u2");
  ("CEE_CONV_U1", "conv.u1");
  ("CEE_CONV_I", "conv.i");
  ("CEE_CONV_OVF_I", "conv.ovf.i");
  ("CEE_CONV_OVF_U", "conv.ovf.u");
  ("CEE_ADD_OVF", "add.ovf");
  ("CEE_ADD_OVF_UN", "add.ovf.un");
  ("CEE_MUL_OVF", "mul.ovf");
  ("CEE_MUL_OVF_UN", "mul.ovf.un");
  ("CEE_SUB_OVF", "sub.ovf");
  ("CEE_SUB_OVF_UN", "sub.ovf.un");
  ("CEE_ENDFINALLY", "endfinally");
  ("CEE_LEAVE", "leave");
  ("CEE_LEAVE_S", "leave.s");
  ("CEE_STIND_I", "stind.i");
  ("CEE_CONV_U", "conv.u");
  ("CEE_UNUSED26", "unused");
  ("CEE_UNUSED27", "unused");
  ("CEE_UNUSED28", "unused");
  ("CEE_UNUSED29", "unused");
  ("CEE_UNUSED30", "unused");
  ("CEE_UNUSED31", "unused");
  ("CEE_UNUSED32", "unused");
  ("CEE_UNUSED33", "unused");
  ("CEE_UNUSED34", "unused");
  ("CEE_UNUSED35", "unused");
  ("CEE_UNUSED36", "unused");
  ("CEE_UNUSED37", "unused");
  ("CEE_UNUSED38", "unused");
  ("CEE_UNUSED39", "unused");
  ("CEE_UNUSED40", "unused");
  ("CEE_UNUSED41", "unused");
  ("CEE_UNUSED42", "unused");
  ("CEE_UNUSED43", "unused");
  ("CEE_UNUSED44", "unused");
  ("CEE_UNUSED45", "unused");
  ("CEE_UNUSED46", "unused");
  ("CEE_UNUSED47", "unused");
  ("CEE_UNUSED48", "unused");
  ("CEE_PREFIX7", "prefix7");
  ("CEE_PREFIX6", "prefix6");
  ("CEE_PREFIX5", "prefix5");
  ("CEE_PREFIX4", "prefix4");
  ("CEE_PREFIX3", "prefix3");
  ("CEE_PREFIX2", "prefix2");
  ("CEE_PREFIX1", "prefix1");
  ("CEE_PREFIXREF", "prefixref")
]%string.

(** The tests of [opcodetostr], lines 286 to 321. *)
Definition opcodetostr_rows_2 : list (string * string) := [
  ("CEE_ARGLIST", "arglist");
  ("CEE_CEQ", "ceq");
  ("CEE_CGT", "cgt");
  ("CEE_CGT_UN", "cgt.un");
  ("CEE_CLT", "clt");
  ("CEE_CLT_UN", "clt.un");
  ("CEE_LDFTN", "ldftn");
  ("CEE_LDVIRTFTN", "ldvirtftn");
  ("CEE_UNUSED56", "unused");
  ("CEE_LDARG", "ldarg");
  ("CEE_LDARGA", "ldarga");
  ("CEE_STARG", "starg");
  ("CEE_LDLOC", "ldloc");
  ("CEE_LDLOCA", "ldloca");
  ("CEE_STLOC", "stloc");
  ("CEE_LOCALLOC", "localloc");
  ("CEE_UNUSED57", "unused");
  ("CEE_ENDFILTER", "endfilter");
  ("CEE_UNALIGNED", "unaligned.");
  ("CEE_VOLATILE", "volatile.");
  ("CEE_TAILCALL", "tail.");
  ("CEE_INITOBJ", "initobj");
  ("CEE_CONSTRAINED", "constrained.");
  ("CEE_CPBLK", "cpblk");
  ("CEE_INITBLK", "initblk");
  ("CEE_UNUSED69", "unused");
  ("CEE_RETHROW", "rethrow");
  ("CEE_UNUSED51", "unused");
  ("CEE_SIZEOF", "sizeof");
  ("CEE_REFANYTYPE", "refanytype");
  ("CEE_READONLY", "readonly.");
  ("CEE_UNUSED53", "unused");
  ("CEE_UNUSED54", "unused");
  ("CEE_UNUSED55", "unused");
  ("CEE_UNUSED70", "unused")
]%string.

(** The tests in order, with the enumerators' values. *)
Definition opcodetostr_tests : list (option Z * string) :=
  (fun r => (enum_value r.1, r.2))
    <$> opcodetostr_rows_0 ++ opcodetostr_rows_1 ++ opcodetostr_rows_2.

Definition opcodetostr (opcode : Z) : string :=
  match list_find (fun r => r.1 = Some opcode) opcodetostr_tests with
  | Some (_, (_, s)) => s
  | None => "unknwn"%string
  end.

(** ** Facts read off the tables *)

(** Checks a boolean statement about every opcode number by computation. *)
Definition for_opcodes (P : Z -> bool) : bool := forallb P (seqZ 0 296).

Lemma for_opcodes_spec P opcode :
  for_opcodes P = true -> 0 <= opcode <= CEE_SWITCH_ARG -> P opcode = true.
Proof.
  unfold for_opcodes, CEE_SWITCH_ARG. rewrite forallb_forall. intros H Ho. apply H.
  apply list_elem_of_In, elem_of_seqZ. lia.
Qed.

Lemma opcode_lookup_range table opcode x :
  opcode_lookup table opcode = Some x -> 0 <= opcode <= CEE_SWITCH_ARG.
Proof. unfold opcode_lookup. destruct (_ && _) eqn:E; [lia|done]. Qed.

(** A statement about an opcode that has flags, by computation on all of them. *)
Ltac by_opcode_table P :=
  match goal with
  | H : opcode_flags ?o = Some _ |- _ =>
      let R := fresh in
      pose proof (for_opcodes_spec P o ltac:(vm_compute; reflexivity)
                    (opcode_lookup_range _ _ _ H)) as R;
      cbv beta in R; rewrite H in R
  end.

(** The eight values the [switch (flags)] of the rewriter handles. *)
Lemma opcode_flags_cases opcode f :
  opcode_flags opcode = Some f -> f ∈ [0; 1; 2; 4; 8; 0x11; 0x14; 0x20].
Proof.
  intros H.
  by_opcode_table (fun o => match opcode_flags o with
    Some f => bool_decide (f ∈ [0; 1; 2; 4; 8; 0x11; 0x14; 0x20]) | None => true end).
  by apply bool_decide_eq_true in H0.
Qed.

Lemma opcode_flags_total opcode : 0 <= opcode <= CEE_SWITCH_ARG -> is_Some (opcode_flags opcode).
Proof.
  intros H. pose proof (for_opcodes_spec (fun o => match opcode_flags o with
    Some _ => true | None => false end) opcode ltac:(vm_compute; reflexivity) H) as R.
  cbv beta in R. destruct (opcode_flags opcode); [eauto|done].
Qed.

Lemma opcode_pushes_total opcode : 0 <= opcode <= CEE_SWITCH_ARG -> is_Some (opcode_pushes opcode).
Proof.
  intros H. pose proof (for_opcodes_spec (fun o => match opcode_pushes o with
    Some _ => true | None => false end) opcode ltac:(vm_compute; reflexivity) H) as R.
  cbv beta in R. destruct (opcode_pushes opcode); [eauto|done].
Qed.

Lemma opcode_pushes_bound opcode n : opcode_pushes opcode = Some n -> 0 <= n <= 2.
Proof.
  intros H.
  pose proof (for_opcodes_spec (fun o => match opcode_pushes o with
    Some n => (0 <=? n) && (n <=? 2) | None => true end) opcode
    ltac:(vm_compute; reflexivity) (opcode_lookup_range _ _ _ H)) as R.
  cbv beta in R. rewrite H in R. lia.
Qed.

(** The only opcode with the switch flag is [CEE_SWITCH]. *)
Lemma opcode_flags_switch opcode : opcode_flags opcode = Some 0x20 -> opcode = CEE_SWITCH.
Proof.
  intros H.
  by_opcode_table (fun o => match opcode_flags o with
    Some f => negb (f =? 0x20) || (o =? CEE_SWITCH) | None => true end).
  lia.
Qed.

(** What [opcode_table_encoding] says of one line of the table, as a test. *)
Definition encoding_row_ok (p : Z * opdef) : bool :=
  let d := p.2 in
  (negb (od_l d =? 1) || ((od_s1 d =? 0xFF) && (od_s2 d =? p.1)))
  && (negb (od_l d =? 2) || ((od_s1 d =? CEE_PREFIX1) && (0x100 + od_s2 d =? p.1)))
  && (negb (od_l d =? 0) || (291 <=? p.1)).

(** every enumerator named by the rewriter has the value its line of
    [opcode.def] gives it, and the number of every opcode is its encoding: a
    one-byte opcode [n] is encoded by the byte [n], an opcode
    [n = 0x100 + b] by the lead byte [0xFE = CEE_PREFIX1] and the byte [b], so
    that [ImportIL]'s [0x100 + pIL[offset++]] and [Export]'s
    [opcode & 0xFF] are inverse on the opcodes of the table. *)
Theorem opcode_table_encoding :
  Forall (fun '(c, v) => enum_value c = Some v) named_opcodes /\
  Z.of_nat (length opcode_def) = CEE_COUNT /\
  forall n d, opcode_def !! n = Some d ->
    (od_l d = 1 -> od_s1 d = 0xFF /\ od_s2 d = Z.of_nat n) /\
    (od_l d = 2 -> od_s1 d = CEE_PREFIX1 /\ 0x100 + od_s2 d = Z.of_nat n) /\
    (od_l d = 0 -> 291 <= Z.of_nat n).
Proof.
  split; [|split; [vm_compute; reflexivity|]].
  - repeat (apply Forall_cons; split; [vm_compute; reflexivity|]). apply Forall_nil_2.
  - intros n d Hd.
    assert (forallb encoding_row_ok (zip (seqZ 0 294) opcode_def) = true) as HF
      by (vm_compute; reflexivity).
    rewrite forallb_forall in HF. specialize (HF (Z.of_nat n, d)).
    assert (encoding_row_ok (Z.of_nat n, d) = true) as R; [|unfold encoding_row_ok in R; simpl in R; unfold CEE_PREFIX1 in *; lia].
    apply HF, list_elem_of_In, list_elem_of_lookup. exists n.
    apply lookup_zip_Some. split; [|done]. apply lookup_seqZ.
    apply lookup_lt_Some in Hd. change (length opcode_def) with 294%nat in Hd. lia.
Qed.

(** The short branches are exactly [CEE_LEAVE_S] and the opcodes from
    [CEE_BR_S] to [CEE_BLT_UN_S], and the long form [Export] gives each of
    them is a branch with a four-byte displacement and the same stack and
    control-flow behaviour, which makes the two assertions of [Export] hold. *)
Theorem short_branch_long_form opcode d :
  opcode_flags opcode = Some 0x11 ->
  opcode_def !! Z.to_nat opcode = Some d ->
  let long := if opcode =? CEE_LEAVE_S then CEE_LEAVE else opcode - CEE_BR_S + CEE_BR in
  (opcode = CEE_LEAVE_S \/ CEE_BR_S <= opcode <= CEE_BLT_UN_S /\ CEE_BR <= long <= CEE_BLT_UN) /\
  opcode_flags long = Some 0x14 /\
  exists d', opcode_def !! Z.to_nat long = Some d' /\
    od_pop d' = od_pop d /\ od_push d' = od_push d /\ od_ctrl d' = od_ctrl d /\
    (od_s d = od_s d' ++ ".s")%string.
Proof.
  intros Hf Hd.
  assert (opcode = CEE_LEAVE_S \/ CEE_BR_S <= opcode <= CEE_BLT_UN_S) as Ho.
  { by_opcode_table (fun o => match opcode_flags o with
      Some f => negb (f =? 0x11) || (o =? CEE_LEAVE_S) || ((CEE_BR_S <=? o) && (o <=? CEE_BLT_UN_S))
    | None => true end). unfold CEE_LEAVE_S, CEE_BR_S, CEE_BLT_UN_S in *. lia. }
  assert (opcode ∈ [CEE_LEAVE_S] ++ seqZ CEE_BR_S 13) as Hin.
  { apply elem_of_app. rewrite list_elem_of_singleton, elem_of_seqZ.
    unfold CEE_LEAVE_S, CEE_BR_S, CEE_BLT_UN_S in *. lia. }
  vm_compute in Hin. clear Hf Ho.
  repeat (apply elem_of_cons in Hin as [->|Hin]);
    [..|by apply elem_of_nil in Hin];
    vm_compute in Hd; injection Hd as <-;
    (split; [vm_compute; tauto || (right; split; split; discriminate)|]);
    (split; [vm_compute; reflexivity|]); eexists;
    (split; [vm_compute; reflexivity|]); split_and!; reflexivity.
Qed.

(** The theorem at [br.s]. *)
Lemma short_branch_long_form_witness :
  opcode_flags CEE_BR_S = Some 0x11 /\
  exists d', opcode_def !! Z.to_nat CEE_BR = Some d' /\ od_ctrl d' = BRANCH.
Proof.
  split; [vm_compute; reflexivity|].
  destruct (short_branch_long_form CEE_BR_S
    (OPDEF "CEE_BR_S" "br.s" [Pop0] [Push0] ShortInlineBrTarget IMacro 1 0xFF 0x2B BRANCH)
    ltac:(vm_compute; reflexivity) ltac:(vm_compute; reflexivity))
    as (_ & _ & d' & Hd & _ & _ & Hc & _).
  exists d'. split; [exact Hd | exact Hc].
Defined.

(** The printer of the log names every opcode that has an encoding as
    [opcode.def] does, and says so when it does not know one (the internal
    opcodes, [CEE_COUNT] and [CEE_SWITCH_ARG]). *)
Theorem opcodetostr_spec opcode :
  0 <= opcode <= CEE_SWITCH_ARG ->
  opcodetostr opcode =
    match opcode_def !! Z.to_nat opcode with
    | Some d => if od_l d =? 0 then "unknwn"%string else od_s d
    | None => "unknwn"%string
    end.
Proof.
  intros H.
  assert (for_opcodes (fun o => String.eqb (opcodetostr o)
    match opcode_def !! Z.to_nat o with
    | Some d => if od_l d =? 0 then "unknwn"%string else od_s d
    | None => "unknwn"%string
    end) = true) as HP by (vm_compute; reflexivity).
  by apply (for_opcodes_spec _ _ HP), String.eqb_eq in H.
Qed.

(** The theorem at [ret]. *)
Lemma opcodetostr_spec_witness : opcodetostr CEE_RET = "ret"%string.
Proof. rewrite (opcodetostr_spec CEE_RET); [reflexivity|]. unfold CEE_RET, CEE_SWITCH_ARG. lia. Defined.

