(* ===== verification/ILList.v ===== *)
(** * The instruction list of the IL rewriter

    [ILInstr], [EHClause] and the state of the class [ILRewriter] of
    [profiler/ILRewriter.h], with the operations on the circular doubly linked
    list of instructions: [NewILInstr], [InsertBefore], [InsertAfter],
    [AdjustState] and the walk [for (p = m_IL.m_pNext; p != &m_IL; ...)] all
    passes share.  Instructions live in a store and point at each other, as in
    the source: the passes keep pointers across insertions and branch operands
    are pointers.  The representation invariant [il_list] says which sequence
    of instructions the links spell; the two insertions are proved to splice
    the sequence, and the walk to be a fold over it. *)

From S2P Require Import Prelude Opcodes.
Local Open Scope Z_scope.

(** ** Data *)

(** Addresses of instructions; [&m_IL], the sentinel, is [1]. *)
Definition NULL : Z := 0.
Definition IL : Z := 1.

(** [struct ILInstr]; [m_Arg] is the union of [m_pTarget], [m_Arg8],
    [m_Arg16], [m_Arg32] and [m_Arg64], as a 64-bit word. *)
Record ILInstr := mkILInstr {
  m_pNext : Z;
  m_pPrev : Z;
  m_opcode : Z;
  m_offset : Z;
  m_Arg : Z
}.

(** The members of the union. *)
Definition m_pTarget (i : ILInstr) : Z := m_Arg i.
Definition m_Arg8 (i : ILInstr) : Z := sint 8 (m_Arg i).
Definition m_Arg16 (i : ILInstr) : Z := sint 16 (m_Arg i).
Definition m_Arg32 (i : ILInstr) : Z := sint 32 (m_Arg i).
Definition m_Arg64 (i : ILInstr) : Z := sint 64 (m_Arg i).

(** Assignments to the fields; a member of the union of [w] bits is its
    [w] low bits, a pointer takes the whole word. *)
Definition set_next (p : Z) (i : ILInstr) : ILInstr :=
  mkILInstr p (m_pPrev i) (m_opcode i) (m_offset i) (m_Arg i).
Definition set_prev (p : Z) (i : ILInstr) : ILInstr :=
  mkILInstr (m_pNext i) p (m_opcode i) (m_offset i) (m_Arg i).
Definition set_opcode (o : Z) (i : ILInstr) : ILInstr :=
  mkILInstr (m_pNext i) (m_pPrev i) (wrap 32 o) (m_offset i) (m_Arg i).
Definition set_offset (o : Z) (i : ILInstr) : ILInstr :=
  mkILInstr (m_pNext i) (m_pPrev i) (m_opcode i) (wrap 32 o) (m_Arg i).
Definition set_Arg (w v : Z) (i : ILInstr) : ILInstr :=
  mkILInstr (m_pNext i) (m_pPrev i) (m_opcode i) (m_offset i)
    (m_Arg i - wrap w (m_Arg i) + wrap w v).
Definition set_target (p : Z) (i : ILInstr) : ILInstr :=
  mkILInstr (m_pNext i) (m_pPrev i) (m_opcode i) (m_offset i) p.

(** [struct EHClause]; the last member is the union of [m_ClassToken] and
    [m_pFilter]. *)
Record EHClause := mkEHClause {
  m_Flags : Z;
  m_pTryBegin : Z;
  m_pTryEnd : Z;
  m_pHandlerBegin : Z;
  m_pHandlerEnd : Z;
  m_ClassTokenOrFilter : Z
}.

(** The state of an [ILRewriter]: the instructions by address, the next
    address the allocator returns, and the members of the class. *)
Record ILRewriter := mkILRewriter {
  m_mem : gmap Z ILInstr;
  m_brk : Z;
  m_tkLocalVarSig : Z;
  m_maxStack : Z;
  m_flags : Z;
  m_fGenerateTinyHeader : bool;
  m_pOffsetToInstr : list Z;
  m_CodeSize : Z;
  m_nInstrs : Z;
  m_nEH : Z;
  m_pEH : option (list EHClause)
}.

Abbreviation M := (st ILRewriter).

Definition with_mem (m : gmap Z ILInstr) (s : ILRewriter) : ILRewriter :=
  mkILRewriter m (m_brk s) (m_tkLocalVarSig s) (m_maxStack s) (m_flags s)
    (m_fGenerateTinyHeader s) (m_pOffsetToInstr s) (m_CodeSize s) (m_nInstrs s)
    (m_nEH s) (m_pEH s).
Definition with_alloc (m : gmap Z ILInstr) (brk n : Z) (s : ILRewriter) : ILRewriter :=
  mkILRewriter m brk (m_tkLocalVarSig s) (m_maxStack s) (m_flags s)
    (m_fGenerateTinyHeader s) (m_pOffsetToInstr s) (m_CodeSize s) n
    (m_nEH s) (m_pEH s).
Definition with_maxStack (n : Z) (s : ILRewriter) : ILRewriter :=
  mkILRewriter (m_mem s) (m_brk s) (m_tkLocalVarSig s) n (m_flags s)
    (m_fGenerateTinyHeader s) (m_pOffsetToInstr s) (m_CodeSize s) (m_nInstrs s)
    (m_nEH s) (m_pEH s).
Definition with_offsets (t : list Z) (s : ILRewriter) : ILRewriter :=
  mkILRewriter (m_mem s) (m_brk s) (m_tkLocalVarSig s) (m_maxStack s) (m_flags s)
    (m_fGenerateTinyHeader s) t (m_CodeSize s) (m_nInstrs s)
    (m_nEH s) (m_pEH s).
Definition with_EH (n : Z) (eh : option (list EHClause)) (s : ILRewriter) : ILRewriter :=
  mkILRewriter (m_mem s) (m_brk s) (m_tkLocalVarSig s) (m_maxStack s) (m_flags s)
    (m_fGenerateTinyHeader s) (m_pOffsetToInstr s) (m_CodeSize s) (m_nInstrs s) n eh.
Definition with_header (sig maxStack flags codeSize : Z) (s : ILRewriter) : ILRewriter :=
  mkILRewriter (m_mem s) (m_brk s) sig maxStack flags
    (m_fGenerateTinyHeader s) (m_pOffsetToInstr s) codeSize (m_nInstrs s)
    (m_nEH s) (m_pEH s).

(** The constructor [ILRewriter::ILRewriter]: the sentinel alone, linked to
    itself.  The members it leaves uninitialised are 0 here; [Import] sets
    them before they are read. *)
Definition new_ILRewriter : ILRewriter :=
  mkILRewriter {[ IL := mkILInstr IL IL 0 0 0 ]} 2 0 0 0 false [] 0 0 0 None.

(** ** Operations *)

(** [p->...]: undefined when [p] is null or dangling. *)
Definition load (p : Z) : M ILInstr := st_read (fun s => m_mem s !! p).

(** [p->field = ...]. *)
Definition store (p : Z) (f : ILInstr -> ILInstr) : M unit := fun s =>
  match m_mem s !! p with
  | Some i => Ok (tt, with_mem (<[p := f i]> (m_mem s)) s)
  | None => Err Undefined
  end.

Definition NewILInstr : M Z := fun s =>
  let p := m_brk s in
  Ok (p, with_alloc (<[p := mkILInstr NULL NULL 0 0 0]> (m_mem s)) (p + 1)
           (wrap 32 (m_nInstrs s + 1)) s).

Definition AdjustState (pNewInstr : Z) : M unit :=
  i ← load pNewInstr;
  n ← st_read (fun _ => opcode_pushes (m_opcode i));
  st_modify (fun s => with_maxStack (wrap 32 (m_maxStack s + n)) s).

Definition InsertBefore (pWhere pWhat : Z) : M unit :=
  store pWhat (set_next pWhere);;
  w ← load pWhere; store pWhat (set_prev (m_pPrev w));;
  h ← load pWhat; store (m_pNext h) (set_prev pWhat);;
  h ← load pWhat; store (m_pPrev h) (set_next pWhat);;
  AdjustState pWhat.

Definition InsertAfter (pWhere pWhat : Z) : M unit :=
  w ← load pWhere; store pWhat (set_next (m_pNext w));;
  store pWhat (set_prev pWhere);;
  h ← load pWhat; store (m_pNext h) (set_prev pWhat);;
  h ← load pWhat; store (m_pPrev h) (set_next pWhat);;
  AdjustState pWhat.

(** [for (ILInstr *p = ...; p != &m_IL; p = p->m_pNext)]; the body may move
    the cursor, as in [RewriteIL] and [AddExitProbe]. *)
Fixpoint for_instrs {A} (fuel : nat) (p : Z) (body : Z -> A -> M (Z * A)) (a : A) : M A :=
  if p =? IL then mret a else
  match fuel with
  | O => st_fail OutOfFuel
  | S fuel =>
      r ← body p a;
      i ← load (fst r);
      for_instrs fuel (m_pNext i) body (snd r)
  end.

(** The loop from the first instruction on; the number of allocated
    instructions bounds the iterations. *)
Definition for_all_instrs {A} (body : Z -> A -> M (Z * A)) (a : A) : M A :=
  s ← st_get;
  i ← load IL;
  for_instrs (size (m_mem s)) (m_pNext i) body a.

(** A body that leaves the cursor alone. *)
Definition at_cursor {A} (f : Z -> A -> M A) (p : Z) (a : A) : M (Z * A) :=
  a' ← f p a; mret (p, a').

(** ** Representation invariant *)

Definition nxt (m : gmap Z ILInstr) (p : Z) : option Z := m_pNext <$> m !! p.
Definition prv (m : gmap Z ILInstr) (p : Z) : option Z := m_pPrev <$> m !! p.

(** What the passes use of an instruction besides its links. *)
Definition payload (m : gmap Z ILInstr) (p : Z) : option (Z * Z * Z) :=
  (fun i => (m_opcode i, m_offset i, m_Arg i)) <$> m !! p.

(** Consecutive nodes point at each other. *)
Fixpoint linked (m : gmap Z ILInstr) (xs : list Z) : Prop :=
  match xs with
  | x :: (y :: _) as t => nxt m x = Some y /\ prv m y = Some x /\ linked m t
  | _ => True
  end.

(** The links spell the sequence [l], from the sentinel to the sentinel. *)
Definition il_list (m : gmap Z ILInstr) (l : list Z) : Prop :=
  linked m (IL :: l ++ [IL]) /\ NoDup (IL :: l).

(** Every address in use is below the allocator's, and none is null. *)
Definition mem_wf (s : ILRewriter) : Prop :=
  forall p, is_Some (m_mem s !! p) -> NULL < p < m_brk s.

(** *** Links *)

Lemma linked_frame m m' xs :
  (forall x, x ∈ removelast xs -> nxt m' x = nxt m x) ->
  (forall y, y ∈ tail xs -> prv m' y = prv m y) ->
  linked m xs -> linked m' xs.
Proof.
  induction xs as [|x [|y t] IH]; [done..|]. intros Hn Hp (H1 & H2 & H3).
  split_and!.
  - rewrite Hn; [done|]. simpl. left.
  - rewrite Hp; [done|]. left.
  - apply IH; [|intros z Hz; apply Hp; by right|done].
    intros z Hz. apply Hn. simpl in *. by right.
Qed.

Lemma linked_same m m' xs :
  (forall p, nxt m' p = nxt m p) -> (forall p, prv m' p = prv m p) -> linked m xs -> linked m' xs.
Proof. intros Hn Hp. apply linked_frame; intros; auto. Qed.

Lemma linked_app m xs x y ys :
  linked m (xs ++ x :: y :: ys) <->
  linked m (xs ++ [x]) /\ nxt m x = Some y /\ prv m y = Some x /\ linked m (y :: ys).
Proof.
  induction xs as [|z [|w t] IH].
  - simpl. tauto.
  - change ([z] ++ x :: y :: ys) with (z :: x :: y :: ys).
    change (linked m (z :: x :: y :: ys)) with
      (nxt m z = Some x /\ prv m x = Some z /\ nxt m x = Some y /\ prv m y = Some x /\ linked m (y :: ys)).
    simpl. tauto.
  - change ((z :: w :: t) ++ x :: y :: ys) with (z :: w :: (t ++ x :: y :: ys)).
    change (linked m (z :: w :: (t ++ x :: y :: ys))) with
      (nxt m z = Some w /\ prv m w = Some z /\ linked m ((w :: t) ++ x :: y :: ys)).
    rewrite IH. simpl. tauto.
Qed.

Lemma linked_suffix m xs ys : linked m (xs ++ ys) -> linked m ys.
Proof.
  induction xs as [|x xs IH]; [done|]. intros H. apply IH.
  destruct xs, ys; simpl in *; tauto.
Qed.

Lemma linked_prefix m xs ys : linked m (xs ++ ys) -> linked m xs.
Proof.
  induction xs as [|x [|y t] IH]; [done..|]. intros (H1 & H2 & H3).
  split_and!; [done..|]. by apply IH.
Qed.

(** Splicing [what] between two neighbours. *)
Lemma splice_linked m m' l1 l2 prev next what :
  il_list m (l1 ++ l2) -> what ∉ IL :: l1 ++ l2 ->
  last (IL :: l1) = Some prev -> head (l2 ++ [IL]) = Some next ->
  nxt m' what = Some next -> prv m' what = Some prev ->
  nxt m' prev = Some what -> prv m' next = Some what ->
  (forall p, p <> prev -> p <> what -> nxt m' p = nxt m p) ->
  (forall p, p <> next -> p <> what -> prv m' p = prv m p) ->
  il_list m' (l1 ++ what :: l2).
Proof.
  intros [Hl Hnd] Hwhat Hprev Hnext Hw1 Hw2 Hp Hn Hfn Hfp.
  apply last_Some in Hprev as [xs Hxs].
  destruct (l2 ++ [IL]) as [|next' ys] eqn:Hys; [done|]. injection Hnext as ->.
  split.
  2:{ apply NoDup_cons in Hnd as [HIL Hnd]. apply NoDup_cons. split.
      - rewrite elem_of_app, elem_of_cons. rewrite elem_of_app in HIL.
        intros [?|[Heq|?]]; [by auto|apply Hwhat; rewrite <- Heq; left|by auto].
      - rewrite <- Permutation_middle. apply NoDup_cons. split; [|done].
        intros Hin. apply Hwhat. by right. }
  rewrite <- app_assoc, Hys in Hl.
  assert (IL :: l1 ++ next :: ys = xs ++ prev :: next :: ys) as E1.
  { rewrite (app_comm_cons l1 (next :: ys) IL), Hxs, <- app_assoc. done. }
  rewrite E1 in Hl.
  assert (IL :: (l1 ++ what :: l2) ++ [IL] = xs ++ prev :: what :: next :: ys) as E2.
  { rewrite <- app_assoc. simpl. rewrite Hys.
    rewrite (app_comm_cons l1 (what :: next :: ys) IL), Hxs, <- app_assoc. done. }
  rewrite E2. apply linked_app in Hl as (HA & _ & _ & HB).
  assert (forall p, p ∈ IL :: l1 ++ l2 -> p <> what) as Hne by (intros p Hin ->; done).
  pose proof Hnd as Hnd'. rewrite app_comm_cons, Hxs in Hnd'.
  rewrite NoDup_app in Hnd'. destruct Hnd' as (Hnd1 & Hd & _).
  rewrite NoDup_app in Hnd1. destruct Hnd1 as (_ & Hxp & _).
  rewrite NoDup_cons, elem_of_app, NoDup_app in Hnd.
  destruct Hnd as (HIL & _ & H12 & Hnd2).
  assert (prev ∈ IL :: l1) as Hprevin by (rewrite Hxs, elem_of_app; right; left).
  apply linked_app. split; [|split_and!; [done..|]].
  2: change (nxt m' what = Some next /\ prv m' next = Some what /\ linked m' (next :: ys)); split_and!; [done..|].
  - apply (linked_frame m); [..|done].
    + intros x Hx. rewrite removelast_last in Hx. apply Hfn.
      * intros ->. apply (Hxp _ Hx). left.
      * apply Hne. rewrite app_comm_cons, Hxs, !elem_of_app. auto.
    + intros y Hy. rewrite <- Hxs in Hy. cbn [tail] in Hy. apply Hfp.
      * intros ->. destruct l2 as [|z l2]; simpl in Hys; injection Hys as <- _; [by apply HIL; left|].
        apply (H12 _ Hy). left.
      * apply Hne. right. apply elem_of_app. auto.
  - apply (linked_frame m); [..|done].
    + intros x Hx. rewrite <- Hys, removelast_last in Hx. apply Hfn.
      * intros ->. apply (Hd prev); [|done]. rewrite elem_of_app. right. left.
      * apply Hne. right. apply elem_of_app. auto.
    + intros y Hy. cbn [tail] in Hy. destruct l2 as [|z l2]; simpl in Hys; injection Hys as <- <-.
      { by apply elem_of_nil in Hy. }
      apply elem_of_app in Hy. rewrite list_elem_of_singleton in Hy.
      apply NoDup_cons in Hnd2 as [Hz _]. apply Hfp.
      * intros ->. destruct Hy as [Hy|Hy]; [done|]. apply HIL. rewrite <- Hy. right. left.
      * apply Hne. destruct Hy as [Hy| ->]; [|left]. right. apply elem_of_app. right. by right.
Qed.

(** *** Stores and the three views of a node *)

Lemma nxt_insert m p i q : nxt (<[p := i]> m) q = if decide (p = q) then Some (m_pNext i) else nxt m q.
Proof. unfold nxt. rewrite lookup_insert. by case_decide. Qed.
Lemma prv_insert m p i q : prv (<[p := i]> m) q = if decide (p = q) then Some (m_pPrev i) else prv m q.
Proof. unfold prv. rewrite lookup_insert. by case_decide. Qed.
Lemma payload_insert m p i q :
  payload (<[p := i]> m) q =
    if decide (p = q) then Some (m_opcode i, m_offset i, m_Arg i) else payload m q.
Proof. unfold payload. rewrite lookup_insert. by case_decide. Qed.

Lemma payload_lookup m p i : m !! p = Some i -> payload m p = Some (m_opcode i, m_offset i, m_Arg i).
Proof. intros H. unfold payload. by rewrite H. Qed.

Lemma nxt_Some m p q : nxt m p = Some q -> exists i, m !! p = Some i /\ m_pNext i = q.
Proof. unfold nxt. destruct (m !! p); naive_solver. Qed.
Lemma prv_Some m p q : prv m p = Some q -> exists i, m !! p = Some i /\ m_pPrev i = q.
Proof. unfold prv. destruct (m !! p); naive_solver. Qed.

(** Case analysis on the addresses of a chain of stores. *)
Ltac by_address :=
  repeat (rewrite ?nxt_insert, ?prv_insert, ?payload_insert;
          repeat case_decide; subst; cbn [m_pNext m_pPrev m_opcode m_offset m_Arg set_next set_prev];
          try done).

(** The effect of a splice on everything but the links: nothing, except that
    the stack bound grows by the pushes of the new instruction. *)
Record spliced (n : Z) (s s' : ILRewriter) : Prop := {
  spliced_payload p : payload (m_mem s') p = payload (m_mem s) p;
  spliced_rest : s' = with_maxStack (wrap 32 (m_maxStack s + n)) (with_mem (m_mem s') s)
}.

Lemma load_run s p i : m_mem s !! p = Some i -> load p s = Ok (i, s).
Proof. intros H. unfold load, st_read. by rewrite H. Qed.

Lemma store_run s p f i :
  m_mem s !! p = Some i -> store p f s = Ok (tt, with_mem (<[p := f i]> (m_mem s)) s).
Proof. intros H. unfold store. by rewrite H. Qed.

Lemma il_list_last m l1 l2 prev next :
  il_list m (l1 ++ l2) -> last (IL :: l1) = Some prev -> head (l2 ++ [IL]) = Some next ->
  nxt m prev = Some next /\ prv m next = Some prev.
Proof.
  intros [Hl _] Hp Hn. apply last_Some in Hp as [xs Hxs].
  destruct (l2 ++ [IL]) as [|z ys] eqn:Hys; [done|]. injection Hn as ->.
  rewrite <- app_assoc, Hys, app_comm_cons, Hxs, <- app_assoc in Hl.
  apply linked_app in Hl. tauto.
Qed.

Lemma il_list_fresh m l p i : il_list m l -> p ∉ IL :: l -> il_list (<[p := i]> m) l.
Proof.
  intros [Hl Hnd] Hp. split; [|done].
  assert (forall x, x ∈ IL :: l ++ [IL] -> p <> x) as Hne.
  { intros x Hx ->. apply Hp. apply elem_of_cons in Hx as [->|Hx]; [left|].
    apply elem_of_app in Hx as [Hx|Hx]; [by right|]. apply list_elem_of_singleton in Hx as ->. left. }
  revert Hl. apply linked_frame.
  - intros x Hx. rewrite nxt_insert. case_decide; [|done]. exfalso. apply (Hne x); [|done].
    change (x ∈ removelast ((IL :: l) ++ [IL])) in Hx. rewrite removelast_last in Hx.
    change (x ∈ (IL :: l) ++ [IL]). apply elem_of_app. by left.
  - intros x Hx. rewrite prv_insert. case_decide; [|done]. exfalso. apply (Hne x); [|done]. by right.
Qed.

Lemma AdjustState_run s p i n :
  m_mem s !! p = Some i -> opcode_pushes (m_opcode i) = Some n ->
  AdjustState p s = Ok (tt, with_maxStack (wrap 32 (m_maxStack s + n)) s).
Proof.
  intros H Hn. unfold AdjustState. run_step (load_run _ _ _ H).
  unfold mbind, st_bind, st_read. by rewrite Hn.
Qed.

(** The last four assignments of both insertions: [what] points at its two
    neighbours, and they are made to point at it. *)
Lemma link_in_run s l1 l2 prev next what w n :
  il_list (m_mem s) (l1 ++ l2) -> what ∉ IL :: l1 ++ l2 ->
  last (IL :: l1) = Some prev -> head (l2 ++ [IL]) = Some next ->
  m_mem s !! what = Some w -> m_pNext w = next -> m_pPrev w = prev ->
  opcode_pushes (m_opcode w) = Some n ->
  exists s', (h ← load what; store (m_pNext h) (set_prev what);;
              h ← load what; store (m_pPrev h) (set_next what);;
              AdjustState what) s = Ok (tt, s') /\
    il_list (m_mem s') (l1 ++ what :: l2) /\ spliced n s s'.
Proof.
  intros Hl Hw Hprev Hnext Hlw <- <- Hn.
  destruct (il_list_last _ _ _ _ _ Hl Hprev Hnext) as [H1 H2].
  apply nxt_Some in H1 as (ip & Hip & Hip'). apply prv_Some in H2 as (iq & Hiq & Hiq').
  assert (what <> m_pNext w) as Hne1.
  { intros E. apply Hw. rewrite E. rewrite head_lookup in Hnext.
    apply list_elem_of_lookup_2 in Hnext. rewrite elem_of_app, list_elem_of_singleton in Hnext.
    destruct Hnext as [?| ->]; [|left]. right. apply elem_of_app. by right. }
  assert (what <> m_pPrev w) as Hne2.
  { intros E. apply Hw. rewrite E. apply last_Some_elem_of in Hprev.
    apply elem_of_cons in Hprev as [->|?]; [left|]. right. apply elem_of_app. by left. }
  run_step (load_run _ _ _ Hlw). run_step (store_run _ _ (set_prev what) _ Hiq).
  assert (exists jp, (<[m_pNext w:=set_prev what iq]> (m_mem s)) !! m_pPrev w = Some jp /\
     m_pNext jp = m_pNext w /\ (forall q, prv (<[m_pNext w:=set_prev what iq]> (m_mem s)) q =
       if decide (m_pNext w = q) then Some what else prv (m_mem s) q)) as (jp & Hjp & Hjn & Hprv).
  { destruct (decide (m_pNext w = m_pPrev w)) as [E|E].
    - exists (set_prev what iq). rewrite E, lookup_insert_eq. split_and!; [done| |].
      + rewrite E in Hiq. rewrite Hiq in Hip. simplify_eq. simpl. congruence.
      + intros q. by rewrite prv_insert.
    - exists ip. rewrite lookup_insert_ne by done. split_and!; [done..|].
      intros q. by rewrite prv_insert. }
  run_step (load_run (with_mem (<[m_pNext w:=set_prev what iq]> (m_mem s)) s) what w
    ltac:(simpl; by rewrite lookup_insert_ne)).
  run_step (store_run (with_mem (<[m_pNext w:=set_prev what iq]> (m_mem s)) s) _ (set_next what) _ Hjp).
  set (m1 := <[m_pNext w:=set_prev what iq]> (m_mem s)) in *.
  set (m2 := <[m_pPrev w:=set_next what jp]> m1).
  assert (m2 !! what = Some w) as Hm2w.
  { unfold m2, m1. by rewrite !lookup_insert_ne. }
  rewrite (AdjustState_run _ what w n) by done.
  eexists. split; [done|]. split; [|split; [|done]]; cbn [m_mem with_maxStack with_mem].
  - eapply (splice_linked (m_mem s) m2); try done.
    + unfold nxt. by rewrite Hm2w.
    + unfold prv. by rewrite Hm2w.
    + unfold m2. rewrite nxt_insert. by case_decide.
    + unfold m2. rewrite prv_insert. case_decide as E; cbn [m_pPrev set_next].
      * assert (prv m1 (m_pPrev w) = Some (m_pPrev jp)) as E' by (unfold prv; by rewrite Hjp).
        rewrite Hprv in E'. case_decide; congruence.
      * rewrite Hprv. by case_decide.
    + intros p Hp1 Hp2. unfold m2, m1. rewrite nxt_insert. case_decide; [congruence|].
      rewrite nxt_insert. case_decide; [|done]. subst. unfold nxt. by rewrite Hiq.
    + intros p Hp1 Hp2. unfold m2. rewrite prv_insert. case_decide; cbn [m_pPrev set_next].
      * subst. assert (prv m1 (m_pPrev w) = Some (m_pPrev jp)) as E' by (unfold prv; by rewrite Hjp).
        rewrite <- E', Hprv. by case_decide.
      * rewrite Hprv. by case_decide.
  - intros p. unfold m2, m1. rewrite payload_insert. case_decide; cbn.
    + subst. transitivity (payload m1 (m_pPrev w)); [unfold payload; by rewrite Hjp|].
      unfold m1. rewrite payload_insert. case_decide; [|done]. subst. unfold payload. by rewrite <- H, Hiq.
    + rewrite payload_insert. case_decide; [|done]. subst. unfold payload. by rewrite Hiq.
Qed.

(** *** The insertions *)

Lemma not_elem_ne {A} (x y : A) (l : list A) : x ∉ l -> y ∈ l -> x <> y.
Proof. intros Hx Hy ->. done. Qed.

Lemma head_elem l2 p l1 : head (l2 ++ [IL]) = Some p -> p ∈ IL :: l1 ++ l2.
Proof.
  rewrite head_lookup. intros H%list_elem_of_lookup_2.
  rewrite elem_of_app, list_elem_of_singleton in H.
  destruct H as [?| ->]; [|left]. right. apply elem_of_app. by right.
Qed.

Lemma last_elem l1 p l2 : last (IL :: l1) = Some p -> p ∈ IL :: l1 ++ l2.
Proof.
  intros H%last_Some_elem_of. apply elem_of_cons in H as [->|?]; [left|].
  right. apply elem_of_app. by left.
Qed.

(** Writes to a node outside the list do not disturb what [spliced] says,
    when they keep its payload. *)
Lemma spliced_fresh n s s' m :
  (forall p, payload m p = payload (m_mem s) p) -> spliced n (with_mem m s) s' -> spliced n s s'.
Proof. intros Hm [Hp Hr]. split; [intros p; by rewrite Hp, <- Hm|exact Hr]. Qed.

(** [InsertBefore(pWhere, pWhat)] splices [pWhat] into the sequence just
    before [pWhere] (at the end when [pWhere] is the sentinel). *)
Lemma InsertBefore_run s l1 l2 pWhere pWhat i n :
  il_list (m_mem s) (l1 ++ l2) -> pWhat ∉ IL :: l1 ++ l2 ->
  head (l2 ++ [IL]) = Some pWhere ->
  m_mem s !! pWhat = Some i -> opcode_pushes (m_opcode i) = Some n ->
  exists s', InsertBefore pWhere pWhat s = Ok (tt, s') /\
    il_list (m_mem s') (l1 ++ pWhat :: l2) /\ spliced n s s'.
Proof.
  intros Hl Hw Hnext Hi Hn.
  destruct (last (IL :: l1)) as [prev|] eqn:Hprev; [|by apply last_None in Hprev].
  destruct (il_list_last _ _ _ _ _ Hl Hprev Hnext) as [_ H2].
  apply prv_Some in H2 as (iq & Hiq & Hiq').
  pose proof (not_elem_ne _ _ _ Hw (head_elem _ _ l1 Hnext)) as Hne.
  unfold InsertBefore. run_step (store_run _ _ (set_next pWhere) _ Hi).
  run_step (load_run (with_mem (<[pWhat := set_next pWhere i]> (m_mem s)) s) pWhere iq
    ltac:(simpl; by rewrite lookup_insert_ne)).
  run_step (store_run (with_mem (<[pWhat := set_next pWhere i]> (m_mem s)) s) pWhat
    (set_prev (m_pPrev iq)) (set_next pWhere i) ltac:(simpl; by rewrite lookup_insert_eq)).
  simpl m_mem. rewrite insert_insert_eq, Hiq'.
  destruct (link_in_run (with_mem (<[pWhat := set_prev prev (set_next pWhere i)]> (m_mem s)) s)
    l1 l2 prev pWhere pWhat (set_prev prev (set_next pWhere i)) n) as (s' & Hrun & Hl' & Hs);
    try done; [by apply il_list_fresh|simpl; by rewrite lookup_insert_eq|].
  exists s'. split_and!; [exact Hrun|done|].
  eapply spliced_fresh; [|exact Hs]. intros p. rewrite payload_insert.
  case_decide; [|done]. subst. unfold payload. by rewrite Hi.
Qed.

(** [InsertAfter(pWhere, pWhat)] splices [pWhat] into the sequence just after
    [pWhere] (at the front when [pWhere] is the sentinel). *)
Lemma InsertAfter_run s l1 l2 pWhere pWhat i n :
  il_list (m_mem s) (l1 ++ l2) -> pWhat ∉ IL :: l1 ++ l2 ->
  last (IL :: l1) = Some pWhere ->
  m_mem s !! pWhat = Some i -> opcode_pushes (m_opcode i) = Some n ->
  exists s', InsertAfter pWhere pWhat s = Ok (tt, s') /\
    il_list (m_mem s') (l1 ++ pWhat :: l2) /\ spliced n s s'.
Proof.
  intros Hl Hw Hprev Hi Hn.
  destruct (head (l2 ++ [IL])) as [next|] eqn:Hnext; [|by destruct l2].
  destruct (il_list_last _ _ _ _ _ Hl Hprev Hnext) as [H1 _].
  apply nxt_Some in H1 as (iq & Hiq & Hiq').
  pose proof (not_elem_ne _ _ _ Hw (last_elem _ _ l2 Hprev)) as Hne.
  unfold InsertAfter. run_step (load_run _ _ _ Hiq).
  run_step (store_run _ _ (set_next (m_pNext iq)) _ Hi).
  run_step (store_run (with_mem (<[pWhat := set_next (m_pNext iq) i]> (m_mem s)) s) pWhat
    (set_prev pWhere) (set_next (m_pNext iq) i) ltac:(simpl; by rewrite lookup_insert_eq)).
  simpl m_mem. rewrite insert_insert_eq, Hiq'.
  destruct (link_in_run (with_mem (<[pWhat := set_prev pWhere (set_next next i)]> (m_mem s)) s)
    l1 l2 pWhere next pWhat (set_prev pWhere (set_next next i)) n) as (s' & Hrun & Hl' & Hs);
    try done; [by apply il_list_fresh|simpl; by rewrite lookup_insert_eq|].
  exists s'. split_and!; [exact Hrun|done|].
  eapply spliced_fresh; [|exact Hs]. intros p. rewrite payload_insert.
  case_decide; [|done]. subst. unfold payload. by rewrite Hi.
Qed.

(** *** The walk *)

(** A computation that leaves the links alone. *)
Definition keeps_links {A} (m : M A) : Prop :=
  forall s a s', m s = Ok (a, s') ->
    (forall p, nxt (m_mem s') p = nxt (m_mem s) p) /\ (forall p, prv (m_mem s') p = prv (m_mem s) p).

Lemma keeps_links_ret {A} (a : A) : keeps_links (mret a).
Proof. by intros s a' s' [= <- <-]. Qed.

Lemma keeps_links_bind {A B} (m : M A) (f : A -> M B) :
  keeps_links m -> (forall a, keeps_links (f a)) -> keeps_links (m ≫= f).
Proof.
  intros Hm Hf s b s' H. apply st_bind_ok in H as (a & s1 & H1 & H2).
  destruct (Hm _ _ _ H1) as [Hn1 Hp1], (Hf _ _ _ _ H2) as [Hn2 Hp2].
  split; intros p; [by rewrite Hn2|by rewrite Hp2].
Qed.

Lemma keeps_links_read {A} (f : ILRewriter -> option A) : keeps_links (st_read f).
Proof. intros s a s'. unfold st_read. destruct (f s); [|done]. by intros [= <- <-]. Qed.

Lemma keeps_links_get : keeps_links st_get.
Proof. by intros s a s' [= <- <-]. Qed.

Lemma keeps_links_fail {A} e : keeps_links (@st_fail ILRewriter A e).
Proof. by intros s a s'. Qed.

Lemma keeps_links_lift {A} (r : result A) : keeps_links (st_lift r).
Proof. intros s a s'. unfold st_lift. destruct r; [|done]. by intros [= <- <-]. Qed.

Lemma keeps_links_store p f :
  (forall i, m_pNext (f i) = m_pNext i /\ m_pPrev (f i) = m_pPrev i) -> keeps_links (store p f).
Proof.
  intros Hf s a s'. unfold store. destruct (m_mem s !! p) as [i|] eqn:E; [|done].
  intros [= <- <-]. destruct (Hf i) as [H1 H2]. simpl.
  split; intros q; rewrite ?nxt_insert, ?prv_insert; case_decide; subst; try done;
    unfold nxt, prv; rewrite E; simpl; congruence.
Qed.

Create HintDb links.
#[export] Hint Resolve keeps_links_ret keeps_links_bind keeps_links_read keeps_links_get
  keeps_links_fail keeps_links_lift : links.

Lemma keeps_links_fold {A B} (f : B -> A -> M A) l :
  (forall b a, keeps_links (f b a)) -> forall a, keeps_links (st_fold f l a).
Proof.
  intros Hf. induction l as [|b l IH]; intros a; [apply keeps_links_ret|].
  apply keeps_links_bind; [apply Hf|apply IH].
Qed.

(** The walk over a suffix [xs] of the sequence is a fold. *)
Lemma for_instrs_fold {A} (f : Z -> A -> M A) xs : forall fuel p a s,
  (forall q b, keeps_links (f q b)) ->
  linked (m_mem s) (xs ++ [IL]) -> IL ∉ xs -> head (xs ++ [IL]) = Some p ->
  (length xs <= fuel)%nat ->
  for_instrs fuel p (at_cursor f) a s = st_fold f xs a s.
Proof.
  induction xs as [|x xs IH]; intros fuel p a s Hf Hl Hin Hp Hfuel.
  { injection Hp as <-. by destruct fuel. }
  injection Hp as ->. apply not_elem_of_cons in Hin as [Hne Hin].
  destruct fuel as [|fuel]; simpl in Hfuel; [lia|].
  cbn [for_instrs]. destruct (Z.eqb_spec p IL) as [Heq|_]; [by rewrite Heq in Hne|].
  cbn [st_fold]. destruct (f p a s) as [[a' s']|e] eqn:E.
  2:{ unfold mbind, st_bind. unfold at_cursor at 1. unfold mbind, st_bind. by rewrite E. }
  assert (at_cursor f p a s = Ok ((p, a'), s')) as Hat
    by (unfold at_cursor, mbind, st_bind; by rewrite E).
  run_step Hat. run_step E. cbn [fst snd].
  destruct (Hf _ _ _ _ _ E) as [Hn Hp'].
  apply (linked_same _ _ _ Hn Hp') in Hl.
  destruct (xs ++ [IL]) as [|y ys] eqn:Hys; [by destruct xs|].
  assert (nxt (m_mem s') p = Some y) as Hy.
  { change ((p :: xs) ++ [IL]) with (p :: (xs ++ [IL])) in Hl. rewrite Hys in Hl. apply Hl. }
  apply nxt_Some in Hy as (i & Hi & <-). run_step (load_run _ _ _ Hi).
  apply IH; [done| |done|done|lia].
  change ((p :: xs) ++ [IL]) with (p :: (xs ++ [IL])) in Hl. rewrite Hys in Hl. apply Hl.
Qed.

(** The nodes of the sequence are allocated, so the number of allocated
    instructions is enough fuel for a walk. *)
Lemma il_list_alloc m l p : il_list m l -> p ∈ IL :: l -> is_Some (m !! p).
Proof.
  intros [Hl _] Hp. rewrite app_comm_cons in Hl. revert Hl Hp.
  generalize (IL :: l). intros xs. induction xs as [|x xs IH]; intros Hl Hp.
  { by apply elem_of_nil in Hp. }
  apply elem_of_cons in Hp as [->|Hp].
  - destruct (xs ++ [IL]) as [|y t] eqn:E; [by destruct xs|]. simpl in Hl. rewrite E in Hl.
    destruct Hl as [Hl _]. apply nxt_Some in Hl as (i & -> & _). eauto.
  - apply IH; [|done]. by apply (linked_suffix _ [x]).
Qed.

Lemma il_list_size m l : il_list m l -> (length l <= size m)%nat.
Proof.
  intros Hl. pose proof Hl as [_ Hnd]. apply NoDup_cons in Hnd as [_ Hnd].
  rewrite <- (size_list_to_set (C := gset Z) l) by done.
  rewrite <- (size_dom m). apply subseteq_size. intros p Hp. apply elem_of_list_to_set in Hp.
  apply elem_of_dom. apply (il_list_alloc m l); [done|]. by right.
Qed.

Lemma for_all_instrs_fold {A} (f : Z -> A -> M A) l a s :
  (forall q b, keeps_links (f q b)) -> il_list (m_mem s) l ->
  for_all_instrs (at_cursor f) a s = st_fold f l a s.
Proof.
  intros Hf Hl. pose proof Hl as [Hlk Hnd]. apply NoDup_cons in Hnd as [Hin _].
  destruct (head (l ++ [IL])) as [p|] eqn:Hp; [|by destruct l].
  assert (nxt (m_mem s) IL = Some p) as Hnx.
  { destruct (il_list_last _ [] l IL p Hl) as [H _]; done. }
  apply nxt_Some in Hnx as (i & Hi & <-). unfold for_all_instrs.
  run_step (eq_refl : st_get s = Ok (s, s)). run_step (load_run _ _ _ Hi).
  apply for_instrs_fold; try done; [|by apply il_list_size].
  by apply (linked_suffix _ [IL]).
Qed.

(** The neighbours of an instruction. *)
Lemma il_list_prev m l p :
  il_list m l -> p ∈ IL :: l -> exists h, prv m p = Some h /\ nxt m h = Some p /\ h ∈ IL :: l.
Proof.
  intros Hl Hp.
  assert (exists l1 l2, l = l1 ++ l2 /\ head (l2 ++ [IL]) = Some p) as (l1 & l2 & -> & Hh).
  { apply elem_of_cons in Hp as [->|Hp].
    - exists l, []. by rewrite app_nil_r.
    - apply list_elem_of_split in Hp as (l1 & l2 & ->). by exists l1, (p :: l2). }
  destruct (last (IL :: l1)) as [h|] eqn:Hlast; [|by apply last_None in Hlast].
  destruct (il_list_last m l1 l2 h p Hl Hlast Hh) as [Hn Hpv]. exists h. split_and!; try done.
  apply last_Some_elem_of in Hlast. apply elem_of_cons in Hlast as [->|?]; [left|].
  right. apply elem_of_app. by left.
Qed.

Lemma il_list_next m l p :
  il_list m l -> p ∈ IL :: l -> exists h, nxt m p = Some h /\ prv m h = Some p /\ h ∈ IL :: l.
Proof.
  intros Hl Hp.
  assert (exists l1 l2, l = l1 ++ l2 /\ last (IL :: l1) = Some p) as (l1 & l2 & -> & Hlast).
  { apply elem_of_cons in Hp as [->|Hp]; [by exists [], l|]. apply list_elem_of_split in Hp as (a & b & ->).
    exists (a ++ [p]), b. rewrite <- app_assoc. split; [done|]. by rewrite app_comm_cons, last_snoc. }
  destruct (head (l2 ++ [IL])) as [q|] eqn:Hh; [|by destruct l2].
  destruct (il_list_last _ _ _ _ _ Hl Hlast Hh) as [Hn Hpv]. exists q. split_and!; try done.
  destruct l2 as [|z l2]; simpl in Hh; injection Hh as <-; [left|]. right. apply elem_of_app. right. left.
Qed.
