(* ===== verification/ILCode.v ===== *)
(** * The encoding of IL

    A reference definition of the bytes of a sequence of instructions, against
    which the import and the export passes of the rewriter are proved.  An item
    is an opcode with a value: the immediate operand or, for branches and
    switch targets, the offset of the target. *)

From S2P Require Import Prelude Opcodes ILList.
Local Open Scope Z_scope.

(** ** Sizes and bytes *)

Definition flags_of (op : Z) : Z := default 0 (opcode_flags op).

Definition opcode_bytes (op : Z) : list Z :=
  if op <? CEE_COUNT
  then (if 0x100 <=? op then [CEE_PREFIX1; Z.land op 0xFF] else [Z.land op 0xFF])
  else [].

(** The bytes of the operand of [op] with value [v]; [next] is the offset
    behind the instruction and [base] the one behind the switch. *)
Definition operand_bytes (op v next base : Z) : list Z :=
  let f := flags_of op in
  if f =? 1 then le_bytes 1 v
  else if f =? 2 then le_bytes 2 v
  else if f =? 4 then le_bytes 4 v
  else if f =? 8 then le_bytes 8 v
  else if f =? 0x11 then le_bytes 1 (v - next)
  else if f =? 0x14 then le_bytes 4 (v - (if op =? CEE_SWITCH_ARG then base else next))
  else if f =? 0x20 then le_bytes 4 v
  else [].

Definition instr_bytes (op v next base : Z) : list Z :=
  opcode_bytes op ++ operand_bytes op v next base.

(** The size of an instruction in the code. *)
Definition isize (op : Z) : Z :=
  Z.of_nat (length (opcode_bytes op))
    + (if flags_of op =? 0x20 then 4 else 0) + Z.land (flags_of op) OPCODEFLAGS_SizeMask.

(** The offset the targets of a switch count from, after the instruction. *)
Definition next_base (op v off base : Z) : Z :=
  if op =? CEE_SWITCH then off + 5 + 4 * wrap 32 v else base.

Fixpoint code_bytes (off base : Z) (items : list (Z * Z)) : list Z :=
  match items with
  | [] => []
  | (op, v) :: items =>
      let base := next_base op v off base in
      instr_bytes op v (off + isize op) base ++ code_bytes (off + isize op) base items
  end.

Definition code_size (items : list (Z * Z)) : Z :=
  foldr (fun it n => isize (fst it) + n) 0 items.

Fixpoint last_base (off base : Z) (items : list (Z * Z)) : Z :=
  match items with
  | [] => base
  | (op, v) :: items => last_base (off + isize op) (next_base op v off base) items
  end.

(** ** Sizes *)

Definition valid_opcode (op : Z) : Prop := 0 <= op <= CEE_SWITCH_ARG.

Lemma flags_of_cases op : flags_of op ∈ [0; 1; 2; 4; 8; 0x11; 0x14; 0x20].
Proof.
  unfold flags_of. destruct (opcode_flags op) eqn:E; simpl; [by eapply opcode_flags_cases|left].
Qed.

(** Case analysis on the flags of an opcode. *)
Ltac flag_cases op :=
  let H := fresh "Hflag" in
  pose proof (flags_of_cases op) as H;
  repeat (apply elem_of_cons in H as [H|H]); [..|by apply elem_of_nil in H].

Lemma length_operand_bytes op v next base :
  Z.of_nat (length (operand_bytes op v next base)) =
    (if flags_of op =? 0x20 then 4 else 0) + Z.land (flags_of op) OPCODEFLAGS_SizeMask.
Proof. unfold operand_bytes. flag_cases op; rewrite Hflag; simpl; rewrite ?length_le_bytes; done. Qed.

Lemma length_instr_bytes op v next base : Z.of_nat (length (instr_bytes op v next base)) = isize op.
Proof.
  unfold instr_bytes, isize. rewrite length_app, Nat2Z.inj_add, length_operand_bytes. lia.
Qed.

Lemma isize_nonneg op : 0 <= isize op.
Proof. rewrite <- (length_instr_bytes op 0 0 0). lia. Qed.

Lemma length_opcode_bytes op :
  (length (opcode_bytes op) <= 2)%nat /\ (op < CEE_COUNT -> (1 <= length (opcode_bytes op))%nat).
Proof. unfold opcode_bytes. repeat case_match; simpl; lia. Qed.

(** What an operand adds to the size, as a number. *)
Lemma isize_flags op :
  isize op = Z.of_nat (length (opcode_bytes op)) /\ flags_of op = 0 \/
  isize op = Z.of_nat (length (opcode_bytes op)) + 1 /\ (flags_of op = 1 \/ flags_of op = 0x11) \/
  isize op = Z.of_nat (length (opcode_bytes op)) + 2 /\ flags_of op = 2 \/
  isize op = Z.of_nat (length (opcode_bytes op)) + 4 /\ (flags_of op = 4 \/ flags_of op = 0x14 \/ flags_of op = 0x20) \/
  isize op = Z.of_nat (length (opcode_bytes op)) + 8 /\ flags_of op = 8.
Proof.
  unfold isize, OPCODEFLAGS_SizeMask. generalize (Z.of_nat (length (opcode_bytes op))). intros n.
  flag_cases op; rewrite Hflag; bit_consts; simpl; lia.
Qed.

(** No instruction takes more than the ten bytes [Export] reserves for it,
    and all but the pseudo opcode [CEE_COUNT] take at least one. *)
Lemma isize_bound op : isize op <= 10.
Proof. pose proof (length_opcode_bytes op). pose proof (isize_flags op). lia. Qed.

Lemma isize_pos op : valid_opcode op -> op <> CEE_COUNT -> 0 < isize op.
Proof.
  intros Hv Hne. destruct (Z.ltb_spec op CEE_COUNT).
  - pose proof (length_opcode_bytes op). pose proof (isize_flags op). lia.
  - unfold valid_opcode, CEE_SWITCH_ARG, CEE_COUNT in *. replace op with 295 by lia. vm_compute. done.
Qed.

Lemma length_code_bytes off base items : Z.of_nat (length (code_bytes off base items)) = code_size items.
Proof.
  revert off base. induction items as [|[op v] items IH]; intros off base; [done|].
  cbn [code_bytes code_size foldr fst]. rewrite length_app, Nat2Z.inj_add, length_instr_bytes.
  rewrite IH. done.
Qed.

Lemma code_size_nonneg items : 0 <= code_size items.
Proof. rewrite <- (length_code_bytes 0 0). lia. Qed.

Lemma code_size_app a b : code_size (a ++ b) = code_size a + code_size b.
Proof. induction a as [|[op v] a IH]; simpl; lia. Qed.

Lemma code_size_bound items : code_size items <= 10 * Z.of_nat (length items).
Proof. induction items as [|[op v] items IH]; simpl; [done|]. pose proof (isize_bound op). lia. Qed.

Lemma code_bytes_app off base a b :
  code_bytes off base (a ++ b) =
    code_bytes off base a ++ code_bytes (off + code_size a) (last_base off base a) b.
Proof.
  revert off base. induction a as [|[op v] a IH]; intros off base; simpl.
  - by rewrite Z.add_0_r.
  - rewrite IH, <- app_assoc. do 2 f_equal. f_equal. lia.
Qed.

Lemma last_base_app off base a b :
  last_base off base (a ++ b) = last_base (off + code_size a) (last_base off base a) b.
Proof.
  revert off base. induction a as [|[op v] a IH]; intros off base; simpl; [by rewrite Z.add_0_r|].
  rewrite IH. f_equal. lia.
Qed.

(** ** Short branches *)

(** A short branch to [v], the offset behind it being [next], reaches it; the
    difference is a 32-bit one. *)
Definition near (op v next : Z) : Prop := flags_of op = 0x11 -> is_sint 8 (sint 32 (v - next)).

Fixpoint all_near (off : Z) (items : list (Z * Z)) : Prop :=
  match items with
  | [] => True
  | (op, v) :: items => near op v (off + isize op) /\ all_near (off + isize op) items
  end.

Lemma all_near_app off a b : all_near off (a ++ b) <-> all_near off a /\ all_near (off + code_size a) b.
Proof.
  revert off. induction a as [|[op v] a IH]; intros off; simpl.
  - rewrite Z.add_0_r. tauto.
  - rewrite IH. rewrite Z.add_assoc. tauto.
Qed.

(** ** Switches *)

(** The next [n] items are targets of a switch, of which [rest] may still be
    missing at the end. *)
Fixpoint args_follow (n : nat) (items : list (Z * Z)) (rest : nat) : Prop :=
  match n, items with
  | O, _ => True
  | S _, [] => (n <= rest)%nat
  | S n, (op, _) :: items => op = CEE_SWITCH_ARG /\ args_follow n items rest
  end.

(** Every switch is followed by its targets. *)
Fixpoint switches (items : list (Z * Z)) (rest : nat) : Prop :=
  match items with
  | [] => True
  | (op, v) :: items => (op = CEE_SWITCH -> args_follow (Z.to_nat (wrap 32 v)) items rest) /\ switches items rest
  end.

Lemma args_follow_snoc n items rest a :
  args_follow n items (S rest) -> args_follow n (items ++ [(CEE_SWITCH_ARG, a)]) rest.
Proof.
  revert n. induction items as [|[op v] items IH]; intros [|n]; simpl; try done.
  - intros H. split; [done|]. destruct n; simpl; [done|lia].
  - intros [-> H]. split; [done|]. by apply IH.
Qed.

Lemma args_follow_more n items rest x : args_follow n items 0 -> args_follow n (items ++ [x]) rest.
Proof.
  revert n. induction items as [|[op v] items IH]; intros [|n]; simpl; try done; [lia|].
  intros [-> H]. split; [done|]. by apply IH.
Qed.

Lemma switches_arg items rest a :
  switches items (S rest) -> switches (items ++ [(CEE_SWITCH_ARG, a)]) rest.
Proof.
  induction items as [|[op v] items IH]; simpl; [intros _; done|].
  intros [H1 H2]. split; [|by apply IH]. intros ->. by apply args_follow_snoc, H1.
Qed.

Lemma switches_snoc items op v :
  switches items 0 ->
  switches (items ++ [(op, v)]) (if op =? CEE_SWITCH then Z.to_nat (wrap 32 v) else 0).
Proof.
  induction items as [|[op' v'] items IH]; simpl.
  - intros _. split; [|done]. intros ->. rewrite Z.eqb_refl.
    destruct (Z.to_nat (wrap 32 v)); simpl; [done|lia].
  - intros [H1 H2]. split; [|by apply IH]. intros ->. by apply args_follow_more, H1.
Qed.

(** ** Values that give the same bytes *)

(** Two values are interchangeable as operands of [op]. *)
Definition same_operand (op a b : Z) : Prop :=
  if Z.land (flags_of op) OPCODEFLAGS_BranchTarget =? 0 then a = b else wrap 32 a = wrap 32 b.

Lemma le_bytes_4_congr a b c d :
  wrap 32 (a - c) = wrap 32 (b - d) -> le_bytes 4 (a - c) = le_bytes 4 (b - d).
Proof. intros H. by apply le_bytes_eq. Qed.

Lemma wrap_8_32 a : wrap 8 (wrap 32 a) = wrap 8 a.
Proof.
  unfold wrap. apply Z.mod_mod_divide. exists (2 ^ 24). reflexivity.
Qed.

Lemma le_bytes_1_congr a b : wrap 32 a = wrap 32 b -> le_bytes 1 a = le_bytes 1 b.
Proof.
  intros H. apply le_bytes_eq. change (8 * Z.of_nat 1) with 8.
  by rewrite <- (wrap_8_32 a), <- (wrap_8_32 b), H.
Qed.

Lemma wrap_sub_congr a b c d :
  wrap 32 a = wrap 32 b -> wrap 32 c = wrap 32 d -> wrap 32 (a - c) = wrap 32 (b - d).
Proof.
  intros H1 H2. rewrite <- (wrap_sub_l 32 a), <- (wrap_sub_r 32 _ c), H1, H2.
  by rewrite wrap_sub_r, wrap_sub_l.
Qed.

Lemma operand_bytes_congr op a b next base base' :
  same_operand op a b -> wrap 32 base = wrap 32 base' ->
  operand_bytes op a next base = operand_bytes op b next base'.
Proof.
  intros H Hb. unfold same_operand, operand_bytes in *.
  flag_cases op; rewrite Hflag in *; simpl in *; subst; try done.
  - apply le_bytes_1_congr. by apply wrap_sub_congr.
  - apply le_bytes_4_congr. apply wrap_sub_congr; [done|]. by case_match.
Qed.

(** Codes whose items agree up to [same_operand] are equal. *)
Lemma code_bytes_congr items items' :
  Forall2 (fun x y => fst x = fst y /\ same_operand (fst x) (snd x) (snd y)) items items' ->
  forall off base base', wrap 32 base = wrap 32 base' ->
  code_bytes off base items = code_bytes off base' items'.
Proof.
  induction 1 as [|[op v] [op' v'] items items' [Ho Hs] _ IH]; intros off base base' Hb; [done|].
  simpl in *. subst op'.
  assert (wrap 32 (next_base op v off base) = wrap 32 (next_base op v' off base')) as Hb'.
  { unfold next_base. case_match eqn:E; [|done]. apply Z.eqb_eq in E as ->.
    unfold same_operand in Hs. change (flags_of CEE_SWITCH) with 0x20 in Hs. simpl in Hs. by subst. }
  unfold instr_bytes. f_equal; [|by apply IH]. f_equal. by apply operand_bytes_congr.
Qed.

Lemma code_size_congr items items' : items.*1 = items'.*1 -> code_size items = code_size items'.
Proof.
  revert items'. induction items as [|[o v] items IH]; intros [|[o' v'] items']; simpl; try done.
  intros [= -> H]. by rewrite (IH _ H).
Qed.
