(* ===== verification/ILImport.v ===== *)
(** * Importing a method body

    [Import], [ImportIL], [ImportEH] and [GetInstrFromOffset] of
    [profiler/ILRewriter.cpp]: the IL bytes of a method become the linked list
    of [ILList], with branch operands and exception clauses turned from byte
    offsets into instruction pointers.  The method body arrives decoded
    ([COR_ILMETHOD_DECODER]) from the runtime.  The theorems show that the
    import loop ends on every input, that it accepts exactly a sequence of
    instructions that tiles the code, and that this sequence spells the bytes. *)

From S2P Require Import Prelude Opcodes ILList ILCode.
Local Open Scope Z_scope.

(** ** The decoded method *)

(** [IMAGE_COR_ILMETHOD_SECT_EH_CLAUSE_FAT]; the last field is the union of
    [ClassToken] and [FilterOffset]. *)
Record EHClauseFat := mkEHClauseFat {
  eh_Flags : Z;
  eh_TryOffset : Z;
  eh_TryLength : Z;
  eh_HandlerOffset : Z;
  eh_HandlerLength : Z;
  eh_ClassTokenOrFilterOffset : Z
}.

(** What [COR_ILMETHOD_DECODER] gives [Import]. *)
Record ILMethod := mkILMethod {
  il_LocalVarSigTok : Z;
  il_MaxStack : Z;
  il_Flags : Z;
  il_Code : list Z;
  il_EH : list EHClauseFat
}.

Definition COR_E_INVALIDPROGRAM : Z := 0x8013153A.
Definition CorILMethod_InitLocals : Z := 0x0010.
Definition COR_ILEXCEPTION_CLAUSE_FILTER : Z := 0x0001.

(** ** ImportIL *)

Definition GetInstrFromOffset (offset : Z) : M Z :=
  s ← st_get;
  if offset <=? m_CodeSize s
  then st_read (fun s => m_pOffsetToInstr s !! Z.to_nat offset)
  else mret NULL.

(** [m_pOffsetToInstr[offset] = pInstr]. *)
Definition set_offset_to_instr (offset pInstr : Z) : M unit := fun s =>
  if (0 <=? offset) && (offset <? Z.of_nat (length (m_pOffsetToInstr s)))
  then Ok (tt, with_offsets (<[Z.to_nat offset := pInstr]> (m_pOffsetToInstr s)) s)
  else Err Undefined.

(** [*(UNALIGNED INTn * )&(pIL[offset])], sign extended. *)
Definition read_int (pIL : list Z) (offset : Z) (n : nat) : M Z :=
  st_read (fun _ =>
    bs ← read_at pIL offset n; Some (sint (8 * Z.of_nat n) (le_Z bs))).

(** The targets of a [switch]: [for (iTarget = 0; iTarget < nTargets; ...)];
    returns the offset behind them. *)
Fixpoint import_switch_args (fuel : nat) (pIL : list Z) (base nTargets iTarget offset : Z) : M Z :=
  if iTarget <? nTargets then
    match fuel with
    | O => st_fail OutOfFuel
    | S fuel =>
        s ← st_get;
        if m_CodeSize s <? offset + 4 then st_fail (HResult COR_E_INVALIDPROGRAM) else
        pInstr ← NewILInstr;
        store pInstr (set_opcode CEE_SWITCH_ARG);;
        v ← read_int pIL offset 4;
        store pInstr (set_Arg 32 (base + v));;
        InsertBefore IL pInstr;;
        import_switch_args fuel pIL base nTargets (iTarget + 1) (wrap 32 (offset + 4))
    end
  else mret offset.

(** The [switch (flags)] of the import loop: reads the operand of [pInstr];
    returns [fBranch] and the offset. *)
Definition import_operand (pIL : list Z) (flags pInstr : Z) (fBranch : bool) (offset : Z) : M (bool * Z) :=
  if flags =? 0 then mret (fBranch, offset)
  else if flags =? 1 then
    v ← read_int pIL offset 1; store pInstr (set_Arg 8 v);; mret (fBranch, offset)
  else if flags =? 2 then
    v ← read_int pIL offset 2; store pInstr (set_Arg 16 v);; mret (fBranch, offset)
  else if flags =? 4 then
    v ← read_int pIL offset 4; store pInstr (set_Arg 32 v);; mret (fBranch, offset)
  else if flags =? 8 then
    v ← read_int pIL offset 8; store pInstr (set_Arg 64 v);; mret (fBranch, offset)
  else if flags =? Z.lor 1 OPCODEFLAGS_BranchTarget then
    v ← read_int pIL offset 1; store pInstr (set_Arg 32 (offset + 1 + v));; mret (true, offset)
  else if flags =? Z.lor 4 OPCODEFLAGS_BranchTarget then
    v ← read_int pIL offset 4; store pInstr (set_Arg 32 (offset + 4 + v));; mret (true, offset)
  else if flags =? Z.lor 0 OPCODEFLAGS_Switch then
    s ← st_get;
    if m_CodeSize s <? offset + 4 then st_fail (HResult COR_E_INVALIDPROGRAM) else
    n ← read_int pIL offset 4;
    let nTargets := wrap 32 n in
    store pInstr (set_Arg 32 nTargets);;
    let offset := wrap 32 (offset + 4) in
    let base := wrap 32 (offset + nTargets * 4) in
    offset ← import_switch_args (length pIL) pIL base nTargets 0 offset;
    mret (true, offset)
  else mret (fBranch, offset).

(** [opcode = pIL[offset++]], with the second byte of a two-byte opcode, and
    the checks on it; returns the opcode and the offset behind it. *)
Definition fetch_opcode (pIL : list Z) (startOffset : Z) : M (Z * Z) :=
  s ← st_get;
  b ← st_read (fun _ => pIL !! Z.to_nat startOffset);
  let offset := wrap 32 (startOffset + 1) in
  r ← (if b =? CEE_PREFIX1 then
         if m_CodeSize s <=? offset then st_fail (HResult COR_E_INVALIDPROGRAM) else
         b2 ← st_read (fun _ => pIL !! Z.to_nat offset);
         mret (0x100 + b2, wrap 32 (offset + 1))
       else mret (b, offset));
  let opcode := fst (r : Z * Z) in
  if (CEE_PREFIX7 <=? opcode) && (opcode <=? CEE_PREFIX2)
  then st_fail (HResult COR_E_INVALIDPROGRAM) else
  if CEE_COUNT <=? opcode then st_fail (HResult COR_E_INVALIDPROGRAM) else
  mret r.

(** One round of [while (offset < m_CodeSize)]. *)
Definition import_instr (pIL : list Z) (acc : bool * Z) : M (bool * Z) :=
  let '(fBranch, startOffset) := acc in
  r ← fetch_opcode pIL startOffset;
  let '(opcode, offset) := (r : Z * Z) in
  flags ← st_read (fun _ => opcode_flags opcode);
  let size := Z.land flags OPCODEFLAGS_SizeMask in
  s ← st_get;
  if m_CodeSize s <? wrap 32 (offset + size) then st_fail (HResult COR_E_INVALIDPROGRAM) else
  pInstr ← NewILInstr;
  store pInstr (set_opcode opcode);;
  InsertBefore IL pInstr;;
  set_offset_to_instr startOffset pInstr;;
  r ← import_operand pIL flags pInstr fBranch offset;
  let '(fBranch, offset) := (r : bool * Z) in
  mret (fBranch, wrap 32 (offset + size)).

Fixpoint import_loop (fuel : nat) (pIL : list Z) (acc : bool * Z) : M (bool * Z) :=
  s ← st_get;
  if snd acc <? m_CodeSize s then
    match fuel with
    | O => st_fail OutOfFuel
    | S fuel => acc ← import_instr pIL acc; import_loop fuel pIL acc
    end
  else mret acc.

(** The pass that turns target offsets into pointers. *)
Definition resolve_target (pInstr : Z) (u : unit) : M unit :=
  i ← load pInstr;
  flags ← st_read (fun _ => opcode_flags (m_opcode i));
  if Z.land flags OPCODEFLAGS_BranchTarget =? 0 then mret tt else
  t ← GetInstrFromOffset (wrap 32 (m_Arg32 i));
  store pInstr (set_target t).

Definition ImportIL (pIL : list Z) : M unit :=
  s ← st_get;
  (* new ILInstr*[m_CodeSize + 1], zeroed, and the sentinel at the end *)
  st_modify (with_offsets (replicate (Z.to_nat (m_CodeSize s)) NULL ++ [IL]));;
  store IL (set_opcode (-1));;
  r ← import_loop (length pIL) pIL (false, 0);
  if (fst r : bool) then for_all_instrs (at_cursor resolve_target) tt else mret tt.

(** ** ImportEH *)

Definition import_clause (ehInfo : EHClauseFat) : M EHClause :=
  tryBegin ← GetInstrFromOffset (eh_TryOffset ehInfo);
  tryEnd ← GetInstrFromOffset (wrap 32 (eh_TryOffset ehInfo + eh_TryLength ehInfo));
  handlerBegin ← GetInstrFromOffset (eh_HandlerOffset ehInfo);
  afterHandler ← GetInstrFromOffset (wrap 32 (eh_HandlerOffset ehInfo + eh_HandlerLength ehInfo));
  i ← load afterHandler;
  last ← (if Z.land (eh_Flags ehInfo) COR_ILEXCEPTION_CLAUSE_FILTER =? 0
          then mret (eh_ClassTokenOrFilterOffset ehInfo)
          else GetInstrFromOffset (eh_ClassTokenOrFilterOffset ehInfo));
  mret (mkEHClause (eh_Flags ehInfo) tryBegin tryEnd handlerBegin (m_pPrev i) last).

Definition ImportEH (pILEH : list EHClauseFat) (nEH : Z) : M unit :=
  if nEH =? 0 then st_modify (fun s => with_EH nEH (m_pEH s) s) else
  clauses ← st_fold (fun c acc => e ← import_clause c; mret (acc ++ [e])) pILEH [];
  st_modify (with_EH nEH (Some clauses)).

(** ** Import *)

Definition Import (decoder : ILMethod) : M unit :=
  st_modify (with_header (il_LocalVarSigTok decoder) (il_MaxStack decoder)
    (Z.land (il_Flags decoder) CorILMethod_InitLocals)
    (Z.of_nat (length (il_Code decoder))));;
  ImportIL (il_Code decoder);;
  ImportEH (il_EH decoder) (Z.of_nat (length (il_EH decoder))).

(** ** Appending an instruction *)

(** The part of the state the list operations leave alone. *)
Definition rest_of (s : ILRewriter) :=
  (m_tkLocalVarSig s, m_flags s, m_fGenerateTinyHeader s, m_CodeSize s, m_nEH s, m_pEH s).

(** [s'] is [s] with the new instruction [m_brk s] at the end of the list. *)
Record appended (s s' : ILRewriter) (l : list Z) (op arg : Z) : Prop := {
  ap_list : il_list (m_mem s') (l ++ [m_brk s]);
  ap_new : payload (m_mem s') (m_brk s) = Some (op, 0, arg);
  ap_old p : p <> m_brk s -> payload (m_mem s') p = payload (m_mem s) p;
  ap_brk : m_brk s' = m_brk s + 1;
  ap_n : m_nInstrs s' = wrap 32 (m_nInstrs s + 1);
  ap_rest : rest_of s' = rest_of s
}.

Lemma payload_is_Some m p : is_Some (payload m p) <-> is_Some (m !! p).
Proof. unfold payload. destruct (m !! p); simpl; split; intros [? ?]; eauto; done. Qed.

Lemma appended_wf s s' l op arg : mem_wf s -> appended s s' l op arg -> mem_wf s'.
Proof.
  intros Hwf Ha p Hp. rewrite (ap_brk _ _ _ _ _ Ha).
  assert (NULL < m_brk s) as Hb.
  { destruct (Hwf IL) as [? ?]; [|unfold NULL in *; lia].
    apply payload_is_Some. rewrite <- (ap_old _ _ _ _ _ Ha).
    - apply payload_is_Some. eapply il_list_alloc; [apply (ap_list _ _ _ _ _ Ha)|left].
    - pose proof (ap_list _ _ _ _ _ Ha) as [_ Hnd]. apply NoDup_cons in Hnd as [Hin _].
      intros E. apply Hin. rewrite E. apply elem_of_app. right. left. }
  destruct (decide (p = m_brk s)) as [->|Hne]; [lia|].
  apply payload_is_Some in Hp. rewrite (ap_old _ _ _ _ _ Ha) in Hp by done.
  apply payload_is_Some, Hwf in Hp. lia.
Qed.

Lemma brk_fresh s l : mem_wf s -> il_list (m_mem s) l -> m_brk s ∉ IL :: l.
Proof.
  intros Hwf Hl Hin. apply (il_list_alloc _ _ _ Hl), Hwf in Hin. lia.
Qed.

(** Allocating an instruction, setting its fields and appending it. *)
Lemma append_run s l op arg n :
  mem_wf s -> il_list (m_mem s) l -> opcode_pushes op = Some n ->
  let s1 := with_mem (<[m_brk s := mkILInstr NULL NULL op 0 arg]> (m_mem s))
              (with_alloc (<[m_brk s := mkILInstr NULL NULL 0 0 0]> (m_mem s)) (m_brk s + 1)
                 (wrap 32 (m_nInstrs s + 1)) s) in
  exists s2, InsertBefore IL (m_brk s) s1 = Ok (tt, s2) /\ appended s s2 l op arg /\
    m_pOffsetToInstr s2 = m_pOffsetToInstr s.
Proof.
  intros Hwf Hl Hn s1. pose proof (brk_fresh _ _ Hwf Hl) as Hfr.
  destruct (InsertBefore_run s1 l [] IL (m_brk s) (mkILInstr NULL NULL op 0 arg) n)
    as (s2 & Hrun & Hl2 & [Hp Hr]); try done.
  - rewrite app_nil_r. by apply il_list_fresh.
  - by rewrite app_nil_r.
  - simpl. by rewrite lookup_insert_eq.
  - exists s2. split; [done|].
    assert (m_pOffsetToInstr s2 = m_pOffsetToInstr s) as Ht by (rewrite Hr; done).
    split; [|done]. split; [done|..].
    + rewrite Hp. simpl. rewrite payload_insert. by rewrite decide_True.
    + intros p Hne. rewrite Hp. simpl. rewrite payload_insert. by rewrite decide_False.
    + by rewrite Hr.
    + by rewrite Hr.
    + by rewrite Hr.
Qed.

(** Assigning the operand of the appended instruction. *)
Lemma appended_set_Arg s s1 l op a w v :
  appended s s1 l op a ->
  exists s2, store (m_brk s) (set_Arg w v) s1 = Ok (tt, s2) /\
    appended s s2 l op (a - wrap w a + wrap w v) /\ m_pOffsetToInstr s2 = m_pOffsetToInstr s1.
Proof.
  intros Ha. destruct (il_list_alloc _ _ (m_brk s) (ap_list _ _ _ _ _ Ha)) as [i Hi].
  { right. apply elem_of_app. right. left. }
  pose proof (ap_new _ _ _ _ _ Ha) as Hnew. rewrite (payload_lookup _ _ _ Hi) in Hnew.
  injection Hnew as Ho Hoff Harg.
  eexists. split; [by apply store_run|]. split; [|done].
  destruct Ha as [Hl Hnw Hold Hb Hnn Hr]. split; simpl; try done.
  - destruct Hl as [Hl Hnd]. split; [|done]. revert Hl.
    apply linked_same; intros p; rewrite ?nxt_insert, ?prv_insert; case_decide; try done;
      subst; unfold nxt, prv; by rewrite Hi.
  - rewrite payload_insert, decide_True by done. simpl. by rewrite Ho, Hoff, Harg.
  - intros p Hne. rewrite payload_insert, decide_False by done. by apply Hold.
Qed.

(** ** The import invariant *)

(** The opcode and the operand word of an instruction. *)
Definition item_of (m : gmap Z ILInstr) (p : Z) : Z * Z :=
  match m !! p with Some i => (m_opcode i, m_Arg i) | None => (0, 0) end.
Definition items_of (m : gmap Z ILInstr) (l : list Z) : list (Z * Z) := item_of m <$> l.

Definition is_branch_op (op : Z) : bool :=
  negb (Z.land (flags_of op) OPCODEFLAGS_BranchTarget =? 0).

Definition item_ok (it : Z * Z) : Prop :=
  valid_opcode (fst it) /\ fst it <> CEE_COUNT /\ is_uint 64 (snd it).

(** What [m_pOffsetToInstr] may hold: null, the sentinel at the end of the
    code, or the instruction that starts at that offset. *)
Definition table_ok (pIL tab : list Z) (l : list Z) (items : list (Z * Z)) : Prop :=
  length tab = S (length pIL) /\
  forall v p, tab !! v = Some p ->
    p = NULL \/ (p = IL /\ v = length pIL) \/
    exists k, l !! k = Some p /\ Z.of_nat v = code_size (take k items).

(** [m_IL.m_opcode = -1]. *)
Definition sentinel_opcode : Z := 0xFFFFFFFF.

(** The instructions [l] spell the first [o] bytes of the code. *)
Record imported (pIL : list Z) (s : ILRewriter) (l : list Z) (fBranch : bool) (o : Z) : Prop := {
  im_list : il_list (m_mem s) l;
  im_wf : mem_wf s;
  im_size : m_CodeSize s = Z.of_nat (length pIL);
  im_code : seg_at pIL 0 (code_bytes 0 0 (items_of (m_mem s) l));
  im_off : o = code_size (items_of (m_mem s) l);
  im_ops : Forall item_ok (items_of (m_mem s) l);
  im_tab : table_ok pIL (m_pOffsetToInstr s) l (items_of (m_mem s) l);
  im_branch : fBranch = false -> Forall (fun it => is_branch_op (fst it) = false) (items_of (m_mem s) l);
  im_near : all_near 0 (items_of (m_mem s) l);
  im_IL : fst (item_of (m_mem s) IL) = sentinel_opcode;
  im_n : m_nInstrs s = wrap 32 (Z.of_nat (length l))
}.

Lemma item_of_payload m m' p : payload m' p = payload m p -> item_of m' p = item_of m p.
Proof.
  unfold payload, item_of. destruct (m !! p), (m' !! p); simpl; congruence.
Qed.

Lemma items_of_payload m m' l :
  (forall p, p ∈ l -> payload m' p = payload m p) -> items_of m' l = items_of m l.
Proof.
  intros H. unfold items_of. apply list_fmap_ext. intros k p Hk.
  apply item_of_payload, H. by eapply list_elem_of_lookup_2.
Qed.

Lemma items_of_appended s s' l op arg :
  mem_wf s -> il_list (m_mem s) l -> appended s s' l op arg ->
  items_of (m_mem s') (l ++ [m_brk s]) = items_of (m_mem s) l ++ [(op, arg)].
Proof.
  intros Hwf Hl Ha. unfold items_of. rewrite fmap_app. f_equal.
  - apply (items_of_payload (m_mem s) (m_mem s')). intros p Hp. apply (ap_old _ _ _ _ _ Ha).
    intros ->. apply (brk_fresh _ _ Hwf Hl). by right.
  - simpl. f_equal. pose proof (ap_new _ _ _ _ _ Ha) as H. unfold payload, item_of in *.
    destruct (m_mem s' !! m_brk s); simpl in *; congruence.
Qed.

(** One more instruction of the code. *)
Lemma imported_append pIL s s' l op arg fB fB' o (tab : bool) :
  imported pIL s l fB o -> appended s s' l op arg ->
  item_ok (op, arg) -> near op arg (o + isize op) ->
  seg_at pIL o (instr_bytes op arg (o + isize op)
    (next_base op arg o (last_base 0 0 (items_of (m_mem s) l)))) ->
  m_pOffsetToInstr s' =
    (if tab then <[Z.to_nat o := m_brk s]> (m_pOffsetToInstr s) else m_pOffsetToInstr s) ->
  (fB' = false -> fB = false /\ is_branch_op op = false) ->
  imported pIL s' (l ++ [m_brk s]) fB' (o + isize op).
Proof.
  intros Hi Ha Hok Hnear Hseg Htab HfB. destruct Hi as [Hl Hwf Hsz Hc Ho Hops Ht Hbr Hnr HIL Hn].
  pose proof (items_of_appended _ _ _ _ _ Hwf Hl Ha) as Hit.
  pose proof (ap_rest _ _ _ _ _ Ha) as Hrest.
  split.
  - apply (ap_list _ _ _ _ _ Ha).
  - by eapply appended_wf.
  - unfold rest_of in Hrest. congruence.
  - rewrite Hit, code_bytes_app. apply seg_at_prefix; [done|].
    rewrite length_code_bytes, <- Ho, Z.add_0_l. simpl. by rewrite app_nil_r.
  - rewrite Hit, code_size_app, <- Ho. simpl. lia.
  - rewrite Hit. apply Forall_app. split; [done|]. by constructor.
  - destruct Ht as [Htl Ht]. split; [rewrite Htab; destruct tab; by rewrite ?length_insert|].
    intros v p Hv. rewrite Hit.
    assert (m_pOffsetToInstr s !! v = Some p \/ p = m_brk s /\ Z.of_nat v = o) as [Hv'|[-> Hv']].
    { rewrite Htab in Hv. destruct tab; [|by left].
      pose proof (code_size_nonneg (items_of (m_mem s) l)).
      apply list_lookup_insert_Some in Hv as [(<- & <- & _)|[_ Hv]]; [right|by left].
      split; [done|lia]. }
    + apply Ht in Hv' as [->|[?|(k & Hk & Hk')]]; [by left|by right; left|right; right].
      exists k. split; [by apply lookup_app_l_Some|].
      rewrite take_app_le; [done|]. apply lookup_lt_Some in Hk.
      unfold items_of. rewrite length_fmap. lia.
    + right; right. exists (length l). split.
      * by rewrite lookup_app_r, Nat.sub_diag by done.
      * replace (length l) with (length (items_of (m_mem s) l)) by apply length_fmap.
        rewrite take_app_length. lia.
  - rewrite Hit. intros HB. destruct (HfB HB) as [HB1 HB2]. apply Forall_app.
    split; [by apply Hbr|]. by constructor.
  - rewrite Hit. apply all_near_app. split; [done|]. rewrite <- Ho. done.
  - rewrite (item_of_payload (m_mem s) (m_mem s') IL); [done|]. apply (ap_old _ _ _ _ _ Ha).
    intros E. apply (brk_fresh _ _ Hwf Hl). rewrite <- E. left.
  - rewrite (ap_n _ _ _ _ _ Ha), Hn, length_app, wrap_add_l. simpl. f_equal. lia.
Qed.

(** ** One round of the loop *)

Lemma imported_le pIL s l fB o : imported pIL s l fB o -> 0 <= o <= Z.of_nat (length pIL).
Proof.
  intros Hi. rewrite (im_off _ _ _ _ _ Hi).
  pose proof (im_code _ _ _ _ _ Hi) as H. unfold seg_at, read_at in H.
  rewrite <- (length_code_bytes 0 0). destruct (_ && _) eqn:E in H; [|done]. lia.
Qed.

(** A read inside the code gives the bytes that stand there. *)
Lemma read_int_run pIL o n :
  Forall is_byte pIL -> 0 <= o -> o + Z.of_nat n <= Z.of_nat (length pIL) ->
  exists bs, length bs = n /\ Forall is_byte bs /\ seg_at pIL o bs /\
    forall s : ILRewriter, read_int pIL o n s = Ok (sint (8 * Z.of_nat n) (le_Z bs), s).
Proof.
  intros Hb H0 Hn. unfold read_int, st_read.
  destruct (read_at pIL o n) as [bs|] eqn:E.
  - exists bs. pose proof (seg_at_read _ _ _ _ E) as Hs.
    split_and!; [by eapply read_at_length|by eapply seg_at_Forall|done|done].
  - unfold read_at in E. destruct (_ && _) eqn:E'; [done|exfalso; lia].
Qed.

Definition invalid : error := HResult COR_E_INVALIDPROGRAM.

Lemma land_255 b : 0 <= b < 256 -> Z.land b 0xFF = b.
Proof. intros H. change 0xFF with (Z.ones 8). rewrite Z.land_ones by lia. by apply Z.mod_small. Qed.

Lemma land_255_prefixed b : 0 <= b < 256 -> Z.land (0x100 + b) 0xFF = b.
Proof.
  intros H. change 0xFF with (Z.ones 8). rewrite Z.land_ones by lia.
  change 0x100 with (1 * 2 ^ 8). rewrite Z.add_comm, Z.mod_add by lia. by apply Z.mod_small.
Qed.

Lemma fetch_opcode_run pIL s o :
  Forall is_byte pIL -> Z.of_nat (length pIL) < 2 ^ 31 ->
  m_CodeSize s = Z.of_nat (length pIL) -> 0 <= o < Z.of_nat (length pIL) ->
  (exists op, fetch_opcode pIL o s = Ok ((op, o + Z.of_nat (length (opcode_bytes op))), s) /\
     0 <= op < CEE_COUNT /\ seg_at pIL o (opcode_bytes op)) \/
  fetch_opcode pIL o s = Err invalid.
Proof.
  intros Hb Hlen Hsz Ho.
  destruct (lookup_lt_is_Some_2 pIL (Z.to_nat o)) as [b Hbo]; [lia|].
  pose proof (Forall_lookup_1 _ _ _ _ Hb Hbo) as Hbb. unfold is_byte in Hbb.
  unfold fetch_opcode. run_step (eq_refl : st_get s = Ok (s, s)).
  assert (st_read (fun _ => pIL !! Z.to_nat o) s = Ok (b, s)) as R by (unfold st_read; by rewrite Hbo).
  run_step R. clear R. rewrite Hsz.
  rewrite (wrap_small 32 (o + 1)) by (unfold is_uint; lia). cbv zeta.
  destruct (Z.eqb_spec b CEE_PREFIX1) as [->|Hne].
  - destruct (Z.leb_spec (Z.of_nat (length pIL)) (o + 1)); [by right|].
    destruct (lookup_lt_is_Some_2 pIL (Z.to_nat (o + 1))) as [b2 Hb2]; [lia|].
    pose proof (Forall_lookup_1 _ _ _ _ Hb Hb2) as Hbb2. unfold is_byte in Hbb2.
    unfold mbind, st_bind, st_read. rewrite Hb2. unfold mret, st_ret. cbn [fst snd].
    destruct (_ && _) eqn:E1; [by right|].
    destruct (Z.leb_spec CEE_COUNT (0x100 + b2)); [by right|].
    left. exists (0x100 + b2).
    assert (opcode_bytes (0x100 + b2) = [CEE_PREFIX1; b2]) as Hop.
    { unfold opcode_bytes. rewrite land_255_prefixed by done. repeat case_match; try done; exfalso; lia. }
    rewrite Hop. rewrite (wrap_small 32) by (unfold is_uint; lia).
    split; [do 3 f_equal; simpl; lia|]. split; [lia|].
    apply (seg_at_app _ _ [CEE_PREFIX1] [b2]). split; (apply seg_at_1; [simpl; lia|done]).
  - unfold mbind, st_bind, mret, st_ret. cbn [fst snd].
    destruct (_ && _) eqn:E1; [by right|].
    destruct (Z.leb_spec CEE_COUNT b); [by right|].
    left. exists b.
    assert (opcode_bytes b = [b]) as Hop.
    { unfold opcode_bytes. rewrite land_255 by done. repeat case_match; try done; exfalso; lia. }
    rewrite Hop. split; [done|]. split; [lia|]. apply seg_at_1; [lia|done].
Qed.

(** Reading an operand of [n] bytes and assigning it to the new instruction. *)
Lemma read_operand_run {A} pIL s s1 l op off n w (g : Z -> Z) (x : A) :
  Forall is_byte pIL -> 0 <= off -> off + Z.of_nat n <= Z.of_nat (length pIL) ->
  appended s s1 l op 0 ->
  exists bs s2, length bs = n /\ Forall is_byte bs /\ seg_at pIL off bs /\
    (v ← read_int pIL off n; store (m_brk s) (set_Arg w (g v));; mret x) s1 = Ok (x, s2) /\
    appended s s2 l op (wrap w (g (sint (8 * Z.of_nat n) (le_Z bs)))) /\
    m_pOffsetToInstr s2 = m_pOffsetToInstr s1.
Proof.
  intros Hb H0 Hn Ha. destruct (read_int_run pIL off n Hb H0 Hn) as (bs & Hl & Hbs & Hs & Hr).
  destruct (appended_set_Arg s s1 l op 0 w (g (sint (8 * Z.of_nat n) (le_Z bs))) Ha)
    as (s2 & Hst & Ha2 & Ht).
  exists bs, s2. split_and!; try done. run_step (Hr s1). by run_step Hst.
Qed.

(** The operand word of an immediate spells the bytes it was read from. *)
Lemma le_bytes_imm n bs :
  length bs = n -> Forall is_byte bs ->
  le_bytes n (wrap (8 * Z.of_nat n) (sint (8 * Z.of_nat n) (le_Z bs))) = bs.
Proof.
  intros <- Hb. destruct bs as [|b bs']; [done|]. set (bs := b :: bs') in *.
  rewrite wrap_sint by (simpl; lia). rewrite le_bytes_wrap. by apply le_bytes_Z.
Qed.

(** A displacement spells the bytes it was read from. *)
Lemma le_bytes_disp n bs base next :
  length bs = n -> Forall is_byte bs -> (0 < n <= 4)%nat ->
  wrap 32 base = wrap 32 next ->
  le_bytes n (wrap 32 (base + sint (8 * Z.of_nat n) (le_Z bs)) - next) = bs.
Proof.
  intros Hl Hb Hn Hbn. transitivity (le_bytes n (le_Z bs)).
  2:{ subst n. by apply le_bytes_Z. }
  apply le_bytes_eq. rewrite <- (wrap_sint (8 * Z.of_nat n) (le_Z bs)) by lia.
  rewrite <- (wrap_wrap_le (8 * Z.of_nat n) 32 (_ - _)), <- (wrap_wrap_le _ 32 (sint _ _)) by lia.
  f_equal. rewrite wrap_sub_l, <- wrap_sub_r, <- Hbn, wrap_sub_r. f_equal. lia.
Qed.

Lemma near_disp bs next : is_sint 8 (sint 32 (wrap 32 (next + sint (8 * Z.of_nat 1) (le_Z bs)) - next)).
Proof.
  change (8 * Z.of_nat 1) with 8. pose proof (sint_range 8 (le_Z bs) ltac:(lia)) as H.
  set (v := sint 8 (le_Z bs)) in *. rewrite <- sint_wrap, wrap_sub_l, sint_wrap by lia.
  replace (next + v - next) with v by lia. rewrite sint_small; [done|lia|].
  unfold is_sint in *. change (2 ^ (8 - 1)) with 128 in H. change (2 ^ (32 - 1)) with 2147483648. lia.
Qed.

Lemma is_uint_wrap w z : 0 <= w <= 64 -> is_uint 64 (wrap w z).
Proof.
  intros H. pose proof (wrap_range w z ltac:(lia)) as Hr. unfold is_uint in *.
  pose proof (Z.pow_le_mono_r 2 w 64). lia.
Qed.

(** The operand of every instruction but [switch]. *)
Lemma import_operand_simple pIL s s1 l op fB off flags next base :
  Forall is_byte pIL -> 0 <= off -> off + Z.land flags OPCODEFLAGS_SizeMask <= Z.of_nat (length pIL) ->
  appended s s1 l op 0 -> opcode_flags op = Some flags -> flags <> 0x20 -> op < CEE_COUNT ->
  next = off + Z.land flags OPCODEFLAGS_SizeMask ->
  exists fB' s2 arg, import_operand pIL flags (m_brk s) fB off s1 = Ok ((fB', off), s2) /\
    appended s s2 l op arg /\ m_pOffsetToInstr s2 = m_pOffsetToInstr s1 /\ is_uint 64 arg /\
    near op arg next /\
    seg_at pIL off (operand_bytes op arg next base) /\
    (fB' = false -> fB = false /\ is_branch_op op = false).
Proof.
  intros Hb H0 Hsz Ha Hf Hns Hop ->.
  assert (flags_of op = flags) as Hfo by (unfold flags_of; by rewrite Hf).
  assert ((op =? CEE_SWITCH_ARG) = false) as Hnsa by (unfold CEE_COUNT, CEE_SWITCH_ARG in *; lia).
  unfold import_operand, operand_bytes, is_branch_op, OPCODEFLAGS_SizeMask in *. rewrite Hfo, Hnsa.
  unfold near. rewrite Hfo.
  assert (forall n w (g : Z -> Z) (x : bool * Z), Z.land flags 15 = Z.of_nat n ->
    exists bs s2, length bs = n /\ Forall is_byte bs /\ seg_at pIL off bs /\
    (v ← read_int pIL off n; store (m_brk s) (set_Arg w (g v));; mret x) s1 = Ok (x, s2) /\
    appended s s2 l op (wrap w (g (sint (8 * Z.of_nat n) (le_Z bs)))) /\
    m_pOffsetToInstr s2 = m_pOffsetToInstr s1) as Hrd.
  { intros n w g x Hn. rewrite Hn in Hsz. apply (read_operand_run pIL s s1 l op off n w g x); done. }
  flag_cases op; rewrite Hfo in Hflag; subst flags; rewrite Hflag in *; bit_consts; cbn [Z.eqb Pos.eqb negb].
  - exists fB, s1, 0. split_and!; try done. apply seg_at_nil. lia.
  - destruct (Hrd 1%nat 8 (fun v => v) (fB, off) eq_refl) as (bs & s2 & ? & ? & ? & Hr & ? & ?).
    exists fB, s2. eexists. split_and!; eauto; [apply is_uint_wrap; lia|done|]. by rewrite (le_bytes_imm 1).
  - destruct (Hrd 2%nat 16 (fun v => v) (fB, off) eq_refl) as (bs & s2 & ? & ? & ? & Hr & ? & ?).
    exists fB, s2. eexists. split_and!; eauto; [apply is_uint_wrap; lia|done|]. by rewrite (le_bytes_imm 2).
  - destruct (Hrd 4%nat 32 (fun v => v) (fB, off) eq_refl) as (bs & s2 & ? & ? & ? & Hr & ? & ?).
    exists fB, s2. eexists. split_and!; eauto; [apply is_uint_wrap; lia|done|]. by rewrite (le_bytes_imm 4).
  - destruct (Hrd 8%nat 64 (fun v => v) (fB, off) eq_refl) as (bs & s2 & ? & ? & ? & Hr & ? & ?).
    exists fB, s2. eexists. split_and!; eauto; [apply is_uint_wrap; lia|done|]. by rewrite (le_bytes_imm 8).
  - destruct (Hrd 1%nat 32 (fun v => off + 1 + v) (true, off) eq_refl) as (bs & s2 & ? & ? & ? & Hr & ? & ?).
    exists true, s2. eexists. split_and!; eauto; [apply is_uint_wrap; lia|by intros _; apply near_disp|by rewrite (le_bytes_disp 1) by (done || lia)|done].
  - destruct (Hrd 4%nat 32 (fun v => off + 4 + v) (true, off) eq_refl) as (bs & s2 & ? & ? & ? & Hr & ? & ?).
    exists true, s2. eexists. split_and!; eauto; [apply is_uint_wrap; lia|done|by rewrite (le_bytes_disp 4) by (done || lia)|done].
  - done.
Qed.

(** Appending one target of a [switch]. *)
Lemma switch_arg_run pIL s l o base :
  Forall is_byte pIL -> imported pIL s l true o ->
  wrap 32 base = wrap 32 (last_base 0 0 (items_of (m_mem s) l)) ->
  o + 4 <= Z.of_nat (length pIL) ->
  exists s', (pInstr ← NewILInstr;
      store pInstr (set_opcode CEE_SWITCH_ARG);;
      v ← read_int pIL o 4;
      store pInstr (set_Arg 32 (base + v));;
      InsertBefore IL pInstr) s = Ok (tt, s') /\
    imported pIL s' (l ++ [m_brk s]) true (o + 4) /\
    last_base 0 0 (items_of (m_mem s') (l ++ [m_brk s])) = last_base 0 0 (items_of (m_mem s) l) /\
    forall rest, switches (items_of (m_mem s) l) (S rest) ->
      switches (items_of (m_mem s') (l ++ [m_brk s])) rest.
Proof.
  intros Hb Hi Hbase Hle. pose proof (imported_le _ _ _ _ _ Hi) as Ho.
  destruct (read_int_run pIL o 4 Hb ltac:(lia) Hle) as (bs & Hlen & Hbs & Hseg & Hrd).
  set (arg := wrap 32 (base + sint (8 * Z.of_nat 4) (le_Z bs))).
  destruct (append_run s l CEE_SWITCH_ARG arg 0 (im_wf _ _ _ _ _ Hi) (im_list _ _ _ _ _ Hi) eq_refl)
    as (s2 & Hrun & Ha & Ht).
  exists s2. assert (last_base 0 0 (items_of (m_mem s2) (l ++ [m_brk s])) =
    last_base 0 0 (items_of (m_mem s) l)) as Hlb.
  { rewrite (items_of_appended _ _ _ _ _ (im_wf _ _ _ _ _ Hi) (im_list _ _ _ _ _ Hi) Ha).
    by rewrite last_base_app. }
  split_and!; [| |done|].
  3:{ intros rest Hsw. rewrite (items_of_appended _ _ _ _ _ (im_wf _ _ _ _ _ Hi) (im_list _ _ _ _ _ Hi) Ha).
      by apply switches_arg. }
  - unfold NewILInstr, mbind at 1, st_bind at 1.
    erewrite st_bind_run by (apply store_run; simpl; by rewrite lookup_insert_eq).
    erewrite st_bind_run by apply Hrd.
    erewrite st_bind_run by (apply store_run; simpl; by rewrite lookup_insert_eq).
    simpl m_mem. rewrite !insert_insert_eq. exact Hrun.
  - apply (imported_append pIL s s2 l CEE_SWITCH_ARG arg true true o false); try done.
    + split_and!; [by vm_compute|done|apply is_uint_wrap; lia].
    + change (instr_bytes CEE_SWITCH_ARG arg (o + isize CEE_SWITCH_ARG)
        (next_base CEE_SWITCH_ARG arg o (last_base 0 0 (items_of (m_mem s) l))))
        with (le_bytes 4 (arg - last_base 0 0 (items_of (m_mem s) l))).
      unfold arg. rewrite (le_bytes_disp 4); [exact Hseg|exact Hlen|exact Hbs|lia|exact Hbase].
Qed.

Lemma import_switch_args_run pIL base nT : forall fuel s l o iT,
  Forall is_byte pIL -> Z.of_nat (length pIL) < 2 ^ 31 -> imported pIL s l true o ->
  wrap 32 base = wrap 32 (last_base 0 0 (items_of (m_mem s) l)) ->
  Z.of_nat (length pIL) - o < Z.of_nat fuel -> 0 <= iT <= nT ->
  switches (items_of (m_mem s) l) (Z.to_nat (nT - iT)) ->
  (exists s' l' o', import_switch_args fuel pIL base nT iT o s = Ok (o', s') /\
    imported pIL s' l' true o' /\ o <= o' /\ switches (items_of (m_mem s') l') 0) \/
  import_switch_args fuel pIL base nT iT o s = Err invalid.
Proof.
  induction fuel as [|fuel IH]; intros s l o iT Hb Hlen Hi Hbase Hfuel HiT Hsw;
    pose proof (imported_le _ _ _ _ _ Hi) as Ho.
  { lia. }
  cbn [import_switch_args]. destruct (Z.ltb_spec iT nT) as [Hlt|Hge].
  2:{ left. exists s, l, o. split_and!; [done..|lia|]. by replace (Z.to_nat (nT - iT)) with 0%nat in Hsw by lia. }
  run_step (eq_refl : st_get s = Ok (s, s)). rewrite (im_size _ _ _ _ _ Hi).
  destruct (Z.ltb_spec (Z.of_nat (length pIL)) (o + 4)); [by right|].
  destruct (switch_arg_run pIL s l o base) as (s1 & Hrun & Hi1 & Hlb & Hsw1); try done.
  assert (forall k : M Z, (pInstr ← NewILInstr; store pInstr (set_opcode CEE_SWITCH_ARG);;
      v ← read_int pIL o 4; store pInstr (set_Arg 32 (base + v));; InsertBefore IL pInstr;; k) s = k s1) as Hk.
  { intros k. rewrite <- (st_bind_run _ (fun _ => k) _ _ _ Hrun).
    unfold mbind, st_bind. repeat (case_match; try done). }
  rewrite Hk, (wrap_small 32 (o + 4)) by (unfold is_uint; lia).
  destruct (IH s1 (l ++ [m_brk s]) (o + 4) (iT + 1)) as [(s2 & l2 & o2 & H1 & H2 & H3 & H4)|H1];
    try done; [congruence|lia|lia| |left|by right].
  - apply Hsw1. by replace (S (Z.to_nat (nT - (iT + 1)))) with (Z.to_nat (nT - iT)) by lia.
  - exists s2, l2, o2. split_and!; [done|done|lia|done].
Qed.

(** Appending an instruction of the code; [k] is what follows. *)
Lemma new_instr_run {A} pIL s l fB o op (k : Z -> M A) :
  imported pIL s l fB o -> o < Z.of_nat (length pIL) -> 0 <= op < CEE_COUNT ->
  exists s', (pInstr ← NewILInstr; store pInstr (set_opcode op);; InsertBefore IL pInstr;;
      set_offset_to_instr o pInstr;; k pInstr) s = k (m_brk s) s' /\
    appended s s' l op 0 /\
    m_pOffsetToInstr s' = <[Z.to_nat o := m_brk s]> (m_pOffsetToInstr s).
Proof.
  intros Hi Hlt Hop. pose proof (imported_le _ _ _ _ _ Hi) as Ho.
  destruct (opcode_pushes_total op) as [n Hn]; [unfold CEE_COUNT, CEE_SWITCH_ARG in *; lia|].
  destruct (append_run s l op 0 n (im_wf _ _ _ _ _ Hi) (im_list _ _ _ _ _ Hi) Hn)
    as (s2 & Hrun & Ha & Ht).
  exists (with_offsets (<[Z.to_nat o := m_brk s]> (m_pOffsetToInstr s2)) s2). split_and!.
  - unfold NewILInstr, mbind at 1, st_bind at 1.
    erewrite st_bind_run by (apply store_run; simpl; by rewrite lookup_insert_eq).
    simpl m_mem. rewrite insert_insert_eq. unfold set_opcode at 1. cbn [m_pNext m_pPrev m_offset m_Arg].
    rewrite (wrap_small 32 op) by (unfold is_uint, CEE_COUNT in *; lia). run_step Hrun.
    unfold set_offset_to_instr, mbind, st_bind.
    pose proof (im_tab _ _ _ _ _ Hi) as [Htl _]. rewrite Ht, Htl.
    destruct (_ && _) eqn:E; [done|exfalso; lia].
  - by destruct Ha.
  - simpl. by rewrite Ht.
Qed.

(** The [switch] instruction and its targets. *)
Lemma import_switch_run pIL s s1 l fB o op :
  Forall is_byte pIL -> Z.of_nat (length pIL) < 2 ^ 31 -> imported pIL s l fB o ->
  appended s s1 l op 0 -> opcode_flags op = Some 0x20 -> seg_at pIL o (opcode_bytes op) ->
  m_pOffsetToInstr s1 = <[Z.to_nat o := m_brk s]> (m_pOffsetToInstr s) ->
  switches (items_of (m_mem s) l) 0 ->
  (exists s' l' o', import_operand pIL 0x20 (m_brk s) fB (o + Z.of_nat (length (opcode_bytes op))) s1
      = Ok ((true, o'), s') /\ imported pIL s' l' true o' /\ o < o' /\
      switches (items_of (m_mem s') l') 0) \/
  import_operand pIL 0x20 (m_brk s) fB (o + Z.of_nat (length (opcode_bytes op))) s1 = Err invalid.
Proof.
  intros Hb Hlen Hi Ha Hf Hseg Ht Hsw. pose proof (imported_le _ _ _ _ _ Hi) as Ho.
  apply opcode_flags_switch in Hf as ->.
  change (Z.of_nat (length (opcode_bytes CEE_SWITCH))) with 1.
  unfold import_operand. bit_consts. cbn [Z.eqb Pos.eqb].
  run_step (eq_refl : st_get s1 = Ok (s1, s1)).
  assert (m_CodeSize s1 = Z.of_nat (length pIL)) as ->.
  { pose proof (ap_rest _ _ _ _ _ Ha) as Hr. unfold rest_of in Hr.
    rewrite <- (im_size _ _ _ _ _ Hi). congruence. }
  destruct (Z.ltb_spec (Z.of_nat (length pIL)) (o + 1 + 4)) as [?|Hle]; [by right|].
  destruct (read_int_run pIL (o + 1) 4 Hb ltac:(lia) ltac:(lia)) as (bs & Hl4 & Hbs & Hs4 & Hrd).
  run_step (Hrd s1). cbv zeta.
  set (v := sint (8 * Z.of_nat 4) (le_Z bs)).
  destruct (appended_set_Arg s s1 l CEE_SWITCH 0 32 (wrap 32 v) Ha) as (s2 & Hst & Ha2 & Ht2).
  change (0 - wrap 32 0) with 0 in Ha2. rewrite Z.add_0_l, wrap_wrap in Ha2 by lia.
  run_step Hst. rewrite (wrap_small 32 (o + 1 + 4)) by (unfold is_uint; lia).
  assert (imported pIL s2 (l ++ [m_brk s]) true (o + 5)) as Hi2.
  { change 5 with (isize CEE_SWITCH).
    apply (imported_append pIL s s2 l CEE_SWITCH (wrap 32 v) fB true o true); try done.
    - split_and!; [by vm_compute|done|apply is_uint_wrap; lia].
    - change (instr_bytes CEE_SWITCH (wrap 32 v) _ _)
        with (opcode_bytes CEE_SWITCH ++ le_bytes 4 (wrap 32 v)).
      apply seg_at_app. split; [done|]. unfold v.
      change 32 with (8 * Z.of_nat 4) at 1.
      rewrite (le_bytes_imm 4); [exact Hs4|done..].
    - by rewrite Ht2. }
  destruct (import_switch_args_run pIL (wrap 32 (o + 1 + 4 + wrap 32 v * 4)) (wrap 32 v) (length pIL)
    s2 (l ++ [m_brk s]) (o + 5) 0 Hb Hlen Hi2) as [(s3 & l3 & o3 & Hrun & Hi3 & Ho3 & Hsw3)|Hrun].
  - rewrite (items_of_appended _ _ _ _ _ (im_wf _ _ _ _ _ Hi) (im_list _ _ _ _ _ Hi) Ha2), last_base_app.
    simpl last_base. unfold next_base. change (CEE_SWITCH =? CEE_SWITCH) with true. cbv iota.
    rewrite Z.add_0_l, <- (im_off _ _ _ _ _ Hi), !wrap_wrap by lia. f_equal. lia.
  - lia.
  - pose proof (wrap_range 32 v ltac:(lia)) as [? _]. lia.
  - rewrite (items_of_appended _ _ _ _ _ (im_wf _ _ _ _ _ Hi) (im_list _ _ _ _ _ Hi) Ha2), Z.sub_0_r.
    pose proof (switches_snoc _ CEE_SWITCH (wrap 32 v) Hsw) as Hs. rewrite wrap_wrap in Hs by lia. exact Hs.
  - left. exists s3, l3, o3. split_and!; [|done|lia|done].
    replace (o + 1 + 4) with (o + 5) in * by lia. by run_step Hrun.
  - right. replace (o + 1 + 4) with (o + 5) in * by lia. by rewrite (st_bind_err _ _ _ _ Hrun).
Qed.

Lemma import_instr_run pIL s l fB o :
  Forall is_byte pIL -> Z.of_nat (length pIL) < 2 ^ 31 -> imported pIL s l fB o ->
  o < Z.of_nat (length pIL) -> switches (items_of (m_mem s) l) 0 ->
  (exists s' l' fB' o', import_instr pIL (fB, o) s = Ok ((fB', o'), s') /\
     imported pIL s' l' fB' o' /\ o < o' /\ switches (items_of (m_mem s') l') 0) \/
  import_instr pIL (fB, o) s = Err invalid.
Proof.
  intros Hb Hlen Hi Hlt Hsw. pose proof (imported_le _ _ _ _ _ Hi) as Ho.
  pose proof (im_size _ _ _ _ _ Hi) as Hsz. unfold import_instr.
  destruct (fetch_opcode_run pIL s o Hb Hlen Hsz ltac:(lia)) as [(op & Hrun & Hop & Hseg)|Hrun].
  2:{ right. by rewrite (st_bind_err _ _ _ _ Hrun). }
  run_step Hrun. pose proof (length_opcode_bytes op) as [Hl2 Hl1]. specialize (Hl1 ltac:(lia)).
  destruct (opcode_flags_total op) as [flags Hf]; [unfold CEE_COUNT, CEE_SWITCH_ARG in *; lia|].
  assert (st_read (fun _ => opcode_flags op) s = Ok (flags, s)) as Hfr by (unfold st_read; by rewrite Hf).
  run_step Hfr. run_step (eq_refl : st_get s = Ok (s, s)). cbv zeta. rewrite Hsz.
  assert (flags_of op = flags) as Hfo by (unfold flags_of; by rewrite Hf).
  pose proof (length_operand_bytes op 0 0 0) as Hisz. rewrite Hfo in Hisz.
  assert (0 <= Z.land flags OPCODEFLAGS_SizeMask <= 8) as Hsm.
  { unfold OPCODEFLAGS_SizeMask. flag_cases op; rewrite Hfo in Hflag; rewrite Hflag; bit_consts; lia. }
  set (off := o + Z.of_nat (length (opcode_bytes op))) in *.
  rewrite (wrap_small 32 (off + _)) by (unfold is_uint; lia).
  destruct (Z.ltb_spec (Z.of_nat (length pIL)) (off + Z.land flags OPCODEFLAGS_SizeMask)) as [?|Hfit];
    [by right|].
  destruct (new_instr_run pIL s l fB o op (fun pInstr =>
    r ← import_operand pIL flags pInstr fB off;
    let '(fBranch, offset) := (r : bool * Z) in
    mret (fBranch, wrap 32 (offset + Z.land flags OPCODEFLAGS_SizeMask))) Hi Hlt Hop)
    as (s1 & Hk & Ha & Ht). rewrite Hk. clear Hk.
  destruct (decide (flags = 0x20)) as [->|Hns].
  - destruct (import_switch_run pIL s s1 l fB o op) as [(s2 & l2 & o2 & Hr & Hi2 & Ho2 & Hsw2)|Hr]; try done.
    + left. exists s2, l2, true, o2. split_and!; [|done|lia|done].
      run_step Hr. bit_consts. pose proof (imported_le _ _ _ _ _ Hi2).
      rewrite (wrap_small 32) by (unfold is_uint; lia). by rewrite Z.add_0_r.
    + right. by rewrite (st_bind_err _ _ _ _ Hr).
  - assert (off + Z.land flags OPCODEFLAGS_SizeMask = o + isize op) as Hend.
    { unfold off, isize. rewrite Hfo. case_match; [exfalso; lia|]. lia. }
    destruct (import_operand_simple pIL s s1 l op fB off flags (o + isize op)
      (next_base op 0 o (last_base 0 0 (items_of (m_mem s) l))))
      as (fB' & s2 & arg & Hr & Ha2 & Ht2 & Harg & Hnr & Hos & HfB); try done; [lia..|].
    left. exists s2, (l ++ [m_brk s]), fB', (o + isize op). split_and!.
    + run_step Hr. rewrite (wrap_small 32) by (unfold is_uint; lia). by rewrite Hend.
    + apply (imported_append pIL s s2 l op arg fB fB' o true); try done.
      * split_and!; [|simpl; lia|done]. unfold valid_opcode, CEE_COUNT, CEE_SWITCH_ARG in *. simpl. lia.
      * apply seg_at_app. split; [done|]. fold off.
        replace (next_base op arg o _) with (next_base op 0 o (last_base 0 0 (items_of (m_mem s) l)));
          [exact Hos|].
        unfold next_base. destruct (Z.eqb_spec op CEE_SWITCH) as [->|]; [|reflexivity].
        vm_compute in Hfo. by subst flags.
      * by rewrite Ht2.
    + unfold isize. rewrite Hfo. case_match; lia.
    + rewrite (items_of_appended _ _ _ _ _ (im_wf _ _ _ _ _ Hi) (im_list _ _ _ _ _ Hi) Ha2).
      pose proof (switches_snoc _ op arg Hsw) as Hs.
      destruct (Z.eqb_spec op CEE_SWITCH) as [->|]; [|exact Hs]. vm_compute in Hfo. by subst flags.
Qed.

(** ** The whole pass *)

Lemma import_loop_run pIL : forall fuel s l fB o,
  Forall is_byte pIL -> Z.of_nat (length pIL) < 2 ^ 31 -> imported pIL s l fB o ->
  Z.of_nat (length pIL) - o <= Z.of_nat fuel -> switches (items_of (m_mem s) l) 0 ->
  (exists s' l' fB', import_loop fuel pIL (fB, o) s = Ok ((fB', Z.of_nat (length pIL)), s') /\
     imported pIL s' l' fB' (Z.of_nat (length pIL)) /\ switches (items_of (m_mem s') l') 0) \/
  import_loop fuel pIL (fB, o) s = Err invalid.
Proof.
  induction fuel as [|fuel IH]; intros s l fB o Hb Hlen Hi Hfuel Hsw;
    pose proof (imported_le _ _ _ _ _ Hi) as Ho; cbn [import_loop snd];
    run_step (eq_refl : st_get s = Ok (s, s)); rewrite (im_size _ _ _ _ _ Hi);
    destruct (Z.ltb_spec o (Z.of_nat (length pIL))) as [Hlt|Hge].
  - lia.
  - left. assert (o = Z.of_nat (length pIL)) as -> by lia. by exists s, l, fB.
  - destruct (import_instr_run pIL s l fB o Hb Hlen Hi Hlt Hsw)
      as [(s1 & l1 & fB1 & o1 & Hr & Hi1 & Ho1 & Hsw1)|Hr].
    + run_step Hr. apply (IH s1 l1); [done..|lia|done].
    + right. by rewrite (st_bind_err _ _ _ _ Hr).
  - left. assert (o = Z.of_nat (length pIL)) as -> by lia. by exists s, l, fB.
Qed.

(** Items whose branch operands are pointers, from items with offsets. *)
Definition lookup_target (tab : list Z) (v : Z) : Z := default NULL (tab !! Z.to_nat (wrap 32 v)).
Definition resolve_item (tab : list Z) (it : Z * Z) : Z * Z :=
  if is_branch_op (fst it) then (fst it, lookup_target tab (snd it)) else it.

Lemma GetInstrFromOffset_run s o :
  0 <= o -> Z.of_nat (length (m_pOffsetToInstr s)) = m_CodeSize s + 1 ->
  GetInstrFromOffset o s = Ok (default NULL (m_pOffsetToInstr s !! Z.to_nat o), s).
Proof.
  intros H0 Hl. unfold GetInstrFromOffset. run_step (eq_refl : st_get s = Ok (s, s)).
  destruct (Z.leb_spec o (m_CodeSize s)).
  - unfold st_read. destruct (lookup_lt_is_Some_2 (m_pOffsetToInstr s) (Z.to_nat o)) as [p ->]; [lia|done].
  - by rewrite lookup_ge_None_2 by lia.
Qed.

Lemma resolve_target_run s p i :
  m_mem s !! p = Some i -> valid_opcode (m_opcode i) ->
  Z.of_nat (length (m_pOffsetToInstr s)) = m_CodeSize s + 1 ->
  resolve_target p tt s = Ok (tt, with_mem (<[p :=
    (if is_branch_op (m_opcode i) then set_target (lookup_target (m_pOffsetToInstr s) (m_Arg i)) i else i)]>
    (m_mem s)) s).
Proof.
  intros Hi Hv Hl. unfold resolve_target. run_step (load_run _ _ _ Hi).
  destruct (opcode_flags_total (m_opcode i)) as [f Hf]; [exact Hv|].
  assert (st_read (fun _ : ILRewriter => opcode_flags (m_opcode i)) s = Ok (f, s)) as Hfr
    by (unfold st_read; by rewrite Hf).
  run_step Hfr. unfold is_branch_op, flags_of. rewrite Hf. simpl default.
  destruct (Z.land f OPCODEFLAGS_BranchTarget =? 0); cbn [negb].
  - rewrite insert_id by done. unfold mret, st_ret. do 2 f_equal. by destruct s.
  - pose proof (wrap_range 32 (m_Arg32 i) ltac:(lia)) as [? _].
    run_step (GetInstrFromOffset_run s (wrap 32 (m_Arg32 i)) ltac:(done) Hl).
    unfold m_Arg32, lookup_target. rewrite wrap_sint by lia. by apply store_run.
Qed.

Lemma keeps_links_resolve p u : keeps_links (resolve_target p u).
Proof.
  unfold resolve_target, load, GetInstrFromOffset. apply keeps_links_bind; [auto with links|]. intros i.
  apply keeps_links_bind; [auto with links|]. intros f. case_match; [auto with links|].
  apply keeps_links_bind; [|intros t; by apply keeps_links_store].
  apply keeps_links_bind; [auto with links|]. intros s. case_match; auto with links.
Qed.

Definition resolve_payload (tab : list Z) (x : Z * Z * Z) : Z * Z * Z :=
  let '(op, off, v) := x in (op, off, snd (resolve_item tab (op, v))).

Lemma resolve_fold tab l : forall s,
  m_pOffsetToInstr s = tab -> Z.of_nat (length tab) = m_CodeSize s + 1 -> NoDup l ->
  (forall p, p ∈ l -> exists i, m_mem s !! p = Some i /\ valid_opcode (m_opcode i)) ->
  exists m', st_fold resolve_target l tt s = Ok (tt, with_mem m' s) /\
    (forall p, nxt m' p = nxt (m_mem s) p) /\ (forall p, prv m' p = prv (m_mem s) p) /\
    (forall p, payload m' p =
       (if decide (p ∈ l) then resolve_payload tab else id) <$> payload (m_mem s) p).
Proof.
  induction l as [|p l IH]; intros s Ht Hl Hnd Hv.
  { exists (m_mem s). split_and!; try done.
    - simpl. unfold mret, st_ret. do 2 f_equal. by destruct s.
    - intros q. rewrite decide_False by (intros Hq; by apply elem_of_nil in Hq). by rewrite option_fmap_id. }
  apply NoDup_cons in Hnd as [Hp Hnd].
  destruct (Hv p ltac:(left)) as (i & Hi & Hvi). cbn [st_fold].
  rewrite <- Ht in Hl. pose proof (resolve_target_run s p i Hi Hvi Hl) as Hr. run_step Hr.
  destruct (keeps_links_resolve _ _ _ _ _ Hr) as [Hn1 Hp1].
  match goal with |- context [with_mem ?m s] => set (s1 := with_mem m s) in * end.
  destruct (IH s1) as (m' & Hf & Hn2 & Hp2 & Hpay); try done; [by rewrite Ht in Hl| |].
  { intros q Hq. destruct (Hv q ltac:(by right)) as (j & Hj & Hvj).
    exists j. simpl. rewrite lookup_insert_ne by (intros ->; done). done. }
  exists m'. split_and!.
  - by rewrite Hf.
  - intros q. by rewrite Hn2, Hn1.
  - intros q. by rewrite Hp2, Hp1.
  - intros q. rewrite Hpay. simpl. rewrite payload_insert.
    destruct (decide (p = q)) as [->|Hne].
    + rewrite decide_False by done. rewrite decide_True by left. rewrite (payload_lookup _ _ _ Hi).
      simpl. unfold resolve_item. simpl. rewrite <- Ht. by destruct (is_branch_op (m_opcode i)).
    + destruct (decide (q ∈ l)) as [Hq|Hq]; [by rewrite decide_True by (by right)|].
      rewrite decide_False; [done|]. intros [?|?]%elem_of_cons; congruence.
Qed.

(** The result of an import: the instructions [l] of the list are the items,
    which spell the code, with their branch operands resolved by the table. *)
Record import_result (pIL : list Z) (s : ILRewriter) (l : list Z) (items : list (Z * Z)) : Prop := {
  ir_list : il_list (m_mem s) l;
  ir_wf : mem_wf s;
  ir_code : code_bytes 0 0 items = pIL;
  ir_ops : Forall item_ok items;
  ir_near : all_near 0 items;
  ir_switches : switches items 0;
  ir_IL : fst (item_of (m_mem s) IL) = sentinel_opcode;
  ir_tab : table_ok pIL (m_pOffsetToInstr s) l items;
  ir_items : items_of (m_mem s) l = resolve_item (m_pOffsetToInstr s) <$> items;
  ir_size : m_CodeSize s = Z.of_nat (length pIL);
  ir_n : m_nInstrs s = Z.of_nat (length l)
}.

(** The state [Import] hands to [ImportIL]. *)
Record fresh_rewriter (pIL : list Z) (s : ILRewriter) : Prop := {
  fr_list : il_list (m_mem s) [];
  fr_wf : mem_wf s;
  fr_size : m_CodeSize s = Z.of_nat (length pIL);
  fr_n : m_nInstrs s = 0
}.

Lemma length_items_of m l : length (items_of m l) = length l.
Proof. apply length_fmap. Qed.

Lemma code_size_length items :
  Forall item_ok items -> Z.of_nat (length items) <= code_size items.
Proof.
  induction 1 as [|[op v] items (Hv & Hne & _) _ IH]; [done|]. simpl in *.
  pose proof (isize_pos op Hv Hne). lia.
Qed.

Lemma items_of_lookup m l k p :
  l !! k = Some p -> items_of m l !! k = Some (item_of m p).
Proof. intros H. unfold items_of. by rewrite list_lookup_fmap, H. Qed.

Lemma imported_start pIL s :
  fresh_rewriter pIL s ->
  exists s1, (st_modify (with_offsets (replicate (Z.to_nat (m_CodeSize s)) NULL ++ [IL]));;
      store IL (set_opcode (-1))) s = Ok (tt, s1) /\ imported pIL s1 [] false 0.
Proof.
  intros [Hl Hwf Hsz Hn]. destruct (il_list_alloc _ _ IL Hl ltac:(left)) as [i Hi].
  eexists. split; [run_step (eq_refl : st_modify (with_offsets (replicate (Z.to_nat (m_CodeSize s)) NULL ++ [IL])) s = Ok (tt, _)); by apply store_run|].
  split; simpl; try done.
  - destruct Hl as [Hlk Hnd]. split; [|done]. revert Hlk.
    apply linked_same; intros p; rewrite ?nxt_insert, ?prv_insert; case_decide; try done;
      subst; unfold nxt, prv; by rewrite Hi.
  - intros p Hp. apply Hwf. simpl in Hp. destruct (decide (p = IL)) as [->|Hne]; [by eexists|].
    by rewrite lookup_insert_ne in Hp.
  - apply seg_at_nil. lia.
  - split; [rewrite length_app, length_replicate; simpl; lia|]. intros v p Hv.
    apply lookup_app_Some in Hv as [Hv|[Hge Hv]].
    + apply lookup_replicate in Hv as [-> _]. by left.
    + rewrite length_replicate in *. right; left.
      destruct (v - Z.to_nat (m_CodeSize s))%nat as [|k] eqn:E; [|done].
      injection Hv as <-. split; [done|]. lia.
  - unfold item_of. by rewrite lookup_insert_eq.
Qed.

(** The second pass on the imported list. *)
Lemma import_resolve pIL s l fB :
  imported pIL s l fB (Z.of_nat (length pIL)) -> Z.of_nat (length pIL) < 2 ^ 31 ->
  switches (items_of (m_mem s) l) 0 ->
  exists s', (if fB then for_all_instrs (at_cursor resolve_target) tt else mret tt) s = Ok (tt, s') /\
    import_result pIL s' l (items_of (m_mem s) l).
Proof.
  intros Hi Hlen Hsw. destruct Hi as [Hl Hwf Hsz Hc Ho Hops Ht Hbr Hnr HIL Hn].
  assert (code_bytes 0 0 (items_of (m_mem s) l) = pIL) as Hcode.
  { apply seg_at_all; [done|]. apply Nat2Z.inj. rewrite length_code_bytes. lia. }
  assert (m_nInstrs s = Z.of_nat (length l)) as Hn'.
  { rewrite Hn. apply wrap_small. pose proof (code_size_length _ Hops) as H.
    rewrite length_items_of in H. unfold is_uint. lia. }
  destruct fB.
  2:{ exists s. split; [done|]. split; try done. rewrite <- (list_fmap_id (items_of _ _)) at 1.
      apply list_fmap_ext. intros k it Hk. unfold resolve_item.
      by rewrite (Forall_lookup_1 _ _ _ _ (Hbr eq_refl) Hk). }
  rewrite (for_all_instrs_fold _ l); [|intros; apply keeps_links_resolve|done].
  destruct (resolve_fold (m_pOffsetToInstr s) l s) as (m' & Hrun & Hnx & Hpv & Hpay); try done.
  - destruct Ht as [Htl _]. lia.
  - destruct Hl as [_ Hnd]. by apply NoDup_cons in Hnd as [_ ?].
  - intros p Hp. destruct (il_list_alloc _ _ p Hl ltac:(by right)) as [i Hi]. exists i. split; [done|].
    apply list_elem_of_lookup_1 in Hp as [k Hk]. apply (items_of_lookup (m_mem s)) in Hk.
    pose proof (Forall_lookup_1 _ _ _ _ Hops Hk) as [Hv _]. unfold item_of in Hv. by rewrite Hi in Hv.
  - exists (with_mem m' s). split; [done|]. split; simpl; try done.
    + destruct Hl as [Hlk Hnd]. split; [|done]. by apply (linked_same (m_mem s)).
    + intros p Hp. apply Hwf. simpl in Hp. apply payload_is_Some in Hp. rewrite Hpay in Hp.
      apply payload_is_Some. by destruct (payload (m_mem s) p).
    + rewrite (item_of_payload (m_mem s) m' IL); [done|]. rewrite Hpay, decide_False; [by rewrite option_fmap_id|].
      destruct Hl as [_ Hnd]. by apply NoDup_cons in Hnd as [? _].
    + unfold items_of. rewrite <- list_fmap_compose. apply list_fmap_ext. intros k p Hk.
      pose proof (Hpay p) as Hp. rewrite decide_True in Hp by (by eapply list_elem_of_lookup_2).
      unfold payload, item_of in *. simpl.
      destruct (m' !! p) as [j|], (m_mem s !! p) as [i|]; simpl in *; try done.
      injection Hp as -> _ ->. unfold resolve_item. simpl. by destruct (is_branch_op (m_opcode i)).
Qed.

Lemma ImportIL_run pIL s :
  Forall is_byte pIL -> Z.of_nat (length pIL) < 2 ^ 31 -> fresh_rewriter pIL s ->
  (exists s' l items, ImportIL pIL s = Ok (tt, s') /\ import_result pIL s' l items) \/
  ImportIL pIL s = Err invalid.
Proof.
  intros Hb Hlen Hfr. destruct (imported_start pIL s Hfr) as (s1 & Hs1 & Hi1).
  unfold ImportIL. run_step (eq_refl : st_get s = Ok (s, s)).
  rewrite <- st_bind_assoc. run_step Hs1.
  destruct (import_loop_run pIL (length pIL) s1 [] false 0 Hb Hlen Hi1 ltac:(lia) I)
    as [(s2 & l & fB & Hr & Hi2 & Hsw2)|Hr].
  - left. run_step Hr. destruct (import_resolve pIL s2 l fB Hi2 Hlen Hsw2) as (s3 & Hr3 & Hres).
    eauto.
  - right. by rewrite (st_bind_err _ _ _ _ Hr).
Qed.

(** ** What an import leaves alone *)

Lemma rest_store p f : preserves rest_of (store p f).
Proof. intros s a s'. unfold store. destruct (m_mem s !! p); [|done]. by intros [= <- <-]. Qed.
Lemma rest_New : preserves rest_of NewILInstr.
Proof. by intros s a s' [= <- <-]. Qed.
Lemma rest_set_offset o p : preserves rest_of (set_offset_to_instr o p).
Proof. intros s a s'. unfold set_offset_to_instr. destruct (_ && _); [|done]. by intros [= <- <-]. Qed.
Lemma rest_modify_maxStack f : preserves rest_of (st_modify (fun s => with_maxStack (f s) s)).
Proof. by apply preserves_modify. Qed.
Lemma rest_modify_offsets t : preserves rest_of (st_modify (with_offsets t)).
Proof. by apply preserves_modify. Qed.
#[export] Hint Resolve rest_store rest_New rest_set_offset rest_modify_maxStack rest_modify_offsets : preserves.

Lemma rest_load p : preserves rest_of (load p).
Proof. unfold load. preserve. Qed.
#[export] Hint Resolve rest_load : preserves.
Lemma rest_InsertBefore p q : preserves rest_of (InsertBefore p q).
Proof. unfold InsertBefore, AdjustState. preserve. Qed.
#[export] Hint Resolve rest_InsertBefore : preserves.

Lemma rest_switch_args fuel pIL base nT : forall iT o, preserves rest_of (import_switch_args fuel pIL base nT iT o).
Proof. induction fuel; intros iT o; simpl; unfold read_int; preserve. Qed.
#[export] Hint Resolve rest_switch_args : preserves.

Lemma rest_import_loop pIL fuel : forall acc, preserves rest_of (import_loop fuel pIL acc).
Proof.
  induction fuel; intros acc; simpl; [preserve|].
  apply preserves_bind; [preserve|]. intros s. case_match; [|preserve].
  apply preserves_bind; [|done]. unfold import_instr, fetch_opcode. destruct acc as [fB o].
  apply preserves_bind; [preserve|]. intros [op off]. unfold import_operand, read_int. preserve.
Qed.

Lemma rest_for_instrs {A} (body : Z -> A -> M (Z * A)) fuel : (forall p a, preserves rest_of (body p a)) ->
  forall p a, preserves rest_of (for_instrs fuel p body a).
Proof. intros Hb. induction fuel; intros p a; simpl; preserve. Qed.

Lemma rest_ImportIL pIL : preserves rest_of (ImportIL pIL).
Proof.
  unfold ImportIL. apply preserves_bind; [preserve|]. intros s.
  apply preserves_bind; [preserve|]. intros _. apply preserves_bind; [preserve|]. intros _.
  apply preserves_bind; [apply rest_import_loop|]. intros r. case_match; [|preserve].
  unfold for_all_instrs, at_cursor, resolve_target, GetInstrFromOffset.
  apply preserves_bind; [preserve|]. intros s'. apply preserves_bind; [preserve|]. intros i.
  apply rest_for_instrs. intros p a. preserve.
Qed.
