(* ===== verification/Runtime.v ===== *)
(** * The runtime as the profilers see it

    The calls of [ICorProfilerInfo8] and of the metadata interfaces that the two
    instrumenters make, as a record of functions: each returns a failing
    [HRESULT] ([inl]) or its result ([inr]).  A callback of the profiler returns
    its [HRESULT] as a value, because the state it has changed by then stays
    changed. *)

From S2P Require Import Prelude ILImport.
Local Open Scope Z_scope.

Definition S_OK : Z := 0.

(** [IfFailRet]. *)
Definition IfFailRet {S A} (r : Z + A) (k : A -> st S Z) : st S Z := match r with inl hr => mret hr | inr a => k a end.

Record Runtime := mkRuntime {
  (** module and token of a function *)
  GetFunctionInfo : Z -> Z + (Z * Z);
  (** the name with its final zero, and the assembly *)
  GetModuleInfo : Z -> Z + (list Z * Z);
  GetAssemblyInfo : Z -> Z + list Z;
  (** the metadata of a module can be opened for writing *)
  GetModuleMetaData : Z -> Z + unit;
  GetTokenFromSig : Z -> list Z -> Z + Z;
  (** the body of a method in its module, before another was set *)
  GetILFunctionBody : Z -> Z -> Z + ILMethod;
  (** the allocator of method bodies hands out a block with unknown contents *)
  Alloc : Z -> option (list Z);
  (** [None] when the runtime accepts the body *)
  SetBody : Z -> Z -> list Z -> option Z;
  (** the answer to [RequestReJIT] for modules and tokens *)
  RequestReJIT : list (Z * Z) -> Z + unit;
  (** what memory from [new] holds *)
  junk : Z
}.
