(* ===== verification/ILExport.v ===== *)
(** * Exporting the instruction list

    [Export], with [SetILFunctionBody] and [AllocateILMemory], and
    [countOffsets] of [profiler/ILRewriter.cpp].  The first loop lays the
    instructions out and emits their fixed bytes, the second one patches the
    branch operands and makes short branches long when they do not reach; the
    two repeat until nothing changes.  The lemmas show that the layout is that
    of [ILCode], that the buffer of ten bytes per instruction is never
    overrun, that the repetition ends, and which code it ends with. *)

From S2P Require Import Prelude Opcodes ILList ILCode ILImport.
Local Open Scope Z_scope.

(** ** Emitting code *)

(** The output buffer, an allocated block of bytes. *)
Definition emit (buf : list Z) (i : Z) (bs : list Z) : M (list Z) :=
  st_read (fun _ => write_at buf i bs).

(** The opcode bytes: [0xFE] before the opcodes from [0x100] on, nothing for
    the internal opcodes from [CEE_COUNT] on. *)
Definition emit_opcode (buf : list Z) (offset opcode : Z) : M (list Z * Z) :=
  if opcode <? CEE_COUNT then
    r ← (if 0x100 <=? opcode then
           buf ← emit buf offset [CEE_PREFIX1]; mret (buf, wrap 32 (offset + 1))
         else mret (buf, offset));
    buf ← emit (fst r) (snd r) [Z.land opcode 0xFF];
    mret (buf, wrap 32 (snd r + 1))
  else mret (buf, offset).

(** The loop that produces the code of every instruction; branch operands
    are left for the second loop. *)
Definition emit_instr (pInstr : Z) (acc : list Z * bool * Z) : M (list Z * bool * Z) :=
  let '(buf, fBranch, offset) := acc in
  store pInstr (set_offset offset);;
  i ← load pInstr;
  r ← emit_opcode buf offset (m_opcode i);
  let '(buf, offset) := (r : list Z * Z) in
  flags ← st_read (fun _ => opcode_flags (m_opcode i));
  r ← (if flags =? 0 then mret (buf, fBranch, offset)
       else if flags =? 1 then
         buf ← emit buf offset (le_bytes 1 (m_Arg8 i)); mret (buf, fBranch, offset)
       else if flags =? 2 then
         buf ← emit buf offset (le_bytes 2 (m_Arg16 i)); mret (buf, fBranch, offset)
       else if flags =? 4 then
         buf ← emit buf offset (le_bytes 4 (m_Arg32 i)); mret (buf, fBranch, offset)
       else if flags =? 8 then
         buf ← emit buf offset (le_bytes 8 (m_Arg64 i)); mret (buf, fBranch, offset)
       else if flags =? Z.lor 1 OPCODEFLAGS_BranchTarget then mret (buf, true, offset)
       else if flags =? Z.lor 4 OPCODEFLAGS_BranchTarget then mret (buf, true, offset)
       else if flags =? Z.lor 0 OPCODEFLAGS_Switch then
         buf ← emit buf offset (le_bytes 4 (m_Arg32 i)); mret (buf, fBranch, wrap 32 (offset + 4))
       else mret (buf, fBranch, offset));
  let '(buf, fBranch, offset) := (r : list Z * bool * Z) in
  mret (buf, fBranch, wrap 32 (offset + Z.land flags OPCODEFLAGS_SizeMask)).

(** The loop that resolves the branch operands; a short branch whose
    displacement does not fit is made long, and everything is done again. *)
Definition patch_instr (pInstr : Z) (acc : list Z * Z * bool) : M (list Z * Z * bool) :=
  let '(buf, switchBase, fTryAgain) := acc in
  i ← load pInstr;
  if m_opcode i =? CEE_SWITCH then
    mret (buf, wrap 32 (m_offset i + 1 + 4 * (m_Arg32 i + 1)), fTryAgain)
  else if m_opcode i =? CEE_SWITCH_ARG then
    t ← load (m_pTarget i);
    buf ← emit buf (m_offset i) (le_bytes 4 (m_offset t - switchBase));
    mret (buf, switchBase, fTryAgain)
  else
  flags ← st_read (fun _ => opcode_flags (m_opcode i));
  if Z.land flags OPCODEFLAGS_BranchTarget =? 0 then mret acc else
  t ← load (m_pTarget i);
  n ← load (m_pNext i);
  let delta := sint 32 (m_offset t - m_offset n) in
  if flags =? Z.lor 1 OPCODEFLAGS_BranchTarget then
    if negb (sint 8 delta =? delta) then
      store pInstr (set_opcode (if m_opcode i =? CEE_LEAVE_S then CEE_LEAVE
                                else m_opcode i - CEE_BR_S + CEE_BR));;
      mret (buf, switchBase, true)
    else
      buf ← emit buf (m_offset n - 1) (le_bytes 1 delta); mret (buf, switchBase, fTryAgain)
  else if flags =? Z.lor 4 OPCODEFLAGS_BranchTarget then
    buf ← emit buf (m_offset n - 4) (le_bytes 4 delta); mret (buf, switchBase, fTryAgain)
  else mret acc.

(** One round of the code between [again:] and [goto again]; returns the
    buffer, the code size and whether to do it again. *)
Definition export_round (buf : list Z) : M (list Z * Z * bool) :=
  r ← for_all_instrs (at_cursor emit_instr) (buf, false, 0);
  let '(buf, fBranch, offset) := (r : list Z * bool * Z) in
  store IL (set_offset offset);;
  if fBranch then
    r ← for_all_instrs (at_cursor patch_instr) (buf, 0, false);
    let '(buf, _, fTryAgain) := (r : list Z * Z * bool) in mret (buf, offset, fTryAgain)
  else mret (buf, offset, false).

Fixpoint export_again (fuel : nat) (buf : list Z) : M (list Z * Z) :=
  r ← export_round buf;
  let '(buf, offset, fTryAgain) := (r : list Z * Z * bool) in
  if fTryAgain then
    match fuel with
    | O => st_fail OutOfFuel
    | S fuel => export_again fuel buf
    end
  else mret (buf, offset).

(** The code of [Export] before the header is produced: the output buffer of
    [m_nInstrs * 10] bytes ([junk] is what the allocator leaves in it) and
    the rounds.  A round is repeated only after a branch was made long, so the
    number of instructions bounds the repetitions. *)
Definition export_code (junk : Z) : M (list Z * Z) :=
  s ← st_get;
  let maxSize := wrap 32 (m_nInstrs s * 10) in
  export_again (size (m_mem s)) (replicate (Z.to_nat maxSize) junk).

(** ** The method header *)

Definition CorILMethod_TinyFormat : Z := 0x0002.
Definition CorILMethod_FatFormat : Z := 0x0003.
Definition CorILMethod_MoreSects : Z := 0x0008.
Definition CorILMethod_Sect_EHTable : Z := 1.
Definition CorILMethod_Sect_FatFormat : Z := 0x40.
Definition E_FAIL : Z := 0x80004005.
Definition E_OUTOFMEMORY : Z := 0x8007000E.

(** The memory image of [IMAGE_COR_ILMETHOD_FAT], whose first word holds
    three bit fields. *)
Definition fat_header (flags maxStack codeSize localVarSigTok : Z) : list Z :=
  le_bytes 4 (wrap 12 flags + wrap 4 3 * 2 ^ 12 + wrap 16 maxStack * 2 ^ 16)
    ++ le_bytes 4 codeSize ++ le_bytes 4 localVarSigTok.

(** The memory images of [IMAGE_COR_ILMETHOD_SECT_FAT] and
    [IMAGE_COR_ILMETHOD_SECT_EH_CLAUSE_FAT]. *)
Definition sect_fat (kind dataSize : Z) : list Z :=
  le_bytes 4 (wrap 8 kind + wrap 24 dataSize * 2 ^ 8).
Definition clause_fat (c : EHClauseFat) : list Z :=
  le_bytes 4 (eh_Flags c) ++ le_bytes 4 (eh_TryOffset c) ++ le_bytes 4 (eh_TryLength c)
    ++ le_bytes 4 (eh_HandlerOffset c) ++ le_bytes 4 (eh_HandlerLength c)
    ++ le_bytes 4 (eh_ClassTokenOrFilterOffset c).

(** The assignments to the fields of one exported clause. *)
Definition export_clause (pSrc : EHClause) : M EHClauseFat :=
  tb ← load (m_pTryBegin pSrc);
  te ← load (m_pTryEnd pSrc);
  hb ← load (m_pHandlerBegin pSrc);
  he ← load (m_pHandlerEnd pSrc);
  hn ← load (m_pNext he);
  last ← (if Z.land (m_Flags pSrc) COR_ILEXCEPTION_CLAUSE_FILTER =? 0
          then mret (m_ClassTokenOrFilter pSrc)
          else f ← load (m_ClassTokenOrFilter pSrc); mret (m_offset f));
  mret (mkEHClauseFat (m_Flags pSrc) (m_offset tb) (wrap 32 (m_offset te - m_offset tb))
          (m_offset hb) (wrap 32 (m_offset hn - m_offset hb)) last).

(** ** Export *)

Section export.
(** The runtime's allocator for method bodies, which hands out a block with
    unknown contents or fails, and its [SetILFunctionBody], which accepts a
    body or answers with an error code. *)
Variable Alloc : Z -> option (list Z).
Variable SetBody : list Z -> option Z.
Variable junk : Z.

Definition AllocateILMemory (size : Z) : M (list Z) :=
  match Alloc size with
  | Some block => mret block
  | None => st_fail (HResult E_OUTOFMEMORY)
  end.

Definition SetILFunctionBody (pBody : list Z) : M unit :=
  match SetBody pBody with
  | Some hr => st_fail (HResult hr)
  | None => mret tt
  end.

(** The tiny header and the code. *)
Definition export_tiny (buf : list Z) (codeSize : Z) : M (list Z) :=
  if 64 <=? codeSize then st_fail (HResult E_FAIL) else
  pBody ← AllocateILMemory (1 + codeSize);
  pBody ← emit pBody 0 [wrap 8 (Z.lor CorILMethod_TinyFormat (Z.shiftl codeSize 2))];
  code ← st_read (fun _ => read_at buf 0 (Z.to_nat codeSize));
  emit pBody 1 code.

(** The fat header, the code and the exception section. *)
Definition export_fat (buf : list Z) (codeSize : Z) : M (list Z) :=
  s ← st_get;
  let nEH := m_nEH s in
  let alignedCodeSize := Z.land (wrap 32 (codeSize + 3)) (wrap 32 (Z.lnot 3)) in
  let totalSize := wrap 32 (12 + alignedCodeSize + (if nEH =? 0 then 0 else 4 + 24 * nEH)) in
  pBody ← AllocateILMemory totalSize;
  pBody ← emit pBody 0 (fat_header
    (Z.lor (Z.lor (m_flags s) (if nEH =? 0 then 0 else CorILMethod_MoreSects)) CorILMethod_FatFormat)
    (m_maxStack s) codeSize (m_tkLocalVarSig s));
  code ← st_read (fun _ => read_at buf 0 (Z.to_nat codeSize));
  pBody ← emit pBody 12 code;
  let pCurrent := 12 + alignedCodeSize in
  if nEH =? 0 then mret pBody else
  pBody ← emit pBody pCurrent
    (sect_fat (Z.lor CorILMethod_Sect_EHTable CorILMethod_Sect_FatFormat) (wrap 32 (4 + 24 * nEH)));
  clauses ← st_read m_pEH;
  r ← st_fold (fun pSrc '(pBody, pCurrent) =>
         c ← export_clause pSrc;
         pBody ← emit pBody pCurrent (clause_fat c);
         mret (pBody, pCurrent + 24)) (take (Z.to_nat nEH) clauses) (pBody, pCurrent + 4);
  mret (fst r).

Definition Export : M (list Z) :=
  r ← export_code junk;
  let '(buf, codeSize) := (r : list Z * Z) in
  s ← st_get;
  pBody ← (if m_fGenerateTinyHeader s then export_tiny buf codeSize else export_fat buf codeSize);
  SetILFunctionBody pBody;;
  mret pBody.
End export.

(** ** countOffsets *)

Definition count_offset (pInstr : Z) (offset : Z) : M Z :=
  store pInstr (set_offset offset);;
  i ← load pInstr;
  let opcode := m_opcode i in
  let offset :=
    if opcode <? CEE_COUNT
    then wrap 32 ((if 0x100 <=? opcode then wrap 32 (offset + 1) else offset) + 1)
    else offset in
  flags ← st_read (fun _ => opcode_flags opcode);
  let offset := if flags =? Z.lor 0 OPCODEFLAGS_Switch then wrap 32 (offset + 4) else offset in
  mret (wrap 32 (offset + Z.land flags OPCODEFLAGS_SizeMask)).

Definition countOffsets : M unit :=
  for_all_instrs (at_cursor count_offset) 0;; mret tt.

(** ** The first loop *)

(** The bytes of an instruction the first loop emits. *)
Definition fixed_bytes (op v : Z) : list Z :=
  opcode_bytes op ++ (if is_branch_op op then [] else operand_bytes op v 0 0).

Fixpoint fixed_at (buf : list Z) (off : Z) (items : list (Z * Z)) : Prop :=
  match items with
  | [] => True
  | (op, v) :: items => seg_at buf off (fixed_bytes op v) /\ fixed_at buf (off + isize op) items
  end.

Lemma length_fixed_bytes op v : Z.of_nat (length (fixed_bytes op v)) <= isize op.
Proof.
  rewrite <- (length_instr_bytes op v 0 0). unfold fixed_bytes, instr_bytes.
  rewrite !length_app. case_match; simpl; lia.
Qed.

(** A write leaves the items on both sides of it alone. *)
Lemma fixed_at_write buf i bs buf' off items :
  write_at buf i bs = Some buf' ->
  off + code_size items <= i \/ i + Z.of_nat (length bs) <= off ->
  fixed_at buf off items -> fixed_at buf' off items.
Proof.
  intros Hw. revert off. induction items as [|[op v] items IH]; intros off Hd; [done|].
  simpl in Hd. pose proof (length_fixed_bytes op v). pose proof (code_size_nonneg items).
  pose proof (isize_nonneg op). intros [Hs Hf]. split.
  - eapply write_at_seg_other; [exact Hw|lia|done].
  - apply IH; [lia|done].
Qed.

Lemma operand_bytes_base op v next base next' base' :
  is_branch_op op = false -> operand_bytes op v next base = operand_bytes op v next' base'.
Proof.
  unfold is_branch_op, operand_bytes. intros H.
  flag_cases op; rewrite Hflag in *; bit_consts; done.
Qed.

(** Writes of consecutive pieces are one write. *)
Lemma write_at_app {A} (buf : list A) i b1 b2 buf1 buf2 :
  write_at buf i b1 = Some buf1 -> write_at buf1 (i + Z.of_nat (length b1)) b2 = Some buf2 ->
  seg_at buf2 i (b1 ++ b2).
Proof.
  intros H1 H2. apply seg_at_app. split; [|by eapply write_at_seg].
  eapply write_at_seg_other; [exact H2|left; lia|by eapply write_at_seg].
Qed.

(** What a sequence of writes from [off] on does to the buffer. *)
Record wrote (off : Z) (bs buf buf' : list Z) : Prop := {
  wr_seg : seg_at buf' off bs;
  wr_len : length buf' = length buf;
  wr_below j n : j + Z.of_nat n <= off -> read_at buf' j n = read_at buf j n
}.

Lemma wrote_nil off buf : 0 <= off <= Z.of_nat (length buf) -> wrote off [] buf buf.
Proof. intros H. split; [by apply seg_at_nil|done|done]. Qed.

Lemma emit_wrote (s : ILRewriter) buf off b1 buf1 bs i :
  wrote off b1 buf buf1 -> i = off + Z.of_nat (length b1) -> 0 <= off ->
  i + Z.of_nat (length bs) <= Z.of_nat (length buf) ->
  exists buf2, emit buf1 i bs s = Ok (buf2, s) /\ wrote off (b1 ++ bs) buf buf2.
Proof.
  intros [Hs Hl Hb] -> H0 Hle.
  destruct (write_at_some buf1 (off + Z.of_nat (length b1)) bs) as [buf2 Hw]; [lia|lia|].
  exists buf2. split; [unfold emit, st_read; by rewrite Hw|]. split.
  - apply seg_at_app. split; [|by eapply write_at_seg].
    eapply write_at_seg_other; [exact Hw|left; lia|done].
  - rewrite (write_at_length _ _ _ _ Hw). done.
  - intros j n Hj. rewrite (write_at_read_other _ _ _ _ _ _ Hw) by lia. by apply Hb.
Qed.

Lemma emit_opcode_run (s : ILRewriter) buf off op :
  0 <= off -> off + 2 <= Z.of_nat (length buf) -> Z.of_nat (length buf) < 2 ^ 31 ->
  exists buf', emit_opcode buf off op s = Ok ((buf', off + Z.of_nat (length (opcode_bytes op))), s) /\
    wrote off (opcode_bytes op) buf buf'.
Proof.
  intros H0 Hle Hlen. unfold emit_opcode, opcode_bytes.
  assert (wrote off [] buf buf) as Hw0 by (apply wrote_nil; lia).
  destruct (op <? CEE_COUNT).
  2:{ exists buf. rewrite Z.add_0_r. done. }
  destruct (0x100 <=? op).
  - destruct (emit_wrote s buf off [] buf [CEE_PREFIX1] off Hw0) as (b1 & He1 & Hw1); [simpl; lia..|].
    destruct (emit_wrote s buf off ([] ++ [CEE_PREFIX1]) b1 [Z.land op 0xFF] (off + 1) Hw1)
      as (b2 & He2 & Hw2); [simpl; lia..|].
    exists b2. rewrite st_bind_assoc. run_step He1.
    rewrite (wrap_small 32 (off + 1)) by (unfold is_uint; lia).
    rewrite st_ret_bind. cbn [fst snd]. run_step He2.
    rewrite (wrap_small 32) by (unfold is_uint; lia). split; [|done]. unfold mret, st_ret.
    simpl. do 3 f_equal. lia.
  - destruct (emit_wrote s buf off [] buf [Z.land op 0xFF] off Hw0) as (b1 & He1 & Hw1); [simpl; lia..|].
    exists b1. rewrite st_ret_bind. cbn [fst snd]. run_step He1.
    rewrite (wrap_small 32 (off + 1)) by (unfold is_uint; lia). done.
Qed.

Lemma emit_instr_run s p i buf fB off :
  m_mem s !! p = Some i -> valid_opcode (m_opcode i) ->
  0 <= off -> off + 10 <= Z.of_nat (length buf) -> Z.of_nat (length buf) < 2 ^ 31 ->
  exists buf', emit_instr p (buf, fB, off) s =
      Ok ((buf', fB || is_branch_op (m_opcode i), off + isize (m_opcode i)),
          with_mem (<[p := set_offset off i]> (m_mem s)) s) /\
    wrote off (fixed_bytes (m_opcode i) (m_Arg i)) buf buf'.
Proof.
  intros Hi Hv H0 Hle Hlen. unfold emit_instr.
  run_step (store_run _ _ (set_offset off) _ Hi).
  set (s1 := with_mem (<[p := set_offset off i]> (m_mem s)) s).
  assert (m_mem s1 !! p = Some (set_offset off i)) as Hi1 by (simpl; by rewrite lookup_insert_eq).
  run_step (load_run _ _ _ Hi1). cbn [m_opcode set_offset].
  destruct (emit_opcode_run s1 buf off (m_opcode i)) as (b1 & He1 & Hw1); [lia..|].
  run_step He1.
  destruct (opcode_flags_total (m_opcode i)) as [f Hf]; [exact Hv|].
  assert (st_read (fun _ : ILRewriter => opcode_flags (m_opcode i)) s1 = Ok (f, s1)) as Hfr
    by (unfold st_read; by rewrite Hf).
  run_step Hfr. assert (flags_of (m_opcode i) = f) as Hfo by (unfold flags_of; by rewrite Hf).
  pose proof (length_opcode_bytes (m_opcode i)) as [Hob _].
  unfold fixed_bytes, operand_bytes, is_branch_op, isize, OPCODEFLAGS_SizeMask, OPCODEFLAGS_BranchTarget,
    OPCODEFLAGS_Switch. rewrite Hfo. set (o := off + Z.of_nat (length (opcode_bytes (m_opcode i)))) in *.
  assert (forall bs (x : Z), Z.of_nat (length bs) <= 8 ->
    exists b2, (b ← emit b1 o bs; mret (b, fB, x)) s1 = Ok ((b2, fB, x), s1) /\
      wrote off (opcode_bytes (m_opcode i) ++ bs) buf b2) as Hemit.
  { intros bs x Hbs. destruct (emit_wrote s1 buf off _ b1 bs o Hw1) as (b2 & He2 & Hw2); [lia..|].
    exists b2. by run_step He2. }
  assert (forall n v, Z.of_nat n <= 8 -> le_bytes n (sint (8 * Z.of_nat n) v) = le_bytes n v) as Hsb.
  { intros n v Hn. destruct n; [done|]. apply le_bytes_eq, wrap_sint. lia. }
  unfold m_Arg8, m_Arg16, m_Arg32, m_Arg64. cbn [m_Arg set_offset].
  rewrite (Hsb 1%nat), (Hsb 2%nat), (Hsb 4%nat), (Hsb 8%nat) by lia.
  flag_cases (m_opcode i); rewrite Hfo in Hflag; rewrite Hflag; bit_consts; cbn [Z.eqb Pos.eqb negb];
    rewrite ?orb_false_r, ?orb_true_r, ?app_nil_r.
  1,6,7: exists b1; rewrite st_ret_bind;
    rewrite (wrap_small 32) by (unfold is_uint; lia); (split; [|exact Hw1]); unfold mret, st_ret;
    do 3 f_equal; lia.
  1: destruct (Hemit (le_bytes 1 (m_Arg i)) o) as (b2 & He2 & Hw2).
  3: destruct (Hemit (le_bytes 2 (m_Arg i)) o) as (b2 & He2 & Hw2).
  5: destruct (Hemit (le_bytes 4 (m_Arg i)) o) as (b2 & He2 & Hw2).
  7: destruct (Hemit (le_bytes 8 (m_Arg i)) o) as (b2 & He2 & Hw2).
  9: destruct (Hemit (le_bytes 4 (m_Arg i)) (wrap 32 (o + 4))) as (b2 & He2 & Hw2).
  1,3,5,7,9: rewrite length_le_bytes; lia.
  all: exists b2; run_step He2; rewrite ?(wrap_small 32 (o + 4)) by (unfold is_uint; lia);
    rewrite ?(wrap_small 32) by (unfold is_uint; lia); (split; [|exact Hw2]);
    unfold mret, st_ret; do 3 f_equal; lia.
Qed.

Lemma keeps_links_emit_instr p acc : keeps_links (emit_instr p acc).
Proof.
  destruct acc as [[buf fB] off]. unfold emit_instr, emit_opcode, emit, load.
  apply keeps_links_bind; [by apply keeps_links_store|]. intros _.
  apply keeps_links_bind; [auto with links|]. intros i.
  apply keeps_links_bind.
  { case_match; [|auto with links]. apply keeps_links_bind; [case_match|]; auto 10 with links. }
  intros [b o]. apply keeps_links_bind; [auto with links|]. intros f.
  apply keeps_links_bind; [repeat case_match; auto 10 with links|].
  intros [[b' fB'] o']. auto with links.
Qed.

(** The payloads after a walk that assigned the offsets of [l] from [off] on. *)
Definition laid_out (m m' : gmap Z ILInstr) (l : list Z) (off : Z) : Prop :=
  (forall p, p ∉ l -> payload m' p = payload m p) /\
  forall k p, l !! k = Some p ->
    payload m' p = (fun '(op, _, v) => (op, off + code_size (take k (items_of m l)), v)) <$> payload m p.

Definition has_branch (items : list (Z * Z)) : bool := existsb (fun it => is_branch_op (fst it)) items.

Lemma item_of_lookup m p i : m !! p = Some i -> item_of m p = (m_opcode i, m_Arg i).
Proof. intros H. unfold item_of. by rewrite H. Qed.

(** Laying out [p :: l]: first [p], then [l]. *)
Lemma laid_out_cons m m' p l off i :
  m !! p = Some i -> p ∉ l -> is_uint 32 off ->
  laid_out (<[p := set_offset off i]> m) m' l (off + isize (m_opcode i)) ->
  laid_out m m' (p :: l) off.
Proof.
  intros Hi Hp Hoff [H1 H2]. split.
  - intros q Hq. apply not_elem_of_cons in Hq as [Hq1 Hq2].
    rewrite H1, payload_insert by done. by rewrite decide_False by done.
  - intros [|k] q Hk; simpl in Hk.
    + injection Hk as <-. rewrite H1, payload_insert, decide_True by done.
      rewrite (payload_lookup _ _ _ Hi). simpl. rewrite wrap_small by done. do 3 f_equal. lia.
    + assert (q <> p) as Hne by (intros ->; apply Hp; by eapply list_elem_of_lookup_2).
      rewrite (H2 _ _ Hk), payload_insert, decide_False by done.
      assert (items_of (<[p:=set_offset off i]> m) l = items_of m l) as ->.
      { apply items_of_payload. intros r Hr. rewrite payload_insert, decide_False; [done|].
        intros ->. done. }
      simpl. rewrite (item_of_lookup _ _ _ Hi). simpl. destruct (payload m q) as [[[? ?] ?]|]; [|done].
      simpl. do 3 f_equal. lia.
Qed.

Lemma emit_fold l : forall s buf fB off,
  NoDup l -> (forall p, p ∈ l -> exists i, m_mem s !! p = Some i /\ valid_opcode (m_opcode i)) ->
  0 <= off -> off + 10 * Z.of_nat (length l) <= Z.of_nat (length buf) -> Z.of_nat (length buf) < 2 ^ 31 ->
  exists buf' m', st_fold emit_instr l (buf, fB, off) s =
      Ok ((buf', fB || has_branch (items_of (m_mem s) l), off + code_size (items_of (m_mem s) l)),
          with_mem m' s) /\
    length buf' = length buf /\
    (forall j n, j + Z.of_nat n <= off -> read_at buf' j n = read_at buf j n) /\
    fixed_at buf' off (items_of (m_mem s) l) /\
    (forall q, nxt m' q = nxt (m_mem s) q) /\ (forall q, prv m' q = prv (m_mem s) q) /\
    laid_out (m_mem s) m' l off.
Proof.
  induction l as [|p l IH]; intros s buf fB off Hnd Hv H0 Hle Hlen.
  { exists buf, (m_mem s). split_and!; try done.
    cbn [st_fold]. unfold mret, st_ret. simpl. rewrite orb_false_r, Z.add_0_r. by destruct s. }
  apply NoDup_cons in Hnd as [Hp Hnd].
  destruct (Hv p ltac:(left)) as (i & Hi & Hvi). simpl in Hle. cbn [st_fold].
  destruct (emit_instr_run s p i buf fB off) as (b1 & Hr & [Hw1 Hw2 Hw3]); try done; [lia..|].
  run_step Hr. destruct (keeps_links_emit_instr _ _ _ _ _ Hr) as [Hn1 Hp1]. simpl in Hn1, Hp1.
  match goal with |- context [st_fold _ _ _ (with_mem ?m s)] => set (m1 := m) in * end.
  pose proof (isize_bound (m_opcode i)). pose proof (isize_nonneg (m_opcode i)).
  destruct (IH (with_mem m1 s) b1 (fB || is_branch_op (m_opcode i)) (off + isize (m_opcode i)))
    as (b2 & m2 & Hf & Hl2 & Hlow & Hfix & Hn2 & Hp2 & Hlay); try done; [|lia..|].
  { intros q Hq. destruct (Hv q ltac:(by right)) as (j & Hj & Hvj).
    exists j. simpl. unfold m1. rewrite lookup_insert_ne by (intros ->; done). done. }
  simpl m_mem in *. assert (items_of m1 l = items_of (m_mem s) l) as Hit.
  { apply items_of_payload. intros r Hr'. unfold m1. rewrite payload_insert, decide_False; [done|].
    intros ->. done. }
  rewrite Hit in *. exists b2, m2. simpl items_of. rewrite (item_of_lookup _ _ _ Hi).
  simpl. split_and!.
  - rewrite Hf. rewrite orb_assoc, Z.add_assoc. done.
  - lia.
  - intros j n Hj. rewrite Hlow by lia. by apply Hw3.
  - pose proof (length_fixed_bytes (m_opcode i) (m_Arg i)). unfold seg_at. by rewrite Hlow by lia.
  - done.
  - intros q. by rewrite Hn2.
  - intros q. by rewrite Hp2.
  - apply (laid_out_cons _ _ _ _ _ i); try done; unfold is_uint; lia.
Qed.

(** ** The second loop *)

(** The long form of a short branch. *)
Definition widen (op : Z) : Z := if op =? CEE_LEAVE_S then CEE_LEAVE else op - CEE_BR_S + CEE_BR.

(** A short branch at offset [next - 2] reaches [v]. *)
Definition fits (op v next : Z) : Prop := flags_of op = 0x11 -> is_sint 8 (v - next).

(** An instruction with its branch target as an offset. *)
Definition off_of (m : gmap Z ILInstr) (p : Z) : Z := default 0 (m_offset <$> m !! p).
Definition abs_item (m : gmap Z ILInstr) (it : Z * Z) : Z * Z :=
  if is_branch_op (fst it) then (fst it, off_of m (snd it)) else it.

Lemma flags_valid op : flags_of op <> 0 -> valid_opcode op.
Proof.
  unfold flags_of. destruct (opcode_flags op) eqn:E; [|done]. intros _. by eapply opcode_lookup_range.
Qed.

Lemma widen_spec op :
  flags_of op = 0x11 ->
  valid_opcode (widen op) /\ flags_of (widen op) = 0x14 /\ widen op < CEE_COUNT /\
  (length (opcode_bytes (widen op)) = length (opcode_bytes op)).
Proof.
  intros Hf. assert (valid_opcode op) as Hv by (apply flags_valid; lia). unfold valid_opcode in *.
  pose proof (for_opcodes_spec (fun op => negb (flags_of op =? 0x11) ||
    ((0 <=? widen op) && (widen op <? CEE_COUNT) && (flags_of (widen op) =? 0x14) &&
     (length (opcode_bytes (widen op)) =? length (opcode_bytes op))%nat)) op
    ltac:(vm_compute; reflexivity) Hv) as R.
  cbv beta in R. rewrite Hf in R. change (negb (17 =? 17)) with false in R.
  unfold CEE_COUNT, CEE_SWITCH_ARG in *. lia.
Qed.

Lemma flags_read {A} (k : Z -> M A) s op :
  valid_opcode op -> (f ← st_read (fun _ => opcode_flags op); k f) s = k (flags_of op) s.
Proof.
  intros Hv. destruct (opcode_flags_total op Hv) as [f Hf].
  unfold mbind, st_bind, st_read, flags_of. by rewrite Hf.
Qed.

(** A write over the operand of an instruction whose opcode is in place. *)
Lemma emit_operand (s : ILRewriter) buf o op bs i :
  i = o + Z.of_nat (length (opcode_bytes op)) -> 0 <= o ->
  i + Z.of_nat (length bs) <= Z.of_nat (length buf) ->
  exists buf', emit buf i bs s = Ok (buf', s) /\ length buf' = length buf /\
    (seg_at buf o (opcode_bytes op) -> seg_at buf' o (opcode_bytes op ++ bs)) /\
    forall j n, j + Z.of_nat n <= o \/ i + Z.of_nat (length bs) <= j -> read_at buf' j n = read_at buf j n.
Proof.
  intros -> H0 Hle.
  destruct (write_at_some buf (o + Z.of_nat (length (opcode_bytes op))) bs) as [buf' Hw]; [lia|lia|].
  exists buf'. split; [unfold emit, st_read; by rewrite Hw|]. split; [by eapply write_at_length|].
  split.
  - intros Hs. apply seg_at_app. split; [|by eapply write_at_seg].
    eapply write_at_seg_other; [exact Hw|left; lia|done].
  - intros j n Hj. eapply write_at_read_other; [exact Hw|lia].
Qed.

(** What one step of the loop does when it leaves the opcode alone. *)
Definition patched (s : ILRewriter) (p : Z) (i : ILInstr) (buf : list Z) (base : Z) (again : bool) : Prop :=
  let op := m_opcode i in
  let o := m_offset i in
  let v := snd (abs_item (m_mem s) (op, m_Arg i)) in
  fits op v (o + isize op) /\
  exists buf' base', patch_instr p (buf, base, again) s = Ok ((buf', base', again), s) /\
    length buf' = length buf /\ wrap 32 base' = wrap 32 (next_base op v o base) /\
    (seg_at buf o (fixed_bytes op (m_Arg i)) ->
     seg_at buf' o (instr_bytes op v (o + isize op) base')) /\
    forall j n, j + Z.of_nat n <= o \/ o + isize op <= j -> read_at buf' j n = read_at buf j n.

Section patch_step.
Context (s : ILRewriter) (p : Z) (i n : ILInstr) (buf : list Z) (base : Z) (again : bool).
Hypothesis Hi : m_mem s !! p = Some i.
Hypothesis Hv : valid_opcode (m_opcode i).
Hypothesis Hn : m_mem s !! m_pNext i = Some n.
Hypothesis Hno : m_offset n = m_offset i + isize (m_opcode i).
Hypothesis Hlo : 0 <= m_offset i.
Hypothesis Hhi : m_offset n <= Z.of_nat (length buf).
Hypothesis Hlen : Z.of_nat (length buf) < 2 ^ 31.

Lemma patch_plain :
  is_branch_op (m_opcode i) = false -> patched s p i buf base again.
Proof using All.
  intros Hb. unfold patched. cbv zeta. unfold abs_item. cbn [fst snd]. rewrite Hb.
  split.
  { intros Hf. unfold is_branch_op in Hb. by rewrite Hf in Hb. }
  assert (m_opcode i <> CEE_SWITCH_ARG) as Hnsa by (intros E; by rewrite E in Hb).
  unfold patch_instr. unfold is_branch_op in Hb. apply negb_false_iff in Hb as Hb'.
  exists buf, (if m_opcode i =? CEE_SWITCH
    then wrap 32 (m_offset i + 1 + 4 * (m_Arg32 i + 1)) else base). split_and!.
  - run_step (load_run _ _ _ Hi). destruct (m_opcode i =? CEE_SWITCH); [done|].
    rewrite (proj2 (Z.eqb_neq _ _) Hnsa). rewrite flags_read by done. by rewrite Hb'.
  - done.
  - unfold next_base. destruct (m_opcode i =? CEE_SWITCH); [|done].
    rewrite wrap_wrap by lia. unfold m_Arg32.
    replace (m_offset i + 1 + 4 * (sint 32 (m_Arg i) + 1))
      with (m_offset i + 5 + 4 * sint 32 (m_Arg i)) by lia.
    unfold wrap at 1 2. rewrite <- (Zplus_mod_idemp_r (4 * sint 32 (m_Arg i))).
    rewrite <- (Zplus_mod_idemp_r (4 * wrap 32 (m_Arg i))).
    rewrite <- (Zmult_mod_idemp_r (sint 32 (m_Arg i))). fold (wrap 32 (sint 32 (m_Arg i))).
    by rewrite wrap_sint by lia.
  - intros Hs. unfold fixed_bytes, is_branch_op in Hs. rewrite Hb in Hs. unfold instr_bytes.
    erewrite (operand_bytes_base (m_opcode i)); [exact Hs|]. unfold is_branch_op. by rewrite Hb'.
  - done.
Qed.

Hypothesis Ht : is_branch_op (m_opcode i) = true ->
  exists t, m_mem s !! m_Arg i = Some t /\ 0 <= m_offset t < 2 ^ 31.

Lemma patch_switch_arg : m_opcode i = CEE_SWITCH_ARG -> patched s p i buf base again.
Proof using All.
  intros Hop. unfold patched. cbv zeta. destruct Ht as (t & Hta & Hto); [by rewrite Hop|].
  unfold abs_item. cbn [fst snd]. rewrite Hop in *. change (is_branch_op CEE_SWITCH_ARG) with true.
  cbv iota. cbn [snd]. unfold off_of. rewrite Hta. simpl default. split; [done|].
  change (isize CEE_SWITCH_ARG) with 4 in *. unfold patch_instr.
  run_step (load_run _ _ _ Hi). rewrite Hop. change (CEE_SWITCH_ARG =? CEE_SWITCH) with false.
  change (CEE_SWITCH_ARG =? CEE_SWITCH_ARG) with true. cbv iota.
  unfold m_pTarget. run_step (load_run _ _ _ Hta).
  destruct (emit_operand s buf (m_offset i) CEE_SWITCH_ARG (le_bytes 4 (m_offset t - base)) (m_offset i))
    as (buf' & He & Hl' & Hseg & Hfr).
  - change (opcode_bytes CEE_SWITCH_ARG) with (@nil Z). simpl. lia.
  - done.
  - rewrite length_le_bytes. lia.
  - exists buf', base. run_step He. by split_and!.
Qed.

Lemma patch_branch :
  is_branch_op (m_opcode i) = true -> m_opcode i <> CEE_SWITCH_ARG ->
  patched s p i buf base again \/
  flags_of (m_opcode i) = 0x11 /\
  ~ fits (m_opcode i) (off_of (m_mem s) (m_Arg i)) (m_offset i + isize (m_opcode i)) /\
  patch_instr p (buf, base, again) s =
    Ok ((buf, base, true), with_mem (<[p := set_opcode (widen (m_opcode i)) i]> (m_mem s)) s).
Proof using All.
  intros Hb Hnsa. destruct (Ht Hb) as (t & Hta & Hto).
  assert (m_opcode i <> CEE_SWITCH) as Hns by (intros E; by rewrite E in Hb).
  unfold patched. cbv zeta. unfold abs_item. cbn [fst snd]. rewrite Hb. cbn [snd].
  unfold off_of. rewrite Hta. simpl default. pose proof (isize_nonneg (m_opcode i)).
  assert (patch_instr p (buf, base, again) s =
    let delta := m_offset t - m_offset n in
    (if flags_of (m_opcode i) =? Z.lor 1 OPCODEFLAGS_BranchTarget then
      if negb (sint 8 delta =? delta) then
        store p (set_opcode (widen (m_opcode i)));; mret (buf, base, true)
      else
        b ← emit buf (m_offset n - 1) (le_bytes 1 delta); mret (b, base, again)
    else if flags_of (m_opcode i) =? Z.lor 4 OPCODEFLAGS_BranchTarget then
      b ← emit buf (m_offset n - 4) (le_bytes 4 delta); mret (b, base, again)
    else mret (buf, base, again)) s) as ->.
  { unfold patch_instr. run_step (load_run _ _ _ Hi).
    rewrite (proj2 (Z.eqb_neq _ _) Hns), (proj2 (Z.eqb_neq _ _) Hnsa). rewrite flags_read by done.
    unfold is_branch_op in Hb. apply negb_true_iff in Hb. rewrite Hb.
    unfold m_pTarget. run_step (load_run _ _ _ Hta). run_step (load_run _ _ _ Hn).
    rewrite (sint_small 32); [reflexivity|lia|]. change (- 2 ^ 31 <= m_offset t - m_offset n < 2 ^ 31). lia. }
  cbv zeta. set (delta := m_offset t - m_offset n).
  assert (forall bs k, Z.of_nat (length (opcode_bytes (m_opcode i))) + k = isize (m_opcode i) ->
    Z.of_nat (length bs) = k ->
    operand_bytes (m_opcode i) (m_offset t) (m_offset i + isize (m_opcode i)) base = bs ->
    exists buf' base', (b ← emit buf (m_offset n - k) bs; mret (b, base, again)) s = Ok ((buf', base', again), s) /\
      length buf' = length buf /\ wrap 32 base' = wrap 32 (next_base (m_opcode i) (m_offset t) (m_offset i) base) /\
      (seg_at buf (m_offset i) (fixed_bytes (m_opcode i) (m_Arg i)) ->
       seg_at buf' (m_offset i) (instr_bytes (m_opcode i) (m_offset t) (m_offset i + isize (m_opcode i)) base')) /\
      forall j q, j + Z.of_nat q <= m_offset i \/ m_offset i + isize (m_opcode i) <= j ->
        read_at buf' j q = read_at buf j q) as Hemit.
  { intros bs k Hk Hbs Hob.
    destruct (emit_operand s buf (m_offset i) (m_opcode i) bs (m_offset n - k)) as (buf' & He & Hl' & Hsg & Hfr);
      [lia..|].
    exists buf', base. run_step He. split_and!; try done.
    - unfold next_base. by rewrite (proj2 (Z.eqb_neq _ _) Hns).
    - unfold fixed_bytes, instr_bytes. rewrite Hb, app_nil_r, Hob. exact Hsg.
    - intros j q Hj. apply Hfr. lia. }
  pose proof (isize_flags (m_opcode i)) as Hsz.
  unfold is_branch_op, OPCODEFLAGS_BranchTarget in *.
  flag_cases (m_opcode i); rewrite Hflag in Hb; bit_consts; try done; rewrite Hflag in Hsz |- *;
    cbn [Z.eqb Pos.eqb].
  - destruct (Z.eqb_spec (sint 8 delta) delta) as [E|E]; cbn [negb].
    + left. split.
      { intros _. rewrite <- Hno. fold delta. rewrite <- E. apply sint_range. lia. }
      apply (Hemit (le_bytes 1 delta) 1); [lia|by rewrite length_le_bytes|].
      unfold operand_bytes. rewrite Hflag. cbn [Z.eqb Pos.eqb]. unfold delta. f_equal. lia.
    + right. split; [done|]. split.
      * intros Hf. apply E. apply sint_small; [lia|]. specialize (Hf Hflag). unfold delta.
        by rewrite Hno.
      * by run_step (store_run _ _ (set_opcode (widen (m_opcode i))) _ Hi).
  - left. split; [intros Hf; by rewrite Hflag in Hf|].
    apply (Hemit (le_bytes 4 delta) 4); [lia|by rewrite length_le_bytes|].
    unfold operand_bytes. rewrite Hflag. cbn [Z.eqb Pos.eqb]. rewrite (proj2 (Z.eqb_neq _ _) Hnsa).
    unfold delta. f_equal. lia.
Qed.

Lemma patch_step :
  patched s p i buf base again \/
  flags_of (m_opcode i) = 0x11 /\
  ~ fits (m_opcode i) (off_of (m_mem s) (m_Arg i)) (m_offset i + isize (m_opcode i)) /\
  patch_instr p (buf, base, again) s =
    Ok ((buf, base, true), with_mem (<[p := set_opcode (widen (m_opcode i)) i]> (m_mem s)) s).
Proof using All.
  destruct (bool_dec (is_branch_op (m_opcode i)) false) as [E|E%not_false_is_true]; [left; by apply patch_plain|].
  destruct (decide (m_opcode i = CEE_SWITCH_ARG)); [left; by apply patch_switch_arg|].
  by apply patch_branch.
Qed.
End patch_step.

(** *** Relating memories *)

(** [i'] is [i], except that a short branch may have been made long. *)
Definition widened_instr (i i' : ILInstr) : Prop :=
  m_pNext i' = m_pNext i /\ m_pPrev i' = m_pPrev i /\ m_Arg i' = m_Arg i /\
  (m_opcode i' = m_opcode i \/ flags_of (m_opcode i) = 0x11 /\ m_opcode i' = widen (m_opcode i)).

Definition widened (m m' : gmap Z ILInstr) : Prop :=
  forall p, option_Forall2 widened_instr (m !! p) (m' !! p).

Lemma widened_links m m' :
  widened m m' -> (forall p, nxt m' p = nxt m p) /\ (forall p, prv m' p = prv m p).
Proof.
  intros H. split; intros p; unfold nxt, prv; destruct (H p) as [? ? (? & ? & ?)|]; simpl; congruence.
Qed.

Lemma widened_list m m' l : widened m m' -> il_list m l -> il_list m' l.
Proof.
  intros H [Hl Hnd]. split; [|done]. apply widened_links in H as [Hn Hp].
  by apply (linked_same m).
Qed.

Lemma widened_refl m : widened m m.
Proof. intros p. destruct (m !! p); constructor. by split_and!; auto. Qed.

Definition short_at (m : gmap Z ILInstr) (p : Z) : bool := flags_of (fst (item_of m p)) =? 0x11.
Definition shorts (m : gmap Z ILInstr) (l : list Z) : nat :=
  sum_list_with (fun p => if short_at m p then 1 else 0)%nat l.

(** Instructions that can be exported: known opcodes, branches into the list. *)
Definition instr_ok (l : list Z) (i : ILInstr) : Prop :=
  valid_opcode (m_opcode i) /\ (is_branch_op (m_opcode i) = true -> m_Arg i ∈ IL :: l).

Record exportable (m : gmap Z ILInstr) (l : list Z) : Prop := {
  ex_list : il_list m l;
  ex_ok p i : p ∈ l -> m !! p = Some i -> instr_ok l i
}.

Lemma widened_exportable m m' l : widened m m' -> exportable m l -> exportable m' l.
Proof.
  intros Hw [Hl Hok]. split; [by eapply widened_list|]. intros p i' Hp Hi'.
  specialize (Hw p). rewrite Hi' in Hw. inversion Hw as [i ? (_ & _ & Harg & Hop) Hi|]; subst.
  destruct (Hok p i Hp ltac:(done)) as [Hv Hb]. unfold instr_ok. rewrite Harg.
  destruct Hop as [->|[Hf ->]]; [done|]. split; [by apply widen_spec|].
  intros _. apply Hb. unfold is_branch_op. by rewrite Hf.
Qed.

Lemma widened_trans m1 m2 m3 : widened m1 m2 -> widened m2 m3 -> widened m1 m3.
Proof.
  intros H12 H23 p. specialize (H12 p). specialize (H23 p).
  destruct H12 as [i1 i2 (? & ? & ? & O1)|]; inversion H23 as [? i3 (? & ? & ? & O2)|]; subst; constructor.
  split_and!; [congruence..|].
  destruct O1 as [O1|[F1 O1]]; rewrite O1 in O2; [done|]. right. split; [done|].
  destruct O2 as [O2|[F2 O2]]; [done|].
  destruct (widen_spec _ F1) as (_ & F & _). congruence.
Qed.

Lemma short_widened m m' p : widened m m' -> short_at m' p = true -> short_at m p = true.
Proof.
  intros Hw. unfold short_at, item_of. destruct (Hw p) as [i i' (_ & _ & _ & [->|[F ->]])|]; simpl; try done.
  intros _. by rewrite F.
Qed.

Lemma shorts_widened m m' l :
  widened m m' ->
  (shorts m' l <= shorts m l)%nat /\
  ((exists p, p ∈ l /\ short_at m p = true /\ short_at m' p = false) -> (shorts m' l < shorts m l)%nat).
Proof.
  intros Hw. induction l as [|q l [IH1 IH2]].
  { split; [done|]. intros (p & Hp & _). by apply elem_of_nil in Hp. }
  pose proof (short_widened m m' q Hw) as Hq. unfold shorts in *. simpl. split.
  - destruct (short_at m' q); [rewrite Hq by done|destruct (short_at m q)]; lia.
  - intros (p & Hp & H1 & H2). apply elem_of_cons in Hp as [->|Hp].
    + rewrite H1, H2. lia.
    + assert (sum_list_with (fun p => if short_at m' p then 1 else 0)%nat l <
              sum_list_with (fun p => if short_at m p then 1 else 0)%nat l)%nat by eauto.
      destruct (short_at m' q); [rewrite Hq by done|destruct (short_at m q)]; lia.
Qed.

(** *** The loop *)

(** Every instruction has the offset of its place in the code. *)
Record layout (m : gmap Z ILInstr) (l : list Z) : Prop := {
  lo_ex : exportable m l;
  lo_off k p : l !! k = Some p -> off_of m p = code_size (take k (items_of m l));
  lo_end : off_of m IL = code_size (items_of m l)
}.

Fixpoint all_fit (off : Z) (items : list (Z * Z)) : Prop :=
  match items with
  | [] => True
  | (op, v) :: items => fits op v (off + isize op) /\ all_fit (off + isize op) items
  end.

Lemma all_fit_app off a b : all_fit off (a ++ b) <-> all_fit off a /\ all_fit (off + code_size a) b.
Proof.
  revert off. induction a as [|[op v] a IH]; intros off; simpl.
  - rewrite Z.add_0_r. tauto.
  - rewrite IH. rewrite Z.add_assoc. tauto.
Qed.

(** The code the second loop is to produce. *)
Definition abs_items (m : gmap Z ILInstr) (l : list Z) : list (Z * Z) := abs_item m <$> items_of m l.

Lemma fst_abs_item m it : fst (abs_item m it) = fst it.
Proof. unfold abs_item. by case_match. Qed.

Lemma code_size_abs m l : code_size (abs_items m l) = code_size (items_of m l).
Proof.
  apply code_size_congr. unfold abs_items. rewrite <- list_fmap_compose. apply list_fmap_ext.
  intros k it _. apply fst_abs_item.
Qed.

Lemma abs_items_app m a b : abs_items m (a ++ b) = abs_items m a ++ abs_items m b.
Proof. unfold abs_items, items_of. by rewrite !fmap_app. Qed.

Lemma items_of_app m a b : items_of m (a ++ b) = items_of m a ++ items_of m b.
Proof. apply fmap_app. Qed.

Lemma abs_items_1 m p i :
  m !! p = Some i -> abs_items m [p] = [(m_opcode i, snd (abs_item m (m_opcode i, m_Arg i)))].
Proof.
  intros Hi. unfold abs_items, items_of. simpl. rewrite (item_of_lookup _ _ _ Hi).
  f_equal. rewrite <- (fst_abs_item m (m_opcode i, m_Arg i)) at 2. apply surjective_pairing.
Qed.

(** The state of the loop between [don] and [todo]. *)
Record patching (m0 : gmap Z ILInstr) (l don todo : list Z)
    (s : ILRewriter) (buf : list Z) (base : Z) (again : bool) : Prop := {
  pa_wid : widened m0 (m_mem s);
  pa_off p : off_of (m_mem s) p = off_of m0 p;
  pa_todo p : p ∈ todo -> m_mem s !! p = m0 !! p;
  pa_code : again = false -> m_mem s = m0 /\
    seg_at buf 0 (code_bytes 0 0 (abs_items m0 don)) /\
    fixed_at buf (code_size (items_of m0 don)) (items_of m0 todo) /\
    wrap 32 base = wrap 32 (last_base 0 0 (abs_items m0 don)) /\
    all_fit 0 (abs_items m0 don);
  pa_again : again = true ->
    ~ all_fit 0 (abs_items m0 l) /\
    exists p, p ∈ l /\ short_at m0 p = true /\ short_at (m_mem s) p = false
}.

Lemma code_size_take_le items k : code_size (take k items) <= code_size items.
Proof.
  rewrite <- (take_drop k items) at 2. rewrite code_size_app. pose proof (code_size_nonneg (drop k items)). lia.
Qed.

Lemma layout_bound m l p : layout m l -> p ∈ IL :: l -> 0 <= off_of m p <= code_size (items_of m l).
Proof.
  intros Hlo Hp. apply elem_of_cons in Hp as [->|Hp].
  - rewrite (lo_end _ _ Hlo). pose proof (code_size_nonneg (items_of m l)). lia.
  - apply list_elem_of_lookup_1 in Hp as [k Hk]. rewrite (lo_off _ _ Hlo _ _ Hk).
    pose proof (code_size_nonneg (take k (items_of m l))).
    pose proof (code_size_take_le (items_of m l) k). lia.
Qed.

(** The offset behind an instruction is that of the next one. *)
Lemma layout_next m don p todo q i :
  layout m (don ++ p :: todo) -> head (todo ++ [IL]) = Some q -> m !! p = Some i ->
  off_of m p = code_size (items_of m don) /\ off_of m q = off_of m p + isize (m_opcode i).
Proof.
  intros Hlo Hq Hi.
  assert (off_of m p = code_size (items_of m don)) as Hp.
  { rewrite (lo_off _ _ Hlo (length don) p).
    - rewrite items_of_app. rewrite take_app_length'; [done|]. by rewrite length_items_of.
    - by rewrite lookup_app_r, Nat.sub_diag by done. }
  split; [done|]. rewrite Hp. destruct todo as [|q' todo]; simpl in Hq; injection Hq as <-.
  - rewrite (lo_end _ _ Hlo), items_of_app, code_size_app. simpl. rewrite (item_of_lookup _ _ _ Hi). simpl. lia.
  - rewrite (lo_off _ _ Hlo (S (length don)) q').
    + replace (don ++ p :: q' :: todo) with ((don ++ [p]) ++ q' :: todo) by (by rewrite <- app_assoc).
      rewrite (items_of_app m (don ++ [p])), take_app_length'.
      * rewrite items_of_app, code_size_app. simpl. rewrite (item_of_lookup _ _ _ Hi). simpl. lia.
      * rewrite length_items_of, length_app. simpl. lia.
    + rewrite lookup_app_r by lia. by replace (S (length don) - length don)%nat with 1%nat by lia.
Qed.

Lemma off_of_lookup m p i : m !! p = Some i -> off_of m p = m_offset i.
Proof. intros H. unfold off_of. by rewrite H. Qed.

Section patch_loop.
Context (m0 : gmap Z ILInstr) (l : list Z) (len : nat).
Hypothesis Hlo : layout m0 l.
Hypothesis Hsize : code_size (items_of m0 l) <= Z.of_nat len.
Hypothesis Hlen : Z.of_nat len < 2 ^ 31.

(** A step that leaves the opcode alone extends the finished code. *)
Lemma patching_patched don p todo s buf base again i :
  l = don ++ p :: todo -> length buf = len ->
  patching m0 l don (p :: todo) s buf base again -> m0 !! p = Some i ->
  off_of m0 p = code_size (items_of m0 don) -> patched s p i buf base again ->
  exists buf' base', patch_instr p (buf, base, again) s = Ok ((buf', base', again), s) /\
    length buf' = len /\ patching m0 l (don ++ [p]) todo s buf' base' again.
Proof using All.
  intros Hl Hbl Hpa Hi Hoff (Hfit & buf' & base' & Hrun & Hl' & Hbase & Hseg & Hfr).
  exists buf', base'. split; [done|]. split; [congruence|].
  destruct Hpa as [Hw Ho Ht Hc Ha]. split; try done.
  - intros q Hq. apply Ht. by right.
  - intros ->. destruct (Hc eq_refl) as (Hm & Hs & Hfx & Hb & Haf). split; [done|].
    rewrite Hm in *. rewrite !abs_items_app, !items_of_app, (abs_items_1 _ _ _ Hi).
    rewrite (off_of_lookup _ _ _ Hi) in Hoff.
    set (v := snd (abs_item m0 (m_opcode i, m_Arg i))) in *.
    simpl in Hfx. rewrite (item_of_lookup _ _ _ Hi) in Hfx. destruct Hfx as [Hfx1 Hfx2].
    rewrite code_size_app. simpl. rewrite (item_of_lookup _ _ _ Hi). cbn [fst].
    rewrite last_base_app, code_bytes_app, code_size_abs. simpl. rewrite app_nil_r, <- !Hoff, Z.add_0_r in *.
    assert (wrap 32 base' = wrap 32 (next_base (m_opcode i) v (m_offset i) (last_base 0 0 (abs_items m0 don)))) as Hb'.
    { rewrite Hbase. unfold next_base. by case_match. }
    split_and!; try done.
    + apply seg_at_prefix.
      * unfold seg_at in *. rewrite Hfr; [done|]. left.
        rewrite length_code_bytes, code_size_abs. lia.
      * rewrite length_code_bytes, code_size_abs, <- Hoff. specialize (Hseg Hfx1).
        unfold instr_bytes in *. rewrite (operand_bytes_congr _ v v _ _ base'); [done| |done].
        unfold same_operand. by case_match.
    + clear -Hfr Hfx2. revert Hfx2 Hfr. generalize (m_offset i + isize (m_opcode i)). intros e.
      assert (forall items e', e <= e' -> fixed_at buf e' items ->
        (forall j n, j + Z.of_nat n <= m_offset i \/ e <= j -> read_at buf' j n = read_at buf j n) ->
        fixed_at buf' e' items) as H; [|intros ? ?; by apply (H _ e)].
      induction items as [|[op w] items IH]; [done|]. intros e' He' [H1 H2] Hr. split.
      * unfold seg_at. rewrite Hr by lia. done.
      * apply IH; [|done|done]. pose proof (isize_nonneg op). lia.
    + apply all_fit_app. split; [done|]. rewrite code_size_abs, <- Hoff. done.
Qed.

(** A step that makes a branch long. *)
Lemma patching_widen don p todo s buf base again i :
  l = don ++ p :: todo -> patching m0 l don (p :: todo) s buf base again -> m0 !! p = Some i ->
  flags_of (m_opcode i) = 0x11 -> off_of m0 p = code_size (items_of m0 don) ->
  ~ fits (m_opcode i) (off_of (m_mem s) (m_Arg i)) (m_offset i + isize (m_opcode i)) ->
  patching m0 l (don ++ [p]) todo
    (with_mem (<[p := set_opcode (widen (m_opcode i)) i]> (m_mem s)) s) buf base true.
Proof using All.
  intros Hl Hpa Hi Hf Hoff Hnf. pose proof (widen_spec _ Hf) as (Hv & Hfw & Hlt & _).
  pose proof (pa_todo _ _ _ _ _ _ _ _ Hpa p ltac:(left)) as Hip. rewrite Hi in Hip.
  assert (p ∉ todo) as Hnp.
  { destruct (ex_list _ _ (lo_ex _ _ Hlo)) as [_ Hnd]. rewrite Hl in Hnd.
    apply NoDup_cons in Hnd as [_ Hnd]. apply NoDup_app in Hnd as (_ & _ & Hnd).
    by apply NoDup_cons in Hnd as [? _]. }
  assert (m_opcode (set_opcode (widen (m_opcode i)) i) = widen (m_opcode i)) as Hop.
  { simpl. apply wrap_small. unfold is_uint, valid_opcode, CEE_SWITCH_ARG in *. lia. }
  destruct Hpa as [Hw Ho Ht Hc Ha]. split; simpl; try done.
  - intros q. destruct (decide (p = q)) as [<-|Hne].
    + rewrite Hi, lookup_insert_eq. constructor. split_and!; try done. right. done.
    + rewrite lookup_insert_ne by done. apply Hw.
  - intros q. rewrite <- Ho. unfold off_of. destruct (decide (p = q)) as [<-|Hne].
    + by rewrite lookup_insert_eq, Hip.
    + by rewrite lookup_insert_ne.
  - intros q Hq. rewrite lookup_insert_ne by (intros ->; done). apply Ht. by right.
  - intros _. split.
    { intros Hall. apply Hnf. rewrite Hl in Hall.
      change (don ++ p :: todo) with (don ++ [p] ++ todo) in Hall.
      rewrite !abs_items_app, (abs_items_1 _ _ _ Hi) in Hall.
      apply all_fit_app in Hall as [_ [Hall _]]. rewrite code_size_abs, <- Hoff in Hall.
      unfold abs_item, is_branch_op in Hall. cbn [fst snd] in Hall. rewrite Hf in Hall.
      cbn [snd] in Hall. rewrite (off_of_lookup _ _ _ Hi) in Hall. rewrite Ho. exact Hall. }
    exists p. split_and!.
    + rewrite Hl. apply elem_of_app. right. left.
    + unfold short_at. rewrite (item_of_lookup _ _ _ Hi). cbn [fst]. by rewrite Hf.
    + unfold short_at, item_of. rewrite lookup_insert_eq. cbn [fst]. rewrite Hop. by rewrite Hfw.
Qed.

Lemma patching_step don p todo s buf base again :
  l = don ++ p :: todo -> length buf = len ->
  patching m0 l don (p :: todo) s buf base again ->
  exists buf' base' again' s', patch_instr p (buf, base, again) s = Ok ((buf', base', again'), s') /\
    s' = with_mem (m_mem s') s /\ length buf' = len /\
    patching m0 l (don ++ [p]) todo s' buf' base' again'.
Proof using All.
  intros Hl Hbl Hpa. pose proof Hlo as Hlo'. rewrite Hl in Hlo'.
  assert (p ∈ l) as Hpl by (rewrite Hl; apply elem_of_app; right; left).
  destruct (il_list_alloc _ _ p (ex_list _ _ (lo_ex _ _ Hlo))) as [i Hi]; [by right|].
  destruct (head (todo ++ [IL])) as [q|] eqn:Hq; [|by destruct todo].
  destruct (layout_next m0 don p todo q i Hlo' Hq Hi) as [Hop Hoq].
  assert (nxt m0 p = Some q) as Hnx.
  { apply (il_list_last m0 (don ++ [p]) todo); [|by rewrite app_comm_cons, last_snoc|done].
    rewrite <- app_assoc. apply (ex_list _ _ (lo_ex _ _ Hlo')). }
  assert (q ∈ IL :: l) as Hql.
  { rewrite Hl. destruct todo as [|q' todo']; simpl in Hq; injection Hq as <-; [left|].
    right. apply elem_of_app. right. right. left. }
  assert (m_pNext i = q) as Hnq by (unfold nxt in Hnx; rewrite Hi in Hnx; simpl in Hnx; congruence).
  destruct (ex_ok _ _ (lo_ex _ _ Hlo) p i Hpl Hi) as [Hv Htg].
  pose proof (layout_bound _ _ p Hlo ltac:(by right)) as Hbp.
  pose proof (layout_bound _ _ q Hlo Hql) as Hbq.
  assert (forall r, r ∈ IL :: l -> exists j, m_mem s !! r = Some j /\ m_offset j = off_of m0 r) as Hld.
  { intros r Hr. pose proof (widened_list _ _ _ (pa_wid _ _ _ _ _ _ _ _ Hpa) (ex_list _ _ (lo_ex _ _ Hlo))) as Hls.
    destruct (il_list_alloc _ _ r Hls Hr) as [j Hj]. exists j. split; [done|].
    rewrite <- (pa_off _ _ _ _ _ _ _ _ Hpa). unfold off_of. by rewrite Hj. }
  destruct (Hld q Hql) as (n & Hn & Hno).
  pose proof (pa_todo _ _ _ _ _ _ _ _ Hpa p ltac:(left)) as Hip. rewrite Hi in Hip.
  rewrite (off_of_lookup _ _ _ Hi) in Hoq, Hbp.
  destruct (patch_step s p i n buf base again) as [Hp|(Hf & Hnf & Hrun)]; try done.
  - by rewrite Hnq.
  - by rewrite Hno.
  - lia.
  - rewrite Hno. lia.
  - lia.
  - intros Hb. destruct (Hld (m_Arg i) (Htg Hb)) as (t & Ht & Hto). exists t. split; [done|].
    pose proof (layout_bound _ _ _ Hlo (Htg Hb)). lia.
  - destruct (patching_patched don p todo s buf base again i) as (buf' & base' & Hrun & Hl' & Hpa'); try done.
    exists buf', base', again, s. split_and!; try done. by destruct s.
  - exists buf, base, true. eexists. split_and!; [exact Hrun|done|done|].
    by apply (patching_widen don p todo s buf base again i).
Qed.

Lemma patch_fold todo : forall don s buf base again,
  l = don ++ todo -> length buf = len -> patching m0 l don todo s buf base again ->
  exists buf' base' again' m', st_fold patch_instr todo (buf, base, again) s =
      Ok ((buf', base', again'), with_mem m' s) /\
    length buf' = len /\ patching m0 l l [] (with_mem m' s) buf' base' again'.
Proof using All.
  induction todo as [|p todo IH]; intros don s buf base again Hl Hbl Hpa.
  - rewrite app_nil_r in Hl. subst don. exists buf, base, again, (m_mem s).
    assert (with_mem (m_mem s) s = s) as -> by (by destruct s). done.
  - destruct (patching_step don p todo s buf base again Hl Hbl Hpa)
      as (b1 & base1 & ag1 & s1 & Hr & Hs1 & Hl1 & Hpa1).
    destruct (IH (don ++ [p]) s1 b1 base1 ag1) as (b2 & base2 & ag2 & m2 & Hr2 & Hl2 & Hpa2);
      [by rewrite <- app_assoc|done|done|].
    exists b2, base2, ag2, m2. cbn [st_fold]. run_step Hr. rewrite Hs1 in Hr2, Hpa2. rewrite Hs1. done.
Qed.
End patch_loop.

(** ** The rounds *)

Definition op_arg (m : gmap Z ILInstr) (p : Z) : option (Z * Z) :=
  (fun i => (m_opcode i, m_Arg i)) <$> m !! p.

Lemma op_arg_payload m m' p off :
  payload m' p = (fun '(op, _, v) => (op, off, v)) <$> payload m p -> op_arg m' p = op_arg m p.
Proof. unfold payload, op_arg. destruct (m !! p), (m' !! p); simpl; intros; congruence. Qed.

(** Instructions with the same links, opcode and operand. *)
Lemma same_widened m m' :
  (forall p, nxt m' p = nxt m p) -> (forall p, prv m' p = prv m p) ->
  (forall p, op_arg m' p = op_arg m p) -> widened m m'.
Proof.
  intros Hn Hp Hpay q. specialize (Hn q). specialize (Hp q). specialize (Hpay q).
  unfold nxt, prv, op_arg in *. destruct (m !! q) as [i|], (m' !! q) as [i'|]; simpl in *; try done; constructor.
  split_and!; [congruence..|]. left. congruence.
Qed.

Lemma item_of_same m m' p : op_arg m' p = op_arg m p -> item_of m' p = item_of m p.
Proof. unfold op_arg, item_of. destruct (m !! p), (m' !! p); simpl; congruence. Qed.

(** Code without branches is complete after the first loop. *)
Lemma fixed_at_code buf items : forall off base,
  has_branch items = false -> 0 <= off -> off + code_size items <= Z.of_nat (length buf) ->
  fixed_at buf off items -> seg_at buf off (code_bytes off base items).
Proof.
  induction items as [|[op v] items IH]; intros off base Hb H0 Hle Hf; simpl in *.
  - apply seg_at_nil. lia.
  - apply orb_false_iff in Hb as [Hb1 Hb2]. destruct Hf as [Hf1 Hf2].
    pose proof (isize_nonneg op). apply seg_at_app. split.
    + unfold fixed_bytes in Hf1. rewrite Hb1 in Hf1. unfold instr_bytes.
      by rewrite (operand_bytes_base _ v _ _ 0 0).
    + rewrite length_instr_bytes. apply IH; [done|lia|lia|done].
Qed.

Lemma no_branch_abs m items :
  has_branch items = false -> abs_item m <$> items = items.
Proof.
  intros H. rewrite <- (list_fmap_id items) at 2. apply list_fmap_ext. intros k it Hk.
  unfold abs_item, id. destruct (is_branch_op (fst it)) eqn:E; [|done]. exfalso.
  unfold has_branch in H. apply not_true_iff_false in H. apply H, existsb_exists.
  exists it. split; [|done]. apply list_elem_of_In. by eapply list_elem_of_lookup_2.
Qed.

Lemma no_branch_fit items : forall off, has_branch items = false -> all_fit off items.
Proof.
  induction items as [|[op v] items IH]; intros off; simpl; [done|]. intros [H1 H2]%orb_false_iff.
  split; [|by apply IH]. intros Hf. unfold is_branch_op in H1. by rewrite Hf in H1.
Qed.

(** The first loop and the assignment to the sentinel's offset. *)
Lemma emit_round s l buf :
  exportable (m_mem s) l -> 10 * Z.of_nat (length l) <= Z.of_nat (length buf) ->
  Z.of_nat (length buf) < 2 ^ 31 ->
  exists buf' m', (r ← for_all_instrs (at_cursor emit_instr) (buf, false, 0);
      store IL (set_offset (snd r));; mret r) s =
      Ok ((buf', has_branch (items_of (m_mem s) l), code_size (items_of (m_mem s) l)), with_mem m' s) /\
    length buf' = length buf /\ fixed_at buf' 0 (items_of (m_mem s) l) /\
    widened (m_mem s) m' /\ layout m' l /\ items_of m' l = items_of (m_mem s) l.
Proof.
  intros [Hl Hok] Hle Hlen. pose proof Hl as [_ Hnd]. apply NoDup_cons in Hnd as [HIL Hnd].
  destruct (emit_fold l s buf false 0 Hnd) as (b1 & m1 & Hr & Hl1 & _ & Hfix & Hn1 & Hp1 & [Hout Hin]);
    [|lia..|].
  { intros p Hp. destruct (il_list_alloc _ _ p Hl) as [i Hi]; [by right|]. exists i. split; [done|].
    by apply (Hok p). }
  assert (is_Some (m1 !! IL)) as [j Hj].
  { apply payload_is_Some. rewrite Hout by done. apply payload_is_Some. apply (il_list_alloc _ l); [done|left]. }
  pose proof (code_size_nonneg (items_of (m_mem s) l)). pose proof (code_size_bound (items_of (m_mem s) l)) as Hcb.
  rewrite length_items_of in Hcb. set (size := code_size (items_of (m_mem s) l)) in *.
  set (m2 := <[IL := set_offset size j]> m1). exists b1, m2.
  assert (forall p, nxt m2 p = nxt (m_mem s) p) as Hn2.
  { intros p. rewrite <- Hn1. unfold m2. rewrite nxt_insert. case_decide; [|done]. subst. unfold nxt. by rewrite Hj. }
  assert (forall p, prv m2 p = prv (m_mem s) p) as Hp2.
  { intros p. rewrite <- Hp1. unfold m2. rewrite prv_insert. case_decide; [|done]. subst. unfold prv. by rewrite Hj. }
  assert (forall p, p <> IL -> payload m2 p = payload m1 p) as Hpay2.
  { intros p Hp. unfold m2. rewrite payload_insert. by rewrite decide_False by congruence. }
  assert (forall p, op_arg m2 p = op_arg (m_mem s) p) as Hpay.
  { intros p. transitivity (op_arg m1 p).
    - unfold m2, op_arg. destruct (decide (p = IL)) as [->|Hne].
      + by rewrite lookup_insert_eq, Hj.
      + by rewrite lookup_insert_ne.
    - destruct (decide (p ∈ l)) as [Hp|Hp].
      + apply list_elem_of_lookup_1 in Hp as [k Hk]. eapply op_arg_payload, (Hin _ _ Hk).
      + pose proof (Hout p Hp) as E. unfold payload, op_arg in *.
        destruct (m1 !! p), (m_mem s !! p); simpl in *; congruence. }
  assert (widened (m_mem s) m2) as Hw by (by apply same_widened).
  assert (items_of m2 l = items_of (m_mem s) l) as Hit.
  { apply list_fmap_ext. intros k p _. by apply item_of_same. }
  split_and!; try done.
  - rewrite <- (for_all_instrs_fold _ l) in Hr; [|intros; apply keeps_links_emit_instr|done].
    run_step Hr. cbn [snd]. rewrite Z.add_0_l. fold size. by run_step (store_run (with_mem m1 s) IL (set_offset size) j Hj).
  - split.
    + by apply (widened_exportable (m_mem s)).
    + intros k p Hk. rewrite Hit. pose proof (Hin _ _ Hk) as Hpk.
      assert (p <> IL) as Hne by (intros ->; apply HIL; by eapply list_elem_of_lookup_2).
      rewrite <- (Hpay2 _ Hne) in Hpk. unfold off_of. unfold payload in Hpk.
      destruct (il_list_alloc _ _ p Hl) as [i Hi]; [right; by eapply list_elem_of_lookup_2|]. rewrite Hi in Hpk.
      destruct (m2 !! p) as [i2|]; simpl in *; [|done]. injection Hpk as _ Hpk _. exact Hpk.
    + rewrite Hit. unfold off_of, m2. rewrite lookup_insert_eq. simpl. apply wrap_small. unfold is_uint. lia.
Qed.

Lemma keeps_links_patch_instr p acc : keeps_links (patch_instr p acc).
Proof.
  destruct acc as [[buf base] again]. unfold patch_instr, emit, load.
  apply keeps_links_bind; [auto with links|]. intros i.
  case_match; [auto with links|]. case_match; [auto 10 with links|].
  apply keeps_links_bind; [auto with links|]. intros f. case_match; [auto with links|].
  apply keeps_links_bind; [auto with links|]. intros t.
  apply keeps_links_bind; [auto with links|]. intros n.
  repeat case_match; auto 10 with links.
  all: apply keeps_links_bind; [by apply keeps_links_store|auto with links].
Qed.

(** What the last round leaves: the laid-out list and its code. *)
Record finished (m : gmap Z ILInstr) (l : list Z) (buf : list Z) : Prop := {
  fi_layout : layout m l;
  fi_code : seg_at buf 0 (code_bytes 0 0 (abs_items m l));
  fi_fit : all_fit 0 (abs_items m l)
}.

Lemma export_round_run s l buf :
  exportable (m_mem s) l -> 10 * Z.of_nat (length l) <= Z.of_nat (length buf) ->
  Z.of_nat (length buf) < 2 ^ 31 ->
  exists buf' m' again,
    export_round buf s = Ok ((buf', code_size (items_of (m_mem s) l), again), with_mem m' s) /\
    length buf' = length buf /\ widened (m_mem s) m' /\
    (again = false -> finished m' l buf' /\ items_of m' l = items_of (m_mem s) l) /\
    (again = true -> (shorts m' l < shorts (m_mem s) l)%nat /\
       exists m1, layout m1 l /\ items_of m1 l = items_of (m_mem s) l /\ ~ all_fit 0 (abs_items m1 l)).
Proof.
  intros Hex Hle Hlen.
  destruct (emit_round s l buf Hex Hle Hlen) as (b1 & m1 & Hr & Hl1 & Hfix & Hw1 & Hlo1 & Hit1).
  apply st_bind_ok in Hr as (r & s1 & Hr1 & Hr2).
  apply st_bind_ok in Hr2 as ([] & s2 & Hr2 & Hr3). unfold mret, st_ret in Hr3. simplify_eq. cbn [snd] in Hr2.
  unfold export_round. run_step Hr1. run_step Hr2.
  pose proof (code_size_bound (items_of (m_mem s) l)) as Hcb. rewrite length_items_of in Hcb.
  destruct (has_branch (items_of (m_mem s) l)) eqn:Hb.
  - destruct (patch_fold m1 l (length b1) Hlo1 ltac:(rewrite Hit1; lia) ltac:(lia) l [] (with_mem m1 s) b1 0 false)
      as (b2 & base2 & ag & m2 & Hrun & Hl2 & [Hw2 Ho2 _ Hc2 Ha2]); [done|done|..].
    { split; simpl; try done; [apply widened_refl|]. intros _. split_and!; try done.
      - apply seg_at_nil. lia.
      - by rewrite Hit1. }
    simpl in Hw2, Ho2, Hc2, Ha2. exists b2, m2, ag.
    rewrite <- (for_all_instrs_fold _ l) in Hrun; [|intros; apply keeps_links_patch_instr|apply Hlo1].
    run_step Hrun. split_and!; [done|congruence|by eapply widened_trans|..].
    + intros ->. destruct (Hc2 eq_refl) as (-> & Hs & _ & _ & Hf). done.
    + intros ->. destruct (Ha2 eq_refl) as (Hnf & Hsh). split; [|by exists m1].
      pose proof (shorts_widened _ _ l Hw1) as [? _]. pose proof (shorts_widened _ _ l Hw2) as [_ Hlt].
      specialize (Hlt Hsh). lia.
  - exists b1, m1, false. split_and!; try done. intros _. split; [|done]. split; [done|..].
    + unfold abs_items. rewrite Hit1, no_branch_abs by done. apply fixed_at_code; [done|lia|lia|done].
    + unfold abs_items. rewrite Hit1, no_branch_abs by done. by apply no_branch_fit.
Qed.

(** The repetition ends: every further round has fewer short branches. *)
Lemma export_again_run l : forall fuel s buf,
  exportable (m_mem s) l -> 10 * Z.of_nat (length l) <= Z.of_nat (length buf) ->
  Z.of_nat (length buf) < 2 ^ 31 -> (shorts (m_mem s) l <= fuel)%nat ->
  exists buf' m', export_again fuel buf s = Ok ((buf', code_size (items_of m' l)), with_mem m' s) /\
    length buf' = length buf /\ widened (m_mem s) m' /\ finished m' l buf'.
Proof.
  induction fuel as [|fuel IH]; intros s buf Hex Hle Hlen Hfuel;
    destruct (export_round_run s l buf Hex Hle Hlen) as (b1 & m1 & ag & Hr & Hl1 & Hw1 & Hf & Ht);
    cbn [export_again]; run_step Hr; (destruct ag;
      [destruct (Ht eq_refl) as [Hlt _]|
       destruct (Hf eq_refl) as [Hfin Hit]; exists b1, m1; rewrite Hit; done]).
  - lia.
  - destruct (IH (with_mem m1 s) b1) as (b2 & m2 & Hr2 & Hl2 & Hw2 & Hf2);
      [by apply (widened_exportable (m_mem s))|lia|lia|simpl; lia|].
    exists b2, m2. split_and!; [exact Hr2|congruence|by eapply widened_trans|done].
Qed.

Lemma shorts_le m l : (shorts m l <= length l)%nat.
Proof. unfold shorts. induction l; simpl; [done|]. case_match; lia. Qed.

Lemma export_code_run junk s l :
  exportable (m_mem s) l -> Z.of_nat (length l) <= m_nInstrs s -> m_nInstrs s * 10 < 2 ^ 31 ->
  exists buf m', export_code junk s = Ok ((buf, code_size (items_of m' l)), with_mem m' s) /\
    widened (m_mem s) m' /\ finished m' l buf.
Proof.
  intros Hex Hn Hlen. unfold export_code. run_step (eq_refl : st_get s = Ok (s, s)). cbv zeta.
  rewrite (wrap_small 32) by (unfold is_uint; lia).
  destruct (export_again_run l (size (m_mem s)) s (replicate (Z.to_nat (m_nInstrs s * 10)) junk))
    as (buf & m' & Hr & _ & Hw & Hf); rewrite ?length_replicate; try done; [lia|lia| |by exists buf, m'].
  pose proof (shorts_le (m_mem s) l). pose proof (il_list_size _ _ (ex_list _ _ Hex)). lia.
Qed.

(** C6: [Export]'s two loops end and never overrun the buffer of ten bytes per
    instruction.  The code they leave is the encoding of the list, whose only
    change is that some short branches became long ones; every branch operand
    is the distance to the place of its target, and every branch that stayed
    short reaches its target in eight bits. *)
Theorem export_code_correct junk s l :
  exportable (m_mem s) l -> Z.of_nat (length l) <= m_nInstrs s -> m_nInstrs s * 10 < 2 ^ 31 ->
  exists buf codeSize m', export_code junk s = Ok ((buf, codeSize), with_mem m' s) /\
    read_at buf 0 (Z.to_nat codeSize) = Some (code_bytes 0 0 (abs_items m' l)) /\
    all_fit 0 (abs_items m' l) /\ layout m' l /\ widened (m_mem s) m'.
Proof.
  intros Hex Hn Hlen. destruct (export_code_run junk s l Hex Hn Hlen) as (buf & m' & Hr & Hw & [Hlo Hc Hf]).
  exists buf, (code_size (items_of m' l)), m'. split_and!; try done.
  pose proof (length_code_bytes 0 0 (abs_items m' l)) as Hl. rewrite code_size_abs in Hl.
  rewrite <- Hl, Nat2Z.id. exact Hc.
Qed.
