(* ===== verification/Com.v ===== *)
(** * Class factories, reference counts and the references to the runtime

    [dllmain.cpp], [classFactory.cpp], [cComPtr.h] and the [IUnknown] methods of
    [CorProfiler] ([corProfiler.h]) of [VSharp.ClrInteraction]; the files of
    [VSharp.CoverageInstrumenter/profiler] differ from them in two null tests
    after [new], which never are true.

    The objects of the library are a store from addresses to objects; an object
    that was deleted is not in it, and a call on it is undefined behaviour.
    Addresses are not used twice.  The one object of the runtime whose references
    matter is [ICorProfilerInfo8]: [infoRefs] counts the references the library
    holds. *)

From S2P Require Import Prelude Runtime ILExport.
Local Open Scope Z_scope.

(** ** Identifiers *)

Record GUID := mkGUID { Data1 : Z; Data2 : Z; Data3 : Z; Data4 : list Z }.
#[export] Instance GUID_eq_dec : EqDecision GUID.
Proof. solve_decision. Defined.

Definition IID_IUnknown : GUID := mkGUID 0x00000000 0x0000 0x0000 [0xC0; 0x00; 0x00; 0x00; 0x00; 0x00; 0x00; 0x46].
Definition IID_IClassFactory : GUID := mkGUID 0x00000001 0x0000 0x0000 [0xC0; 0x00; 0x00; 0x00; 0x00; 0x00; 0x00; 0x46].
Definition CLSID_CorProfiler : GUID := mkGUID 0x2800fea6 0x9667 0x4b42 [0xa2; 0xb6; 0x45; 0xdc; 0x98; 0xe7; 0x7e; 0x9e].

Definition IID_ICorProfilerCallback : GUID := mkGUID 0x176FBED1 0xA55C 0x4796 [0x98; 0xCA; 0xA9; 0xDA; 0x0E; 0xF8; 0x83; 0xE7].
Definition IID_ICorProfilerCallback2 : GUID := mkGUID 0x8A8CC829 0xCCF2 0x49fe [0xBB; 0xAE; 0x0F; 0x02; 0x22; 0x28; 0x07; 0x1A].
Definition IID_ICorProfilerCallback3 : GUID := mkGUID 0x4FD2ED52 0x7731 0x4b8d [0x94; 0x69; 0x03; 0xD2; 0xCC; 0x30; 0x86; 0xC5].
Definition IID_ICorProfilerCallback4 : GUID := mkGUID 0x7B63B2E3 0x107D 0x4d48 [0xB2; 0xF6; 0xF6; 0x1E; 0x22; 0x94; 0x70; 0xD2].
Definition IID_ICorProfilerCallback5 : GUID := mkGUID 0x8DFBA405 0x8C9F 0x45F8 [0xBF; 0xFA; 0x83; 0xB1; 0x4C; 0xEF; 0x78; 0xB5].
Definition IID_ICorProfilerCallback6 : GUID := mkGUID 0xFC13DF4B 0x4448 0x4F4F [0x95; 0x0C; 0xBA; 0x8D; 0x19; 0xD0; 0x0C; 0x36].
Definition IID_ICorProfilerCallback7 : GUID := mkGUID 0xF76A2DBA 0x1D52 0x4539 [0x86; 0x6C; 0x2A; 0xA5; 0x18; 0xF9; 0xEF; 0xC3].
Definition IID_ICorProfilerCallback8 : GUID := mkGUID 0x5BED9B15 0xC079 0x4D47 [0xBF; 0xE2; 0x21; 0x5A; 0x14; 0x0C; 0x07; 0xE0].

Definition E_NOINTERFACE : Z := 0x80004002.
Definition CLASS_E_NOAGGREGATION : Z := 0x80040110.

(** Bits of the event mask. *)
Definition COR_PRF_MONITOR_JIT_COMPILATION : Z := 0x20.
Definition COR_PRF_MONITOR_EXCEPTIONS : Z := 0x40.
Definition COR_PRF_MONITOR_GC : Z := 0x80.
Definition COR_PRF_MONITOR_OBJECT_ALLOCATED : Z := 0x100.
Definition COR_PRF_ENABLE_REJIT : Z := 0x40000.
Definition COR_PRF_DISABLE_INLINING : Z := 0x200000.
Definition COR_PRF_DISABLE_OPTIMIZATIONS : Z := 0x400000.
Definition COR_PRF_ENABLE_OBJECT_ALLOCATED : Z := 0x800000.
Definition COR_PRF_MONITOR_CLR_EXCEPTIONS : Z := 0x1000000.
Definition COR_PRF_DISABLE_TRANSPARENCY_CHECKS_UNDER_FULL_TRUST : Z := 0x40000000.
Definition COR_PRF_DISABLE_ALL_NGEN_IMAGES : Z := 0x80000000.

(** ** Objects *)

(** A profiler by whether its [corProfilerInfo] is not null. *)
Inductive class := Factory | Profiler (corProfilerInfo : bool).
#[export] Instance class_eq_dec : EqDecision class.
Proof. solve_decision. Defined.

Record object := mkObject { refCount : Z; fields : class }.

Record com := mkCom { objects : gmap Z object; next_address : Z; infoRefs : Z }.

Definition with_objects (m : gmap Z object) (c : com) : com := mkCom m (next_address c) (infoRefs c).

(** The object behind a pointer. *)
Definition at_address (this : Z) : st com object := st_read (fun c => objects c !! this).
Definition set_object (this : Z) (o : object) : st com unit := st_modify (fun c => with_objects (<[this := o]> (objects c)) c).

(** [new ClassFactory], [new CorProfiler()]: the constructors. *)
Definition new_object (fields : class) : st com Z := fun c =>
  Ok (next_address c, mkCom (<[next_address c := mkObject 0 fields]> (objects c)) (next_address c + 1) (infoRefs c)).

(** [corProfilerInfo->Release()]. *)
Definition info_Release : st com unit :=
  c ← st_get;
  if infoRefs c <=? 0 then st_fail Undefined else st_modify (fun c => mkCom (objects c) (next_address c) (infoRefs c - 1)).

(** [delete this] with the destructors. *)
Definition delete_object (this : Z) : st com unit :=
  o ← at_address this;
  (match fields o with
   | Factory => mret tt
   | Profiler corProfilerInfo => if corProfilerInfo then info_Release else mret tt
   end);;
  st_modify (fun c => with_objects (delete this (objects c)) c).

(** ** IUnknown *)

(** [fetch_add] wraps; the addition to what it returns must not overflow. *)
Definition AddRef (this : Z) : st com Z :=
  o ← at_address this;
  set_object this (mkObject (sint 32 (refCount o + 1)) (fields o));;
  if refCount o =? 2 ^ 31 - 1 then st_fail Undefined else mret (wrap 32 (refCount o + 1)).

Definition Release (this : Z) : st com Z :=
  o ← at_address this;
  set_object this (mkObject (sint 32 (refCount o - 1)) (fields o));;
  if refCount o =? - 2 ^ 31 then st_fail Undefined else
  let count := refCount o - 1 in
  (if count <=? 0 then delete_object this else mret tt);;
  mret (wrap 32 count).

(** The interfaces of each class. *)
Definition implements (fields : class) (riid : GUID) : bool :=
  match fields with
  | Factory => bool_decide (riid = IID_IUnknown) || bool_decide (riid = IID_IClassFactory)
  | Profiler _ =>
      bool_decide (riid = IID_ICorProfilerCallback8) || bool_decide (riid = IID_ICorProfilerCallback7) ||
      bool_decide (riid = IID_ICorProfilerCallback6) || bool_decide (riid = IID_ICorProfilerCallback5) ||
      bool_decide (riid = IID_ICorProfilerCallback4) || bool_decide (riid = IID_ICorProfilerCallback3) ||
      bool_decide (riid = IID_ICorProfilerCallback2) || bool_decide (riid = IID_ICorProfilerCallback) ||
      bool_decide (riid = IID_IUnknown)
  end.

(** The [HRESULT] and the pointer stored through [ppvObject]; zero is null. *)
Definition QueryInterface (this : Z) (riid : GUID) : st com (Z * Z) :=
  o ← at_address this;
  if implements (fields o) riid then AddRef this;; mret (S_OK, this) else mret (E_NOINTERFACE, 0).

(** ** The factory and the entry point of the library *)

Definition CreateInstance (this pUnkOuter : Z) (riid : GUID) : st com (Z * Z) :=
  at_address this;;
  if negb (pUnkOuter =? 0) then mret (CLASS_E_NOAGGREGATION, 0) else
  profiler ← new_object (Profiler false);
  QueryInterface profiler riid.

(** [ppv]: [None] is a null pointer, [Some] the variable it points to. *)
Definition DllGetClassObject (rclsid riid : GUID) (ppv : option Z) : st com (Z * option Z) :=
  match ppv with
  | None => mret (E_FAIL, None)
  | Some old =>
      if negb (bool_decide (rclsid = CLSID_CorProfiler)) then mret (E_FAIL, Some old) else
      factory ← new_object Factory;
      r ← QueryInterface factory riid;
      mret (fst r, Some (snd r))
  end.

(** ** The profiler's reference to the runtime *)

(** The first statement of [CorProfiler::Initialize]: the runtime's
    [QueryInterface] writes the field and counts a reference, or fails with a
    null pointer. *)
Definition acquire_info (this : Z) (succeeds : bool) : st com bool :=
  o ← at_address this;
  set_object this (mkObject (refCount o) (match fields o with Profiler _ => Profiler succeeds | Factory => Factory end));;
  (if succeeds then st_modify (fun c => mkCom (objects c) (next_address c) (infoRefs c + 1)) else mret tt);;
  mret succeeds.

(** The test and release in [CorProfiler::Shutdown]. *)
Definition release_info (this : Z) : st com bool :=
  o ← at_address this;
  match fields o with
  | Profiler true => info_Release;; set_object this (mkObject (refCount o) (Profiler false));; mret true
  | _ => mret false
  end.

(** ** [CComPtr]: an owning pointer; zero is null *)

Section CComPtr.
(** [Release] of what is pointed to. *)
Context {S : Type} (release : Z -> st S unit).

(** The destructor returns the pointer it leaves. *)
Definition CComPtr_destroy (pointer : Z) : st S Z :=
  if negb (pointer =? 0) then release pointer;; mret 0 else mret pointer.

(** [CComPtr::Release] is a call of the destructor. *)
Definition CComPtr_Release (pointer : Z) : st S Z := CComPtr_destroy pointer.

(** A scope with an owning pointer: explicit releases, then the destructor. *)
Definition CComPtr_scope (releases : nat) (pointer : Z) : st S Z :=
  pointer ← Nat.iter releases (fun m => pointer ← m; CComPtr_Release pointer) (mret pointer);
  CComPtr_destroy pointer.

(** However often it is released by hand, a pointer that is not null is
    released once. *)
Lemma CComPtr_releases_once releases pointer s :
  pointer <> 0 -> CComPtr_scope releases pointer s = (release pointer;; mret 0) s.
Proof.
  intros Hp. unfold CComPtr_scope.
  assert (forall n s, Nat.iter n (fun m => pointer ← m; CComPtr_Release pointer) (mret pointer : st S Z) s =
    match n with O => Ok (pointer, s) | _ => (release pointer;; mret 0) s end) as Hn.
  { clear s. intros n s. revert n. induction n as [|n IH]; [done|].
    set (f := fun m : st S Z => pointer ← m; CComPtr_Release pointer) in *.
    change (Nat.iter (Datatypes.S n) f (mret pointer) s) with ((Nat.iter n f (mret pointer) ≫= CComPtr_Release) s).
    destruct n as [|n].
    { change (CComPtr_Release pointer s = (release pointer;; mret 0) s). unfold CComPtr_Release, CComPtr_destroy.
      by destruct (Z.eqb_spec pointer 0). }
    destruct (release pointer s) as [[u s']|e] eqn:E.
    - assert ((release pointer;; mret 0) s = Ok (0, s')) as R by by run_step E.
      rewrite R in IH |- *. by run_step IH.
    - assert ((release pointer;; mret 0) s = Err e) as R by by apply st_bind_err.
      rewrite R in IH |- *. by apply st_bind_err. }
  destruct releases as [|n].
  - rewrite (st_bind_run _ _ _ _ _ (Hn O s)). unfold CComPtr_destroy. by destruct (Z.eqb_spec pointer 0).
  - destruct (release pointer s) as [[u s']|e] eqn:E.
    + assert ((release pointer;; mret 0) s = Ok (0, s')) as R by by run_step E.
      pose proof (Hn (Datatypes.S n) s) as Hs. cbn beta iota in Hs. rewrite R in Hs |- *. by run_step Hs.
    + assert ((release pointer;; mret 0) s = Err e) as R by by apply st_bind_err.
      pose proof (Hn (Datatypes.S n) s) as Hs. cbn beta iota in Hs. rewrite R in Hs |- *. by apply st_bind_err.
Qed.
End CComPtr.

(** ** A client that follows the rules of COM *)

(** Calls from outside; the pointer to store a result through is not null. *)
Inductive call :=
  | GetClassObject (rclsid riid : GUID)
  | Query (this : Z) (riid : GUID)
  | Add (this : Z)
  | Drop (this : Z)
  | Create (this pUnkOuter : Z) (riid : GUID)
  | Acquire (this : Z) (succeeds : bool)
  | Give_back (this : Z).

(** What is returned, and the pointer that is stored. *)
Definition call_run (k : call) : st com (Z * Z) :=
  match k with
  | GetClassObject rclsid riid => '(hr, ppv) ← DllGetClassObject rclsid riid (Some 0); mret (hr, default 0 ppv)
  | Query this riid => QueryInterface this riid
  | Add this => n ← AddRef this; mret (n, 0)
  | Drop this => n ← Release this; mret (n, 0)
  | Create this pUnkOuter riid => CreateInstance this pUnkOuter riid
  | Acquire this succeeds => acquire_info this succeeds;; mret (S_OK, 0)
  | Give_back this => release_info this;; mret (S_OK, 0)
  end.

(** The client's own count of its references; a pointer it has never received
    is not in the map. *)
Definition gain (a d : Z) (h : gmap Z Z) : gmap Z Z := <[a := default 0 (h !! a) + d]> h.
Definition held_after (k : call) (r : Z * Z) (h : gmap Z Z) : gmap Z Z :=
  match k with
  | Add this => gain this 1 h
  | Drop this => gain this (-1) h
  | GetClassObject _ _ | Query _ _ | Create _ _ _ => if snd r =? 0 then h else gain (snd r) 1 h
  | Acquire _ _ | Give_back _ => h
  end.

(** It calls through pointers it holds, asks a factory for instances, and
    initializes a profiler that has no reference to the runtime. *)
Definition holds (h : gmap Z Z) (a : Z) : Prop := exists n, h !! a = Some n /\ 0 < n < 2 ^ 31 - 1.
Definition legal (c : com) (h : gmap Z Z) (k : call) : Prop :=
  match k with
  | GetClassObject _ _ => True
  | Query this _ | Add this | Drop this | Give_back this => holds h this
  | Create this _ _ => holds h this /\ fields <$> objects c !! this = Some Factory
  | Acquire this _ => holds h this /\ fields <$> objects c !! this = Some (Profiler false)
  end.

Inductive client_step : com * gmap Z Z -> com * gmap Z Z -> Prop :=
  | client_call c h k r c' : legal c h k -> call_run k c = Ok (r, c') -> client_step (c, h) (c', held_after k r h).

Definition empty_com : com := mkCom ∅ 1 0.

(** ** The invariant *)

Definition weight (o : object) : Z := if bool_decide (fields o = Profiler true) then 1 else 0.
(** The objects with a reference to the runtime. *)
Definition holders (m : gmap Z object) : Z := map_fold (fun _ o n => weight o + n) 0 m.

Lemma holders_fresh a o m : m !! a = None -> holders (<[a := o]> m) = weight o + holders m.
Proof.
  intros H. unfold holders. rewrite map_fold_insert_L; [done| |done]. intros. lia.
Qed.

Lemma holders_at a o m : m !! a = Some o -> holders m = weight o + holders (delete a m).
Proof.
  intros H. rewrite <- (insert_delete_id m a o H) at 1. apply holders_fresh, lookup_delete_eq.
Qed.

Lemma holders_insert a o o' m : m !! a = Some o -> holders (<[a := o']> m) = holders m - weight o + weight o'.
Proof.
  intros H. rewrite (holders_at a o m H). rewrite <- insert_delete_eq, holders_fresh; [lia|apply lookup_delete_eq].
Qed.

Lemma weight_nonneg o : 0 <= weight o.
Proof. unfold weight. case_bool_decide; lia. Qed.

Lemma holders_nonneg m : 0 <= holders m.
Proof.
  unfold holders. apply (map_fold_weak_ind (fun n _ => 0 <= n)); [done|]. intros a o m' n _ H. pose proof (weight_nonneg o). lia.
Qed.

Lemma holders_zero m : (forall a o, m !! a = Some o -> weight o = 0) -> holders m = 0.
Proof.
  induction m as [|a o m Ha IH] using map_ind; intros H; [done|].
  rewrite holders_fresh, (H a o (lookup_insert_eq m a o)), IH; [done| |done].
  intros b p Hb. apply (H b p). rewrite lookup_insert_ne; [done|]. intros ->. congruence.
Qed.

(** An object has as many references as the client holds; an object the client
    has no pointer to was never referenced. *)
Record com_inv (c : com) (h : gmap Z Z) : Prop := {
  ci_held : forall a n, h !! a = Some n ->
    match objects c !! a with Some o => refCount o = n /\ 0 < n | None => n = 0 end;
  ci_lost : forall a o, h !! a = None -> objects c !! a = Some o -> refCount o = 0 /\ weight o = 0;
  ci_fresh : forall a, ~ 0 < a < next_address c -> h !! a = None /\ objects c !! a = None;
  ci_address : 0 < next_address c;
  ci_info : infoRefs c = holders (objects c)
}.

Lemma empty_inv : com_inv empty_com ∅.
Proof. by split. Qed.

Lemma held_object c h a : com_inv c h -> holds h a ->
  exists o, objects c !! a = Some o /\ h !! a = Some (refCount o) /\ 0 < refCount o < 2 ^ 31 - 1.
Proof.
  intros I (n & Hn & Hb). pose proof (ci_held _ _ I a n Hn) as Ha. destruct (objects c !! a) as [o|]; [|lia].
  destruct Ha as [<- _]. eauto.
Qed.

Lemma not_null c h a o : com_inv c h -> objects c !! a = Some o -> 0 < a < next_address c.
Proof.
  intros I Ho. destruct (decide (0 < a < next_address c)) as [|Hn]; [done|].
  destruct (ci_fresh _ _ I a Hn) as [_ H]. congruence.
Qed.

Lemma at_address_run c a o : objects c !! a = Some o -> at_address a c = Ok (o, c).
Proof. intros H. unfold at_address, st_read. by rewrite H. Qed.

(** ** The operations on objects whose count is in range *)

Definition recount (a n : Z) (c : com) : com :=
  match objects c !! a with Some o => with_objects (<[a := mkObject n (fields o)]> (objects c)) c | None => c end.

Lemma AddRef_run c a o : objects c !! a = Some o -> 0 <= refCount o < 2 ^ 31 - 1 ->
  AddRef a c = Ok (refCount o + 1, recount a (refCount o + 1) c).
Proof.
  intros Ho Hb. unfold AddRef. run_step (at_address_run c a o Ho). unfold set_object. rewrite st_modify_bind.
  destruct (Z.eqb_spec (refCount o) (2 ^ 31 - 1)); [lia|].
  rewrite sint_small, wrap_small by (unfold is_sint, is_uint; lia). unfold recount. by rewrite Ho.
Qed.

Lemma QueryInterface_run c a o riid : objects c !! a = Some o -> 0 <= refCount o < 2 ^ 31 - 1 ->
  QueryInterface a riid c = Ok (if implements (fields o) riid then ((S_OK, a), recount a (refCount o + 1) c) else ((E_NOINTERFACE, 0), c)).
Proof.
  intros Ho Hb. unfold QueryInterface. run_step (at_address_run c a o Ho). destruct (implements _ _); [|done].
  by run_step (AddRef_run c a o Ho Hb).
Qed.

Lemma inv_recount c h a o : com_inv c h -> objects c !! a = Some o -> com_inv (recount a (refCount o + 1) c) (gain a 1 h).
Proof.
  intros I Ho. unfold recount. rewrite Ho. pose proof (not_null c h a o I Ho) as Ha. destruct I as [I1 I2 I3 I4 I5].
  assert (default 0 (h !! a) = refCount o /\ 0 <= refCount o) as [Hd H0].
  { destruct (h !! a) as [n|] eqn:E; simpl.
    - pose proof (I1 a n E) as H. rewrite Ho in H. lia.
    - destruct (I2 a o E Ho). lia. }
  split; cbn [objects with_objects infoRefs next_address]; unfold gain.
  - intros b n. destruct (decide (b = a)) as [->|Hne].
    + rewrite !lookup_insert_eq. intros [= <-]. simpl. lia.
    + rewrite !lookup_insert_ne by done. apply I1.
  - intros b p. destruct (decide (b = a)) as [->|Hne]; [by rewrite lookup_insert_eq|].
    rewrite !lookup_insert_ne by done. apply I2.
  - intros b Hb. rewrite !lookup_insert_ne by (intros ->; done). by apply I3.
  - done.
  - rewrite (holders_insert a o) by done. unfold weight. simpl. lia.
Qed.

(** A new object: nobody has a pointer to it yet. *)
Definition with_new (f : class) (c : com) : com :=
  mkCom (<[next_address c := mkObject 0 f]> (objects c)) (next_address c + 1) (infoRefs c).

Lemma inv_new c h f : com_inv c h -> f <> Profiler true -> com_inv (with_new f c) h.
Proof.
  intros [I1 I2 I3 I4 I5] Hf. assert (~ 0 < next_address c < next_address c) as Hn by lia.
  destruct (I3 _ Hn) as [N1 N2]. assert (weight (mkObject 0 f) = 0) as W by (unfold weight; simpl; by case_bool_decide).
  split; cbn [objects with_new infoRefs next_address].
  - intros b n Hb. rewrite lookup_insert_ne by (intros <-; congruence). by apply I1.
  - intros b p Hb. destruct (decide (b = next_address c)) as [->|Hne].
    + rewrite lookup_insert_eq. by intros [= <-].
    + rewrite lookup_insert_ne by done. by apply I2.
  - intros b Hb. rewrite lookup_insert_ne by lia. apply I3. lia.
  - lia.
  - rewrite holders_fresh by done. lia.
Qed.

Lemma new_lookup f c : objects (with_new f c) !! next_address c = Some (mkObject 0 f).
Proof. apply lookup_insert_eq. Qed.

(** A new object that is asked for an interface. *)
Lemma new_query c riid f : (new_object f ≫= fun a => QueryInterface a riid) c =
  Ok (if implements f riid then ((S_OK, next_address c), recount (next_address c) 1 (with_new f c))
      else ((E_NOINTERFACE, 0), with_new f c)).
Proof.
  rewrite (st_bind_run _ _ _ (next_address c) (with_new f c)) by done.
  rewrite (QueryInterface_run _ _ _ riid (new_lookup f c)) by (simpl; lia). done.
Qed.

(** [Release] of a reference the client holds. *)
Lemma inv_drop c h a : com_inv c h -> holds h a ->
  exists n c', Release a c = Ok (n, c') /\ com_inv c' (gain a (-1) h) /\ n = default 0 (h !! a) - 1.
Proof.
  intros I Hh. destruct (held_object c h a I Hh) as (o & Ho & Hn & Hb). unfold Release.
  run_step (at_address_run c a o Ho). unfold set_object. rewrite st_modify_bind.
  destruct (Z.eqb_spec (refCount o) (- 2 ^ 31)); [lia|]. rewrite sint_small, wrap_small by (unfold is_sint, is_uint; lia).
  set (o1 := mkObject (refCount o - 1) (fields o)). set (c1 := with_objects _ c). cbv zeta. rewrite Hn. cbn [default from_option].
  pose proof (holders_at a o _ Ho) as Hw. pose proof (holders_nonneg (delete a (objects c))) as Hp.
  destruct I as [I1 I2 I3 I4 I5].
  assert (forall b, ~ 0 < b < next_address c -> b <> a) as Hin.
  { intros b Hb' ->. destruct (I3 _ Hb'). congruence. }
  destruct (Z.leb_spec (refCount o - 1) 0).
  - set (c2 := mkCom (delete a (objects c)) (next_address c) (infoRefs c - weight o)).
    assert (delete_object a c1 = Ok (tt, c2)) as R.
    { unfold delete_object. rewrite (st_bind_run _ _ _ _ _ (at_address_run c1 a o1 (lookup_insert_eq _ _ _))).
      subst c2. unfold weight in *. cbn [fields o1]. destruct (fields o) as [|[]]; case_bool_decide; try done.
      - cbn iota. rewrite st_ret_bind. unfold st_modify, with_objects. simpl. by rewrite delete_insert_eq, Z.sub_0_r.
      - cbn iota. unfold info_Release. rewrite st_bind_assoc, st_get_bind. destruct (Z.leb_spec (infoRefs c1) 0); [simpl in *; lia|].
        rewrite st_modify_bind. unfold st_modify. simpl. by rewrite delete_insert_eq.
      - cbn iota. rewrite st_ret_bind. unfold st_modify, with_objects. simpl. by rewrite delete_insert_eq, Z.sub_0_r. }
    run_step R. exists (refCount o - 1), c2. split; [done|]. split; [|done].
    unfold gain. rewrite Hn. split; cbn [objects c2 infoRefs next_address default from_option].
    + intros b n0. destruct (decide (b = a)) as [->|Hne].
      * rewrite lookup_insert_eq, lookup_delete_eq. intros [= <-]. lia.
      * rewrite lookup_insert_ne, lookup_delete_ne by done. apply I1.
    + intros b p. destruct (decide (b = a)) as [->|Hne]; [by rewrite lookup_insert_eq|].
      rewrite lookup_insert_ne, lookup_delete_ne by done. apply I2.
    + intros b Hb'. pose proof (Hin b Hb'). rewrite lookup_insert_ne, lookup_delete_ne by done. by apply I3.
    + done.
    + lia.
  - exists (refCount o - 1), c1. split; [done|]. split; [|done].
    unfold gain. rewrite Hn. split; cbn [objects c1 with_objects infoRefs next_address default from_option].
    + intros b n0. destruct (decide (b = a)) as [->|Hne].
      * rewrite !lookup_insert_eq. intros [= <-]. simpl. lia.
      * rewrite !lookup_insert_ne by done. apply I1.
    + intros b p. destruct (decide (b = a)) as [->|Hne]; [by rewrite lookup_insert_eq|].
      rewrite !lookup_insert_ne by done. apply I2.
    + intros b Hb'. pose proof (Hin b Hb'). rewrite !lookup_insert_ne by done. by apply I3.
    + done.
    + rewrite (holders_insert a o) by done. unfold weight. simpl. lia.
Qed.

(** A change of a held profiler's reference to the runtime. *)
Lemma inv_fields c h a o f : com_inv c h -> objects c !! a = Some o -> holds h a ->
  com_inv (mkCom (<[a := mkObject (refCount o) f]> (objects c)) (next_address c)
    (infoRefs c - weight o + weight (mkObject (refCount o) f))) h.
Proof.
  intros [I1 I2 I3 I4 I5] Ho (n & Hn & _). split; cbn [objects infoRefs next_address].
  - intros b m Hb. destruct (decide (b = a)) as [->|Hne]; [|by rewrite lookup_insert_ne; [apply I1|]].
    rewrite lookup_insert_eq. pose proof (I1 a m Hb) as H. by rewrite Ho in H.
  - intros b p Hb. destruct (decide (b = a)) as [->|Hne]; [congruence|]. rewrite lookup_insert_ne by done. by apply I2.
  - intros b Hb. destruct (I3 b Hb). rewrite lookup_insert_ne by (intros ->; congruence). done.
  - done.
  - rewrite (holders_insert a o) by done. lia.
Qed.

Lemma acquire_run c h a succeeds : com_inv c h -> holds h a -> fields <$> objects c !! a = Some (Profiler false) ->
  exists c', acquire_info a succeeds c = Ok (succeeds, c') /\ com_inv c' h /\
    infoRefs c' = infoRefs c + (if succeeds then 1 else 0) /\ fields <$> objects c' !! a = Some (Profiler succeeds).
Proof.
  intros I Hh Hf. destruct (held_object c h a I Hh) as (o & Ho & _ & _). rewrite Ho in Hf. injection Hf as Hf.
  unfold acquire_info. run_step (at_address_run c a o Ho). rewrite Hf. unfold set_object. rewrite st_modify_bind.
  pose proof (inv_fields c h a o (Profiler succeeds) I Ho Hh) as I'.
  unfold weight in I' at 1. rewrite Hf in I'. rewrite bool_decide_eq_false_2 in I' by done.
  destruct succeeds; eexists; (split; [done|]); (split; [|split; [simpl; lia|simpl; by rewrite lookup_insert_eq]]).
  - by replace (infoRefs c - 0 + weight _) with (infoRefs c + 1) in I' by (unfold weight; simpl; lia).
  - by replace (infoRefs c - 0 + weight _) with (infoRefs c) in I' by (unfold weight; simpl; lia).
Qed.

Lemma give_back_run c h a : com_inv c h -> holds h a ->
  exists b c', release_info a c = Ok (b, c') /\ com_inv c' h /\ infoRefs c' = infoRefs c - (if b then 1 else 0) /\
    b = bool_decide (fields <$> objects c !! a = Some (Profiler true)) /\ fields <$> objects c' !! a <> Some (Profiler true).
Proof.
  intros I Hh. destruct (held_object c h a I Hh) as (o & Ho & _ & _). unfold release_info. run_step (at_address_run c a o Ho).
  rewrite Ho. cbn [fmap option_fmap option_map].
  destruct (fields o) as [|[]] eqn:Ef.
  - exists false, c. split_and!; [done|done|lia|done|]. rewrite Ho. simpl. congruence.
  - pose proof (holders_at a o _ Ho) as Hw. pose proof (holders_nonneg (delete a (objects c))) as Hp.
    assert (weight o = 1) as W by (unfold weight; by rewrite Ef). pose proof (ci_info _ _ I) as Hi.
    pose proof (inv_fields c h a o (Profiler false) I Ho Hh) as I'. rewrite W in I'.
    exists true. eexists. split.
    + cbn iota. unfold info_Release. rewrite st_bind_assoc, st_get_bind. destruct (Z.leb_spec (infoRefs c) 0); [lia|].
      rewrite st_modify_bind. done.
    + split; [by rewrite Z.add_0_r in I'|]. split; [done|]. split; [done|]. simpl. by rewrite lookup_insert_eq.
  - exists false, c. split_and!; [done|done|lia|done|]. rewrite Ho. simpl. congruence.
Qed.

(** A profiler the runtime holds and has not initialized. *)
Definition uninitialized (c : com) (h : gmap Z Z) (this : Z) : Prop :=
  com_inv c h /\ holds h this /\ fields <$> objects c !! this = Some (Profiler false).

(** A new object through [QueryInterface]: what the client has gained. *)
Lemma inv_new_query c h riid f : com_inv c h -> f <> Profiler true ->
  exists r c', (new_object f ≫= fun a => QueryInterface a riid) c = Ok (r, c') /\
    com_inv c' (if snd r =? 0 then h else gain (snd r) 1 h).
Proof.
  intros I Hf. rewrite new_query. pose proof (inv_new c h f I Hf) as I'. pose proof (ci_address _ _ I) as Ha.
  destruct (implements f riid); [|by eexists _, _].
  eexists _, _. split; [done|]. cbn [snd]. destruct (Z.eqb_spec (next_address c) 0); [lia|].
  exact (inv_recount _ _ _ _ I' (new_lookup f c)).
Qed.

Lemma call_ok c h k : com_inv c h -> legal c h k ->
  exists r c', call_run k c = Ok (r, c') /\ com_inv c' (held_after k r h).
Proof.
  intros I L. destruct k as [rclsid riid|a riid|a|a|a outer riid|a b|a]; cbn [call_run held_after legal] in *.
  - unfold DllGetClassObject. destruct (negb _); [by eexists _, _|]. rewrite st_bind_assoc.
    destruct (inv_new_query c h riid Factory I ltac:(done)) as ([hr p] & c' & R & I').
    exists (hr, p), c'. split; [|exact I']. revert R. unfold mbind, st_bind. destruct (new_object Factory c) as [[a c1]|]; [|done].
    destruct (QueryInterface a riid c1) as [[? ?]|]; [|done]. by intros [= -> ->].
  - destruct (held_object c h a I L) as (o & Ho & _ & Hb). rewrite (QueryInterface_run c a o riid Ho) by lia.
    pose proof (not_null c h a o I Ho). destruct (implements _ _); [|by eexists _, _].
    eexists _, _. split; [done|]. cbn [snd]. destruct (Z.eqb_spec a 0); [lia|]. by apply inv_recount.
  - destruct (held_object c h a I L) as (o & Ho & _ & Hb). run_step (AddRef_run c a o Ho ltac:(lia)).
    eexists _, _. split; [done|]. by apply inv_recount.
  - destruct (inv_drop c h a I L) as (n & c' & R & I' & _). run_step R. by eexists _, _.
  - destruct L as [L _]. destruct (held_object c h a I L) as (o & Ho & _ & _). unfold CreateInstance.
    run_step (at_address_run c a o Ho). destruct (negb _); [by eexists _, _|]. by apply inv_new_query.
  - destruct L as [L Hf]. destruct (acquire_run c h a b I L Hf) as (c' & R & I' & _). run_step R. by eexists _, _.
  - destruct (give_back_run c h a I L) as (b & c' & R & I' & _). run_step R. by eexists _, _.
Qed.

Lemma client_inv c h : rtc client_step (empty_com, ∅) (c, h) -> com_inv c h.
Proof.
  intros H. change (com_inv (c, h).1 (c, h).2). revert H. generalize (c, h) as y. clear c h.
  apply (rtc_ind_r (fun y => com_inv y.1 y.2)); [apply empty_inv|].
  intros y z _ S I. inversion S as [c h k r c' L R]; subst. destruct (call_ok c h k I L) as (r' & c1 & R' & I').
  rewrite R' in R. injection R as -> ->. exact I'.
Qed.

(** C34: Whatever a client that follows the rules of COM calls, no call touches a
    deleted object, an object is deleted exactly when the client gives back its
    last reference, the count being the client's own, and the library holds
    exactly one reference to the runtime for each profiler whose field is set:
    none when the client holds nothing. *)
Theorem references_counted c h : rtc client_step (empty_com, ∅) (c, h) ->
  (forall k, legal c h k -> exists r c', call_run k c = Ok (r, c')) /\
  (forall a n, h !! a = Some n ->
    match objects c !! a with Some o => refCount o = n /\ 0 < n | None => n = 0 end) /\
  infoRefs c = holders (objects c) /\
  ((forall a n, h !! a = Some n -> n = 0) -> infoRefs c = 0).
Proof.
  intros I%client_inv. split_and!.
  - intros k L. destruct (call_ok c h k I L) as (r & c' & R & _). eauto.
  - apply (ci_held _ _ I).
  - apply (ci_info _ _ I).
  - intros H0. rewrite (ci_info _ _ I). apply holders_zero. intros a o Ho. destruct (h !! a) as [n|] eqn:E.
    + pose proof (ci_held _ _ I a n E) as H. rewrite Ho in H. specialize (H0 a n E). lia.
    + apply (ci_lost _ _ I a o E Ho).
Qed.

(** ** What a call leaves alone *)

Section Frame.
Context (a b : Z).
Hypothesis Hab : a <> b.
Let R (c : com) : option object := objects c !! a.

Lemma set_frame o : preserves R (set_object b o).
Proof using Hab. apply preserves_modify. intros c. unfold R. simpl. by rewrite lookup_insert_ne. Qed.
Lemma info_frame : preserves R info_Release.
Proof. unfold info_Release. preserve. by apply preserves_modify. Qed.
Local Hint Resolve set_frame info_frame : preserves.

Lemma AddRef_frame : preserves R (AddRef b).
Proof using Hab. unfold AddRef, at_address. preserve. Qed.
Lemma delete_frame : preserves R (delete_object b).
Proof using Hab.
  unfold delete_object, at_address. preserve. apply preserves_modify. intros c. unfold R. simpl. by rewrite lookup_delete_ne.
Qed.
Local Hint Resolve AddRef_frame delete_frame : preserves.
Lemma Release_frame : preserves R (Release b).
Proof using Hab. unfold Release, at_address. preserve. Qed.
Lemma QueryInterface_frame riid : preserves R (QueryInterface b riid).
Proof using Hab. unfold QueryInterface, at_address. preserve. Qed.
Lemma acquire_frame s : preserves R (acquire_info b s).
Proof using Hab. unfold acquire_info, at_address. preserve. by apply preserves_modify. Qed.
Lemma give_back_frame : preserves R (release_info b).
Proof using Hab. unfold release_info, at_address. preserve. Qed.
End Frame.

(** An object the client has no pointer to stays as it is. *)
Lemma lost_step c h a o k r c' : com_inv c h -> legal c h k -> call_run k c = Ok (r, c') ->
  h !! a = None -> objects c !! a = Some o -> objects c' !! a = Some o /\ held_after k r h !! a = None.
Proof.
  intros I L R Hh Ho. pose proof (not_null c h a o I Ho) as Ha.
  assert (forall b, holds h b -> a <> b) as Hne by (intros b (n & Hn & _) ->; congruence).
  assert (forall b d, a <> b -> gain b d h !! a = None) as Hg by (intros b d Hb; unfold gain; by rewrite lookup_insert_ne).
  assert (forall riid f r1 c1, (new_object f ≫= fun x => QueryInterface x riid) c = Ok (r1, c1) ->
    objects c1 !! a = Some o /\ snd r1 <> a) as Hnew.
  { intros riid f r1 c1 E. rewrite new_query in E. assert (a <> next_address c) as Hn by lia.
    assert (objects (with_new f c) !! a = Some o) as E1 by (simpl; by rewrite lookup_insert_ne).
    destruct (implements f riid); injection E as <- <-; [|split; [done|simpl; lia]].
    split; [|done]. unfold recount. rewrite new_lookup. simpl. rewrite lookup_insert_ne by done. exact E1. }
  assert (forall r1 : Z * Z, snd r1 <> a -> (if snd r1 =? 0 then h else gain (snd r1) 1 h) !! a = None) as Hq.
  { intros r1 H. destruct (_ =? _); [done|]. by apply Hg. }
  destruct k as [rclsid riid|b riid|b|b|b outer riid|b s|b]; cbn [call_run held_after legal] in *.
  - unfold DllGetClassObject in R. destruct (negb _); [by injection R as <- <-|]. rewrite st_bind_assoc in R.
    apply st_bind_ok in R as (x & c1 & R1 & R). rewrite st_bind_assoc in R. apply st_bind_ok in R as (r1 & c2 & R2 & R).
    injection R as <- <-. destruct (Hnew riid Factory r1 c2) as [E1 E2]; [by run_step R1|]. auto.
  - rewrite (QueryInterface_frame a b (Hne b L) riid _ _ _ R). split; [done|]. apply Hq.
    unfold QueryInterface in R. st_inv. destruct (implements _ _); st_inv; [by apply not_eq_sym, Hne|simpl; lia].
  - st_inv. rewrite (AddRef_frame a b (Hne b L) _ _ _ H). auto.
  - st_inv. rewrite (Release_frame a b (Hne b L) _ _ _ H). auto.
  - unfold CreateInstance in R. apply st_bind_ok in R as (x & c1 & R1 & R).
    unfold at_address, st_read in R1. destruct (objects c !! b); [|done]. injection R1 as <- <-.
    destruct (negb _); [by injection R as <- <-|]. destruct (Hnew _ _ _ _ R). auto.
  - st_inv. rewrite (acquire_frame a b (Hne b (proj1 L)) _ _ _ _ H). auto.
  - st_inv. rewrite (give_back_frame a b (Hne b L) _ _ _ H). auto.
Qed.

Lemma lost_forever c h a o c2 h2 : com_inv c h -> h !! a = None -> objects c !! a = Some o ->
  rtc client_step (c, h) (c2, h2) -> objects c2 !! a = Some o.
Proof.
  intros I Hh Ho S. enough (com_inv c2 h2 /\ h2 !! a = None /\ objects c2 !! a = Some o) by tauto.
  change ((fun y : com * gmap Z Z => com_inv y.1 y.2 /\ y.2 !! a = None /\ objects y.1 !! a = Some o) (c2, h2)).
  revert S. generalize (c2, h2) as y. clear c2 h2. apply rtc_ind_r; [done|].
  intros y z _ S (I1 & Hh1 & Ho1). inversion S as [c1 h1 k r c' L R]; subst. simpl in *.
  destruct (call_ok c1 h1 k I1 L) as (r' & c'' & R' & I'). rewrite R' in R. injection R as -> ->.
  destruct (lost_step _ _ _ _ _ _ _ I1 L R' Hh1 Ho1). auto.
Qed.

(** A request for the factory with an interface it does not have fails and
    leaves a factory behind that no call of the client ever deletes. *)
Theorem unknown_interface_leaks c h riid : rtc client_step (empty_com, ∅) (c, h) ->
  riid <> IID_IUnknown -> riid <> IID_IClassFactory ->
  exists c1 a, call_run (GetClassObject CLSID_CorProfiler riid) c = Ok ((E_NOINTERFACE, 0), c1) /\ objects c !! a = None /\
    forall c2 h2, rtc client_step (c1, h) (c2, h2) -> objects c2 !! a = Some (mkObject 0 Factory).
Proof.
  intros I%client_inv H1 H2. exists (with_new Factory c), (next_address c).
  destruct (ci_fresh _ _ I (next_address c) ltac:(lia)) as [N1 N2].
  split; [|split; [done|]].
  - cbn [call_run]. unfold DllGetClassObject. rewrite bool_decide_eq_true_2 by done. cbn [negb]. rewrite st_bind_assoc.
    rewrite (st_bind_run _ _ _ (next_address c) (with_new Factory c)) by done. rewrite st_bind_assoc.
    assert (implements Factory riid = false) as Hi by (unfold implements; by rewrite !bool_decide_eq_false_2).
    rewrite (st_bind_run _ _ _ (E_NOINTERFACE, 0) (with_new Factory c)); [done|].
    rewrite (QueryInterface_run _ _ _ riid (new_lookup Factory c)) by (simpl; lia). cbn [fields]. by rewrite Hi.
  - intros c2 h2. apply lost_forever; [by apply inv_new|done|apply new_lookup].
Qed.

(** ** The theorems at a run

    The runtime loads the library: a factory, a profiler, its initialization;
    the factory is given back, then the reference to the runtime. *)
Definition sample_calls : list call :=
  [GetClassObject CLSID_CorProfiler IID_IClassFactory; Create 1 0 IID_ICorProfilerCallback2; Query 2 IID_ICorProfilerCallback8;
   Acquire 2 true; Drop 1; Give_back 2; Drop 2].

Definition sample_client (n : nat) : com * gmap Z Z :=
  fold_left (fun y k => match call_run k (fst y) with Ok (r, c) => (c, held_after k r (snd y)) | Err _ => y end)
    (take n sample_calls) (empty_com, ∅).

Lemma client_next y k r z : legal y.1 y.2 k -> call_run k y.1 = Ok (r, z.1) -> z.2 = held_after k r y.2 ->
  rtc client_step (empty_com, ∅) y -> rtc client_step (empty_com, ∅) z.
Proof. destruct y as [c h], z as [c' h']. simpl. intros L R -> H. eapply rtc_r; [exact H|]. by apply client_call. Qed.

(** One more call, legal as evaluation shows. *)
Ltac next_call y k :=
  eapply (client_next y k);
    [cbn [legal]; try done; try (split; [|vm_compute; reflexivity]); eexists; (split; [vm_compute; reflexivity|lia])
    |vm_compute; reflexivity|vm_compute; reflexivity|].

Lemma sample_reachable : rtc client_step (empty_com, ∅) ((sample_client 7).1, (sample_client 7).2).
Proof.
  next_call (sample_client 6) (Drop 2). next_call (sample_client 5) (Give_back 2). next_call (sample_client 4) (Drop 1).
  next_call (sample_client 3) (Acquire 2 true). next_call (sample_client 2) (Query 2 IID_ICorProfilerCallback8).
  next_call (sample_client 1) (Create 1 0 IID_ICorProfilerCallback2).
  next_call (sample_client 0) (GetClassObject CLSID_CorProfiler IID_IClassFactory). apply rtc_refl.
Qed.

Lemma references_counted_witness :
  objects (sample_client 7).1 !! 1 = None /\ infoRefs (sample_client 7).1 = 0 /\
  match objects (sample_client 7).1 !! 2 with Some o => refCount o = 1 /\ 0 < 1 | None => 1 = 0 end.
Proof.
  split; [reflexivity|]. split; [reflexivity|].
  apply (references_counted _ _ sample_reachable). reflexivity.
Defined.

Lemma unknown_interface_leaks_witness :
  exists c1 a, call_run (GetClassObject CLSID_CorProfiler IID_ICorProfilerCallback) empty_com = Ok ((E_NOINTERFACE, 0), c1) /\
    objects empty_com !! a = None /\
    forall c2 h2, rtc client_step (c1, ∅) (c2, h2) -> objects c2 !! a = Some (mkObject 0 Factory).
Proof. apply (unknown_interface_leaks empty_com ∅); [apply rtc_refl|done|done]. Defined.

(** One profiler, at address 2, held once. *)
Definition sample_com : com := mkCom {[2 := mkObject 1 (Profiler false)]} 3 0.
Definition sample_held : gmap Z Z := {[1 := 0; 2 := 1]}.

Lemma sample_com_inv b : com_inv (mkCom {[2 := mkObject 1 (Profiler b)]} 3 (if b then 1 else 0)) sample_held.
Proof.
  split; cbn [objects next_address infoRefs]; unfold sample_held.
  - intros a n. rewrite lookup_insert_Some, lookup_singleton_Some. intros [[<- <-]|[_ [<- <-]]].
    + by rewrite lookup_singleton_ne.
    + by rewrite lookup_singleton_eq.
  - intros a o. rewrite lookup_singleton_Some. intros H [<- <-].
    rewrite lookup_insert_ne, lookup_singleton_eq in H by done. done.
  - intros a Ha. rewrite lookup_insert_ne, !lookup_singleton_ne by lia. done.
  - done.
  - by destruct b.
Qed.

Lemma sample_holds : holds sample_held 2.
Proof. exists 1. split; [reflexivity|lia]. Qed.

Lemma sample_uninitialized : uninitialized sample_com sample_held 2.
Proof. split; [apply (sample_com_inv false)|]. split; [apply sample_holds|reflexivity]. Qed.
