(* ===== verification/ILRoundTrip.v ===== *)
(** * Import followed by export

    The theorems on the IL rewriter as a whole: the import pass is total and
    finds the instructions that spell the code, the export pass ends and emits
    the code of the list with every branch in range, and exporting an imported
    method gives back its code and its exception clauses byte for byte. *)

From S2P Require Import Prelude Opcodes ILList ILCode ILImport ILExport.
Local Open Scope Z_scope.

(** The state [Import] hands to [ImportIL]: the constructor's, with the
    members read from the method header. *)
Definition start_state (decoder : ILMethod) : ILRewriter :=
  with_header (il_LocalVarSigTok decoder) (il_MaxStack decoder)
    (Z.land (il_Flags decoder) CorILMethod_InitLocals)
    (Z.of_nat (length (il_Code decoder))) new_ILRewriter.

(** Every call of [GetInstrFromOffset] for a branch found an instruction, as
    its assertion demands. *)
Definition no_null_target (s : ILRewriter) : Prop :=
  map_Forall (fun _ i => is_branch_op (m_opcode i) = true -> m_Arg i <> NULL) (m_mem s).

#[export] Instance no_null_target_dec s : Decision (no_null_target s).
Proof. unfold no_null_target. apply map_Forall_dec. intros. apply _. Defined.

Lemma start_fresh decoder : fresh_rewriter (il_Code decoder) (start_state decoder).
Proof.
  split; try done.
  - split; [by vm_compute|]. apply NoDup_singleton.
  - intros p [i Hi]. simpl in *. apply lookup_singleton_Some in Hi as [<- _]. by vm_compute.
Qed.

(** ** Offsets of the imported instructions *)

Section offsets.
Context (pIL : list Z) (s : ILRewriter) (l : list Z) (items : list (Z * Z)) (m : gmap Z ILInstr).
Hypothesis Hres : import_result pIL s l items.
Hypothesis Hlo : layout m l.
Hypothesis Hops : (items_of m l).*1 = items.*1.

Lemma take_size k : code_size (take k (items_of m l)) = code_size (take k items).
Proof using All. apply code_size_congr. by rewrite !fmap_take, Hops. Qed.

Lemma all_size : code_size (items_of m l) = Z.of_nat (length pIL).
Proof using All.
  rewrite (code_size_congr _ _ Hops), <- (length_code_bytes 0 0). by rewrite (ir_code _ _ _ _ Hres).
Qed.

(** The pointer the table gives for an offset is an instruction laid out
    at this offset. *)
Lemma known_offset v :
  lookup_target (m_pOffsetToInstr s) v <> NULL ->
  off_of m (lookup_target (m_pOffsetToInstr s) v) = wrap 32 v /\
  lookup_target (m_pOffsetToInstr s) v ∈ IL :: l.
Proof using All.
  pose proof (wrap_range 32 v ltac:(lia)) as [Hr _]. unfold lookup_target. intros Hne.
  destruct (m_pOffsetToInstr s !! Z.to_nat (wrap 32 v)) as [p|] eqn:E; simpl in *; [|done].
  apply (ir_tab _ _ _ _ Hres) in E as [->|[[-> Hv]|(k & Hk & Hv)]]; [done|..].
  - rewrite (lo_end _ _ Hlo), all_size. split; [lia|left].
  - rewrite (lo_off _ _ Hlo _ _ Hk), take_size. split; [lia|]. right. by eapply list_elem_of_lookup_2.
Qed.
End offsets.

Lemma resolve_fst tab items : (resolve_item tab <$> items).*1 = items.*1.
Proof.
  rewrite <- list_fmap_compose. apply list_fmap_ext. intros k it _. unfold resolve_item. simpl. by case_match.
Qed.

(** ** The imported list can be exported *)

Section exported.
Context (pIL : list Z) (s : ILRewriter) (l : list Z) (items : list (Z * Z)).
Hypothesis Hres : import_result pIL s l items.
Hypothesis Hnn : no_null_target s.

Lemma branch_known k op v :
  items !! k = Some (op, v) -> is_branch_op op = true -> lookup_target (m_pOffsetToInstr s) v <> NULL.
Proof using All.
  intros Hk Hb Hn. pose proof (ir_items _ _ _ _ Hres) as Hit.
  assert (items_of (m_mem s) l !! k = Some (op, NULL)) as H.
  { rewrite Hit, list_lookup_fmap, Hk. simpl. unfold resolve_item. simpl. by rewrite Hb, Hn. }
  unfold items_of in H. rewrite list_lookup_fmap in H.
  destruct (l !! k) as [p|] eqn:Ep; [|done]. simpl in H. injection H as H.
  destruct (il_list_alloc _ _ p (ir_list _ _ _ _ Hres)) as [i Hi].
  { right. by eapply list_elem_of_lookup_2. }
  rewrite (item_of_lookup _ _ _ Hi) in H. injection H as H1 H2.
  pose proof (Hnn p i Hi) as Hx. simpl in Hx. apply Hx; congruence.
Qed.

Lemma import_exportable : exportable (m_mem s) l.
Proof using All.
  split; [apply (ir_list _ _ _ _ Hres)|]. intros p i Hp Hi.
  apply list_elem_of_lookup_1 in Hp as [k Hk].
  pose proof (items_of_lookup (m_mem s) l k p Hk) as Hit. rewrite (ir_items _ _ _ _ Hres) in Hit.
  rewrite list_lookup_fmap in Hit. destruct (items !! k) as [[op v]|] eqn:Ek; [|done].
  simpl in Hit. rewrite (item_of_lookup _ _ _ Hi) in Hit. injection Hit as Hit.
  pose proof (Forall_lookup_1 _ _ _ _ (ir_ops _ _ _ _ Hres) Ek) as [Hv _]. simpl in Hv.
  unfold resolve_item in Hit. simpl in Hit. split.
  - destruct (is_branch_op op) eqn:Eb; injection Hit as <- _; done.
  - intros Hb. destruct (is_branch_op op) eqn:Eb; injection Hit as Ho Ha; [rewrite <- Ha|congruence].
    pose proof (branch_known k op v Ek Eb) as Hne. unfold lookup_target in *.
    destruct (m_pOffsetToInstr s !! Z.to_nat (wrap 32 v)) as [q|] eqn:E; simpl in *; [|done].
    apply (ir_tab _ _ _ _ Hres) in E as [->|[[-> _]|(j & Hj & _)]]; [done|left|].
    right. by eapply list_elem_of_lookup_2.
Qed.

(** Laid out again, the instructions spell the same code and no short branch
    has moved out of range. *)
Context (m : gmap Z ILInstr).
Hypothesis Hlo : layout m l.
Hypothesis Hit : items_of m l = items_of (m_mem s) l.

Lemma same_ops : (items_of m l).*1 = items.*1.
Proof using All. rewrite Hit, (ir_items _ _ _ _ Hres). apply resolve_fst. Qed.

Definition reabs (it : Z * Z) : Z * Z :=
  if is_branch_op (fst it) then (fst it, wrap 32 (snd it)) else it.

Lemma abs_reabs : abs_items m l = reabs <$> items.
Proof using All.
  unfold abs_items. rewrite Hit, (ir_items _ _ _ _ Hres), <- list_fmap_compose.
  apply list_fmap_ext. intros k [op v] Hk. simpl. unfold resolve_item, abs_item, reabs. simpl.
  destruct (is_branch_op op) eqn:Eb; simpl; rewrite Eb; [|done]. f_equal.
  apply (known_offset pIL s l items m Hres Hlo same_ops). by eapply branch_known.
Qed.

Lemma reabs_code off base : code_bytes off base (reabs <$> items) = code_bytes off base items.
Proof using All.
  apply code_bytes_congr; [|done]. clear. induction items as [|[op v] its IH]; [constructor|].
  constructor; [|done]. unfold reabs, same_operand, is_branch_op. simpl.
  destruct (Z.land (flags_of op) OPCODEFLAGS_BranchTarget =? 0) eqn:E; simpl; rewrite E; [done|].
  split; [done|]. by apply wrap_wrap.
Qed.

Lemma export_same_code : code_bytes 0 0 (abs_items m l) = pIL.
Proof using All. rewrite abs_reabs, reabs_code. apply (ir_code _ _ _ _ Hres). Qed.

Hypothesis Hlen : Z.of_nat (length pIL) < 2 ^ 31.

Lemma reabs_fit : all_fit 0 (abs_items m l).
Proof using All.
  assert (forall k op v, items !! k = Some (op, v) -> is_branch_op op = true ->
    wrap 32 v <= Z.of_nat (length pIL)) as Hsm.
  { intros k op v Hk Hb.
    destruct (known_offset pIL s l items m Hres Hlo same_ops v ltac:(by eapply branch_known)) as [<- Hin].
    rewrite <- (all_size pIL s l items m Hres Hlo same_ops). by apply layout_bound. }
  rewrite abs_reabs. pose proof (ir_near _ _ _ _ Hres) as Hnear.
  assert (0 + code_size items <= Z.of_nat (length pIL)) as Hsz.
  { pose proof (length_code_bytes 0 0 items) as E. rewrite (ir_code _ _ _ _ Hres) in E. lia. }
  assert (0 <= 0) as H0 by lia. revert Hnear Hsm Hsz H0. generalize 0 at 1 2 4 5.
  clear - Hlen. induction items as [|[op v] its IH]; intros off; [done|]. simpl. intros [Hn Hns] Hsm Hsz H0.
  pose proof (isize_nonneg op). pose proof (code_size_nonneg its).
  assert (isize (fst (reabs (op, v))) = isize op) as Hi by (unfold reabs; simpl; by case_match).
  destruct (reabs (op, v)) as [op' v'] eqn:E. simpl in Hi. rewrite Hi. split.
  - unfold reabs in E. simpl in E. intros Hf.
    assert (op' = op) as -> by (destruct (is_branch_op op); congruence).
    assert (is_branch_op op = true) as Hb by (unfold is_branch_op; by rewrite Hf).
    rewrite Hb in E. injection E as <-. specialize (Hn Hf).
    pose proof (Hsm 0%nat op v eq_refl Hb) as Hv. pose proof (wrap_range 32 v ltac:(lia)) as [? _].
    rewrite <- sint_wrap, <- wrap_sub_l, sint_wrap, sint_small in Hn by (lia || (change (- 2 ^ 31 <= wrap 32 v - (off + isize op) < 2 ^ 31); lia)).
    exact Hn.
  - apply IH; [done| |lia|lia]. intros k op2 v2 Hk. apply (Hsm (S k)). done.
Qed.
End exported.

(** ** Exception clauses *)

(** The offsets a clause names. *)
Definition clause_offsets (c : EHClauseFat) : list Z :=
  [eh_TryOffset c; eh_TryOffset c + eh_TryLength c;
   eh_HandlerOffset c; eh_HandlerOffset c + eh_HandlerLength c]
  ++ (if Z.land (eh_Flags c) COR_ILEXCEPTION_CLAUSE_FILTER =? 0 then [] else [eh_ClassTokenOrFilterOffset c]).

(** A clause between instructions of the code, in the 32-bit fields of the
    file format. *)
Definition clause_wf (tab : list Z) (c : EHClauseFat) : Prop :=
  Forall (fun v => lookup_target tab v <> NULL) (clause_offsets c) /\
  Forall (is_uint 32) [eh_Flags c; eh_TryOffset c; eh_TryLength c; eh_HandlerOffset c;
    eh_HandlerLength c; eh_ClassTokenOrFilterOffset c].

#[export] Instance is_uint_dec w z : Decision (is_uint w z).
Proof. unfold is_uint. apply _. Defined.
#[export] Instance clause_wf_dec tab c : Decision (clause_wf tab c).
Proof. unfold clause_wf. apply _. Defined.

(** The imported clause. *)
Record clause_rel (s : ILRewriter) (c : EHClauseFat) (e : EHClause) : Prop := {
  cr_flags : m_Flags e = eh_Flags c;
  cr_tb : m_pTryBegin e = lookup_target (m_pOffsetToInstr s) (eh_TryOffset c);
  cr_te : m_pTryEnd e = lookup_target (m_pOffsetToInstr s) (eh_TryOffset c + eh_TryLength c);
  cr_hb : m_pHandlerBegin e = lookup_target (m_pOffsetToInstr s) (eh_HandlerOffset c);
  cr_he : prv (m_mem s) (lookup_target (m_pOffsetToInstr s) (eh_HandlerOffset c + eh_HandlerLength c))
            = Some (m_pHandlerEnd e);
  cr_last : m_ClassTokenOrFilter e =
    (if Z.land (eh_Flags c) COR_ILEXCEPTION_CLAUSE_FILTER =? 0 then eh_ClassTokenOrFilterOffset c
     else lookup_target (m_pOffsetToInstr s) (eh_ClassTokenOrFilterOffset c))
}.

Lemma GetInstr_wrap s v :
  Z.of_nat (length (m_pOffsetToInstr s)) = m_CodeSize s + 1 ->
  GetInstrFromOffset (wrap 32 v) s = Ok (lookup_target (m_pOffsetToInstr s) v, s).
Proof. intros H. apply GetInstrFromOffset_run; [|done]. apply (wrap_range 32 v ltac:(lia)). Qed.

Lemma GetInstr_small s v :
  Z.of_nat (length (m_pOffsetToInstr s)) = m_CodeSize s + 1 -> is_uint 32 v ->
  GetInstrFromOffset v s = Ok (lookup_target (m_pOffsetToInstr s) v, s).
Proof. intros H Hv. rewrite <- (wrap_small 32 v) at 1; [by apply GetInstr_wrap|done]. Qed.

Lemma import_table_length pIL s l items :
  import_result pIL s l items -> Z.of_nat (length (m_pOffsetToInstr s)) = m_CodeSize s + 1.
Proof. intros H. destruct (ir_tab _ _ _ _ H) as [-> _]. rewrite (ir_size _ _ _ _ H). lia. Qed.

Lemma lookup_target_in pIL s l items v :
  import_result pIL s l items -> lookup_target (m_pOffsetToInstr s) v <> NULL ->
  lookup_target (m_pOffsetToInstr s) v ∈ IL :: l.
Proof.
  intros Hres Hne. unfold lookup_target in *.
  destruct (m_pOffsetToInstr s !! _) as [q|] eqn:E; simpl in *; [|done].
  apply (ir_tab _ _ _ _ Hres) in E as [->|[[-> _]|(j & Hj & _)]]; [done|left|].
  right. by eapply list_elem_of_lookup_2.
Qed.

Lemma import_clause_run pIL s l items c :
  import_result pIL s l items -> clause_wf (m_pOffsetToInstr s) c ->
  exists e, import_clause c s = Ok (e, s) /\ clause_rel s c e.
Proof.
  intros Hres [Hk Hu]. pose proof (import_table_length _ _ _ _ Hres) as Ht.
  repeat (apply Forall_cons in Hu as [? Hu]). clear Hu.
  unfold clause_offsets in Hk. apply Forall_app in Hk as [Hk Hkf].
  repeat (apply Forall_cons in Hk as [? Hk]). clear Hk.
  pose proof (lookup_target_in _ _ _ _ (eh_HandlerOffset c + eh_HandlerLength c) Hres ltac:(done)) as Hin.
  destruct (il_list_prev _ _ _ (ir_list _ _ _ _ Hres) Hin) as (h & Hpv & _ & _).
  apply prv_Some in Hpv as (i & Hi & Hih).
  unfold import_clause.
  run_step (GetInstr_small s (eh_TryOffset c) Ht ltac:(done)).
  run_step (GetInstr_wrap s (eh_TryOffset c + eh_TryLength c) Ht).
  run_step (GetInstr_small s (eh_HandlerOffset c) Ht ltac:(done)).
  run_step (GetInstr_wrap s (eh_HandlerOffset c + eh_HandlerLength c) Ht).
  run_step (load_run _ _ _ Hi).
  eexists (mkEHClause (eh_Flags c) _ _ _ (m_pPrev i)
    (if Z.land (eh_Flags c) COR_ILEXCEPTION_CLAUSE_FILTER =? 0 then eh_ClassTokenOrFilterOffset c
     else lookup_target (m_pOffsetToInstr s) (eh_ClassTokenOrFilterOffset c))).
  split; [|split; try done; unfold prv; by rewrite Hi].
  destruct (Z.land _ _ =? 0); [done|].
  by run_step (GetInstr_small s (eh_ClassTokenOrFilterOffset c) Ht ltac:(done)).
Qed.

Lemma import_clauses_run pIL s l items cs : forall acc,
  import_result pIL s l items -> Forall (clause_wf (m_pOffsetToInstr s)) cs ->
  exists es, st_fold (fun c acc => e ← import_clause c; mret (acc ++ [e])) cs acc s = Ok (acc ++ es, s) /\
    Forall2 (clause_rel s) cs es.
Proof.
  induction cs as [|c cs IH]; intros acc Hres Hwf.
  { exists []. rewrite app_nil_r. by split; [|constructor]. }
  apply Forall_cons in Hwf as [Hc Hcs].
  destruct (import_clause_run _ _ _ _ c Hres Hc) as (e & Hr & Hrel).
  destruct (IH (acc ++ [e]) Hres Hcs) as (es & Hrs & Hrels).
  exists (e :: es). split; [|by constructor]. cbn [st_fold]. rewrite st_bind_assoc. run_step Hr.
  rewrite st_ret_bind, Hrs. by rewrite <- app_assoc.
Qed.

(** The members [ImportEH] assigns. *)
Definition imported_EH (s s' : ILRewriter) (cs : list EHClauseFat) : Prop :=
  exists es, Forall2 (clause_rel s) cs es /\
    s' = with_EH (Z.of_nat (length cs)) (if cs is [] then m_pEH s else Some es) s.

Lemma ImportEH_run pIL s l items cs :
  import_result pIL s l items -> Forall (clause_wf (m_pOffsetToInstr s)) cs ->
  exists s', ImportEH cs (Z.of_nat (length cs)) s = Ok (tt, s') /\ imported_EH s s' cs.
Proof.
  intros Hres Hwf. unfold ImportEH. destruct cs as [|c cs].
  - eexists. split; [done|]. exists []. split; [constructor|done].
  - destruct (import_clauses_run _ _ _ _ (c :: cs) [] Hres Hwf) as (es & Hr & Hrel).
    change (Z.of_nat (length (c :: cs)) =? 0) with false. cbv iota. run_step Hr. eexists. split; [done|].
    by exists es.
Qed.

(** ** Exporting the clauses *)

Lemma load_off (s : ILRewriter) l p :
  il_list (m_mem s) l -> p ∈ IL :: l -> exists i, load p s = Ok (i, s) /\ m_offset i = off_of (m_mem s) p
    /\ nxt (m_mem s) p = Some (m_pNext i).
Proof.
  intros Hl Hp. destruct (il_list_alloc _ _ _ Hl Hp) as [i Hi]. exists i.
  split_and!; [by apply load_run|by rewrite (off_of_lookup _ _ _ Hi)|unfold nxt; by rewrite Hi].
Qed.

Lemma wrap_sub_back a b : is_uint 32 b -> wrap 32 (wrap 32 (a + b) - wrap 32 a) = b.
Proof.
  intros Hb. rewrite wrap_sub_l, wrap_sub_r. replace (a + b - a) with b by lia. by apply wrap_small.
Qed.

Section export_clauses.
Context (pIL : list Z) (s : ILRewriter) (l : list Z) (items : list (Z * Z)) (t : ILRewriter).
Hypothesis Hres : import_result pIL s l items.
Hypothesis Hlo : layout (m_mem t) l.
Hypothesis Hops : (items_of (m_mem t) l).*1 = items.*1.
Hypothesis Hw : widened (m_mem s) (m_mem t).

Lemma known_load v :
  lookup_target (m_pOffsetToInstr s) v <> NULL ->
  exists i, load (lookup_target (m_pOffsetToInstr s) v) t = Ok (i, t) /\ m_offset i = wrap 32 v.
Proof using All.
  intros Hv. destruct (known_offset pIL s l items (m_mem t) Hres Hlo Hops v Hv) as [Ho Hin].
  destruct (load_off t l _ (ex_list _ _ (lo_ex _ _ Hlo)) Hin) as (i & Hi & Hoi & _).
  exists i. split; [done|congruence].
Qed.

(** A clause that was imported is exported as it was. *)
Lemma export_clause_run c e :
  clause_wf (m_pOffsetToInstr s) c -> clause_rel s c e -> export_clause e t = Ok (c, t).
Proof using All.
  intros [Hk Hu] [Hf Htb Hte Hhb Hhe Hla].
  apply Forall_cons in Hu as [_ Hu]. repeat (apply Forall_cons in Hu as [? Hu]). clear Hu.
  unfold clause_offsets in Hk. apply Forall_app in Hk as [Hk Hkf].
  apply Forall_cons in Hk as [K1 Hk]. apply Forall_cons in Hk as [K2 Hk].
  apply Forall_cons in Hk as [K3 Hk]. apply Forall_cons in Hk as [K4 _].
  unfold export_clause. rewrite Htb, Hte, Hhb, Hla, Hf.
  destruct (known_load _ K1) as (i1 & L1 & O1). run_step L1.
  destruct (known_load _ K2) as (i2 & L2 & O2). run_step L2.
  destruct (known_load _ K3) as (i3 & L3 & O3). run_step L3.
  pose proof (lookup_target_in _ _ _ _ _ Hres K4) as Hin.
  pose proof (ex_list _ _ (lo_ex _ _ Hlo)) as Hlt.
  destruct (il_list_prev _ _ _ Hlt Hin) as (h & Hpv & Hnx & Hhin).
  destruct (widened_links _ _ Hw) as [_ Hpe]. rewrite Hpe, Hhe in Hpv. injection Hpv as <-.
  destruct (load_off t l _ Hlt Hhin) as (ih & Lh & _ & Hnh). run_step Lh.
  rewrite Hnx in Hnh. injection Hnh as <-.
  destruct (known_load _ K4) as (i4 & L4 & O4). run_step L4.
  rewrite O1, O2, O3, O4, !wrap_sub_back, !(wrap_small 32 (eh_TryOffset c)),
    !(wrap_small 32 (eh_HandlerOffset c)) by done.
  destruct (Z.land (eh_Flags c) COR_ILEXCEPTION_CLAUSE_FILTER =? 0) eqn:Ef.
  - rewrite st_ret_bind. by destruct c.
  - apply Forall_cons in Hkf as [K5 _]. destruct (known_load _ K5) as (i5 & L5 & O5).
    rewrite st_bind_assoc. run_step L5. rewrite st_ret_bind, O5, wrap_small by done. by destruct c.
Qed.
End export_clauses.

Lemma length_clause_fat c : length (clause_fat c) = 24%nat.
Proof. done. Qed.

Lemma export_clauses_run t cs es : forall pre pBody pCurrent,
  Forall2 (fun c e => export_clause e t = Ok (c, t)) cs es ->
  wrote 0 pre pBody pBody -> pCurrent = Z.of_nat (length pre) ->
  pCurrent + 24 * Z.of_nat (length cs) <= Z.of_nat (length pBody) ->
  exists pBody', st_fold (fun pSrc '(pBody, pCurrent) =>
         c ← export_clause pSrc;
         pBody ← emit pBody pCurrent (clause_fat c);
         mret (pBody, pCurrent + 24)) es (pBody, pCurrent) t
      = Ok ((pBody', pCurrent + 24 * Z.of_nat (length cs)), t) /\
    length pBody' = length pBody /\ seg_at pBody' 0 (pre ++ (cs ≫= clause_fat)).
Proof.
  intros pre pBody pCurrent Hrel. revert pre pBody pCurrent.
  induction Hrel as [|c e cs es Hce Hrel IH]; intros pre pBody pCurrent Hw0 Hpc Hle; simpl in *.
  { exists pBody. rewrite Z.add_0_r, app_nil_r. split_and!; [done|done|]. apply Hw0. }
  rewrite st_bind_assoc. run_step Hce. rewrite st_bind_assoc.
  destruct (emit_wrote t pBody 0 pre pBody (clause_fat c) pCurrent Hw0) as (b1 & He & Hw1);
    [lia|lia|rewrite length_clause_fat; lia|].
  run_step He. rewrite st_ret_bind.
  destruct (IH (pre ++ clause_fat c) b1 (pCurrent + 24)) as (b2 & Hr & Hl2 & Hs2).
  - split; [apply Hw1|done|done].
  - rewrite length_app, length_clause_fat. lia.
  - rewrite (wr_len _ _ _ _ Hw1). lia.
  - exists b2. split_and!.
    + rewrite Hr. do 3 f_equal. lia.
    + by rewrite Hl2, (wr_len _ _ _ _ Hw1).
    + by rewrite <- app_assoc in Hs2.
Qed.

(** ** The method body *)

(** The image of a method with a fat header; [pad] aligns the exception
    section. *)
Definition eh_section (cs : list EHClauseFat) : list Z :=
  if cs is [] then [] else
  sect_fat (Z.lor CorILMethod_Sect_EHTable CorILMethod_Sect_FatFormat)
    (wrap 32 (4 + 24 * Z.of_nat (length cs))) ++ (cs ≫= clause_fat).

Definition fat_body (flags maxStack sig : Z) (code pad : list Z) (cs : list EHClauseFat) : list Z :=
  fat_header (Z.lor (Z.lor flags (if cs is [] then 0 else CorILMethod_MoreSects)) CorILMethod_FatFormat)
    maxStack (Z.of_nat (length code)) sig ++ code ++ pad ++ eh_section cs.

Lemma length_fat_header a b c d : length (fat_header a b c d) = 12%nat.
Proof. done. Qed.

Lemma align_4 x :
  is_uint 32 x -> Z.land x (wrap 32 (Z.lnot 3)) = 4 * (x / 4).
Proof.
  intros Hx. assert (Z.land x (wrap 32 (Z.lnot 3)) = Z.ldiff x (Z.ones 2)) as ->.
  { rewrite Z.ldiff_land. rewrite <- (wrap_small 32 x Hx). unfold wrap at 1 3.
    rewrite <- !Z.land_ones, <- !Z.land_assoc by lia. f_equal. }
  rewrite Z.ldiff_ones_r, Z.shiftl_mul_pow2, Z.shiftr_div_pow2 by lia.
  change (2 ^ 2) with 4. lia.
Qed.

Definition aligned (n : Z) : Z := Z.land (wrap 32 (n + 3)) (wrap 32 (Z.lnot 3)).

Lemma aligned_bounds n : 0 <= n < 2 ^ 31 -> n <= aligned n <= n + 3 /\ aligned n mod 4 = 0.
Proof.
  intros Hn. unfold aligned. rewrite (wrap_small 32) by (unfold is_uint; lia).
  rewrite align_4 by (unfold is_uint; lia). pose proof (Z.div_mod (n + 3) 4 ltac:(lia)).
  pose proof (Z.mod_pos_bound (n + 3) 4 ltac:(lia)). split; [lia|].
  rewrite Z.mul_comm. apply Z.mod_mul. lia.
Qed.

(** What is asked of the runtime's allocator: a block of the size asked for. *)
Definition alloc_spec (Alloc : Z -> option (list Z)) : Prop :=
  forall n, 0 <= n -> exists block, Alloc n = Some block /\ Z.of_nat (length block) = n.

Lemma seg_at_take {A} (b : list A) n : (n <= length b)%nat -> seg_at b 0 (take n b).
Proof.
  intros H. unfold seg_at, read_at. rewrite length_take, Nat.min_l by done.
  destruct (_ && _) eqn:E; [|exfalso; lia]. by rewrite drop_0.
Qed.

Lemma seg_at_0 {A} (b bs : list A) : seg_at b 0 bs -> exists rest, b = bs ++ rest.
Proof.
  unfold seg_at, read_at. destruct (_ && _); [|done]. intros [= H]. rewrite drop_0 in H.
  exists (drop (length bs) b). rewrite <- H at 1. by rewrite take_drop.
Qed.

Lemma length_clauses cs : length (cs ≫= clause_fat) = (24 * length cs)%nat.
Proof. induction cs as [|c cs IH]; [done|].
  change ((c :: cs) ≫= clause_fat) with (clause_fat c ++ (cs ≫= clause_fat)).
  rewrite length_app, IH. simpl. lia.
Qed.

Section export_fat.
Context (pIL : list Z) (t : ILRewriter).
Context (cs : list EHClauseFat) (es : list EHClause) (Alloc : Z -> option (list Z)).
Hypothesis Hrel : Forall2 (fun c e => export_clause e t = Ok (c, t)) cs es.
Hypothesis HnEH : m_nEH t = Z.of_nat (length cs).
Hypothesis HpEH : cs <> [] -> m_pEH t = Some es.
Hypothesis Halloc : alloc_spec Alloc.
Hypothesis Hsize : Z.of_nat (length pIL) + 24 * Z.of_nat (length cs) < 2 ^ 31.

(** The header and the code at the front of the new block. *)
Lemma fat_front block buf hdr :
  seg_at buf 0 pIL -> length hdr = 12%nat ->
  12 + aligned (Z.of_nat (length pIL)) <= Z.of_nat (length block) ->
  exists b1 b2 pad, emit block 0 hdr t = Ok (b1, t) /\ emit b1 12 pIL t = Ok (b2, t) /\
    length b2 = length block /\ Z.of_nat (length pad) = aligned (Z.of_nat (length pIL)) - Z.of_nat (length pIL) /\
    seg_at b2 0 (hdr ++ pIL ++ pad).
Proof using Hsize.
  intros Hbuf Hh Hle. pose proof (aligned_bounds (Z.of_nat (length pIL)) ltac:(lia)) as [Ha _].
  destruct (emit_wrote t block 0 [] block hdr 0 ltac:(apply wrote_nil; lia)) as (b1 & He1 & Hw1);
    [simpl; lia|lia|lia|].
  destruct (emit_wrote t block 0 ([] ++ hdr) b1 pIL 12 Hw1) as (b2 & He2 & Hw2); [simpl; lia..|].
  pose proof (wr_len _ _ _ _ Hw2) as Hl2. pose proof (wr_seg _ _ _ _ Hw2) as Hs2. simpl in Hs2.
  destruct (seg_at_0 _ _ Hs2) as [rest Hrest].
  exists b1, b2, (take (Z.to_nat (aligned (Z.of_nat (length pIL)) - Z.of_nat (length pIL))) rest).
  assert (length b2 = length hdr + length pIL + length rest)%nat as Hlr.
  { rewrite Hrest at 1. by rewrite !length_app. }
  split_and!; try done.
  - rewrite length_take. lia.
  - replace (hdr ++ pIL ++ take _ rest) with
      (take (Z.to_nat (12 + aligned (Z.of_nat (length pIL)))) b2); [apply seg_at_take; lia|].
    rewrite Hrest at 1. rewrite take_app, app_assoc. rewrite take_ge by (rewrite length_app; lia).
    f_equal. f_equal. rewrite length_app. lia.
Qed.

Lemma export_fat_run buf :
  seg_at buf 0 pIL ->
  exists pad, Z.of_nat (length pad) = aligned (Z.of_nat (length pIL)) - Z.of_nat (length pIL) /\
    export_fat Alloc buf (Z.of_nat (length pIL)) t =
      Ok (fat_body (m_flags t) (m_maxStack t) (m_tkLocalVarSig t) pIL pad cs, t).
Proof using All.
  intros Hbuf. pose proof (aligned_bounds (Z.of_nat (length pIL)) ltac:(lia)) as [Ha _].
  unfold export_fat. run_step (eq_refl : st_get t = Ok (t, t)). cbv zeta. rewrite HnEH.
  fold (aligned (Z.of_nat (length pIL))).
  assert ((Z.of_nat (length cs) =? 0) = match cs with [] => true | _ => false end) as Hz by (by destruct cs).
  rewrite (wrap_small 32 (12 + _ + _)) by (unfold is_uint; destruct (_ =? 0); lia).
  destruct (Halloc (12 + aligned (Z.of_nat (length pIL)) +
    (if Z.of_nat (length cs) =? 0 then 0 else 4 + 24 * Z.of_nat (length cs)))) as (block & Hal & Hbl);
    [destruct (_ =? 0); lia|].
  unfold AllocateILMemory. rewrite Hal, st_ret_bind.
  match goal with |- context [fat_header ?f ?a ?b ?c] => set (hdr := fat_header f a b c) end.
  destruct (fat_front block buf hdr Hbuf ltac:(done)) as (b1 & b2 & pad & He1 & He2 & Hl2 & Hpad & Hs2);
    [destruct (_ =? 0); lia|].
  run_step He1.
  assert (st_read (fun _ : ILRewriter => read_at buf 0 (Z.to_nat (Z.of_nat (length pIL)))) t = Ok (pIL, t)) as Hrd
    by (unfold st_read; rewrite Nat2Z.id; by rewrite Hbuf).
  run_step Hrd. run_step He2. exists pad. split; [done|].
  assert (length hdr = 12%nat) as Hh by done.
  unfold fat_body, eh_section. destruct cs as [|c cs'] eqn:Ecs.
  - rewrite Hz in Hbl |- *. cbv iota in Hbl |- *. unfold mret, st_ret. f_equal. f_equal. rewrite app_nil_r.
    symmetry. apply seg_at_all; [exact Hs2|]. rewrite !length_app. rewrite length_fat_header. lia.
  - rewrite Hz in Hbl |- *. cbv iota in Hbl |- *. rewrite <- Ecs in *.
    set (sect := sect_fat _ _).
    destruct (emit_wrote t b2 0 (hdr ++ pIL ++ pad) b2 sect (12 + aligned (Z.of_nat (length pIL))))
      as (b3 & He3 & Hw3); [by split|rewrite !length_app; lia|lia|change (length sect) with 4%nat; lia|].
    run_step He3.
    assert (st_read m_pEH t = Ok (es, t)) as Hre by (unfold st_read; rewrite HpEH; [done|by rewrite Ecs]).
    run_step Hre. pose proof (Forall2_length _ _ _ Hrel) as Hlen.
    rewrite (take_ge es) by lia.
    destruct (export_clauses_run t cs es ((hdr ++ pIL ++ pad) ++ sect) b3
      (12 + aligned (Z.of_nat (length pIL)) + 4) Hrel) as (b4 & He4 & Hl4 & Hs4).
    + split; [apply Hw3|done|done].
    + rewrite !length_app. change (length sect) with 4%nat. lia.
    + rewrite (wr_len _ _ _ _ Hw3). lia.
    + run_step He4. unfold mret, st_ret. f_equal. f_equal. cbn [fst]. symmetry.
      apply seg_at_all; [by rewrite <- !app_assoc in Hs4|].
      rewrite Hl4, (wr_len _ _ _ _ Hw3), !length_app. change (length sect) with 4%nat.
      rewrite length_clauses.
      rewrite length_fat_header. lia.
Qed.
End export_fat.

(** ** The theorems *)

(** The code part of [Export] on an imported list needs a single round. *)
Lemma export_imported_code junk pIL s l items :
  import_result pIL s l items -> no_null_target s -> 10 * Z.of_nat (length pIL) < 2 ^ 31 ->
  exists buf m', export_code junk s = Ok ((buf, Z.of_nat (length pIL)), with_mem m' s) /\
    seg_at buf 0 pIL /\ layout m' l /\ (items_of m' l).*1 = items.*1 /\ widened (m_mem s) m'.
Proof.
  intros Hres Hnn Hlen. pose proof (import_exportable _ _ _ _ Hres Hnn) as Hex.
  pose proof (code_size_length _ (ir_ops _ _ _ _ Hres)) as Hn.
  pose proof (length_code_bytes 0 0 items) as Hcs. rewrite (ir_code _ _ _ _ Hres) in Hcs.
  assert (length items = length l) as Hll.
  { pose proof (f_equal length (ir_items _ _ _ _ Hres)) as E. by rewrite length_items_of, length_fmap in E. }
  unfold export_code. run_step (eq_refl : st_get s = Ok (s, s)). cbv zeta.
  rewrite (ir_n _ _ _ _ Hres), (wrap_small 32) by (unfold is_uint; lia).
  destruct (export_round_run s l (replicate (Z.to_nat (Z.of_nat (length l) * 10)) junk) Hex)
    as (buf & m' & ag & Hr & _ & Hw & Hf & Ht); [rewrite length_replicate; lia..|].
  exists buf, m'. destruct ag.
  { destruct (Ht eq_refl) as (_ & m1 & Hlo1 & Hit1 & Hnf). exfalso. apply Hnf.
    apply (reabs_fit pIL s l items Hres Hnn m1 Hlo1 Hit1). lia. }
  destruct (Hf eq_refl) as [[Hlo Hcode Hfit] Hit].
  pose proof (same_ops pIL s l items Hres Hnn m' Hlo Hit) as Hops.
  rewrite (export_same_code pIL s l items Hres Hnn m' Hlo Hit) in Hcode.
  split_and!; try done.
  assert (code_size (items_of (m_mem s) l) = Z.of_nat (length pIL)) as Hsz.
  { rewrite <- Hit. apply (all_size pIL s l items m' Hres Hlo Hops). }
  destruct (size (m_mem s)); cbn [export_again]; run_step Hr; by rewrite Hsz.
Qed.

Lemma Import_run decoder s :
  Forall is_byte (il_Code decoder) -> Z.of_nat (length (il_Code decoder)) < 2 ^ 31 ->
  Import decoder new_ILRewriter = Ok (tt, s) ->
  exists s1 l items, ImportIL (il_Code decoder) (start_state decoder) = Ok (tt, s1) /\
    import_result (il_Code decoder) s1 l items /\
    ImportEH (il_EH decoder) (Z.of_nat (length (il_EH decoder))) s1 = Ok (tt, s).
Proof.
  intros Hb Hlen H. unfold Import in H. apply st_bind_ok in H as ([] & s0 & H0 & H).
  unfold st_modify in H0. injection H0 as <-. fold (start_state decoder) in H.
  apply st_bind_ok in H as ([] & s1 & H1 & H2).
  destruct (ImportIL_run (il_Code decoder) (start_state decoder) Hb Hlen (start_fresh decoder))
    as [(s1' & l & items & H1' & Hres)|H1']; rewrite H1 in H1'; [|done].
  injection H1' as <-. by exists s1, l, items.
Qed.

(** The method and the number of bytes that align its exception section. *)
Lemma Import_Export_run decoder s Alloc SetBody junk :
  Forall is_byte (il_Code decoder) -> 10 * Z.of_nat (length (il_Code decoder)) < 2 ^ 31 ->
  Z.of_nat (length (il_Code decoder)) + 24 * Z.of_nat (length (il_EH decoder)) < 2 ^ 31 ->
  Import decoder new_ILRewriter = Ok (tt, s) -> no_null_target s ->
  Forall (clause_wf (m_pOffsetToInstr s)) (il_EH decoder) ->
  alloc_spec Alloc -> (forall body, SetBody body = None) ->
  exists pad s', Z.of_nat (length pad) = aligned (Z.of_nat (length (il_Code decoder))) - Z.of_nat (length (il_Code decoder)) /\
    Export Alloc SetBody junk s =
      Ok (fat_body (Z.land (il_Flags decoder) CorILMethod_InitLocals) (m_maxStack s)
            (il_LocalVarSigTok decoder) (il_Code decoder) pad (il_EH decoder), s').
Proof.
  intros Hb H10 Hsz HI Hnn Hwf Hal Hset.
  destruct (Import_run decoder s Hb ltac:(lia) HI) as (s1 & l & items & HIL & Hres & HEH).
  pose proof (rest_ImportIL _ _ _ _ HIL) as Hrest. unfold rest_of in Hrest. simpl in Hrest.
  injection Hrest as Hsig Hfl Htiny Hcsz HnEH HpEH.
  assert (m_pOffsetToInstr s = m_pOffsetToInstr s1 /\ m_mem s = m_mem s1) as [Htab Hmem].
  { unfold ImportEH in HEH. destruct (il_EH decoder) as [|c cs]; [by injection HEH as <-|].
    change (Z.of_nat (length (c :: cs)) =? 0) with false in HEH. cbv iota in HEH.
    apply st_bind_ok in HEH as (es & s2 & Hf & Hm). injection Hm as <-. simpl.
    assert (s2 = s1) as ->; [|done].
    eapply (preserves_fold id); [|exact Hf]. intros c' acc. unfold import_clause, GetInstrFromOffset, load.
    preserve. }
  rewrite Htab in Hwf. unfold no_null_target in Hnn. rewrite Hmem in Hnn.
  destruct (ImportEH_run _ _ _ _ (il_EH decoder) Hres Hwf) as (s' & HEH' & es & Hrel & Hs').
  rewrite HEH in HEH'. injection HEH' as <-.
  assert (import_result (il_Code decoder) s l items) as Hres2.
  { rewrite Hs'. by destruct Hres. }
  destruct (export_imported_code junk _ s l items Hres2) as (buf & m' & Hcode & Hseg & Hlo & Hops & Hw).
  { unfold no_null_target. by rewrite Hmem. } { lia. }
  destruct (export_fat_run (il_Code decoder) (with_mem m' s) (il_EH decoder) es Alloc)
    with (buf := buf) as (pad & Hpad & Hfat); simpl; try done.
  - rewrite Hmem in Hw. clear - Hres Hlo Hops Hw Hrel Hwf.
    induction Hrel as [|c e cs es Hce Hrel' IH]; constructor.
    + apply Forall_cons in Hwf as [Hc _].
      apply (export_clause_run (il_Code decoder) s1 l items (with_mem m' s) Hres Hlo Hops Hw c e Hc Hce).
    + apply IH. by apply Forall_cons in Hwf as [_ ?].
  - by rewrite Hs'.
  - intros Hne. rewrite Hs'. by destruct (il_EH decoder).
  - exists pad, (with_mem m' s). split; [done|].
    unfold Export. run_step Hcode. run_step (eq_refl : st_get (with_mem m' s) = Ok (with_mem m' s, with_mem m' s)).
    assert (m_fGenerateTinyHeader (with_mem m' s) = false) as -> by (rewrite Hs'; simpl; congruence).
    run_step Hfat. unfold SetILFunctionBody. rewrite Hset, st_ret_bind. unfold mret, st_ret.
    assert (m_flags (with_mem m' s) = Z.land (il_Flags decoder) CorILMethod_InitLocals) as ->
      by (rewrite Hs'; simpl; congruence).
    assert (m_tkLocalVarSig (with_mem m' s) = il_LocalVarSigTok decoder) as -> by (rewrite Hs'; simpl; congruence).
    done.
Qed.


(** C1: importing a method and exporting it again without changes hands the
    runtime the same code, byte for byte, the same exception clauses in the fat
    format, the same local variable signature and the [InitLocals] flag, when
    every branch and every clause of the method names instructions of it. *)
Theorem import_export_roundtrip decoder s Alloc SetBody junk :
  Forall is_byte (il_Code decoder) -> 10 * Z.of_nat (length (il_Code decoder)) < 2 ^ 31 ->
  Z.of_nat (length (il_Code decoder)) + 24 * Z.of_nat (length (il_EH decoder)) < 2 ^ 31 ->
  Import decoder new_ILRewriter = Ok (tt, s) -> no_null_target s ->
  Forall (clause_wf (m_pOffsetToInstr s)) (il_EH decoder) ->
  alloc_spec Alloc -> (forall body, SetBody body = None) ->
  exists pad s', (length pad < 4)%nat /\
    Export Alloc SetBody junk s =
      Ok (fat_body (Z.land (il_Flags decoder) CorILMethod_InitLocals) (m_maxStack s)
            (il_LocalVarSigTok decoder) (il_Code decoder) pad (il_EH decoder), s').
Proof.
  intros Hb H10 Hsz HI Hnn Hwf Hal Hset.
  destruct (Import_Export_run decoder s Alloc SetBody junk Hb H10 Hsz HI Hnn Hwf Hal Hset) as (pad & s' & Hp & Hr).
  exists pad, s'. split; [|done]. pose proof (aligned_bounds (Z.of_nat (length (il_Code decoder))) ltac:(lia)) as [? _]. lia.
Qed.

(** ** Offsets for the probes *)

Lemma count_offset_run s p i off :
  m_mem s !! p = Some i -> valid_opcode (m_opcode i) -> 0 <= off < 2 ^ 31 ->
  count_offset p off s =
    Ok (off + isize (m_opcode i), with_mem (<[p := set_offset off i]> (m_mem s)) s).
Proof.
  intros Hi Hv Hoff. unfold count_offset. run_step (store_run _ _ (set_offset off) _ Hi).
  set (s1 := with_mem (<[p := set_offset off i]> (m_mem s)) s).
  assert (m_mem s1 !! p = Some (set_offset off i)) as Hi1 by (simpl; by rewrite lookup_insert_eq).
  run_step (load_run _ _ _ Hi1). cbn [m_opcode set_offset]. cbv zeta. rewrite flags_read by done.
  set (o := if m_opcode i <? CEE_COUNT then _ else _).
  assert (o = off + Z.of_nat (length (opcode_bytes (m_opcode i)))) as ->.
  { unfold o, opcode_bytes. destruct (_ <? _); [destruct (_ <=? _)|]; simpl;
      rewrite ?(wrap_small 32) by (rewrite ?(wrap_small 32); unfold is_uint; lia); lia. }
  pose proof (isize_flags (m_opcode i)) as Hsz. pose proof (isize_bound (m_opcode i)).
  assert (wrap 32 ((if flags_of (m_opcode i) =? Z.lor 0 OPCODEFLAGS_Switch
      then wrap 32 (off + Z.of_nat (length (opcode_bytes (m_opcode i))) + 4)
      else off + Z.of_nat (length (opcode_bytes (m_opcode i)))) + Z.land (flags_of (m_opcode i)) OPCODEFLAGS_SizeMask)
    = off + isize (m_opcode i)) as ->; [|done].
  unfold OPCODEFLAGS_SizeMask, OPCODEFLAGS_Switch in *.
  flag_cases (m_opcode i); rewrite Hflag in *; bit_consts; cbn [Z.eqb Pos.eqb];
    rewrite ?(wrap_small 32 (_ + 4)) by (unfold is_uint; lia);
    rewrite ?(wrap_small 32) by (unfold is_uint; lia); lia.
Qed.

Lemma keeps_links_count p o : keeps_links (count_offset p o).
Proof.
  unfold count_offset, load. apply keeps_links_bind; [by apply keeps_links_store|]. intros _.
  auto 10 with links.
Qed.

Lemma count_fold l : forall s off,
  NoDup l -> (forall p, p ∈ l -> exists i, m_mem s !! p = Some i /\ valid_opcode (m_opcode i)) ->
  0 <= off -> off + 10 * Z.of_nat (length l) < 2 ^ 31 ->
  exists m', st_fold count_offset l off s = Ok (off + code_size (items_of (m_mem s) l), with_mem m' s) /\
    laid_out (m_mem s) m' l off.
Proof.
  induction l as [|p l IH]; intros s off Hnd Hv H0 Hle.
  { exists (m_mem s). split; [|by split]. cbn [st_fold]. unfold mret, st_ret. simpl.
    rewrite Z.add_0_r. by destruct s. }
  apply NoDup_cons in Hnd as [Hp Hnd]. destruct (Hv p ltac:(left)) as (i & Hi & Hvi). simpl in Hle.
  cbn [st_fold]. run_step (count_offset_run s p i off Hi Hvi ltac:(lia)).
  pose proof (isize_bound (m_opcode i)). pose proof (isize_nonneg (m_opcode i)).
  set (s1 := with_mem (<[p := set_offset off i]> (m_mem s)) s).
  destruct (IH s1 (off + isize (m_opcode i)) Hnd) as (m' & Hr & Hlay); [|lia|lia|].
  { intros q Hq. destruct (Hv q ltac:(by right)) as (j & Hj & Hvj).
    exists j. simpl. rewrite lookup_insert_ne by (intros ->; done). done. }
  exists m'. assert (items_of (m_mem s1) l = items_of (m_mem s) l) as Hit.
  { apply items_of_payload. intros r Hr'. simpl. rewrite payload_insert, decide_False; [done|]. intros ->. done. }
  rewrite Hit in Hr. split.
  - rewrite Hr. simpl. rewrite (item_of_lookup _ _ _ Hi). cbn [fst]. by rewrite Z.add_assoc.
  - apply (laid_out_cons _ _ _ _ _ i); try done; unfold is_uint; lia.
Qed.

Lemma countOffsets_run s l :
  il_list (m_mem s) l -> (forall p i, p ∈ l -> m_mem s !! p = Some i -> valid_opcode (m_opcode i)) ->
  10 * Z.of_nat (length l) < 2 ^ 31 ->
  exists m', countOffsets s = Ok (tt, with_mem m' s) /\ laid_out (m_mem s) m' l 0 /\
    (forall q, nxt m' q = nxt (m_mem s) q) /\ (forall q, prv m' q = prv (m_mem s) q).
Proof.
  intros Hl Hv Hle. pose proof Hl as [_ Hnd]. apply NoDup_cons in Hnd as [_ Hnd].
  destruct (count_fold l s 0 Hnd) as (m' & Hr & Hlay); [|lia..|].
  { intros p Hp. destruct (il_list_alloc _ _ p Hl) as [i Hi]; [by right|]. eauto. }
  destruct (keeps_links_fold count_offset l keeps_links_count _ _ _ _ Hr) as [Hn Hp].
  exists m'. split_and!; [|done..]. unfold countOffsets.
  rewrite <- (for_all_instrs_fold _ l) in Hr; [|intros; apply keeps_links_count|done].
  by run_step Hr.
Qed.

(** after an import, [countOffsets] gives every instruction that the offset
    table knows the offset at which it stands in the original code, which is
    the number the probes report; it changes nothing else. *)
Theorem countOffsets_original decoder s :
  Forall is_byte (il_Code decoder) -> 10 * Z.of_nat (length (il_Code decoder)) < 2 ^ 31 ->
  ImportIL (il_Code decoder) (start_state decoder) = Ok (tt, s) ->
  exists m', countOffsets s = Ok (tt, with_mem m' s) /\
    (forall off p, m_pOffsetToInstr s !! off = Some p -> p <> NULL -> p <> IL ->
       off_of m' p = Z.of_nat off /\ (off < length (il_Code decoder))%nat) /\
    (forall p, item_of m' p = item_of (m_mem s) p).
Proof.
  intros Hb H10 HI.
  destruct (ImportIL_run _ _ Hb ltac:(lia) (start_fresh decoder)) as [(s' & l & items & HI' & Hres)|HI'];
    rewrite HI in HI'; [|done]. injection HI' as <-.
  pose proof (code_size_length _ (ir_ops _ _ _ _ Hres)) as Hn.
  pose proof (length_code_bytes 0 0 items) as Hcs. rewrite (ir_code _ _ _ _ Hres) in Hcs.
  assert ((items_of (m_mem s) l).*1 = items.*1) as Hops by (rewrite (ir_items _ _ _ _ Hres); apply resolve_fst).
  assert (length items = length l) as Hll by (by rewrite <- (length_fmap fst), <- Hops, length_fmap, length_items_of).
  destruct (countOffsets_run s l (ir_list _ _ _ _ Hres)) as (m' & Hr & [Hout Hin] & _); [|lia|].
  { intros p i Hp Hi. apply list_elem_of_lookup_1 in Hp as [k Hk].
    assert (items.*1 !! k = Some (m_opcode i)) as Hop.
    { rewrite <- Hops, list_lookup_fmap, (items_of_lookup _ _ _ _ Hk), (item_of_lookup _ _ _ Hi). done. }
    rewrite list_lookup_fmap in Hop. destruct (items !! k) as [it|] eqn:Ek; [|done]. injection Hop as <-.
    by destruct (Forall_lookup_1 _ _ _ _ (ir_ops _ _ _ _ Hres) Ek). }
  exists m'. split_and!; [done|..].
  - intros off p Hoff Hp0 Hp1. apply (ir_tab _ _ _ _ Hres) in Hoff as [->|[[-> _]|(k & Hk & Hv)]]; [done..|].
    destruct (il_list_alloc _ _ p (ir_list _ _ _ _ Hres)) as [i Hi]; [right; by eapply list_elem_of_lookup_2|].
    pose proof (Hin k p Hk) as Hpay. rewrite (payload_lookup _ _ _ Hi) in Hpay. simpl in Hpay.
    split.
    + unfold off_of. unfold payload in Hpay. destruct (m' !! p) as [j|]; simpl in *; [|done].
      injection Hpay as _ -> _. rewrite Hv. apply code_size_congr. by rewrite !fmap_take, Hops.
    + apply lookup_lt_Some in Hk. rewrite <- Hll in Hk.
      pose proof (take_drop k items) as Htd. destruct (items !! k) as [[op v]|] eqn:Ek; [|by apply lookup_ge_None in Ek; lia].
      rewrite (drop_S _ _ _ Ek) in Htd. rewrite <- Htd, code_size_app in Hcs. simpl in Hcs.
      destruct (Forall_lookup_1 _ _ _ _ (ir_ops _ _ _ _ Hres) Ek) as (Hvo & Hne & _). simpl in *.
      pose proof (isize_pos op Hvo Hne). pose proof (code_size_nonneg (drop (S k) items)). lia.
  - intros p. apply item_of_same. destruct (decide (p ∈ l)) as [Hp|Hp].
    + apply list_elem_of_lookup_1 in Hp as [k Hk]. eapply op_arg_payload, (Hin _ _ Hk).
    + pose proof (Hout p Hp) as E. unfold payload, op_arg in *.
      destruct (m' !! p), (m_mem s !! p); simpl in *; congruence.
Qed.

(** ** The theorems at a method *)

(** A method with a short branch, a switch, a protected block and a handler:
    [ldc.i4.1; brfalse.s 15; switch (12); nop; leave.s 16; pop; ret]. *)
Definition sample : ILMethod :=
  mkILMethod 0x11000001 8 0x1B
    [0x17; 0x2C; 0x0C; 0x45; 1; 0; 0; 0; 0; 0; 0; 0; 0x00; 0xDE; 0x01; 0x26; 0x2A]
    [mkEHClauseFat 0 12 3 15 1 0x01000001].

Definition state_of {A} (r : result (A * ILRewriter)) : ILRewriter :=
  match r with Ok (_, s) => s | Err _ => new_ILRewriter end.

Definition sample_state : ILRewriter := Eval vm_compute in state_of (Import sample new_ILRewriter).

Lemma sample_bytes : Forall is_byte (il_Code sample).
Proof. apply (bool_decide_eq_true_1 (Forall is_byte (il_Code sample))). vm_compute. reflexivity. Qed.


Lemma sample_import : Import sample new_ILRewriter = Ok (tt, sample_state).
Proof. vm_compute. reflexivity. Qed.

Lemma sample_targets : no_null_target sample_state.
Proof. apply (bool_decide_eq_true_1 (no_null_target sample_state)). vm_compute. reflexivity. Qed.

Lemma export_code_correct_witness :
  exists s l buf codeSize m', Import sample new_ILRewriter = Ok (tt, s) /\
    export_code 0xCC s = Ok ((buf, codeSize), with_mem m' s) /\
    read_at buf 0 (Z.to_nat codeSize) = Some (code_bytes 0 0 (abs_items m' l)).
Proof.
  destruct (Import_run sample sample_state sample_bytes ltac:(vm_compute; reflexivity) sample_import)
    as (s1 & l & items & H1 & Hres & _).
  assert (import_result (il_Code sample) sample_state l items) as Hres'.
  { vm_compute in H1. injection H1 as <-. by destruct Hres. }
  destruct (export_code_correct 0xCC sample_state l) as (buf & codeSize & m' & Hr & Hc & _).
  - exact (import_exportable _ _ _ _ Hres' sample_targets).
  - rewrite (ir_n _ _ _ _ Hres'). lia.
  - vm_compute. reflexivity.
  - exists sample_state, l, buf, codeSize, m'. split; [exact sample_import|]. split; [exact Hr|exact Hc].
Defined.

Lemma import_export_roundtrip_witness :
  exists pad s', (length pad < 4)%nat /\
    Export (fun n => Some (replicate (Z.to_nat n) 0)) (fun _ => None) 0xCC sample_state =
      Ok (fat_body 0x10 (m_maxStack sample_state) 0x11000001 (il_Code sample) pad (il_EH sample), s').
Proof.
  apply (import_export_roundtrip sample sample_state).
  - exact sample_bytes.
  - vm_compute. reflexivity.
  - vm_compute. reflexivity.
  - exact sample_import.
  - exact sample_targets.
  - apply (bool_decide_eq_true_1 (Forall (clause_wf (m_pOffsetToInstr sample_state)) (il_EH sample))).
    vm_compute. reflexivity.
  - intros n Hn. eexists. split; [reflexivity|]. rewrite length_replicate. lia.
  - reflexivity.
Defined.

Lemma countOffsets_original_witness :
  exists s m', ImportIL (il_Code sample) (start_state sample) = Ok (tt, s) /\
    countOffsets s = Ok (tt, with_mem m' s) /\
    off_of m' (lookup_target (m_pOffsetToInstr s) 15) = 15.
Proof.
  set (s := state_of (ImportIL (il_Code sample) (start_state sample))).
  assert (ImportIL (il_Code sample) (start_state sample) = Ok (tt, s)) as H by (vm_compute; reflexivity).
  destruct (countOffsets_original sample s sample_bytes ltac:(vm_compute; reflexivity) H) as (m' & Hr & Hoff & _).
  exists s, m'. split; [exact H|]. split; [exact Hr|].
  apply (Hoff 15%nat); [vm_compute; reflexivity|vm_compute; discriminate..].
Defined.
