(* ===== verification/ILDecoder.v ===== *)
(** * Method bodies in memory

    [coreclr/inc/corhlpr.h] and [corhlpr.cpp], which both profilers include as
    source: [COR_ILMETHOD_DECODER], through which [Import] and [importIL] read the
    header, the code and the exception clauses of a method, and the functions that
    emit headers and exception sections.

    A method is read from a block of memory that starts with its header at the
    address [base]; pointers are offsets from there, [None] is null.  A read
    outside the block is undefined behaviour.  The build has [HOST_64BIT]. *)

From S2P Require Import Prelude ILList ILImport ILExport ILRoundTrip.
Local Open Scope Z_scope.
Local Ltac Zify.zify_post_hook ::= Z.div_mod_to_equations.

(** ** Constants *)

Definition CorILMethod_FormatShift : Z := 3.
Definition CorILMethod_FormatMask : Z := Z.shiftl 1 CorILMethod_FormatShift - 1.
Definition CorILMethod_Sect_KindMask : Z := 0x3F.
Definition CorILMethod_Sect_MoreSects : Z := 0x80.
Definition COR_ILMETHOD_SECT_SMALL_MAX_DATASIZE : Z := 0xFF.

(** [COR_ILMETHOD_SECT_EH_SMALL::Size] and [COR_ILMETHOD_SECT_EH_FAT::Size]: the
    structures hold one clause; [ehCount - 1] is an [unsigned]. *)
Definition EH_SMALL_Size (ehCount : Z) : Z := wrap 32 (16 + 12 * wrap 32 (ehCount - 1)).
Definition EH_FAT_Size (ehCount : Z) : Z := wrap 32 (28 + 24 * wrap 32 (ehCount - 1)).

(** ** Reading *)

(** [COR_ILMETHOD_DECODER]: the fields of the fat header it inherits and its
    pointers. *)
Record COR_ILMETHOD_DECODER := mkDecoder {
  dec_Flags : Z;
  dec_MaxStack : Z;
  dec_CodeSize : Z;
  dec_LocalVarSigTok : Z;
  dec_Code : option Z;
  dec_EH : option Z;
  dec_Sect : option Z
}.

(** [memset(decoder, 0, ...)]. *)
Definition zero_decoder : COR_ILMETHOD_DECODER := mkDecoder 0 0 0 0 None None None.

Section Memory.
Context (base : Z) (mem : list Z).

Definition bytes_at (p : Z) (n : nat) : result (list Z) :=
  match read_at mem p n with Some bs => Ok bs | None => Err Undefined end.
Definition uint_at (p : Z) (n : nat) : result Z := bs ← bytes_at p n; mret (le_Z bs).

(** [COR_ILMETHOD_SECT::Align]. *)
Definition Align (p : Z) : Z := Z.land (base + p + 3) (Z.lnot 3) - base.

(** *** Sections *)

Definition Sect_More (p : Z) : result bool :=
  kind ← uint_at p 1; mret (negb (Z.land kind CorILMethod_Sect_MoreSects =? 0)).
Definition Sect_Kind (p : Z) : result Z := kind ← uint_at p 1; mret (Z.land kind CorILMethod_Sect_KindMask).
Definition Sect_IsFat (p : Z) : result bool :=
  kind ← uint_at p 1; mret (negb (Z.land kind CorILMethod_Sect_FatFormat =? 0)).

(** [COR_ILMETHOD_SECT_FAT::GetDataSize], and the byte [DataSize] of a small
    section. *)
Definition Fat_GetDataSize (p : Z) : result Z :=
  b1 ← uint_at (p + 1) 1; b2 ← uint_at (p + 2) 1; b3 ← uint_at (p + 3) 1;
  mret (Z.lor (Z.lor b1 (Z.shiftl b2 8)) (Z.shiftl b3 16)).
Definition Small_DataSize (p : Z) : result Z := uint_at (p + 1) 1.

Definition Sect_DataSize (p : Z) : result Z :=
  kind ← Sect_Kind p;
  fat ← Sect_IsFat p;
  if kind =? CorILMethod_Sect_EHTable then
    if (fat : bool) then size ← Fat_GetDataSize p; mret (EH_FAT_Size (size / 24))
    else size ← Small_DataSize p; mret (EH_SMALL_Size (size / 12))
  else if (fat : bool) then Fat_GetDataSize p else Small_DataSize p.

Definition Sect_Next (p : Z) : result (option Z) :=
  more ← Sect_More p;
  if negb more then mret None else size ← Sect_DataSize p; mret (Some (Align (p + size))).

Definition EHCount (p : Z) : result Z :=
  fat ← Sect_IsFat p;
  if (fat : bool) then size ← Fat_GetDataSize p; mret (size / 24)
  else size ← Small_DataSize p; mret (size / 12).

(** [SectEH_EHClause]: a fat clause where it stands, a small one expanded. *)
Definition SectEH_EHClause (p idx : Z) : result EHClauseFat :=
  fat ← Sect_IsFat p;
  if (fat : bool) then
    let c := p + 4 + 24 * idx in
    Flags ← uint_at c 4; TryOffset ← uint_at (c + 4) 4; TryLength ← uint_at (c + 8) 4;
    HandlerOffset ← uint_at (c + 12) 4; HandlerLength ← uint_at (c + 16) 4; ClassToken ← uint_at (c + 20) 4;
    mret (mkEHClauseFat Flags TryOffset TryLength HandlerOffset HandlerLength ClassToken)
  else
    let c := p + 4 + 12 * idx in
    Flags ← uint_at c 2; TryOffset ← uint_at (c + 2) 2; TryLength ← uint_at (c + 4) 1;
    HandlerOffset ← uint_at (c + 5) 2; HandlerLength ← uint_at (c + 7) 1; ClassToken ← uint_at (c + 8) 4;
    mret (mkEHClauseFat (Z.land (sint 16 Flags) 0x0000ffff) TryOffset TryLength HandlerOffset HandlerLength ClassToken).

(** *** Headers; the header stands at the front of the block *)

Definition Tiny_IsTiny : result bool :=
  Flags_CodeSize ← uint_at 0 1; mret (Z.land Flags_CodeSize (Z.shiftr CorILMethod_FormatMask 1) =? CorILMethod_TinyFormat).
Definition Tiny_GetCodeSize : result Z :=
  Flags_CodeSize ← uint_at 0 1; mret (Z.shiftr Flags_CodeSize (CorILMethod_FormatShift - 1)).

Definition Fat_IsFat : result bool :=
  b0 ← uint_at 0 1; mret (Z.land b0 CorILMethod_FormatMask =? CorILMethod_FatFormat).
Definition Fat_GetFlags : result Z :=
  b0 ← uint_at 0 1; b1 ← uint_at 1 1; mret (Z.lor b0 (Z.shiftl (Z.land b1 0x0F) 8)).
Definition Fat_GetSize : result Z := b1 ← uint_at 1 1; mret (Z.shiftr b1 4).
Definition Fat_GetMaxStack : result Z := uint_at 2 2.
Definition Fat_GetCodeSize : result Z := uint_at 4 4.
Definition Fat_GetLocalVarSigTok : result Z := uint_at 8 4.
Definition Fat_More : result bool := b0 ← uint_at 0 1; mret (negb (Z.land b0 CorILMethod_MoreSects =? 0)).
Definition Fat_GetCode : result Z := size ← Fat_GetSize; mret (4 * size).
Definition Fat_GetSect : result (option Z) :=
  more ← Fat_More;
  if negb more then mret None else
  code ← Fat_GetCode; codeSize ← Fat_GetCodeSize; mret (Some (Align (code + codeSize))).

Definition DecoderInit : result COR_ILMETHOD_DECODER :=
  tiny ← Tiny_IsTiny;
  if (tiny : bool) then
    codeSize ← Tiny_GetCodeSize; mret (mkDecoder CorILMethod_TinyFormat 8 codeSize 0 (Some 1) None None)
  else
  fat ← Fat_IsFat;
  if negb fat then mret zero_decoder else
  if negb (Z.land base 3 =? 0) then mret zero_decoder else
  flags ← Fat_GetFlags; maxStack ← Fat_GetMaxStack; codeSize ← Fat_GetCodeSize; tok ← Fat_GetLocalVarSigTok;
  code ← Fat_GetCode;
  size ← Fat_GetSize;
  let decoder EH Sect := mkDecoder flags maxStack codeSize tok (Some code) EH Sect in
  if size <? 3 then mret (decoder None None) else
  Sect ← Fat_GetSect;
  match Sect with
  | None => mret (decoder None None)
  | Some sect =>
      kind ← Sect_Kind sect;
      if kind =? CorILMethod_Sect_EHTable then next ← Sect_Next sect; mret (decoder (Some sect) next)
      else mret (decoder None (Some sect))
  end.

(** [decoder.EHCount()]. *)
Definition decoder_EHCount (d : COR_ILMETHOD_DECODER) : result Z :=
  match dec_EH d with None => mret 0 | Some p => EHCount p end.

(** [decoder.GetHeaderSize()]. *)
Definition decoder_GetHeaderSize (d : COR_ILMETHOD_DECODER) : result Z :=
  size ← match dec_EH d with None => mret 0 | Some p => Sect_DataSize p end; mret (wrap 32 (dec_CodeSize d + size)).

(** [DecoderGetOnDiskSize]; each round of the loop goes to the next section. *)
Fixpoint last_section (fuel : nat) (sect : option Z) (lastAddr : Z) : result Z :=
  match sect with
  | None => mret lastAddr
  | Some p =>
      match fuel with
      | O => Err OutOfFuel
      | S fuel =>
          nextSect ← Sect_Next p;
          match nextSect with
          | None => size ← Sect_DataSize p; mret (p + size)
          | Some _ => last_section fuel nextSect lastAddr
          end
      end
  end.

Definition DecoderGetOnDiskSize (fuel : nat) (d : COR_ILMETHOD_DECODER) : result Z :=
  match dec_Code d with
  | None => mret 0
  | Some code =>
      let lastAddr := code + dec_CodeSize d in
      single ← match dec_EH d with
               | None => mret None
               | Some p => next ← Sect_Next p; mret (match next with None => Some p | Some _ => None end)
               end;
      match single with
      | Some p => size ← Sect_DataSize p; mret (p + size)
      | None => last_section fuel (dec_Sect d) lastAddr
      end
  end.

(** *** What [Import] reads through the decoder *)

Definition decode_method : result ILMethod :=
  d ← DecoderInit;
  code ← match dec_Code d with
         | Some p => bytes_at p (Z.to_nat (dec_CodeSize d))
         | None => if dec_CodeSize d =? 0 then mret [] else Err Undefined
         end;
  nEH ← decoder_EHCount d;
  clauses ← mapM (fun i => SectEH_EHClause (default 0 (dec_EH d)) (Z.of_nat i)) (seq 0 (Z.to_nat nEH));
  mret (mkILMethod (dec_LocalVarSigTok d) (dec_MaxStack d) (dec_Flags d) code clauses).
End Memory.

(** ** Emitting *)

(** The fields of a [COR_ILMETHOD_FAT] to be emitted are those of a decoder. *)
Definition IlmethodSize (header : COR_ILMETHOD_DECODER) (moreSections : bool) : Z :=
  if (dec_MaxStack header <=? 8) && (Z.land (dec_Flags header) (Z.lnot CorILMethod_FormatMask) =? 0) &&
     (dec_LocalVarSigTok header =? 0) && (dec_CodeSize header <? 64) && negb moreSections
  then 1 else 12.

Definition IlmethodEmit (size : Z) (header : COR_ILMETHOD_DECODER) (moreSections : bool) : list Z :=
  if size =? 1 then [wrap 8 (Z.lor CorILMethod_TinyFormat (Z.shiftl (dec_CodeSize header) 2))]
  else
    let flags := Z.lor (dec_Flags header) CorILMethod_FatFormat in
    let flags := if moreSections then Z.lor flags CorILMethod_MoreSects else flags in
    fat_header flags (dec_MaxStack header) (dec_CodeSize header) (dec_LocalVarSigTok header).

(** A clause that does not fit the fields of the small format. *)
Definition too_big (c : EHClauseFat) : bool :=
  (0xFFFF <? eh_TryOffset c) || (0xFF <? eh_TryLength c) || (0xFFFF <? eh_HandlerOffset c) || (0xFF <? eh_HandlerLength c).

Definition SectEH_SizeWorst (ehCount : Z) : Z := if negb (ehCount =? 0) then EH_FAT_Size ehCount else 0.

Definition SectEH_SizeWithCode (ehCount codeSize : Z) : Z := if negb (ehCount =? 0) then SectEH_SizeWorst ehCount else 0.

Definition SectEH_SizeExact (clauses : list EHClauseFat) : Z :=
  let ehCount := Z.of_nat (length clauses) in
  if ehCount =? 0 then 0 else
  let smallSize := EH_SMALL_Size ehCount in
  if COR_ILMETHOD_SECT_SMALL_MAX_DATASIZE <? smallSize then EH_FAT_Size ehCount else
  if existsb too_big clauses then EH_FAT_Size ehCount else smallSize.

(** The memory image of [IMAGE_COR_ILMETHOD_SECT_EH_CLAUSE_SMALL]. *)
Definition clause_small (c : EHClauseFat) : list Z :=
  le_bytes 2 (eh_Flags c) ++ le_bytes 2 (eh_TryOffset c) ++ le_bytes 1 (eh_TryLength c)
    ++ le_bytes 2 (eh_HandlerOffset c) ++ le_bytes 1 (eh_HandlerLength c) ++ le_bytes 4 (eh_ClassTokenOrFilterOffset c).

(** The loop over the clauses of the small format stops at the first that is too
    big; [None] where it writes outside the block. *)
Fixpoint emit_small (p : Z) (clauses : list EHClauseFat) (outBuff : list Z) : option (list Z * bool) :=
  match clauses with
  | [] => Some (outBuff, true)
  | c :: clauses =>
      if too_big c then Some (outBuff, false) else
      outBuff ← write_at outBuff p (clause_small c);
      emit_small (p + 12) clauses outBuff
  end.

(** The section in the block and its size.  [ehTypeOffsets] is null, as by
    default; that flags fit 16 bits, which is asserted, is left to the theorems. *)
Definition SectEH_Emit (size : Z) (clauses : list EHClauseFat) (moreSections : bool) (outBuff : list Z) : option (list Z * Z) :=
  let ehCount := Z.of_nat (length clauses) in
  let more := if moreSections then CorILMethod_Sect_MoreSects else 0 in
  if (size =? 0) || (ehCount <=? 0) then Some (outBuff, 0) else
  small ← (if EH_SMALL_Size ehCount <? COR_ILMETHOD_SECT_SMALL_MAX_DATASIZE then emit_small 4 clauses outBuff
           else Some (outBuff, false));
  let '(outBuff, complete) := (small : list Z * bool) in
  if complete then
    outBuff ← write_at outBuff 0
      [Z.lor CorILMethod_Sect_EHTable more; wrap 8 (EH_SMALL_Size ehCount); 0; 0];
    Some (outBuff, size)
  else
    outBuff ← write_at outBuff 0
      (sect_fat (Z.lor (Z.lor CorILMethod_Sect_EHTable CorILMethod_Sect_FatFormat) more) (EH_FAT_Size ehCount));
    outBuff ← write_at outBuff 4 (clauses ≫= clause_fat);
    Some (outBuff, size).

(** A whole method laid out with these functions: header, code, and the section
    behind [pad]. *)
Definition emitted_header (header : COR_ILMETHOD_DECODER) (clauses : list EHClauseFat) : list Z :=
  let more := negb (length clauses =? 0)%nat in IlmethodEmit (IlmethodSize header more) header more.
Definition emitted_flags (header : COR_ILMETHOD_DECODER) (clauses : list EHClauseFat) : Z :=
  let flags := Z.lor (dec_Flags header) CorILMethod_FatFormat in
  if negb (length clauses =? 0)%nat then Z.lor flags CorILMethod_MoreSects else flags.

(** ** Reading what stands in the block *)

Lemma uint_at_seg mem p bs : seg_at mem p bs -> uint_at mem p (length bs) = Ok (le_Z bs).
Proof. unfold uint_at, bytes_at, seg_at. by intros ->. Qed.

Lemma uint_at_wrap mem p n z : seg_at mem p (le_bytes n z) -> uint_at mem p n = Ok (wrap (8 * Z.of_nat n) z).
Proof. intros H. apply uint_at_seg in H. by rewrite length_le_bytes, le_Z_bytes in H. Qed.

Lemma uint_at_le mem p n z : seg_at mem p (le_bytes n z) -> is_uint (8 * Z.of_nat n) z -> uint_at mem p n = Ok z.
Proof. intros H Hz. apply uint_at_wrap in H. by rewrite H, wrap_small. Qed.

Lemma uint_at_byte mem p b : seg_at mem p [b] -> uint_at mem p 1 = Ok b.
Proof. intros H. apply uint_at_seg in H. simpl in H. by rewrite Z.add_0_r in H. Qed.

(** The next segment of an append. *)
Lemma seg_at_next {A} (mem b1 b2 : list A) i j :
  seg_at mem i (b1 ++ b2) -> j = i + Z.of_nat (length b1) -> seg_at mem i b1 /\ seg_at mem j b2.
Proof. intros H ->. by apply seg_at_app. Qed.
Ltac seg_next H H1 j := apply (seg_at_next _ _ _ _ j) in H as [H1 H]; [|rewrite ?length_le_bytes; simpl; lia].

Ltac run_bind := cbn [mbind result_bind mret result_ret].

Lemma land_byte x k : Z.land 255 k = k -> Z.land (x mod 256) k = Z.land x k.
Proof. intros Hk. rewrite <- (Z.land_ones x 8 : _ -> _ = x mod 256), <- Z.land_assoc by done. f_equal. exact Hk. Qed.

Lemma Align_run base p : base mod 4 = 0 -> Align base p = 4 * ((p + 3) / 4).
Proof.
  intros Hb. unfold Align. replace (Z.land (base + p + 3) (Z.lnot 3)) with (Z.ldiff (base + p + 3) (Z.ones 2))
    by (by rewrite Z.ldiff_land).
  rewrite Z.ldiff_ones_r, Z.shiftl_mul_pow2, Z.shiftr_div_pow2 by done. change (2 ^ 2) with 4. lia.
Qed.

Lemma aligned_div n : 0 <= n < 2 ^ 31 -> aligned n = 4 * ((n + 3) / 4).
Proof.
  intros Hn. unfold aligned. rewrite (wrap_small 32) by (unfold is_uint; lia). apply align_4. unfold is_uint. lia.
Qed.

(** ** The fat header *)

Section Header.
Context (mem : list Z) (flags maxStack codeSize tok : Z).
Hypothesis Hmem : seg_at mem 0 (fat_header flags maxStack codeSize tok).
Hypothesis Hflags : is_uint 12 flags.
Hypothesis Hsize : is_uint 32 codeSize.
Hypothesis Htok : is_uint 32 tok.

Lemma fat_header_bytes :
  fat_header flags maxStack codeSize tok =
    [flags mod 256] ++ [flags / 256 + 48] ++ le_bytes 2 maxStack ++ le_bytes 4 codeSize ++ le_bytes 4 tok.
Proof using Hflags.
  unfold fat_header. rewrite (wrap_small 12) by done. change (wrap 4 3 * 2 ^ 12) with 12288.
  unfold is_uint in Hflags. change (2 ^ 12) with 4096 in Hflags.
  rewrite (le_bytes_join 2 2 (flags + 12288)) by (unfold is_uint; simpl; lia).
  rewrite (le_bytes_wrap 2 maxStack : le_bytes 2 (wrap 16 maxStack) = _). rewrite <- !app_assoc, (app_assoc [_]). f_equal. cbn [le_bytes app]. f_equal; [|f_equal]. all: lia.
Qed.

Lemma header_fields :
  uint_at mem 0 1 = Ok (flags mod 256) /\ uint_at mem 1 1 = Ok (flags / 256 + 48) /\
  uint_at mem 2 2 = Ok (wrap 16 maxStack) /\ uint_at mem 4 4 = Ok codeSize /\ uint_at mem 8 4 = Ok tok.
Proof using All.
  pose proof Hmem as H. rewrite fat_header_bytes in H.
  seg_next H H1 1. seg_next H H2 2. seg_next H H3 4. seg_next H H4 8.
  split_and!; first [by apply uint_at_byte|by apply (uint_at_wrap _ _ 2)|by apply uint_at_le].
Qed.

Lemma Tiny_IsTiny_run : Tiny_IsTiny mem = Ok (flags mod 4 =? 2).
Proof using All.
  unfold Tiny_IsTiny. destruct header_fields as (-> & _). run_bind.
  change (Z.shiftr CorILMethod_FormatMask 1) with 3. by rewrite land_byte, (Z.land_ones flags 2 : _ -> Z.land flags 3 = _).
Qed.
Lemma Fat_IsFat_run : Fat_IsFat mem = Ok (flags mod 8 =? 3).
Proof using All.
  unfold Fat_IsFat. destruct header_fields as (-> & _). run_bind.
  change CorILMethod_FormatMask with 7. by rewrite land_byte, (Z.land_ones flags 3 : _ -> Z.land flags 7 = _).
Qed.
Lemma Fat_More_run : Fat_More mem = Ok (negb (Z.land flags CorILMethod_MoreSects =? 0)).
Proof using All.
  unfold Fat_More. destruct header_fields as (-> & _). run_bind. by rewrite land_byte.
Qed.
Lemma Fat_GetSize_run : Fat_GetSize mem = Ok 3.
Proof using All.
  unfold Fat_GetSize. destruct header_fields as (_ & -> & _). run_bind.
  rewrite Z.shiftr_div_pow2 by done. unfold is_uint in Hflags. change (2 ^ 12) with 4096 in Hflags.
  change (2 ^ 4) with 16. unfold mret, result_ret. f_equal. lia.
Qed.
Lemma Fat_GetFlags_run : Fat_GetFlags mem = Ok flags.
Proof using All.
  unfold Fat_GetFlags. destruct header_fields as (-> & -> & _). run_bind. unfold mret, result_ret.
  unfold is_uint in Hflags. change (2 ^ 12) with 4096 in Hflags. change 0x0F with (Z.ones 4). rewrite Z.land_ones by done.
  rewrite Z.lor_comm, lor_shiftl_add by lia. change (2 ^ 8) with 256. change (2 ^ 4) with 16. f_equal. lia.
Qed.
End Header.

(** ** Sections *)

Definition clause_u32 (c : EHClauseFat) : Prop :=
  Forall (is_uint 32) [eh_Flags c; eh_TryOffset c; eh_TryLength c; eh_HandlerOffset c; eh_HandlerLength c;
    eh_ClassTokenOrFilterOffset c].
#[export] Instance clause_u32_dec c : Decision (clause_u32 c).
Proof. unfold clause_u32. apply _. Defined.

(** An exception section of [size] bytes that stands last and spells the
    clauses [cs]. *)
Record reads_section (base : Z) (mem : list Z) (p size : Z) (cs : list EHClauseFat) : Prop := {
  rs_kind : Sect_Kind mem p = Ok CorILMethod_Sect_EHTable;
  rs_next : Sect_Next base mem p = Ok None;
  rs_size : Sect_DataSize mem p = Ok size;
  rs_count : EHCount mem p = Ok (Z.of_nat (length cs));
  rs_clause i c : cs !! i = Some c -> SectEH_EHClause mem p (Z.of_nat i) = Ok c
}.

Lemma seg_at_mjoin {A B} (f : A -> list B) mem p k (l : list A) i x :
  (forall x, length (f x) = k) -> seg_at mem p (l ≫= f) -> l !! i = Some x ->
  seg_at mem (p + Z.of_nat k * Z.of_nat i) (f x).
Proof.
  intros Hk. revert p i. induction l as [|y l IH]; intros p i; [done|].
  change ((y :: l) ≫= f) with (f y ++ (l ≫= f)). intros [Hy Hl]%seg_at_app Hi. destruct i as [|i]; simpl in Hi.
  - injection Hi as ->. by rewrite Z.mul_0_r, Z.add_0_r.
  - rewrite Hk in Hl. specialize (IH _ _ Hl Hi). by replace (p + _ * _) with (p + Z.of_nat k + Z.of_nat k * Z.of_nat i) by lia.
Qed.

(** The unsigned subtraction does no harm, not even for no clause. *)
Lemma eh_size k d n : is_uint 32 (d + k * n) -> wrap 32 (d + k + k * wrap 32 (n - 1)) = d + k * n.
Proof.
  intros H. unfold wrap at 1 2. rewrite Z.add_mod, Z.mul_mod_idemp_r, <- Z.add_mod by done.
  replace (d + k + k * (n - 1)) with (d + k * n) by lia. by apply wrap_small.
Qed.
Lemma EH_FAT_Size_run n : 0 <= n -> 4 + 24 * n < 2 ^ 32 -> EH_FAT_Size n = 4 + 24 * n.
Proof. intros. apply (eh_size 24 4). unfold is_uint. lia. Qed.
Lemma EH_SMALL_Size_run n : 0 <= n -> 4 + 12 * n < 2 ^ 32 -> EH_SMALL_Size n = 4 + 12 * n.
Proof. intros. apply (eh_size 12 4). unfold is_uint. lia. Qed.

Section Sections.
Context (base : Z) (mem : list Z) (p : Z).

(** The byte [Kind] of a last section. *)
Lemma kind_run kind :
  seg_at mem p [kind] -> Z.land kind CorILMethod_Sect_KindMask = CorILMethod_Sect_EHTable ->
  Z.land kind CorILMethod_Sect_MoreSects = 0 ->
  Sect_Kind mem p = Ok CorILMethod_Sect_EHTable /\ Sect_Next base mem p = Ok None /\
  Sect_IsFat mem p = Ok (negb (Z.land kind CorILMethod_Sect_FatFormat =? 0)).
Proof.
  intros H%uint_at_byte Hk Hm. unfold Sect_Kind, Sect_Next, Sect_More, Sect_IsFat. rewrite H. run_bind. by rewrite Hk, Hm.
Qed.

Lemma sect_fat_bytes kind size :
  is_uint 8 kind -> sect_fat kind size = le_bytes 1 kind ++ le_bytes 3 size.
Proof.
  intros Hk. unfold sect_fat. rewrite (wrap_small 8) by done.
  etransitivity; [apply (le_bytes_join 1 3 kind _ Hk)|]. by rewrite (le_bytes_wrap 3 size : le_bytes 3 (wrap 24 size) = _).
Qed.

Lemma Fat_GetDataSize_run size : seg_at mem (p + 1) (le_bytes 3 size) -> Fat_GetDataSize mem p = Ok (wrap 24 size).
Proof.
  intros H. pose proof (le_Z_bytes 3 size) as E. cbn [le_bytes le_Z] in H, E.
  change (wrap (8 * Z.of_nat 3) size) with (wrap 24 size) in E. rewrite <- E.
  change ([?a; ?b; ?c]) with ([a] ++ [b] ++ [c]) in H. seg_next H H1 (p + 2). seg_next H H2 (p + 3).
  unfold Fat_GetDataSize. rewrite (uint_at_byte _ _ _ H1), (uint_at_byte _ _ _ H2), (uint_at_byte _ _ _ H). run_bind.
  unfold mret, result_ret. f_equal. clear. set (b1 := size mod 256). set (b2 := size / 256 mod 256).
  set (b3 := size / 256 / 256 mod 256). assert (0 <= b1 < 256 /\ 0 <= b2 < 256 /\ 0 <= b3 < 256) as (? & ? & ?) by (subst b1 b2 b3; lia).
  clearbody b1 b2 b3. rewrite (Z.lor_comm b1), lor_shiftl_add, Z.lor_comm, lor_shiftl_add by (simpl; lia).
  change (2 ^ 16) with 65536. change (2 ^ 8) with 256. lia.
Qed.

Lemma fat_section_read cs :
  cs <> [] -> 4 + 24 * Z.of_nat (length cs) < 2 ^ 24 -> Forall clause_u32 cs ->
  seg_at mem p (eh_section cs) -> reads_section base mem p (4 + 24 * Z.of_nat (length cs)) cs.
Proof.
  intros Hne Hsz Hcs H. unfold eh_section in H.
  assert (seg_at mem p (sect_fat (Z.lor CorILMethod_Sect_EHTable CorILMethod_Sect_FatFormat)
    (wrap 32 (4 + 24 * Z.of_nat (length cs))) ++ (cs ≫= clause_fat))) as H' by (by destruct cs). clear H Hne.
  rewrite sect_fat_bytes, <- app_assoc in H' by (by split). seg_next H' H1 (p + 1). seg_next H' H2 (p + 4).
  destruct (kind_run 0x41 H1 eq_refl eq_refl) as (R1 & R2 & R3).
  pose proof (Fat_GetDataSize_run _ H2) as R4. rewrite wrap_wrap_le, wrap_small in R4 by (unfold is_uint; lia).
  assert ((4 + 24 * Z.of_nat (length cs)) / 24 = Z.of_nat (length cs)) as E by lia.
  split; try done.
  - unfold Sect_DataSize. rewrite R1, R3. run_bind. simpl. rewrite R4. run_bind. rewrite E. by rewrite EH_FAT_Size_run by lia.
  - unfold EHCount. rewrite R3. run_bind. simpl. rewrite R4. run_bind. by rewrite E.
  - intros i c Hi. unfold SectEH_EHClause. rewrite R3. run_bind. simpl negb. cbv iota zeta.
    pose proof (Forall_lookup_1 _ _ _ _ Hcs Hi) as Hc. unfold clause_u32 in Hc.
    repeat (apply Forall_cons in Hc as [? Hc]).
    pose proof (seg_at_mjoin clause_fat mem (p + 4) 24 cs i c length_clause_fat H' Hi) as Hs.
    change (Z.of_nat 24) with 24 in Hs. set (q := p + 4 + 24 * Z.of_nat i) in *. unfold clause_fat in Hs.
    seg_next Hs S1 (q + 4). seg_next Hs S2 (q + 8). seg_next Hs S3 (q + 12). seg_next Hs S4 (q + 16). seg_next Hs S5 (q + 20).
    rewrite (uint_at_le _ _ _ _ S1), (uint_at_le _ _ _ _ S2), (uint_at_le _ _ _ _ S3), (uint_at_le _ _ _ _ S4),
      (uint_at_le _ _ _ _ S5), (uint_at_le _ _ _ _ Hs) by done. by destruct c.
Qed.

(** A clause the small format holds. *)
Definition clause_small_ok (c : EHClauseFat) : Prop := is_uint 16 (eh_Flags c) /\ too_big c = false.

Lemma length_clause_small c : length (clause_small c) = 12%nat.
Proof. done. Qed.

Definition small_section (cs : list EHClauseFat) : list Z :=
  [CorILMethod_Sect_EHTable; 4 + 12 * Z.of_nat (length cs); 0; 0] ++ (cs ≫= clause_small).

Lemma small_section_read cs :
  (length cs <= 20)%nat -> Forall clause_u32 cs -> Forall clause_small_ok cs ->
  seg_at mem p (small_section cs) -> reads_section base mem p (4 + 12 * Z.of_nat (length cs)) cs.
Proof.
  intros Hn Hu Hcs H. unfold small_section in H. change ([?a; ?b; ?c; ?d]) with ([a] ++ [b] ++ [c; d]) in H.
  rewrite <- !(app_assoc [_]) in H. seg_next H H1 (p + 1). seg_next H H2 (p + 2). seg_next H H3 (p + 4).
  destruct (kind_run 1 H1 eq_refl eq_refl) as (R1 & R2 & R3).
  pose proof (uint_at_byte _ _ _ H2) as R4.
  assert ((4 + 12 * Z.of_nat (length cs)) / 12 = Z.of_nat (length cs)) as E by lia.
  split; try done.
  - unfold Sect_DataSize, Small_DataSize. rewrite R1, R3. run_bind. simpl negb. simpl Z.eqb. cbv iota. rewrite R4. run_bind.
    rewrite E. by rewrite EH_SMALL_Size_run by lia.
  - unfold EHCount, Small_DataSize. rewrite R3. run_bind. simpl negb. cbv iota. rewrite R4. run_bind. by rewrite E.
  - intros i c Hi. unfold SectEH_EHClause. rewrite R3. run_bind. simpl negb. cbv iota zeta.
    pose proof (Forall_lookup_1 _ _ _ _ Hcs Hi) as [Hf Hb]. unfold too_big in Hb.
    pose proof (Forall_lookup_1 _ _ _ _ Hu Hi) as Hc. unfold clause_u32, is_uint in Hc, Hf.
    repeat (apply Forall_cons in Hc as [? Hc]).
    pose proof (seg_at_mjoin clause_small mem (p + 4) 12 cs i c length_clause_small H Hi) as Hs.
    change (Z.of_nat 12) with 12 in Hs. set (q := p + 4 + 12 * Z.of_nat i) in *. unfold clause_small in Hs.
    seg_next Hs S1 (q + 2). seg_next Hs S2 (q + 4). seg_next Hs S3 (q + 5). seg_next Hs S4 (q + 7). seg_next Hs S5 (q + 8).
    rewrite (uint_at_le _ _ _ _ S1), (uint_at_le _ _ _ _ S2), (uint_at_le _ _ _ _ S3), (uint_at_le _ _ _ _ S4),
      (uint_at_le _ _ _ _ S5), (uint_at_le _ _ _ _ Hs) by (unfold is_uint; simpl; lia).
    run_bind. rewrite (Z.land_ones _ 16 : _ -> Z.land _ 0x0000ffff = _) by done.
    change (?a mod 2 ^ 16) with (wrap 16 a). rewrite wrap_sint, wrap_small by done. by destruct c.
Qed.
End Sections.

(** ** Methods *)

Lemma mapM_seq (f : nat -> result EHClauseFat) l k :
  (forall i c, l !! i = Some c -> f (k + i)%nat = Ok c) -> mapM f (seq k (length l)) = Ok l.
Proof.
  revert k. induction l as [|c l IH]; intros k H; [done|]. cbn [length seq mapM].
  specialize (H 0%nat c eq_refl) as H0. rewrite Nat.add_0_r in H0. rewrite H0. run_bind. rewrite IH; [done|].
  intros i c' Hi. rewrite <- (H (S i) c' Hi). f_equal. lia.
Qed.

Section Method.
Context (base : Z) (mem : list Z) (flags maxStack tok : Z) (code : list Z) (cs : list EHClauseFat).
Hypothesis Hbase : base mod 4 = 0.
Hypothesis Hmem : seg_at mem 0 (fat_header flags maxStack (Z.of_nat (length code)) tok ++ code).
Hypothesis Hflags : is_uint 12 flags.
Hypothesis Hfat : flags mod 8 = 3.
Hypothesis Hmore : Z.land flags CorILMethod_MoreSects = 0 <-> cs = [].
Hypothesis Hcode : Z.of_nat (length code) < 2 ^ 31.
Hypothesis Htok : is_uint 32 tok.
Hypothesis Hsect : cs <> [] -> exists size, reads_section base mem (12 + aligned (Z.of_nat (length code))) size cs.

Definition fat_decoder : COR_ILMETHOD_DECODER :=
  mkDecoder flags (wrap 16 maxStack) (Z.of_nat (length code)) tok (Some 12)
    (if cs is [] then None else Some (12 + aligned (Z.of_nat (length code)))) None.

Lemma DecoderInit_fat : DecoderInit base mem = Ok fat_decoder.
Proof using All.
  pose proof Hmem as [H _]%seg_at_app. assert (is_uint 32 (Z.of_nat (length code))) as Hn by (unfold is_uint; lia).
  unfold DecoderInit.
  rewrite (Tiny_IsTiny_run _ _ _ _ _ H), (Fat_IsFat_run _ _ _ _ _ H), (Fat_GetFlags_run _ _ _ _ _ H) by done. run_bind.
  destruct (header_fields _ _ _ _ _ H Hflags Hn Htok) as (_ & _ & H2 & H4 & H8).
  unfold Fat_GetMaxStack, Fat_GetCodeSize, Fat_GetLocalVarSigTok, Fat_GetSect, Fat_GetCode, Fat_GetCodeSize.
  rewrite (Fat_More_run _ _ _ _ _ H), (Fat_GetSize_run _ _ _ _ _ H), H2, H4, H8 by done. run_bind.
  rewrite Hfat. assert ((flags mod 4 =? 2) = false) as -> by lia. cbn [Z.eqb Pos.eqb negb]. cbv iota.
  rewrite (Z.land_ones base 2 : _ -> Z.land base 3 = _) by done. change (2 ^ 2) with 4. rewrite Hbase. simpl Z.eqb. simpl Z.ltb. cbv iota.
  unfold fat_decoder. destruct cs as [|c cs'] eqn:E; rewrite <- E in *.
  - rewrite (proj2 Hmore) by done. done.
  - destruct (Z.eqb_spec (Z.land flags CorILMethod_MoreSects) 0) as [H0|_]; [apply Hmore in H0; congruence|].
    cbn [negb]. run_bind. change (4 * 3) with 12. rewrite Align_run by done.
    assert (4 * ((12 + Z.of_nat (length code) + 3) / 4) = 12 + aligned (Z.of_nat (length code))) as -> by (rewrite aligned_div; lia).
    destruct Hsect as [? [S1 S2 _ _ _]]; [congruence|]. rewrite S1. run_bind. simpl Z.eqb. cbv iota. rewrite S2. by run_bind.
Qed.

Lemma decode_fat : decode_method base mem = Ok (mkILMethod tok (wrap 16 maxStack) flags code cs).
Proof using All.
  pose proof Hmem as [_ H]%seg_at_app. change (0 + Z.of_nat (length (fat_header _ _ _ _))) with 12 in H.
  unfold decode_method. rewrite DecoderInit_fat. unfold fat_decoder. run_bind. cbn [dec_Code dec_CodeSize dec_EH dec_LocalVarSigTok dec_MaxStack dec_Flags].
  unfold bytes_at. rewrite Nat2Z.id, H. run_bind. unfold decoder_EHCount. cbn [dec_EH].
  destruct cs as [|c cs'] eqn:E; [done|]. rewrite <- E in *. destruct Hsect as [? [_ _ _ S3 S4]]; [congruence|].
  rewrite S3. run_bind. rewrite Nat2Z.id. unfold default, from_option. rewrite (mapM_seq _ cs 0); [done|]. intros i c' Hi. by apply S4.
Qed.
End Method.

(** The bodies that [Export] and [exportIL] hand to the runtime. *)
Definition fat_flags (initLocals : Z) (cs : list EHClauseFat) : Z :=
  Z.lor (Z.lor initLocals (if cs is [] then 0 else CorILMethod_MoreSects)) CorILMethod_FatFormat.

Lemma init_locals flags : Z.land flags CorILMethod_InitLocals = 0 \/ Z.land flags CorILMethod_InitLocals = 16.
Proof.
  assert (Z.land flags (2 ^ 4) = if Z.testbit flags 4 then 2 ^ 4 else 0) as H.
  { apply Z.bits_inj'. intros n Hn. rewrite Z.land_spec. destruct (Z.eqb_spec 4 n) as [<-|Hne].
    - by destruct (Z.testbit flags 4).
    - rewrite Z.pow2_bits_false, andb_false_r by done. destruct (Z.testbit flags 4); [by rewrite Z.pow2_bits_false|by rewrite Z.bits_0]. }
  change (Z.land flags CorILMethod_InitLocals) with (Z.land flags (2 ^ 4)). rewrite H. destruct (Z.testbit flags 4); [by right|by left].
Qed.

Lemma fat_flags_spec flags cs :
  is_uint 12 (fat_flags (Z.land flags CorILMethod_InitLocals) cs) /\
  fat_flags (Z.land flags CorILMethod_InitLocals) cs mod 8 = 3 /\
  (Z.land (fat_flags (Z.land flags CorILMethod_InitLocals) cs) CorILMethod_MoreSects = 0 <-> cs = []).
Proof. by destruct (init_locals flags) as [-> | ->]; destruct cs; repeat split. Qed.

Lemma seg_at_mid {A} (a b c : list A) : seg_at (a ++ b ++ c) (Z.of_nat (length a)) b.
Proof. apply read_at_app_r. Qed.

Lemma decode_fat_body base flags maxStack sig code pad cs :
  base mod 4 = 0 -> Z.of_nat (length code) < 2 ^ 31 -> is_uint 32 sig ->
  4 + 24 * Z.of_nat (length cs) < 2 ^ 24 -> Forall clause_u32 cs ->
  Z.of_nat (length pad) = aligned (Z.of_nat (length code)) - Z.of_nat (length code) ->
  let flags' := Z.land flags CorILMethod_InitLocals in
  decode_method base (fat_body flags' maxStack sig code pad cs) =
    Ok (mkILMethod sig (wrap 16 maxStack) (fat_flags flags' cs) code cs).
Proof.
  intros Hb Hc Hs Hn Hcs Hp flags'. destruct (fat_flags_spec flags cs) as (F1 & F2 & F3). fold flags' in F1, F2, F3.
  set (hdr := fat_header (fat_flags flags' cs) maxStack (Z.of_nat (length code)) sig).
  assert (fat_body flags' maxStack sig code pad cs = (hdr ++ code) ++ pad ++ eh_section cs) as -> by (by rewrite <- app_assoc).
  apply decode_fat; try done.
  - apply (seg_at_mid [] (hdr ++ code) (pad ++ eh_section cs)).
  - intros Hne. eexists. apply fat_section_read; try done.
    pose proof (seg_at_mid (hdr ++ code ++ pad) (eh_section cs) []) as H. rewrite app_nil_r, !length_app in H.
    rewrite <- !app_assoc in *. replace (12 + _) with (Z.of_nat (length hdr + (length code + length pad))); [done|].
    change (length hdr) with 12%nat. lia.
Qed.

(** ** What is read is within its fields *)

Lemma uint_at_range mem p n z : Forall is_byte mem -> uint_at mem p n = Ok z -> is_uint (8 * Z.of_nat n) z.
Proof.
  intros Hm. unfold uint_at, bytes_at. destruct (read_at mem p n) as [bs|] eqn:E; [|done]. intros [= <-].
  rewrite <- (read_at_length _ _ _ _ E). apply le_Z_range. eapply seg_at_Forall; [done|]. by eapply seg_at_read.
Qed.

Lemma mapM_result_Forall {A B} (f : A -> result B) (P : B -> Prop) l ys :
  mapM f l = Ok ys -> (forall x y, f x = Ok y -> P y) -> Forall P ys /\ length ys = length l.
Proof.
  intros H HP. revert ys H. induction l as [|x l IH]; intros ys H; cbn [mapM] in H.
  { injection H as <-. by split. }
  apply result_bind_ok in H as (y & Hy & H). apply result_bind_ok in H as (ys' & Hys & H). injection H as <-.
  destruct (IH _ Hys) as [H1 H2]. simpl. split; [constructor; eauto|lia].
Qed.

Ltac bind_inv :=
  repeat match goal with
  | H : mbind _ _ = Ok _ |- _ => apply result_bind_ok in H as (? & ? & H)
  | H : mret _ = Ok _ |- _ => injection H as <-
  | H : Ok _ = Ok _ |- _ => injection H as <-
  | H : (if ?b then _ else _) = Ok _ |- _ => destruct b
  | H : match ?o with Some _ => _ | None => _ end = Ok _ |- _ => destruct o
  | H : Err _ = Ok _ |- _ => discriminate H
  end.

Section Ranges.
Context (base : Z) (mem : list Z).
Hypothesis Hbytes : Forall is_byte mem.

Lemma SectEH_EHClause_range p i c : SectEH_EHClause mem p i = Ok c -> clause_u32 c.
Proof using Hbytes.
  unfold SectEH_EHClause. intros H. bind_inv;
    repeat match goal with H : uint_at _ _ _ = Ok _ |- _ => apply (uint_at_range _ _ _ _ Hbytes) in H end;
    repeat constructor; simpl; unfold is_uint in *; simpl in *; try lia.
  all: rewrite (Z.land_ones _ 16 : _ -> Z.land _ 0x0000ffff = _) by done.
  all: match goal with |- context [?a mod 2 ^ 16] => pose proof (Z.mod_pos_bound a (2 ^ 16) ltac:(lia)); lia end.
Qed.

Lemma decoder_EHCount_range d n : decoder_EHCount mem d = Ok n -> 4 + 24 * n < 2 ^ 24.
Proof using Hbytes.
  unfold decoder_EHCount, EHCount, Fat_GetDataSize, Small_DataSize. intros H. bind_inv; try lia;
    repeat match goal with H : uint_at _ _ _ = Ok _ |- _ => apply (uint_at_range _ _ _ _ Hbytes) in H end;
    unfold is_uint in *; simpl in *; [|lia].
  rewrite (Z.lor_comm x0), lor_shiftl_add, Z.lor_comm, lor_shiftl_add by (simpl; lia). change (2 ^ 16) with 65536. change (2 ^ 8) with 256. lia.
Qed.

(** What a method read from memory satisfies. *)
Lemma decode_method_range d :
  decode_method base mem = Ok d ->
  Forall is_byte (il_Code d) /\ Forall clause_u32 (il_EH d) /\ is_uint 32 (il_LocalVarSigTok d) /\
  4 + 24 * Z.of_nat (length (il_EH d)) < 2 ^ 24.
Proof using Hbytes.
  unfold decode_method. intros H. apply result_bind_ok in H as (dec & Hdec & H).
  apply result_bind_ok in H as (code & Hcode & H). apply result_bind_ok in H as (n & Hn & H).
  apply result_bind_ok in H as (cs & Hcs & H). injection H as <-. cbn [il_Code il_EH il_LocalVarSigTok].
  apply (mapM_result_Forall _ clause_u32) in Hcs as [Hu Hl]; [|intros i c; apply SectEH_EHClause_range].
  rewrite length_seq in Hl. apply decoder_EHCount_range in Hn. split_and!; [| |  |lia]; try done.
  - bind_inv; [|constructor]. unfold bytes_at in *. destruct (read_at _ _ _) eqn:E; [|done].
    injection Hcode as <-. eapply seg_at_Forall; [done|]. by eapply seg_at_read.
  - clear - Hdec Hbytes. unfold DecoderInit in Hdec.
    assert (forall z, Fat_GetLocalVarSigTok mem = Ok z -> is_uint 32 z) as Ht by (intros z; apply uint_at_range; done).
    assert (is_uint 32 0) as H0 by (unfold is_uint; lia). bind_inv; simpl; auto.
Qed.
End Ranges.

(** ** Emitted methods *)

(** The loop over the clauses of the small format. *)
Lemma emit_small_run cs : forall p block,
  0 <= p -> p + 12 * Z.of_nat (length cs) <= Z.of_nat (length block) ->
  exists block', emit_small p cs block = Some (block', negb (existsb too_big cs)) /\ length block' = length block /\
    (existsb too_big cs = false -> seg_at block' p (cs ≫= clause_small)) /\
    (forall j n, j + Z.of_nat n <= p -> read_at block' j n = read_at block j n).
Proof.
  induction cs as [|c cs IH]; intros p block Hp Hle.
  { exists block. split_and!; try done. intros _. apply seg_at_nil. simpl in Hle. lia. }
  cbn [length] in Hle. cbn [emit_small existsb]. destruct (too_big c) eqn:E; [by exists block|].
  destruct (write_at_some block p (clause_small c)) as [b1 Hw]; [lia|rewrite length_clause_small; lia|].
  rewrite Hw. cbn [mbind option_bind orb]. pose proof (write_at_length _ _ _ _ Hw) as Hl.
  destruct (IH (p + 12) b1) as (b2 & Hr & Hl2 & Hs & Ho); [lia|lia|].
  exists b2. split_and!; [done|lia| |].
  - intros H. apply seg_at_app. split; [|by apply Hs]. unfold seg_at. rewrite Ho by (rewrite length_clause_small; lia).
    by eapply write_at_seg.
  - intros j n Hj. rewrite Ho by lia. eapply write_at_read_other; [exact Hw|lia].
Qed.

Lemma length_small_section cs : Z.of_nat (length (small_section cs)) = 4 + 12 * Z.of_nat (length cs).
Proof.
  unfold small_section. rewrite length_app. replace (length (cs ≫= clause_small)) with (12 * length cs)%nat; [simpl; lia|].
  induction cs as [|c cs IH]; [done|]. change ((c :: cs) ≫= clause_small) with (clause_small c ++ (cs ≫= clause_small)).
  rewrite length_app, <- IH, length_clause_small. simpl. lia.
Qed.

Lemma length_eh_section cs : cs <> [] -> Z.of_nat (length (eh_section cs)) = 4 + 24 * Z.of_nat (length cs).
Proof. intros Hne. unfold eh_section. destruct cs as [|c cs]; [done|]. rewrite length_app, length_clauses. change (length (sect_fat _ _)) with 4%nat. lia. Qed.

(** Whether the small format is chosen. *)
Definition small_format (cs : list EHClauseFat) : bool := (length cs <=? 20)%nat && negb (existsb too_big cs).
Definition best_section (cs : list EHClauseFat) : list Z := if small_format cs then small_section cs else eh_section cs.

Section Emit.
Context (cs : list EHClauseFat).
Hypothesis Hne : cs <> [].
Hypothesis Hlen : 4 + 24 * Z.of_nat (length cs) < 2 ^ 24.

Lemma length_pos : 0 < Z.of_nat (length cs).
Proof using Hne. clear Hlen. destruct cs; [done|]. simpl. lia. Qed.

Lemma EH_sizes :
  EH_SMALL_Size (Z.of_nat (length cs)) = 4 + 12 * Z.of_nat (length cs) /\
  EH_FAT_Size (Z.of_nat (length cs)) = 4 + 24 * Z.of_nat (length cs).
Proof using Hlen. split; [apply EH_SMALL_Size_run|apply EH_FAT_Size_run]; lia. Qed.

Lemma SizeExact_run : SectEH_SizeExact cs = Z.of_nat (length (best_section cs)).
Proof using Hne Hlen.
  pose proof length_pos. destruct EH_sizes as [E1 E2]. unfold SectEH_SizeExact, best_section, small_format, COR_ILMETHOD_SECT_SMALL_MAX_DATASIZE.
  rewrite E1, E2. destruct (Z.eqb_spec (Z.of_nat (length cs)) 0); [lia|].
  destruct (Z.ltb_spec 0xFF (4 + 12 * Z.of_nat (length cs))); destruct (Nat.leb_spec (length cs) 20); try lia; cbn [andb].
  - by rewrite length_eh_section.
  - destruct (existsb too_big cs); cbn [negb]; [by rewrite length_eh_section|by rewrite length_small_section].
Qed.

Lemma SectEH_Emit_run block :
  length block = length (best_section cs) ->
  SectEH_Emit (SectEH_SizeExact cs) cs false block = Some (best_section cs, SectEH_SizeExact cs).
Proof using Hne Hlen.
  intros Hb. rewrite SizeExact_run. pose proof length_pos. destruct EH_sizes as [E1 E2]. unfold SectEH_Emit. cbv zeta. rewrite E1, E2.
  assert (Z.of_nat (length block) = if small_format cs then 4 + 12 * Z.of_nat (length cs) else 4 + 24 * Z.of_nat (length cs)) as Hbl.
  { rewrite Hb. unfold best_section. destruct (small_format cs); [by rewrite length_small_section|by rewrite length_eh_section]. }
  destruct (Z.eqb_spec (Z.of_nat (length (best_section cs))) 0); [destruct (small_format cs); lia|].
  destruct (Z.leb_spec (Z.of_nat (length cs)) 0); [lia|]. cbn [orb].
  destruct (emit_small_run cs 4 block ltac:(lia) ltac:(destruct (small_format cs); lia)) as (b1 & R & Hl1 & Hs1 & _).
  set (small := if _ <? _ then _ else _).
  assert (exists b, small = Some (b, small_format cs) /\ length b = length block /\
    (small_format cs = true -> seg_at b 4 (cs ≫= clause_small))) as (b2 & -> & Hl2 & Hs2).
  { subst small. unfold small_format, COR_ILMETHOD_SECT_SMALL_MAX_DATASIZE.
    destruct (Z.ltb_spec (4 + 12 * Z.of_nat (length cs)) 0xFF); destruct (Nat.leb_spec (length cs) 20); try lia; cbn [andb].
    - exists b1. split_and!; [done|done|]. intros Hn. apply Hs1. by destruct (existsb too_big cs).
    - by exists block. }
  cbn [mbind option_bind]. unfold best_section in *. destruct (small_format cs) eqn:Ef.
  - rewrite length_small_section in *. apply andb_prop in Ef as [Ef%Nat.leb_le _]. rewrite (wrap_small 8) by (unfold is_uint; lia).
    set (hdr := [_; _; _; _]). destruct (write_at_some b2 0 hdr) as [b3 Hw]; [lia|simpl; lia|].
    rewrite Hw. cbn [mbind option_bind]. do 2 f_equal. symmetry. apply seg_at_all.
    + apply seg_at_app. split; [by eapply write_at_seg|]. eapply write_at_seg_other; [exact Hw|simpl; lia|by apply Hs2].
    + rewrite (write_at_length _ _ _ _ Hw), Hl2, Hb. done.
  - rewrite length_eh_section in * by done. set (hdr := sect_fat _ _).
    destruct (write_at_some b2 0 hdr) as [b3 Hw]; [lia|change (length hdr) with 4%nat; lia|].
    rewrite Hw. cbn [mbind option_bind]. pose proof (write_at_length _ _ _ _ Hw) as Hl3.
    destruct (write_at_some b3 4 (cs ≫= clause_fat)) as [b4 Hw4]; [lia|rewrite length_clauses; lia|].
    rewrite Hw4. cbn [mbind option_bind]. do 2 f_equal. symmetry. apply seg_at_all.
    + assert (eh_section cs = hdr ++ (cs ≫= clause_fat)) as ->.
      { unfold eh_section, hdr. rewrite (wrap_small 32) by (unfold is_uint; lia). by destruct cs. }
      by apply (write_at_app _ _ _ _ _ _ Hw).
    + rewrite (write_at_length _ _ _ _ Hw4), Hl3, Hl2, Hb. done.
Qed.
End Emit.

(** *** The method around the section *)

Lemma best_section_read base mem p cs :
  cs <> [] -> 4 + 24 * Z.of_nat (length cs) < 2 ^ 24 -> Forall clause_u32 cs ->
  Forall (fun c => is_uint 16 (eh_Flags c)) cs -> seg_at mem p (best_section cs) ->
  reads_section base mem p (Z.of_nat (length (best_section cs))) cs.
Proof.
  intros Hne Hn Hu Hf H. unfold best_section in *. destruct (small_format cs) eqn:E.
  - unfold small_format in E. apply andb_prop in E as [E1%Nat.leb_le E2%negb_true_iff].
    rewrite length_small_section. apply small_section_read; try done. apply Forall_forall. intros c Hc.
    split; [by eapply (proj1 (Forall_forall _ _) Hf)|]. destruct (too_big c) eqn:Ec; [|done].
    assert (existsb too_big cs = true); [|congruence]. apply existsb_exists. exists c. by rewrite <- list_elem_of_In.
  - rewrite length_eh_section by done. by apply fat_section_read.
Qed.

Lemma emitted_flags_spec h cs :
  is_uint 12 (dec_Flags h) -> dec_Flags h mod 16 < 4 ->
  is_uint 12 (emitted_flags h cs) /\ emitted_flags h cs mod 8 = 3 /\
  (Z.land (emitted_flags h cs) CorILMethod_MoreSects = 0 <-> cs = []).
Proof.
  intros Hf Hm. unfold is_uint in *. change (2 ^ 12) with 4096 in *. set (q := dec_Flags h / 16).
  assert (dec_Flags h = Z.lor (Z.shiftl q 4) (dec_Flags h mod 16)) as E by (rewrite lor_shiftl_add by lia; subst q; lia).
  assert (exists k, emitted_flags h cs = q * 16 + k /\ k mod 8 = 3 /\ 0 <= k < 16 /\ (Z.land k 8 = 0 <-> cs = [])) as (k & -> & K1 & K2 & K3).
  { assert (0 <= dec_Flags h mod 16 < 4) as Hr by lia. set (r := dec_Flags h mod 16) in *.
    assert (Z.lor r 3 = 3) as E3.
    { assert (r = 0 \/ r = 1 \/ r = 2 \/ r = 3) as [-> |[-> |[-> | ->]]] by lia; done. }
    assert (Z.lor (dec_Flags h) 3 = Z.lor (Z.shiftl q 4) 3) as E4 by (by rewrite E, <- Z.lor_assoc, E3).
    unfold emitted_flags, CorILMethod_FatFormat. cbv zeta. rewrite E4. destruct cs; cbn [length Nat.eqb negb];
      [exists 3|exists 11; rewrite <- Z.lor_assoc]; (split; [by apply lor_shiftl_add|]); by repeat split. }
  split; [subst q; lia|]. split; [lia|]. rewrite <- K3. unfold CorILMethod_MoreSects.
  replace (q * 16 + k) with (Z.lor (Z.shiftl q 4) k) by (by apply lor_shiftl_add).
  rewrite Z.land_lor_distr_l. replace (Z.land (Z.shiftl q 4) 8) with 0; [by rewrite Z.lor_0_l|].
  symmetry. apply Z.bits_inj'. intros n Hn. rewrite Z.land_spec, Z.bits_0. destruct (Z.ltb_spec n 4).
  - by rewrite Z.shiftl_spec_low.
  - change 8 with (2 ^ 3). rewrite Z.pow2_bits_false by lia. apply andb_false_r.
Qed.

(** *** Whole methods *)

(** A header that can be emitted: fields of their widths, and no format bits but
    those of a fat header. *)
Record header_wf (h : COR_ILMETHOD_DECODER) (code : list Z) : Prop := {
  hw_flags : is_uint 12 (dec_Flags h);
  hw_format : dec_Flags h mod 16 < 4;
  hw_stack : is_uint 16 (dec_MaxStack h);
  hw_tok : is_uint 32 (dec_LocalVarSigTok h);
  hw_size : dec_CodeSize h = Z.of_nat (length code);
  hw_code : Z.of_nat (length code) < 2 ^ 31
}.

(** Clauses that can be emitted: fields of their widths, flags that a small
    clause can hold, as is asserted, and a size that fits 24 bits. *)
Record clauses_wf (cs : list EHClauseFat) : Prop := {
  cw_fields : Forall clause_u32 cs;
  cw_flags : Forall (fun c => is_uint 16 (eh_Flags c)) cs;
  cw_size : 4 + 24 * Z.of_nat (length cs) < 2 ^ 24
}.

Definition tiny_format (h : COR_ILMETHOD_DECODER) (cs : list EHClauseFat) : bool :=
  IlmethodSize h (negb (length cs =? 0)%nat) =? 1.

(** What is to be read again; a tiny header stands for defaults. *)
Definition emitted_method (h : COR_ILMETHOD_DECODER) (code : list Z) (cs : list EHClauseFat) : ILMethod :=
  if tiny_format h cs then mkILMethod 0 8 CorILMethod_TinyFormat code []
  else mkILMethod (dec_LocalVarSigTok h) (dec_MaxStack h) (emitted_flags h cs) code cs.

Lemma tiny_format_spec h cs : tiny_format h cs = true -> cs = [] /\ dec_CodeSize h < 64.
Proof.
  unfold tiny_format, IlmethodSize. destruct (_ && _) eqn:E; [|done]. intros _.
  apply andb_prop in E as [E E2]. apply andb_prop in E as [_ E1]. destruct cs; [split; [done|lia]|done].
Qed.

Lemma tiny_method_read base h code :
  0 <= dec_CodeSize h < 64 -> dec_CodeSize h = Z.of_nat (length code) ->
  let body := [wrap 8 (Z.lor CorILMethod_TinyFormat (Z.shiftl (dec_CodeSize h) 2))] ++ code in
  DecoderInit base body = Ok (mkDecoder CorILMethod_TinyFormat 8 (dec_CodeSize h) 0 (Some 1) None None) /\
  decode_method base body = Ok (mkILMethod 0 8 CorILMethod_TinyFormat code []).
Proof.
  intros Hn Hc body. set (n := dec_CodeSize h) in *.
  assert (wrap 8 (Z.lor CorILMethod_TinyFormat (Z.shiftl n 2)) = n * 4 + 2) as E.
  { unfold CorILMethod_TinyFormat. rewrite Z.lor_comm, lor_shiftl_add by lia. apply wrap_small. unfold is_uint. lia. }
  assert (uint_at body 0 1 = Ok (n * 4 + 2)) as R by (apply uint_at_byte; unfold body; rewrite E; exact (seg_at_mid [] [n * 4 + 2] code)).
  assert (DecoderInit base body = Ok (mkDecoder CorILMethod_TinyFormat 8 n 0 (Some 1) None None)) as H.
  { unfold DecoderInit, Tiny_IsTiny, Tiny_GetCodeSize. rewrite R. run_bind.
    change (Z.shiftr CorILMethod_FormatMask 1) with 3. rewrite (Z.land_ones _ 2 : _ -> Z.land _ 3 = _) by done.
    assert (((n * 4 + 2) mod 2 ^ 2 =? CorILMethod_TinyFormat) = true) as -> by (unfold CorILMethod_TinyFormat; change (2 ^ 2) with 4; lia).
    run_bind. unfold mret, result_ret. do 2 f_equal. rewrite Z.shiftr_div_pow2 by done.
    change (2 ^ (CorILMethod_FormatShift - 1)) with 4. lia. }
  split; [done|]. unfold decode_method. rewrite H. run_bind. cbn [dec_Code dec_CodeSize dec_EH dec_LocalVarSigTok dec_MaxStack dec_Flags].
  unfold bytes_at. rewrite Hc, Nat2Z.id. pose proof (seg_at_mid [n * 4 + 2] code []) as Hs. rewrite app_nil_r, <- E in Hs.
  unfold body. by rewrite (Hs : read_at _ 1 _ = _).
Qed.

(** C8: emitting and decoding: for every header and clauses whose fields have
    their widths, the header, the code and the section that the functions for
    emitting write are decoded as the method they were made of, in the tiny format
    as well as the fat one and with small clauses as well as fat ones; the section
    has exactly the size [SectEH_SizeExact] announced, and the size on disk that
    the decoder computes is the length of the whole body. *)
Theorem emitted_method_decodes base h code cs block pad fuel :
  base mod 4 = 0 -> header_wf h code -> clauses_wf cs ->
  Z.of_nat (length block) = SectEH_SizeExact cs ->
  Z.of_nat (length pad) = (if cs is [] then 0 else aligned (Z.of_nat (length code)) - Z.of_nat (length code)) ->
  exists sect d, SectEH_Emit (SectEH_SizeExact cs) cs false block = Some (sect, SectEH_SizeExact cs) /\
    let body := emitted_header h cs ++ code ++ pad ++ sect in
    decode_method base body = Ok (emitted_method h code cs) /\
    DecoderInit base body = Ok d /\ DecoderGetOnDiskSize base body fuel d = Ok (Z.of_nat (length body)).
Proof.
  intros Hb [H1 H2 H3 H4 H5 H6] [C1 C2 C3] Hbl Hp. unfold emitted_header.
  destruct (emitted_flags_spec h cs H1 H2) as (F1 & F2 & F3). unfold emitted_method.
  destruct (tiny_format h cs) eqn:E.
  - destruct (tiny_format_spec h cs E) as [-> Hn]. destruct block; [|done]. destruct pad; [|done]. exists [].
    destruct (tiny_method_read base h code ltac:(lia) H5) as [R1 R2].
    eexists. split; [done|]. cbv zeta. unfold IlmethodEmit. unfold tiny_format in E. rewrite E, !app_nil_r.
    split; [exact R2|]. split; [exact R1|]. unfold DecoderGetOnDiskSize. cbn [dec_Code dec_EH dec_CodeSize dec_Sect]. run_bind.
    destruct fuel; simpl; unfold mret, result_ret; f_equal; lia.
  - unfold IlmethodEmit. unfold tiny_format in E. rewrite E. fold (emitted_flags h cs). cbv zeta. fold (emitted_flags h cs).
    rewrite H5. set (hdr := fat_header _ _ _ _). set (n := Z.of_nat (length code)) in *.
    assert (exists sect, SectEH_Emit (SectEH_SizeExact cs) cs false block = Some (sect, SectEH_SizeExact cs) /\
      (cs = [] -> sect = []) /\
      (cs <> [] -> reads_section base (hdr ++ code ++ pad ++ sect) (12 + aligned n) (Z.of_nat (length sect)) cs)) as (sect & R1 & R2 & R3).
    { destruct cs as [|c cs'] eqn:Ecs; [by exists []; destruct block|]. rewrite <- Ecs in *. assert (cs <> []) as Hne by congruence.
      exists (best_section cs). split_and!; [|congruence|].
      - apply SectEH_Emit_run; try done. rewrite SizeExact_run in Hbl by done. lia.
      - intros _. apply best_section_read; try done.
        pose proof (seg_at_mid (hdr ++ code ++ pad) (best_section cs) []) as H. rewrite app_nil_r, !length_app in H.
        rewrite <- !app_assoc in *. replace (12 + _) with (Z.of_nat (length hdr + (length code + length pad))); [done|].
        change (length hdr) with 12%nat. lia. }
    exists sect. set (body := hdr ++ code ++ pad ++ sect) in *.
    assert (seg_at body 0 (hdr ++ code)) as Hs by (unfold body; rewrite app_assoc; apply (seg_at_mid [] (hdr ++ code))).
    assert (cs <> [] -> exists size, reads_section base body (12 + aligned n) size cs) as R3' by eauto.
    eexists. split; [done|]. split.
    { rewrite (decode_fat base body _ _ _ code cs Hb Hs F1 F2 F3 H6 H4 R3'). by rewrite wrap_small. }
    split; [exact (DecoderInit_fat base body _ _ _ code cs Hb Hs F1 F2 F3 H6 H4 R3')|].
    unfold DecoderGetOnDiskSize, fat_decoder. cbn [dec_Code dec_EH dec_CodeSize dec_Sect].
    unfold body. rewrite !length_app. change (length hdr) with 12%nat. destruct cs as [|c cs'] eqn:Ecs.
    + run_bind. rewrite R2 by done. destruct fuel; simpl; unfold mret, result_ret; f_equal; lia.
    + rewrite <- Ecs in *. destruct R3 as [_ S2 S3 _ _]; [congruence|]. fold body. fold n. rewrite S2. run_bind. rewrite S3. run_bind.
      unfold mret, result_ret. f_equal. lia.
Qed.

(** ** The rewriter between two bodies in memory *)

(** C5: from bytes to bytes: a method that the decoder reads from memory, whose
    branches and clauses name instructions of it, is exported after its import as
    a body from which the decoder reads the same code, the same exception clauses,
    the same local signature and the [InitLocals] flag.  Nothing is asked of the
    sizes and fields of header and clauses, whatever bytes they were read from;
    the stack size is that of the rewriter, cut to the 16 bits of its field. *)
Theorem method_bytes_roundtrip base mem decoder s Alloc SetBody junk base' :
  Forall is_byte mem -> decode_method base mem = Ok decoder -> 10 * Z.of_nat (length (il_Code decoder)) < 2 ^ 31 ->
  Import decoder new_ILRewriter = Ok (tt, s) -> no_null_target s ->
  Forall (fun c => Forall (fun v => lookup_target (m_pOffsetToInstr s) v <> NULL) (clause_offsets c)) (il_EH decoder) ->
  alloc_spec Alloc -> (forall body, SetBody body = None) -> base' mod 4 = 0 ->
  exists body s', Export Alloc SetBody junk s = Ok (body, s') /\
    decode_method base' body =
      Ok (mkILMethod (il_LocalVarSigTok decoder) (wrap 16 (m_maxStack s))
            (fat_flags (Z.land (il_Flags decoder) CorILMethod_InitLocals) (il_EH decoder)) (il_Code decoder) (il_EH decoder)).
Proof.
  intros Hm Hd H10 HI Hnn Hwf Hal Hset Hb.
  destruct (decode_method_range base mem Hm decoder Hd) as (H1 & H2 & H3 & H4).
  assert (Forall (clause_wf (m_pOffsetToInstr s)) (il_EH decoder)) as Hcw by (by apply Forall_and).
  destruct (Import_Export_run decoder s Alloc SetBody junk H1 H10 ltac:(lia) HI Hnn Hcw Hal Hset) as (pad & s' & Hp & Hr).
  eexists _, s'. split; [exact Hr|]. apply decode_fat_body; [done|lia|done..].
Qed.


(** ** The theorems at a method *)

(** [ILRoundTrip.sample] where the runtime has it. *)
Definition sample_memory : list Z :=
  Eval vm_compute in fat_body 0x10 8 0x11000001 (il_Code sample) [0; 0; 0] (il_EH sample).

Lemma sample_memory_bytes : Forall is_byte sample_memory.
Proof. apply (bool_decide_eq_true_1 (Forall is_byte sample_memory)). vm_compute. reflexivity. Qed.

Lemma sample_decoded : decode_method 0x7F1000 sample_memory = Ok sample.
Proof. vm_compute. reflexivity. Qed.

Lemma method_bytes_roundtrip_witness :
  exists body s', Export (fun n => Some (replicate (Z.to_nat n) 0)) (fun _ => None) 0xCC sample_state = Ok (body, s') /\
    decode_method 0x7F2000 body =
      Ok (mkILMethod 0x11000001 (wrap 16 (m_maxStack sample_state)) 0x1B (il_Code sample) (il_EH sample)).
Proof.
  apply (method_bytes_roundtrip 0x7F1000 sample_memory sample sample_state).
  - exact sample_memory_bytes.
  - exact sample_decoded.
  - vm_compute. reflexivity.
  - exact sample_import.
  - exact sample_targets.
  - apply (bool_decide_eq_true_1 (Forall (fun c => Forall (fun v => lookup_target (m_pOffsetToInstr sample_state) v <> NULL)
      (clause_offsets c)) (il_EH sample))). vm_compute. reflexivity.
  - intros n Hn. eexists. split; [reflexivity|]. rewrite length_replicate. lia.
  - reflexivity.
  - reflexivity.
Defined.

(** A catch clause and a finally clause. *)
Definition two_clauses : list EHClauseFat :=
  [mkEHClauseFat 0 0 1 1 1 0x01000002; mkEHClauseFat 2 0 2 2 1 0].

Lemma emitted_method_decodes_witness :
  exists sect d, SectEH_Emit 28 two_clauses false (replicate 28 0xCC) = Some (sect, 28) /\
    let h := mkDecoder 0x10 3 3 0x11000002 None None None in
    let body := emitted_header h two_clauses ++ [0x17; 0x26; 0x2A] ++ [0] ++ sect in
    decode_method 0x7F1000 body = Ok (mkILMethod 0x11000002 3 0x1B [0x17; 0x26; 0x2A] two_clauses) /\
    DecoderInit 0x7F1000 body = Ok d /\ DecoderGetOnDiskSize 0x7F1000 body 0 d = Ok 44.
Proof.
  assert (clauses_wf two_clauses) as Hc.
  { split; [apply (bool_decide_eq_true_1 (Forall clause_u32 two_clauses))
      |apply (bool_decide_eq_true_1 (Forall (fun c => is_uint 16 (eh_Flags c)) two_clauses))|]; vm_compute; reflexivity. }
  destruct (emitted_method_decodes 0x7F1000 (mkDecoder 0x10 3 3 0x11000002 None None None) [0x17; 0x26; 0x2A] two_clauses
    (replicate 28 0xCC) [0] 0 eq_refl) as (sect & d & R1 & R2 & R3 & R4).
  - split; vm_compute; try reflexivity; split; try discriminate; reflexivity.
  - exact Hc.
  - vm_compute. reflexivity.
  - vm_compute. reflexivity.
  - exists sect, d. split; [exact R1|]. split; [exact R2|]. split; [exact R3|].
    rewrite R4. vm_compute in R1. injection R1 as <-. vm_compute. reflexivity.
Defined.
