(* ===== verification/ILProbes.v ===== *)
(** * Inserting the probes

    The instrumentation proper, from the second half of
    [profiler/ILRewriter.cpp]: the helpers that insert calls of probes
    ([AddProbe], [AddProbeAfter], [AddEnterProbe], [AddCoverageProbeBefore],
    [AddCoverageProbeAfter], [AddExitProbe], [MakeProbeInsertion],
    [CorrectHandlers]) and [RewriteIL], which imports a method, decides where
    probes go, inserts them and exports the result. *)

From S2P Require Import Prelude Opcodes ILList ILCode ILImport ILExport.
Local Open Scope Z_scope.

(** ** Data *)

(** [vsharp::ProbeCall], with the signature token of the current thread. *)
Record ProbeCall := mkProbeCall {
  addr : Z;
  getSig : Z
}.

(** [struct CoverageProbes]. *)
Record CoverageProbes := mkCoverageProbes {
  Coverage : ProbeCall;
  Stsfld : ProbeCall;
  Branch : ProbeCall;
  Enter : ProbeCall;
  EnterMain : ProbeCall;
  Leave : ProbeCall;
  LeaveMain : ProbeCall;
  Finalize_Call : ProbeCall;
  Call : ProbeCall;
  Tailcall : ProbeCall;
  Throw : ProbeCall
}.

(** [struct ProbeInsertion]. *)
Record ProbeInsertion := mkProbeInsertion {
  target : Z;
  parent : Z;
  probe : ProbeCall;
  isBeforeInstr : bool
}.

(** ** Insertions *)

(** [pNewInstr = pilr->NewILInstr(); pNewInstr->... = ...;]. *)
Definition new_instr (f : ILInstr -> ILInstr) : M Z :=
  pNewInstr ← NewILInstr; store pNewInstr f;; mret pNewInstr.

(** [CEE_LDC_I] of a 64-bit build. *)
Definition CEE_LDC_I : Z := CEE_LDC_I8.

Definition AddProbe (methodAddress methodSignature pInsertProbeBeforeThisInstr : Z) : M unit :=
  pNewInstr ← new_instr (fun i => set_Arg 64 methodAddress (set_opcode CEE_LDC_I i));
  InsertBefore pInsertProbeBeforeThisInstr pNewInstr;;
  pNewInstr ← new_instr (fun i => set_Arg 32 methodSignature (set_opcode CEE_CALLI i));
  InsertBefore pInsertProbeBeforeThisInstr pNewInstr.

Definition AddProbeAfter (methodAddress methodSignature pInsertProbeAfterThisInstr : Z) : M unit :=
  pNewInstr ← new_instr (fun i => set_Arg 32 methodSignature (set_opcode CEE_CALLI i));
  InsertAfter pInsertProbeAfterThisInstr pNewInstr;;
  pNewInstr ← new_instr (fun i => set_Arg 64 methodAddress (set_opcode CEE_LDC_I i));
  InsertAfter pInsertProbeAfterThisInstr pNewInstr.

Definition AddLDCInstrBefore (pInstr arg : Z) : M Z :=
  pNewInstr ← new_instr (fun i => set_Arg 32 arg (set_opcode CEE_LDC_I4 i));
  InsertBefore pInstr pNewInstr;;
  mret pNewInstr.

Definition AddEnterProbe (methodAddress methodSignature methodId : Z) : M unit :=
  il ← load IL;
  let pFirstOriginalInstr := m_pNext il in
  first ← load pFirstOriginalInstr;
  AddLDCInstrBefore pFirstOriginalInstr (m_offset first);;
  AddLDCInstrBefore pFirstOriginalInstr methodId;;
  spontaneousInstr ← new_instr (set_opcode CEE_LDC_I4_0);
  InsertBefore pFirstOriginalInstr spontaneousInstr;;
  AddProbe methodAddress methodSignature pFirstOriginalInstr.

Definition IsTailcallRet (pInstr : Z) : M bool :=
  i ← load pInstr;
  if m_opcode i =? CEE_RET then
    p ← load (m_pPrev i); pp ← load (m_pPrev p); mret (m_opcode pp =? CEE_TAILCALL)
  else mret false.

Definition correct_handler (pInstr pNewInstr : Z) (e : EHClause) : EHClause :=
  if m_pHandlerEnd e =? pInstr
  then mkEHClause (m_Flags e) (m_pTryBegin e) (m_pTryEnd e) (m_pHandlerBegin e) pNewInstr (m_ClassTokenOrFilter e)
  else e.

(** The clauses [0 .. m_nEH - 1] of the array are visited. *)
Definition CorrectHandlers (pInstr pNewInstr : Z) : M unit :=
  s ← st_get;
  match m_pEH s with
  | None => mret tt
  | Some es =>
      if Z.of_nat (length es) <? m_nEH s then st_fail Undefined else
      let n := Z.to_nat (m_nEH s) in
      st_modify (with_EH (m_nEH s) (Some ((correct_handler pInstr pNewInstr <$> take n es) ++ drop n es)))
  end.

(** The common part of the two insertions: [pNewInstr] is in the list. *)
Definition add_probe_call (pInstr pNewInstr : Z) (probe : ProbeCall) (methodId : Z) : M Z :=
  i ← load pInstr;
  AddLDCInstrBefore pNewInstr (m_offset i);;
  AddLDCInstrBefore pNewInstr methodId;;
  AddProbe (addr probe) (getSig probe) pNewInstr;;
  CorrectHandlers pInstr pNewInstr;;
  mret pNewInstr.

(** Both return the new value of the reference parameter [pInstr]. *)
Definition AddCoverageProbeAfter (pInstr : Z) (probe : ProbeCall) (methodId : Z) : M Z :=
  pNewInstr ← new_instr (set_opcode CEE_NOP);
  InsertAfter pInstr pNewInstr;;
  add_probe_call pInstr pNewInstr probe methodId.

Definition AddCoverageProbeBefore (pInstr : Z) (probe : ProbeCall) (methodId : Z) : M Z :=
  pNewInstr ← NewILInstr;
  i ← load pInstr; store pNewInstr (set_opcode (m_opcode i));;
  (* the widest member of the union: the whole word is copied *)
  i ← load pInstr; store pNewInstr (set_target (m_Arg i));;
  InsertAfter pInstr pNewInstr;;
  store pInstr (set_opcode CEE_NOP);;
  add_probe_call pInstr pNewInstr probe methodId.

Definition MakeProbeInsertion (toInsert : ProbeInsertion) (methodId : Z) : M unit :=
  if isBeforeInstr toInsert
  then AddCoverageProbeBefore (target toInsert) (probe toInsert) methodId;; mret tt
  else AddCoverageProbeAfter (target toInsert) (probe toInsert) methodId;; mret tt.

(** One round of the loop of [AddExitProbe]; the accumulator is [isTailCall]. *)
Definition exit_probe_instr (covProb : CoverageProbes) (methodId : Z) (pInstr : Z) (isTailCall : bool)
    : M (Z * bool) :=
  i ← load pInstr;
  if m_opcode i =? CEE_TAILCALL then
    p ← AddCoverageProbeBefore pInstr (Tailcall covProb) methodId; mret (p, true)
  else if m_opcode i =? CEE_RET then
    if isTailCall then mret (pInstr, false)
    else p ← AddCoverageProbeBefore pInstr (Leave covProb) methodId; mret (p, isTailCall)
  else mret (pInstr, isTailCall).

Definition AddExitProbe (covProb : CoverageProbes) (methodId : Z) : M unit :=
  for_all_instrs (exit_probe_instr covProb methodId) false;; mret tt.

(** ** RewriteIL *)

(** The accumulator of the first loop: [isTailCall], [addPriorityProbe],
    [addTargetProbe]. *)
Abbreviation scan := (bool * list ProbeInsertion * list ProbeInsertion)%type.

(** The targets of the switch at [pInstr]. *)
Fixpoint switch_targets (n : nat) (covProb : CoverageProbes) (pInstr curSwitchArg : Z)
    (acc : list ProbeInsertion) : M (list ProbeInsertion) :=
  match n with
  | O => mret acc
  | S n =>
      a ← load curSwitchArg;
      t ← load (m_pTarget a);
      switch_targets n covProb pInstr (m_pNext a)
        (acc ++ [mkProbeInsertion (m_pPrev t) pInstr (Coverage covProb) false])
  end.

Definition scan_instr (covProb : CoverageProbes) (leaveMethod : ProbeCall)
    (pInstr : Z) (acc : scan) : M (Z * scan) :=
  let '(isTailCall, addPriorityProbe, addTargetProbe) := acc in
  let push t probe before := addPriorityProbe ++ [mkProbeInsertion t NULL probe before] in
  i ← load pInstr;
  let opcode := m_opcode i in
  if OpcodeIsBranch opcode then
    let addPriorityProbe := push pInstr (Branch covProb) true in
    if opcode =? CEE_SWITCH then
      addTargetProbe ← switch_targets (Z.to_nat (m_Arg32 i)) covProb pInstr (m_pNext i) addTargetProbe;
      mret (pInstr, (isTailCall, addPriorityProbe, addTargetProbe))
    else
      t ← load (m_pTarget i);
      mret (pInstr, (isTailCall, addPriorityProbe,
        addTargetProbe ++ [mkProbeInsertion (m_pPrev t) pInstr (Coverage covProb) false]))
  else if opcode =? CEE_STSFLD then
    p ← load (m_pPrev i);
    let instr := if IsPrefix (m_opcode p) then m_pPrev i else pInstr in
    mret (pInstr, (isTailCall, push instr (Stsfld covProb) true, addTargetProbe))
  else if opcode =? CEE_TAILCALL then
    newTailcall ← new_instr (set_opcode CEE_TAILCALL);
    store pInstr (set_opcode CEE_NOP);;
    InsertAfter pInstr newTailcall;;
    nt ← load newTailcall; c ← load (m_pNext nt);
    store newTailcall (set_offset (m_offset c));;
    nt ← load newTailcall; c ← load (m_pNext nt); r ← load (m_pNext c);
    store pInstr (set_offset (m_offset r));;
    mret (newTailcall, (true,
      addPriorityProbe ++ [mkProbeInsertion newTailcall NULL (Tailcall covProb) true;
                           mkProbeInsertion pInstr NULL (Coverage covProb) true],
      addTargetProbe))
  else if (opcode =? CEE_CALL) || (opcode =? CEE_CALLI) || (opcode =? CEE_CALLVIRT) || (opcode =? CEE_NEWOBJ) then
    if isTailCall then mret (pInstr, acc)
    else mret (pInstr, (isTailCall, push pInstr (Call covProb) false, addTargetProbe))
  else if opcode =? CEE_RET then
    if isTailCall then mret (pInstr, (false, addPriorityProbe, addTargetProbe))
    else mret (pInstr, (isTailCall, push pInstr leaveMethod true, addTargetProbe))
  else if (opcode =? CEE_ENDFINALLY) || (opcode =? CEE_ENDFILTER) then
    mret (pInstr, (isTailCall, push pInstr (Coverage covProb) true, addTargetProbe))
  else if (opcode =? CEE_THROW) || (opcode =? CEE_RETHROW) then
    mret (pInstr, (isTailCall, push pInstr (Throw covProb) true, addTargetProbe))
  else mret (pInstr, acc).

(** The probes at the starts of the handlers. *)
Definition handler_probes (covProb : CoverageProbes) (addPriorityProbe : list ProbeInsertion)
    : M (list ProbeInsertion) :=
  s ← st_get;
  match m_pEH s with
  | None => mret addPriorityProbe
  | Some es =>
      if Z.of_nat (length es) <? m_nEH s then st_fail Undefined else
      mret (addPriorityProbe ++
        ((fun e => mkProbeInsertion (m_pHandlerBegin e) NULL (Throw covProb) true) <$> take (Z.to_nat (m_nEH s)) es))
  end.

(** One round of the loop over [addPriorityProbe]; returns
    [coveredInstructions]. *)
Definition priority_insertion (methodId : Z) (insertion : ProbeInsertion) (covered : gset Z) : M (gset Z) :=
  MakeProbeInsertion insertion methodId;;
  t ← load (target insertion);
  mret ({[ m_offset t ]} ∪ covered).

(** The treatment of a branch to the [ret] behind a tail call. *)
Definition reroute_branch (leaveMethod : ProbeCall) (methodId targetOffset branch : Z) : M unit :=
  pNewRet ← new_instr (set_opcode CEE_RET);
  InsertAfter branch pNewRet;;
  probeStart ← AddLDCInstrBefore pNewRet targetOffset;
  AddLDCInstrBefore pNewRet methodId;;
  AddProbe (addr leaveMethod) (getSig leaveMethod) pNewRet;;
  store branch (set_target probeStart);;
  b ← load branch;
  if (m_opcode b =? CEE_BR) || (m_opcode b =? CEE_BR_S) then mret tt else
  skipBranch ← new_instr (set_opcode CEE_BR);
  r ← load pNewRet;
  store skipBranch (set_target (m_pNext r));;
  InsertAfter branch skipBranch.

(** One round of the loop over [addTargetProbe]. *)
Definition target_insertion (leaveMethod : ProbeCall) (methodId : Z) (insertion : ProbeInsertion)
    (covered : gset Z) : M (gset Z) :=
  if target insertion =? IL then mret covered else
  t ← load (target insertion);
  if bool_decide (m_offset t ∈ covered) then mret covered else
  let covered := {[ m_offset t ]} ∪ covered in
  b ← IsTailcallRet (m_pNext t);
  if negb b then
    AddCoverageProbeAfter (target insertion) (probe insertion) methodId;; mret covered
  else
    reroute_branch leaveMethod methodId (m_offset t) (parent insertion);; mret covered.

(** [RewriteIL] between [countOffsets] and [Export]. *)
Definition instrument_list (covProb : CoverageProbes) (methodId : Z) (isMain : bool) : M unit :=
  let enterMethod := if isMain then EnterMain covProb else Enter covProb in
  let leaveMethod := if isMain then LeaveMain covProb else Leave covProb in
  r ← for_all_instrs (scan_instr covProb leaveMethod) (false, [], []);
  let '(_, addPriorityProbe, addTargetProbe) := (r : scan) in
  addPriorityProbe ← handler_probes covProb addPriorityProbe;
  covered ← st_fold (priority_insertion methodId) addPriorityProbe ∅;
  st_fold (target_insertion leaveMethod methodId) addTargetProbe covered;;
  AddEnterProbe (addr enterMethod) (getSig enterMethod) methodId.

Definition RewriteIL (Alloc : Z -> option (list Z)) (SetBody : list Z -> option Z) (junk : Z)
    (decoder : ILMethod) (covProb : CoverageProbes) (methodId : Z) (isMain : bool) : M (list Z) :=
  Import decoder;;
  countOffsets;;
  instrument_list covProb methodId isMain;;
  Export Alloc SetBody junk.

(** ** Well-formed rewriters *)

Definition clause_in (l : list Z) (e : EHClause) : Prop :=
  m_pTryBegin e ∈ IL :: l /\ m_pTryEnd e ∈ IL :: l /\ m_pHandlerBegin e ∈ IL :: l /\ m_pHandlerEnd e ∈ IL :: l /\
  (Z.land (m_Flags e) COR_ILEXCEPTION_CLAUSE_FILTER <> 0 -> m_ClassTokenOrFilter e ∈ IL :: l).

Definition ehs (s : ILRewriter) : list EHClause := default [] (m_pEH s).

(** The list is exportable, every instruction allocated is on it, and the
    exception clauses point into it. *)
Record good (s : ILRewriter) (l : list Z) : Prop := {
  g_ex : exportable (m_mem s) l;
  g_wf : mem_wf s;
  g_n : m_nInstrs s = wrap 32 (Z.of_nat (length l));
  g_nEH : m_pEH s <> None -> m_nEH s = Z.of_nat (length (ehs s));
  g_eh : Forall (clause_in l) (ehs s);
  g_IL : fst (item_of (m_mem s) IL) = sentinel_opcode
}.

Lemma elem_grow (l1 ns l2 : list Z) q : q ∈ IL :: l1 ++ l2 -> q ∈ IL :: l1 ++ ns ++ l2.
Proof. rewrite !elem_of_cons, !elem_of_app. tauto. Qed.

Lemma clause_in_grow l1 ns l2 e : clause_in (l1 ++ l2) e -> clause_in (l1 ++ ns ++ l2) e.
Proof.
  intros (H1 & H2 & H3 & H4 & H5). repeat split; try (by apply elem_grow).
  intros H. by apply elem_grow, H5.
Qed.

Lemma instr_ok_grow l1 ns l2 i : instr_ok (l1 ++ l2) i -> instr_ok (l1 ++ ns ++ l2) i.
Proof. intros [H1 H2]. split; [done|]. intros H. by apply elem_grow, H2. Qed.

(** The part of the state that neither the instructions nor the exception
    clauses make up. *)
Definition header_of (s : ILRewriter) :=
  (m_tkLocalVarSig s, m_flags s, m_fGenerateTinyHeader s, m_nEH s).

(** [s'] is [s] with the new instruction [m_brk s] between [l1] and [l2]. *)
Record inserted (s s' : ILRewriter) (l1 l2 : list Z) (op arg : Z) : Prop := {
  in_good : good s' (l1 ++ m_brk s :: l2);
  in_new : payload (m_mem s') (m_brk s) = Some (op, 0, arg);
  in_old p : p <> m_brk s -> payload (m_mem s') p = payload (m_mem s) p;
  in_brk : m_brk s' = m_brk s + 1;
  in_eh : ehs s' = ehs s;
  in_header : header_of s' = header_of s
}.

Lemma payload_instr_ok m m' l p i' :
  payload m' p = payload m p -> m' !! p = Some i' ->
  (forall i, m !! p = Some i -> instr_ok l i) -> instr_ok l i'.
Proof.
  intros Hp Hi' H. unfold payload in Hp. rewrite Hi' in Hp. destruct (m !! p) as [i|]; [|done].
  simpl in Hp. injection Hp as Ho _ Ha. specialize (H i eq_refl). unfold instr_ok in *. by rewrite Ho, Ha.
Qed.

Lemma good_fresh s l : good s l -> m_brk s ∉ IL :: l.
Proof. intros H. apply brk_fresh; [apply (g_wf _ _ H)|apply (ex_list _ _ (g_ex _ _ H))]. Qed.

(** The new instruction, not yet in the list. *)
Definition allocated (s : ILRewriter) (i : ILInstr) : ILRewriter :=
  with_alloc (<[m_brk s := i]> (m_mem s)) (m_brk s + 1) (wrap 32 (m_nInstrs s + 1)) s.

Lemma new_instr_alloc s f :
  new_instr f s = Ok (m_brk s, allocated s (f (mkILInstr NULL NULL 0 0 0))).
Proof.
  unfold new_instr, NewILInstr, allocated. unfold mbind at 1, st_bind at 1.
  erewrite st_bind_run by (apply store_run; simpl; by rewrite lookup_insert_eq).
  simpl m_mem. rewrite insert_insert_eq. done.
Qed.

(** Linking it in keeps the rewriter well formed. *)
Lemma spliced_inserted s s' l1 l2 i op arg n :
  good s (l1 ++ l2) -> i = mkILInstr NULL NULL op 0 arg -> valid_opcode op ->
  (is_branch_op op = true -> arg ∈ IL :: l1 ++ l2) ->
  il_list (m_mem s') (l1 ++ m_brk s :: l2) -> spliced n (allocated s i) s' ->
  inserted s s' l1 l2 op arg.
Proof.
  intros Hg -> Hv Hb Hl [Hp Hr]. pose proof (good_fresh _ _ Hg) as Hfr.
  destruct Hg as [[Hl0 Hok] Hwf Hn HnE HE HIL].
  assert (forall p, payload (m_mem s') p =
    if decide (m_brk s = p) then Some (op, 0, arg) else payload (m_mem s) p) as Hpay.
  { intros p. rewrite Hp. simpl. rewrite payload_insert. done. }
  assert (m_pEH s' = m_pEH s /\ m_nEH s' = m_nEH s /\ header_of s' = header_of s /\ m_brk s' = m_brk s + 1 /\
    m_nInstrs s' = wrap 32 (m_nInstrs s + 1)) as (E1 & E2 & E3 & E4 & E5) by (by rewrite Hr).
  assert (NULL < m_brk s) as Hpos.
  { pose proof (Hwf IL (il_list_alloc _ _ IL Hl0 ltac:(left))). lia. }
  split; try done.
  - split.
    + split; [done|]. intros p i' Hin Hi'. destruct (decide (m_brk s = p)) as [<-|Hne].
      * pose proof (Hpay (m_brk s)) as E. rewrite decide_True in E by done.
        rewrite (payload_lookup _ _ _ Hi') in E. injection E as Eo _ Ea. split; [by rewrite Eo|].
        rewrite Eo, Ea. intros H. by apply (elem_grow l1 [m_brk s] l2), Hb.
      * eapply (payload_instr_ok (m_mem s)); [|exact Hi'|].
        -- rewrite Hpay. by rewrite decide_False.
        -- intros j Hj. apply (instr_ok_grow l1 [m_brk s] l2), (Hok p); [|done].
           apply elem_of_app in Hin as [?|[?|?]%elem_of_cons]; [..|congruence|]; apply elem_of_app; auto.
    + intros p Hin. apply payload_is_Some in Hin. rewrite Hpay in Hin. rewrite E4.
      case_decide; [lia|]. apply payload_is_Some, Hwf in Hin. lia.
    + rewrite E5, Hn, wrap_add_l. f_equal. rewrite !length_app. simpl. lia.
    + unfold ehs in *. rewrite E1, E2. done.
    + unfold ehs in *. rewrite E1. eapply Forall_impl; [exact HE|]. intros e.
      apply (clause_in_grow l1 [m_brk s] l2).
    + rewrite (item_of_payload (m_mem s) (m_mem s') IL); [done|]. rewrite Hpay, decide_False; [done|].
      intros E. apply Hfr. rewrite E. left.
  - rewrite Hpay. by rewrite decide_True.
  - intros p Hne. rewrite Hpay. by rewrite decide_False.
  - unfold ehs. by rewrite E1.
Qed.

Lemma allocated_list s l i : good s l -> il_list (m_mem (allocated s i)) l.
Proof.
  intros Hg. simpl. apply il_list_fresh; [apply (ex_list _ _ (g_ex _ _ Hg))|by apply good_fresh].
Qed.

Section insertions.
Context (s : ILRewriter) (l1 l2 : list Z) (i : ILInstr) (op arg : Z).
Hypothesis Hg : good s (l1 ++ l2).
Hypothesis Hi : i = mkILInstr NULL NULL op 0 arg.
Hypothesis Hv : valid_opcode op.
Hypothesis Hb : is_branch_op op = true -> arg ∈ IL :: l1 ++ l2.

Lemma insert_before_run pWhere :
  head (l2 ++ [IL]) = Some pWhere ->
  exists s', InsertBefore pWhere (m_brk s) (allocated s i) = Ok (tt, s') /\ inserted s s' l1 l2 op arg.
Proof using All.
  intros Hh. destruct (opcode_pushes_total op Hv) as [n Hn].
  destruct (InsertBefore_run (allocated s i) l1 l2 pWhere (m_brk s) i n) as (s' & Hr & Hl & Hs); try done.
  - by apply allocated_list.
  - by apply good_fresh.
  - simpl. by rewrite lookup_insert_eq.
  - by rewrite Hi.
  - exists s'. split; [done|]. by apply (spliced_inserted s s' l1 l2 i op arg n).
Qed.

Lemma insert_after_run pWhere :
  last (IL :: l1) = Some pWhere ->
  exists s', InsertAfter pWhere (m_brk s) (allocated s i) = Ok (tt, s') /\ inserted s s' l1 l2 op arg.
Proof using All.
  intros Hh. destruct (opcode_pushes_total op Hv) as [n Hn].
  destruct (InsertAfter_run (allocated s i) l1 l2 pWhere (m_brk s) i n) as (s' & Hr & Hl & Hs); try done.
  - by apply allocated_list.
  - by apply good_fresh.
  - simpl. by rewrite lookup_insert_eq.
  - by rewrite Hi.
  - exists s'. split; [done|]. by apply (spliced_inserted s s' l1 l2 i op arg n).
Qed.
End insertions.

(** *** Inserting several instructions *)

(** [s'] is [s] with the new instructions [ns] between [l1] and [l2]. *)
Record grown (s s' : ILRewriter) (l1 ns l2 : list Z) (its : list (Z * Z)) : Prop := {
  gr_good : good s' (l1 ++ ns ++ l2);
  gr_items : items_of (m_mem s') ns = its;
  gr_old p : p ∉ ns -> payload (m_mem s') p = payload (m_mem s) p;
  gr_new p : p ∈ ns -> m_brk s <= p;
  gr_brk : m_brk s <= m_brk s';
  gr_eh : ehs s' = ehs s;
  gr_header : header_of s' = header_of s
}.

Lemma grown_refl s l1 l2 : good s (l1 ++ l2) -> grown s s l1 [] l2 [].
Proof. intros H. split; try done. intros p Hp. by apply elem_of_nil in Hp. Qed.

Lemma item_of_new m p op arg : payload m p = Some (op, 0, arg) -> item_of m p = (op, arg).
Proof. unfold payload, item_of. destruct (m !! p); simpl; congruence. Qed.

Lemma good_range s l p : good s l -> p ∈ IL :: l -> NULL < p < m_brk s.
Proof. intros Hg Hp. apply (g_wf _ _ Hg), (il_list_alloc _ _ _ (ex_list _ _ (g_ex _ _ Hg)) Hp). Qed.

Lemma grown_snoc s s1 s2 l1 ns l2 its op arg :
  grown s s1 l1 ns l2 its -> inserted s1 s2 (l1 ++ ns) l2 op arg ->
  grown s s2 l1 (ns ++ [m_brk s1]) l2 (its ++ [(op, arg)]).
Proof.
  intros [G1 G2 G3 G4 G5 G6 G7] [I1 I2 I3 I4 I5 I6].
  assert (forall p, p ∈ ns -> p <> m_brk s1) as Hne.
  { intros p Hp. pose proof (good_range _ _ p G1). rewrite elem_of_cons, !elem_of_app in H.
    assert (p < m_brk s1) by (apply H; auto). lia. }
  split.
  - by rewrite <- !app_assoc in *.
  - rewrite items_of_app. f_equal.
    + rewrite <- G2. apply items_of_payload. intros p Hp. apply I3. by apply Hne.
    + simpl. by rewrite (item_of_new _ _ _ _ I2).
  - intros p Hp. rewrite elem_of_app, list_elem_of_singleton in Hp. rewrite I3 by tauto. apply G3. tauto.
  - intros p Hp. rewrite elem_of_app, list_elem_of_singleton in Hp. destruct Hp as [Hp| ->]; [by apply G4|done].
  - lia.
  - congruence.
  - congruence.
Qed.

Lemma gr_good_assoc s s' l1 ns l2 its : grown s s' l1 ns l2 its -> good s' ((l1 ++ ns) ++ l2).
Proof. intros H. rewrite <- app_assoc. apply (gr_good _ _ _ _ _ _ H). Qed.

Definition ldc_item (v : Z) : Z * Z := (CEE_LDC_I4, wrap 32 v).

(** The items of the call of a probe. *)
Definition call_items (methodAddress methodSignature : Z) : list (Z * Z) :=
  [(CEE_LDC_I, wrap 64 methodAddress); (CEE_CALLI, wrap 32 methodSignature)].

Lemma AddLDCInstrBefore_run s s1 l1 ns l2 its pWhere v :
  grown s s1 l1 ns l2 its -> head (l2 ++ [IL]) = Some pWhere ->
  exists s2, AddLDCInstrBefore pWhere v s1 = Ok (m_brk s1, s2) /\
    grown s s2 l1 (ns ++ [m_brk s1]) l2 (its ++ [ldc_item v]).
Proof.
  intros Hg Hh. unfold AddLDCInstrBefore. run_step (new_instr_alloc s1 (fun i => set_Arg 32 v (set_opcode CEE_LDC_I4 i))).
  destruct (insert_before_run s1 (l1 ++ ns) l2 (mkILInstr NULL NULL CEE_LDC_I4 0 (wrap 32 v)) CEE_LDC_I4 (wrap 32 v)
    (gr_good_assoc _ _ _ _ _ _ Hg) eq_refl ltac:(by vm_compute) ltac:(done) pWhere Hh) as (s2 & Hr & Hin).
  exists s2. split; [by run_step Hr|]. by apply (grown_snoc s s1 s2).
Qed.

Lemma AddProbe_run s s1 l1 ns l2 its pWhere a sg :
  grown s s1 l1 ns l2 its -> head (l2 ++ [IL]) = Some pWhere ->
  exists s2 ns2, AddProbe a sg pWhere s1 = Ok (tt, s2) /\
    grown s s2 l1 (ns ++ ns2) l2 (its ++ call_items a sg).
Proof.
  intros Hg Hh. unfold AddProbe. run_step (new_instr_alloc s1 (fun i => set_Arg 64 a (set_opcode CEE_LDC_I i))).
  destruct (insert_before_run s1 (l1 ++ ns) l2 (mkILInstr NULL NULL CEE_LDC_I 0 (wrap 64 a)) CEE_LDC_I (wrap 64 a)
    (gr_good_assoc _ _ _ _ _ _ Hg) eq_refl ltac:(by vm_compute) ltac:(done) pWhere Hh) as (s2 & Hr & Hin).
  run_step Hr. pose proof (grown_snoc _ _ _ _ _ _ _ _ _ Hg Hin) as Hg2.
  run_step (new_instr_alloc s2 (fun i => set_Arg 32 sg (set_opcode CEE_CALLI i))).
  destruct (insert_before_run s2 (l1 ++ ns ++ [m_brk s1]) l2 (mkILInstr NULL NULL CEE_CALLI 0 (wrap 32 sg)) CEE_CALLI (wrap 32 sg)
    (gr_good_assoc _ _ _ _ _ _ Hg2) eq_refl ltac:(by vm_compute) ltac:(done) pWhere Hh) as (s3 & Hr3 & Hin3).
  exists s3, [m_brk s1; m_brk s2]. split; [done|].
  pose proof (grown_snoc _ _ _ _ _ _ _ _ _ Hg2 Hin3) as Hg3. by rewrite <- !app_assoc in Hg3.
Qed.

(** The items of a coverage probe. *)
Definition probe_items (off methodId : Z) (probe : ProbeCall) : list (Z * Z) :=
  [ldc_item off; ldc_item methodId] ++ call_items (addr probe) (getSig probe).

Lemma CorrectHandlers_run s l p q :
  good s l -> q ∈ IL :: l ->
  exists s', CorrectHandlers p q s = Ok (tt, s') /\ good s' l /\ m_mem s' = m_mem s /\ m_brk s' = m_brk s /\
    ehs s' = correct_handler p q <$> ehs s /\ header_of s' = header_of s.
Proof.
  intros [Hex Hwf Hn HnE HE HIL] Hq. unfold CorrectHandlers. run_step (eq_refl : st_get s = Ok (s, s)).
  unfold ehs in *. destruct (m_pEH s) as [es|] eqn:E.
  - simpl in *. rewrite HnE by done. destruct (_ <? _) eqn:E'; [exfalso; lia|]. cbv zeta.
    rewrite Nat2Z.id, firstn_all, drop_all, app_nil_r.
    eexists. split; [done|]. split; [|split_and!; try done; unfold header_of; simpl; by rewrite HnE].
    split; try done; simpl.
    + intros _. unfold ehs. simpl. by rewrite length_fmap.
    + unfold ehs. simpl. apply Forall_fmap. eapply Forall_impl; [exact HE|]. intros e (H1 & H2 & H3 & H4 & H5).
      unfold compose, correct_handler. case_match; [|by repeat split]. by repeat split.
  - exists s. split; [done|]. unfold ehs. rewrite E. split; [|done].
    split; try done; unfold ehs; by rewrite E.
Qed.

Lemma add_probe_call_run s l1 p q l2 i pr mid :
  good s (l1 ++ p :: q :: l2) -> m_mem s !! p = Some i ->
  exists s' ns, add_probe_call p q pr mid s = Ok (q, s') /\
    good s' (l1 ++ p :: ns ++ q :: l2) /\ items_of (m_mem s') ns = probe_items (m_offset i) mid pr /\
    (forall r, r ∉ ns -> payload (m_mem s') r = payload (m_mem s) r) /\
    (forall r, r ∈ ns -> m_brk s <= r) /\ m_brk s <= m_brk s' /\
    ehs s' = correct_handler p q <$> ehs s /\ header_of s' = header_of s.
Proof.
  intros Hg Hi. unfold add_probe_call. run_step (load_run _ _ _ Hi).
  assert (grown s s (l1 ++ [p]) [] (q :: l2) []) as G0 by (apply grown_refl; by rewrite <- app_assoc).
  destruct (AddLDCInstrBefore_run s s (l1 ++ [p]) [] (q :: l2) [] q (m_offset i) G0 eq_refl) as (s1 & R1 & G1).
  run_step R1.
  destruct (AddLDCInstrBefore_run s s1 (l1 ++ [p]) _ (q :: l2) _ q mid G1 eq_refl) as (s2 & R2 & G2).
  run_step R2.
  destruct (AddProbe_run s s2 (l1 ++ [p]) _ (q :: l2) _ q (addr pr) (getSig pr) G2 eq_refl) as (s3 & ns3 & R3 & G3).
  run_step R3. destruct G3 as [H1 H2 H3 H4 H5 H6 H7].
  destruct (CorrectHandlers_run s3 _ p q H1) as (s4 & R4 & Hg4 & Hm4 & Hb4 & Heh4 & Hh4).
  { right. rewrite !elem_of_app. right. right. left. }
  run_step R4. exists s4. eexists. split; [done|]. rewrite Hm4, Hb4, Heh4, H6.
  split_and!; [|exact H2|exact H3|exact H4|done|done|congruence]. by rewrite <- app_assoc in Hg4.
Qed.

(** ** Transparency *)

(** The items of the probe at the entry of a method. *)
Definition enter_items (off methodId : Z) (probe : ProbeCall) : list (Z * Z) :=
  [ldc_item off; ldc_item methodId; (CEE_LDC_I4_0, 0)] ++ call_items (addr probe) (getSig probe).

(** Code that only counts: a [nop] or the call of a probe. *)
Inductive noise : list (Z * Z) -> Prop :=
  | noise_nop v : noise [(CEE_NOP, v)]
  | noise_probe off mid pr : noise (probe_items off mid pr)
  | noise_enter off mid pr : noise (enter_items off mid pr).

(** One insertion of such code, or a change of the operand word of an
    instruction that has no operand. *)
Inductive expand1 : list (Z * Z) -> list (Z * Z) -> Prop :=
  | expand_insert pre n post : noise n -> expand1 (pre ++ post) (pre ++ n ++ post)
  | expand_operand pre op v v' post :
      flags_of op = 0 -> expand1 (pre ++ (op, v) :: post) (pre ++ (op, v') :: post).

Definition expands : list (Z * Z) -> list (Z * Z) -> Prop := rtc expand1.

Lemma expands_trans a b c : expands a b -> expands b c -> expands a c.
Proof. unfold expands. apply transitivity. Qed.

Lemma expands_app_l a b c : expands a b -> expands (c ++ a) (c ++ b).
Proof.
  intros H. induction H as [a|a b d H _ IH]; [apply rtc_refl|]. eapply rtc_l; [|exact IH].
  inversion H; subst.
  - rewrite !(app_assoc c). by constructor.
  - rewrite !(app_assoc c). by constructor.
Qed.

Lemma expands_app_r a b c : expands a b -> expands (a ++ c) (b ++ c).
Proof.
  intros H. induction H as [a|a b d H _ IH]; [apply rtc_refl|]. eapply rtc_l; [|exact IH].
  inversion H; subst.
  - rewrite <- !app_assoc. by constructor.
  - rewrite <- !app_assoc, <- !app_comm_cons. by constructor.
Qed.

Lemma expands_app a b c d : expands a b -> expands c d -> expands (a ++ c) (b ++ d).
Proof.
  intros H1 H2. apply (expands_trans _ (b ++ c)); [by apply expands_app_r|by apply expands_app_l].
Qed.

(** The effect of a coverage probe at [p]: the place of [p] is taken by
    [p :: ns], whose instructions are those of [p] and the probe's. *)
Record probed (s s' : ILRewriter) (l1 : list Z) (p : Z) (ns l2 : list Z) (new : Z) : Prop := {
  pr_good : good s' (l1 ++ p :: ns ++ l2);
  pr_old q : q <> p -> q ∉ ns -> payload (m_mem s') q = payload (m_mem s) q;
  pr_new q : q ∈ ns -> m_brk s <= q;
  pr_last : last ns = Some new;
  pr_items : expands [item_of (m_mem s) p] (items_of (m_mem s') (p :: ns));
  pr_off : off_of (m_mem s') p = off_of (m_mem s) p;
  pr_brk : m_brk s <= m_brk s';
  pr_eh : ehs s' = correct_handler p new <$> ehs s;
  pr_header : header_of s' = header_of s
}.

Lemma probe_after_items it off mid pr v :
  expands [it] (it :: probe_items off mid pr ++ [(CEE_NOP, v)]).
Proof.
  eapply rtc_l; [apply (expand_insert [it] [(CEE_NOP, v)] []), noise_nop|].
  apply rtc_once. apply (expand_insert [it] (probe_items off mid pr) [(CEE_NOP, v)]), noise_probe.
Qed.

Lemma probe_before_items op v w off mid pr :
  expands [(op, v)] ((CEE_NOP, w) :: probe_items off mid pr ++ [(op, v)]).
Proof.
  eapply rtc_l; [apply (expand_insert [] [(CEE_NOP, w)] [(op, v)]), noise_nop|].
  apply rtc_once. apply (expand_insert [(CEE_NOP, w)] (probe_items off mid pr) [(op, v)]), noise_probe.
Qed.

Lemma good_split_alloc s l1 p l2 : good s (l1 ++ p :: l2) -> exists i, m_mem s !! p = Some i /\ instr_ok (l1 ++ p :: l2) i.
Proof.
  intros Hg. assert (p ∈ l1 ++ p :: l2) as Hp by (apply elem_of_app; right; left).
  destruct (il_list_alloc _ _ p (ex_list _ _ (g_ex _ _ Hg))) as [i Hi]; [by right|].
  exists i. split; [done|]. by apply (ex_ok _ _ (g_ex _ _ Hg) p).
Qed.

Lemma good_split_range s l1 p l2 : good s (l1 ++ p :: l2) -> NULL < p < m_brk s.
Proof. intros Hg. apply (good_range _ _ _ Hg). right. apply elem_of_app. right. left. Qed.

Lemma good_not_IL s l : good s l -> IL ∉ l.
Proof. intros Hg. destruct (ex_list _ _ (g_ex _ _ Hg)) as [_ H]. by apply NoDup_cons in H as [? _]. Qed.

Lemma good_split_not_IL s l1 p l2 : good s (l1 ++ p :: l2) -> p <> IL.
Proof. intros Hg ->. apply (good_not_IL _ _ Hg). apply elem_of_app. right. left. Qed.

Lemma payload_off m m' p : payload m' p = payload m p -> off_of m' p = off_of m p.
Proof. unfold payload, off_of. destruct (m !! p), (m' !! p); simpl; congruence. Qed.

Lemma AddCoverageProbeAfter_run s l1 p l2 pr mid :
  good s (l1 ++ p :: l2) ->
  exists s' ns new, AddCoverageProbeAfter p pr mid s = Ok (new, s') /\ probed s s' l1 p ns l2 new.
Proof.
  intros Hg. destruct (good_split_alloc _ _ _ _ Hg) as (i & Hi & _).
  unfold AddCoverageProbeAfter. run_step (new_instr_alloc s (set_opcode CEE_NOP)).
  assert (good s ((l1 ++ [p]) ++ l2)) as Hg' by (by rewrite <- app_assoc).
  destruct (insert_after_run s (l1 ++ [p]) l2 (mkILInstr NULL NULL CEE_NOP 0 0) CEE_NOP 0 Hg' eq_refl
    ltac:(by vm_compute) ltac:(done) p) as (s1 & R1 & [I1 I2 I3 I4 I5 I6]).
  { by rewrite app_comm_cons, last_snoc. }
  run_step R1. rewrite <- app_assoc in I1.
  assert (m_brk s <> p) as Hne.
  { intros E. apply (good_fresh _ _ Hg). rewrite E. right. apply elem_of_app. right. left. }
  destruct (good_split_alloc _ l1 p (m_brk s :: l2) I1) as (i1 & Hi1 & _).
  destruct (add_probe_call_run s1 l1 p (m_brk s) l2 i1 pr mid I1 Hi1)
    as (s2 & ns & R2 & H1 & H2 & H3 & H4 & H5 & H6 & H7).
  exists s2, (ns ++ [m_brk s]), (m_brk s). split; [done|].
  assert (p ∉ ns) as Hpn.
  { intros Hin. apply H4 in Hin. pose proof (good_split_range _ _ _ _ I1). lia. }
  assert (m_brk s ∉ ns) as Hbn by (intros Hin; apply H4 in Hin; lia).
  split.
  - by rewrite <- app_assoc.
  - intros q Hq Hqn. rewrite elem_of_app, list_elem_of_singleton in Hqn. rewrite H3 by tauto. apply I3. tauto.
  - intros q Hq. rewrite elem_of_app, list_elem_of_singleton in Hq. destruct Hq as [Hq| ->]; [|done].
    apply H4 in Hq. lia.
  - apply last_snoc.
  - change (p :: ns ++ [m_brk s]) with ([p] ++ ns ++ [m_brk s]). rewrite !items_of_app, H2.
    simpl. rewrite (item_of_payload (m_mem s1) (m_mem s2) p) by (by apply H3).
    rewrite (item_of_payload (m_mem s) (m_mem s1) p) by (by apply I3).
    rewrite (item_of_payload (m_mem s1) (m_mem s2) (m_brk s)) by (by apply H3).
    rewrite (item_of_new _ _ _ _ I2). apply (probe_after_items (item_of (m_mem s) p)).
  - transitivity (off_of (m_mem s1) p); apply payload_off; [by apply H3|by apply I3].
  - lia.
  - by rewrite H6, I5.
  - congruence.
Qed.

(** An assignment that leaves the links and keeps the instruction exportable. *)
Lemma good_store s l p i f :
  good s l -> p <> IL -> m_mem s !! p = Some i -> m_pNext (f i) = m_pNext i -> m_pPrev (f i) = m_pPrev i ->
  instr_ok l (f i) -> good (with_mem (<[p := f i]> (m_mem s)) s) l.
Proof.
  intros [[[Hl Hnd] Hok] Hwf Hn HnE HE HIL] HpIL Hi Hnx Hpv Hf. split; simpl; try done.
  - split; [split; [|done]|].
    + revert Hl. apply linked_same; intros q; rewrite ?nxt_insert, ?prv_insert; case_decide; try done;
        subst; unfold nxt, prv; rewrite Hi; simpl; congruence.
    + intros q j Hq Hj. destruct (decide (p = q)) as [<-|Hne].
      * rewrite lookup_insert_eq in Hj. by injection Hj as <-.
      * rewrite lookup_insert_ne in Hj by done. by apply (Hok q).
  - intros q Hq. apply Hwf. simpl in Hq. destruct (decide (p = q)) as [<-|Hne]; [by eexists|].
    by rewrite lookup_insert_ne in Hq.
  - unfold item_of. by rewrite lookup_insert_ne.
Qed.

Lemma copy_instr_run {A} s p i (k : Z -> M A) :
  m_mem s !! p = Some i -> m_brk s <> p -> is_uint 32 (m_opcode i) ->
  (pNewInstr ← NewILInstr;
   i ← load p; store pNewInstr (set_opcode (m_opcode i));;
   i ← load p; store pNewInstr (set_target (m_Arg i));; k pNewInstr) s =
  k (m_brk s) (allocated s (mkILInstr NULL NULL (m_opcode i) 0 (m_Arg i))).
Proof.
  intros Hi Hne Hu. unfold NewILInstr. unfold mbind at 1, st_bind at 1.
  erewrite st_bind_run by (apply load_run; simpl; rewrite lookup_insert_ne by done; exact Hi).
  erewrite st_bind_run by (apply store_run; simpl; by rewrite lookup_insert_eq).
  erewrite st_bind_run by (apply load_run; simpl; rewrite !lookup_insert_ne by done; exact Hi).
  erewrite st_bind_run by (apply store_run; simpl; by rewrite lookup_insert_eq).
  simpl m_mem. rewrite !insert_insert_eq. unfold set_opcode at 1, set_target. simpl. by rewrite wrap_small.
Qed.

Lemma valid_uint32 op : valid_opcode op -> is_uint 32 op.
Proof. unfold valid_opcode, is_uint, CEE_SWITCH_ARG. lia. Qed.

Lemma AddCoverageProbeBefore_run s l1 p l2 pr mid :
  good s (l1 ++ p :: l2) ->
  exists s' ns new, AddCoverageProbeBefore p pr mid s = Ok (new, s') /\ probed s s' l1 p ns l2 new.
Proof.
  intros Hg. destruct (good_split_alloc _ _ _ _ Hg) as (i & Hi & Hv & Hbr).
  pose proof (good_split_range _ _ _ _ Hg) as Hrg. assert (m_brk s <> p) as Hne by lia.
  unfold AddCoverageProbeBefore. rewrite (copy_instr_run s p i) by (done || by apply valid_uint32).
  assert (good s ((l1 ++ [p]) ++ l2)) as Hg' by (by rewrite <- app_assoc).
  destruct (insert_after_run s (l1 ++ [p]) l2 _ (m_opcode i) (m_Arg i) Hg' eq_refl Hv
    ltac:(by rewrite <- app_assoc) p) as (s1 & R1 & [I1 I2 I3 I4 I5 I6]).
  { by rewrite app_comm_cons, last_snoc. }
  run_step R1. rewrite <- app_assoc in I1.
  destruct (good_split_alloc _ l1 p (m_brk s :: l2) I1) as (i1 & Hi1 & _).
  run_step (store_run _ _ (set_opcode CEE_NOP) _ Hi1).
  set (s2 := with_mem (<[p := set_opcode CEE_NOP i1]> (m_mem s1)) s1).
  assert (good s2 (l1 ++ p :: m_brk s :: l2)) as G2.
  { apply good_store; try done. by apply (good_split_not_IL _ _ _ _ Hg). }
  assert (m_mem s2 !! p = Some (set_opcode CEE_NOP i1)) as Hi2 by (simpl; by rewrite lookup_insert_eq).
  destruct (add_probe_call_run s2 l1 p (m_brk s) l2 _ pr mid G2 Hi2)
    as (s3 & ns & R2 & H1 & H2 & H3 & H4 & H5 & H6 & H7).
  exists s3, (ns ++ [m_brk s]), (m_brk s). split; [done|]. change (m_brk s2) with (m_brk s1) in *.
  assert (p ∉ ns) as Hpn.
  { intros Hin. apply H4 in Hin. pose proof (good_split_range _ _ _ _ I1). lia. }
  assert (m_brk s ∉ ns) as Hbn by (intros Hin; apply H4 in Hin; lia).
  assert (forall q, q <> p -> q ∉ ns -> payload (m_mem s3) q = payload (m_mem s1) q) as H31.
  { intros q Hq Hqn. rewrite H3 by done. simpl. rewrite payload_insert. by rewrite decide_False. }
  split.
  - by rewrite <- app_assoc.
  - intros q Hq Hqn. rewrite elem_of_app, list_elem_of_singleton in Hqn. rewrite H31 by tauto. apply I3. tauto.
  - intros q Hq. rewrite elem_of_app, list_elem_of_singleton in Hq. destruct Hq as [Hq| ->]; [|done].
    apply H4 in Hq. lia.
  - apply last_snoc.
  - change (p :: ns ++ [m_brk s]) with ([p] ++ ns ++ [m_brk s]). rewrite !items_of_app, H2.
    simpl. rewrite (item_of_payload (m_mem s2) (m_mem s3) p), (item_of_lookup _ _ _ Hi2) by (by apply H3).
    rewrite (item_of_payload (m_mem s1) (m_mem s3) (m_brk s)) by (by apply H31).
    rewrite (item_of_new _ _ _ _ I2), (item_of_lookup _ _ _ Hi).
    apply (probe_before_items (m_opcode i) (m_Arg i) (m_Arg i1)).
  - transitivity (off_of (m_mem s2) p); [apply payload_off; by apply H3|].
    rewrite (off_of_lookup _ _ _ Hi2). simpl. rewrite <- (off_of_lookup _ _ _ Hi1). apply payload_off. by apply I3.
  - lia.
  - change (ehs s2) with (ehs s1) in H6. by rewrite H6, I5.
  - change (header_of s2) with (header_of s1) in H7. congruence.
Qed.

(** The instructions of [l] from [p] on. *)
Fixpoint from (p : Z) (l : list Z) : list Z :=
  match l with
  | [] => []
  | q :: t => if q =? p then l else from p t
  end.

Lemma from_app_l q l1 l2 : q ∈ l1 -> from q (l1 ++ l2) = from q l1 ++ l2.
Proof.
  induction l1 as [|x l1 IH]; intros Hq; [by apply elem_of_nil in Hq|]. simpl.
  destruct (Z.eqb_spec x q); [done|]. apply IH. apply elem_of_cons in Hq as [?|?]; [congruence|done].
Qed.

Lemma from_app_r q l1 l2 : q ∉ l1 -> from q (l1 ++ l2) = from q l2.
Proof.
  induction l1 as [|x l1 IH]; intros Hq; [done|]. simpl. apply not_elem_of_cons in Hq as [Hne Hq].
  destruct (Z.eqb_spec x q); [congruence|]. by apply IH.
Qed.

Lemma from_cons p l : from p (p :: l) = p :: l.
Proof. simpl. by rewrite Z.eqb_refl. Qed.

Lemma from_sub p q l : q ∈ from p l -> q ∈ l.
Proof.
  induction l as [|x l IH]; [done|]. simpl. destruct (x =? p); [done|]. intros H. right. by apply IH.
Qed.

Lemma elem_tail {A} (x : A) l : x ∈ tail l -> x ∈ l.
Proof. destruct l; [done|]. intros H. by right. Qed.

(** The end of the protected region or handler stays where it was. *)
Record clause_kept (m : gmap Z ILInstr) (l : list Z) (m' : gmap Z ILInstr) (l' : list Z) (e e' : EHClause) : Prop := {
  ck_same : m_Flags e' = m_Flags e /\ m_pTryBegin e' = m_pTryBegin e /\ m_pTryEnd e' = m_pTryEnd e /\
    m_pHandlerBegin e' = m_pHandlerBegin e /\ m_ClassTokenOrFilter e' = m_ClassTokenOrFilter e;
  ck_end : m_pHandlerEnd e ∈ l -> m_pHandlerEnd e' ∈ l' /\
    expands (items_of m (tail (from (m_pHandlerEnd e) l))) (items_of m' (tail (from (m_pHandlerEnd e') l')));
  ck_sentinel : m_pHandlerEnd e = IL -> m_pHandlerEnd e' = IL
}.

(** The new list is the old one with code that only counts inserted; every
    instruction is still on it and continues with the same code, and every
    exception clause protects and handles the same code. *)
Record transparent (s : ILRewriter) (l : list Z) (s' : ILRewriter) (l' : list Z) : Prop := {
  tr_all : expands (items_of (m_mem s) l) (items_of (m_mem s') l');
  tr_from p : p ∈ l -> p ∈ l' /\ expands (items_of (m_mem s) (from p l)) (items_of (m_mem s') (from p l'));
  tr_eh : Forall2 (clause_kept (m_mem s) l (m_mem s') l') (ehs s) (ehs s')
}.

Lemma transparent_refl s l : transparent s l s l.
Proof.
  split; [apply rtc_refl|intros p Hp; split; [done|apply rtc_refl]|].
  apply Forall2_same_length_lookup_2; [done|]. intros k e e' H1 H2. rewrite H1 in H2. injection H2 as <-.
  split; [done|intros; split; [done|apply rtc_refl]|done].
Qed.

Lemma transparent_trans s1 l1 s2 l2 s3 l3 :
  transparent s1 l1 s2 l2 -> transparent s2 l2 s3 l3 -> transparent s1 l1 s3 l3.
Proof.
  intros [A1 F1 E1] [A2 F2 E2]. split.
  - by eapply expands_trans.
  - intros p Hp. destruct (F1 p Hp) as [Hp2 X1]. destruct (F2 p Hp2) as [Hp3 X2].
    split; [done|]. by eapply expands_trans.
  - eapply Forall2_trans; [|exact E1|exact E2].
    intros e1 e2 e3 [(?&?&?&?&?) N1 S1] [(?&?&?&?&?) N2 S2]. split; [split_and!; congruence|..].
    + intros Hin. destruct (N1 Hin) as [Hin2 X1]. destruct (N2 Hin2) as [Hin3 X2]. split; [done|]. by eapply expands_trans.
    + auto.
Qed.

(** Widening the place of one instruction into a segment. *)
Section segment.
Context (m m' : gmap Z ILInstr) (l1 : list Z) (p : Z) (ns l2 : list Z).
Hypothesis Hnd : NoDup (l1 ++ p :: ns ++ l2).
Hypothesis Hold : forall q, q <> p -> q ∉ ns -> payload m' q = payload m q.
Hypothesis Hit : expands [item_of m p] (items_of m' (p :: ns)).

Lemma seg_disjoint q : q ∈ l1 \/ q ∈ l2 -> q <> p /\ q ∉ ns.
Proof using All.
  apply NoDup_app in Hnd as (_ & Hd1 & Hnd2). apply NoDup_cons in Hnd2 as [Hp Hnd2].
  apply NoDup_app in Hnd2 as (_ & Hd2 & _). rewrite elem_of_app in Hp. intros [Hq|Hq].
  - specialize (Hd1 q Hq). rewrite elem_of_cons, elem_of_app in Hd1. tauto.
  - split; [intros ->; tauto|]. intros Hn. by apply (Hd2 q).
Qed.

Lemma seg_same xs : (forall q, q ∈ xs -> q ∈ l1 \/ q ∈ l2) -> items_of m' xs = items_of m xs.
Proof using All.
  intros H. apply items_of_payload. intros q Hq. apply Hold; apply seg_disjoint, H, Hq.
Qed.

(** Code that runs into the segment from the left. *)
Lemma seg_expands xs :
  (forall q, q ∈ xs -> q ∈ l1) ->
  expands (items_of m (xs ++ p :: l2)) (items_of m' (xs ++ p :: ns ++ l2)).
Proof using All.
  intros Hxs. change (p :: ns ++ l2) with ((p :: ns) ++ l2). change (p :: l2) with ([p] ++ l2).
  rewrite !items_of_app. rewrite (seg_same xs), (seg_same l2) by auto.
  apply expands_app_l, expands_app_r. exact Hit.
Qed.

Lemma seg_from q :
  q ∈ l1 ++ p :: l2 ->
  q ∈ l1 ++ p :: ns ++ l2 /\
  expands (items_of m (from q (l1 ++ p :: l2))) (items_of m' (from q (l1 ++ p :: ns ++ l2))).
Proof using All.
  intros Hq. split.
  { rewrite elem_of_app, elem_of_cons in Hq |- *. rewrite elem_of_app. tauto. }
  destruct (decide (q ∈ l1)) as [Hq1|Hq1].
  - rewrite !from_app_l by done. apply seg_expands. intros r. apply from_sub.
  - rewrite !from_app_r by done. destruct (decide (q = p)) as [->|Hqp].
    + rewrite !from_cons. apply (seg_expands []). intros r Hr. by apply elem_of_nil in Hr.
    + assert (q ∈ l2) as Hq2.
      { rewrite elem_of_app, elem_of_cons in Hq. tauto. }
      destruct (seg_disjoint q (or_intror Hq2)) as [_ Hqn].
      change (p :: l2) with ([p] ++ l2). change (p :: ns ++ l2) with ([p] ++ ns ++ l2).
      assert (q ∉ [p]) by (by rewrite list_elem_of_singleton).
      rewrite !(from_app_r q [p]), from_app_r by done. rewrite (seg_same (from q l2)); [apply rtc_refl|].
      intros r Hr. right. by eapply from_sub.
Qed.

(** The continuation behind an instruction, [new] being the last of the
    segment. *)
Lemma seg_behind q new :
  q ∈ l1 ++ p :: l2 -> last ns = Some new ->
  let q' := if q =? p then new else q in
  q' ∈ l1 ++ p :: ns ++ l2 /\
  expands (items_of m (tail (from q (l1 ++ p :: l2)))) (items_of m' (tail (from q' (l1 ++ p :: ns ++ l2)))).
Proof using All.
  intros Hq Hlast q'. subst q'. destruct (Z.eqb_spec q p) as [->|Hqp].
  - pose proof (last_Some_elem_of _ _ Hlast) as Hin. split.
    { rewrite elem_of_app, elem_of_cons, elem_of_app. auto. }
    apply last_Some in Hlast as [ns' Hns]. pose proof Hnd as Hnd'. rewrite Hns in Hnd'.
    apply NoDup_app in Hnd' as (_ & Hd1 & Hnd2). apply NoDup_cons in Hnd2 as [Hp Hnd2].
    rewrite <- app_assoc in Hnd2. apply NoDup_app in Hnd2 as (_ & Hd2 & _).
    assert (p ∉ l1) as Hp1 by (intros H; apply (Hd1 _ H); left).
    assert (new ∉ l1) as Hn1.
    { intros H. apply (Hd1 _ H). right. rewrite !elem_of_app. left. right. left. }
    assert (new ∉ ns') as Hn2 by (intros H; apply (Hd2 _ H); left).
    assert (new ∉ [p]) as Hn3.
    { rewrite list_elem_of_singleton. intros ->. apply Hp. rewrite !elem_of_app. left. right. left. }
    rewrite (from_app_r p l1), (from_app_r new l1), from_cons by done. cbn [tail].
    change (p :: ns ++ l2) with ([p] ++ ns ++ l2). rewrite (from_app_r new [p]) by exact Hn3.
    rewrite Hns, <- app_assoc, (from_app_r new ns') by exact Hn2. simpl app. rewrite from_cons. cbn [tail].
    rewrite (seg_same l2) by auto. apply rtc_refl.
  - destruct (seg_from q Hq) as [Hin _]. split; [done|].
    destruct (decide (q ∈ l1)) as [Hq1|Hq1].
    + rewrite !from_app_l by done.
      assert (exists t, from q l1 = q :: t) as [t Ht].
      { clear -Hq1. induction l1 as [|x xs IH]; [by apply elem_of_nil in Hq1|]. simpl.
        destruct (Z.eqb_spec x q) as [->|]; [eauto|].
        apply elem_of_cons in Hq1 as [?|?]; [congruence|auto]. }
      rewrite Ht. simpl app. simpl tail. apply seg_expands. intros r Hr. apply (from_sub q). rewrite Ht. by right.
    + assert (q ∈ l2) as Hq2.
      { rewrite elem_of_app, elem_of_cons in Hq. tauto. }
      destruct (seg_disjoint q (or_intror Hq2)) as [_ Hqn].
      change (p :: l2) with ([p] ++ l2). change (p :: ns ++ l2) with ([p] ++ ns ++ l2).
      assert (q ∉ [p]) by (by rewrite list_elem_of_singleton).
      rewrite !(from_app_r q l1), !(from_app_r q [p]), from_app_r by done.
      rewrite (seg_same (tail (from q l2))); [apply rtc_refl|].
      intros r Hr. right. eapply from_sub, elem_tail, Hr.
Qed.
End segment.

Lemma good_nodup s l : good s l -> NoDup l.
Proof. intros Hg. destruct (ex_list _ _ (g_ex _ _ Hg)) as [_ H]. by apply NoDup_cons in H as [_ ?]. Qed.

Lemma probed_transparent s s' l1 p ns l2 new :
  good s (l1 ++ p :: l2) -> probed s s' l1 p ns l2 new ->
  transparent s (l1 ++ p :: l2) s' (l1 ++ p :: ns ++ l2).
Proof.
  intros Hg [P1 P2 P3 P4 P5 P6 P7 P8 P9]. pose proof (good_nodup _ _ P1) as Hnd. split.
  - by apply (seg_expands _ _ l1).
  - intros q Hq. by apply seg_from.
  - rewrite P8. apply Forall2_fmap_r, Forall2_same_length_lookup_2; [done|].
    intros k e e' H1 H2. rewrite H1 in H2. injection H2 as <-.
    assert (m_pHandlerEnd (correct_handler p new e) = (if m_pHandlerEnd e =? p then new else m_pHandlerEnd e)) as He
      by (unfold correct_handler; by case_match).
    split; [unfold correct_handler; by case_match|rewrite He..].
    + intros Hq. by apply seg_behind.
    + intros HIL. rewrite HIL. destruct (Z.eqb_spec IL p) as [E|]; [|done].
      exfalso. apply (good_not_IL _ _ Hg). rewrite E. apply elem_of_app. right. left.
Qed.

(** ** The passes *)

(** No instruction is a [tail.] prefix. *)
Definition tail_free (items : list (Z * Z)) : Prop := Forall (fun it => fst it <> CEE_TAILCALL) items.

Lemma noise_tail_free n : noise n -> tail_free n.
Proof. intros []; repeat constructor; done. Qed.

Lemma expands_tail_free a b : expands a b -> tail_free a -> tail_free b.
Proof.
  intros H. induction H as [|a b c H _ IH]; [done|]. intros Ha. apply IH. unfold tail_free in *.
  destruct H as [pre n post Hn|pre op v v' post Hf].
  - apply Forall_app in Ha as [? ?]. apply Forall_app; split; [done|]. apply Forall_app; split; [|done].
    by apply noise_tail_free.
  - apply Forall_app in Ha as [? [? ?]%Forall_cons]. apply Forall_app; split; [done|]. by apply Forall_cons.
Qed.

(** What no insertion changes of a clause. *)
Definition eh_fixed (e : EHClause) : Z * Z * Z := (m_Flags e, m_pHandlerBegin e, m_ClassTokenOrFilter e).

(** What a pass does to a well-formed rewriter: it stays well formed, nothing
    leaves the list, and without tail calls the change is transparent. *)
Record evolves (s : ILRewriter) (l : list Z) (s' : ILRewriter) (l' : list Z) : Prop := {
  ev_good : good s' l';
  ev_sub q : q ∈ l -> q ∈ l';
  ev_fixed : eh_fixed <$> ehs s' = eh_fixed <$> ehs s;
  ev_header : header_of s' = header_of s;
  ev_transparent : tail_free (items_of (m_mem s) l) -> transparent s l s' l'
}.

Lemma ev_begins s l s' l' : evolves s l s' l' -> m_pHandlerBegin <$> ehs s' = m_pHandlerBegin <$> ehs s.
Proof.
  intros H. pose proof (f_equal (fmap (fun x => x.1.2)) (ev_fixed _ _ _ _ H)) as E.
  rewrite <- !list_fmap_compose in E. exact E.
Qed.

Lemma evolves_refl s l : good s l -> evolves s l s l.
Proof. intros H. split; try done. intros _. apply transparent_refl. Qed.

Lemma evolves_trans s1 l1 s2 l2 s3 l3 :
  evolves s1 l1 s2 l2 -> evolves s2 l2 s3 l3 -> evolves s1 l1 s3 l3.
Proof.
  intros [A1 A2 A3 A4 A5] [B1 B2 B3 B4 B5]. split; [done|auto|congruence|congruence|].
  intros Ht. specialize (A5 Ht). eapply transparent_trans; [exact A5|]. apply B5.
  eapply expands_tail_free; [apply (tr_all _ _ _ _ A5)|done].
Qed.

Lemma ev_sub_IL s l s' l' q : evolves s l s' l' -> q ∈ IL :: l -> q ∈ IL :: l'.
Proof. intros H. rewrite !elem_of_cons. intros [?|?]; [auto|right]. by apply (ev_sub _ _ _ _ H). Qed.

Lemma probed_evolves s s' l1 p ns l2 new :
  good s (l1 ++ p :: l2) -> probed s s' l1 p ns l2 new -> evolves s (l1 ++ p :: l2) s' (l1 ++ p :: ns ++ l2).
Proof.
  intros Hg Hp. pose proof (probed_transparent _ _ _ _ _ _ _ Hg Hp) as Ht. split; try done.
  - apply Hp.
  - intros q Hq. by apply (tr_from _ _ _ _ Ht).
  - rewrite (pr_eh _ _ _ _ _ _ _ Hp), <- list_fmap_compose. apply list_fmap_ext.
    intros k e _. unfold compose, correct_handler. by case_match.
  - apply Hp.
Qed.

(** Both kinds of insertion, at any instruction of the list. *)
Lemma MakeProbeInsertion_run s l x mid :
  good s l -> target x ∈ l ->
  exists s' l', MakeProbeInsertion x mid s = Ok (tt, s') /\ evolves s l s' l'.
Proof.
  intros Hg Ht. apply list_elem_of_split in Ht as (l1 & l2 & ->). unfold MakeProbeInsertion.
  destruct (isBeforeInstr x).
  - destruct (AddCoverageProbeBefore_run s l1 _ l2 (probe x) mid Hg) as (s' & ns & new & Hr & Hp).
    exists s', (l1 ++ target x :: ns ++ l2). split; [by run_step Hr|]. by eapply probed_evolves.
  - destruct (AddCoverageProbeAfter_run s l1 _ l2 (probe x) mid Hg) as (s' & ns & new & Hr & Hp).
    exists s', (l1 ++ target x :: ns ++ l2). split; [by run_step Hr|]. by eapply probed_evolves.
Qed.

Lemma good_load s l p : good s l -> p ∈ IL :: l ->
  exists i, load p s = Ok (i, s) /\ m_mem s !! p = Some i /\ m_pNext i ∈ IL :: l /\ m_pPrev i ∈ IL :: l.
Proof.
  intros Hg Hp. pose proof (ex_list _ _ (g_ex _ _ Hg)) as Hl.
  destruct (il_list_alloc _ _ _ Hl Hp) as [i Hi]. exists i. split; [by apply load_run|]. split; [done|].
  destruct (il_list_next _ _ _ Hl Hp) as (n & Hn & _ & Hnin), (il_list_prev _ _ _ Hl Hp) as (h & Hh & _ & Hhin).
  unfold nxt, prv in *. rewrite Hi in Hn, Hh. simpl in *. by simplify_eq.
Qed.

Lemma priority_fold mid xs : forall s l covered,
  good s l -> Forall (fun x => target x ∈ l) xs ->
  exists covered' s' l', st_fold (priority_insertion mid) xs covered s = Ok (covered', s') /\ evolves s l s' l'.
Proof.
  induction xs as [|x xs IH]; intros s l covered Hg Hx.
  { exists covered, s, l. split; [done|]. by apply evolves_refl. }
  apply Forall_cons in Hx as [Ht Hx]. destruct (MakeProbeInsertion_run s l x mid Hg Ht) as (s1 & l1 & R1 & E1).
  destruct (good_load s1 l1 (target x) (ev_good _ _ _ _ E1)) as (i & Hi & _).
  { right. by apply (ev_sub _ _ _ _ E1). }
  destruct (IH s1 l1 ({[ m_offset i ]} ∪ covered) (ev_good _ _ _ _ E1)) as (c2 & s2 & l2 & R2 & E2).
  { eapply Forall_impl; [exact Hx|]. intros y. apply (ev_sub _ _ _ _ E1). }
  exists c2, s2, l2. split; [|by eapply evolves_trans].
  assert (priority_insertion mid x covered s = Ok ({[ m_offset i ]} ∪ covered, s1)) as R
    by (unfold priority_insertion; run_step R1; by run_step Hi).
  cbn [st_fold]. by run_step R.
Qed.

(** Membership in a list as a disjunction. *)
Ltac elems := repeat first [rewrite elem_of_app | rewrite elem_of_cons].

(** The assignments of [reroute_branch] to the branch and to the new branch
    over the new return. *)
Lemma reroute_tail_run s l1 b ns ret l2 t :
  good s (l1 ++ b :: ns ++ ret :: l2) -> t ∈ ns ->
  exists s' l', (store b (set_target t);;
    i ← load b;
    if (m_opcode i =? CEE_BR) || (m_opcode i =? CEE_BR_S) then mret tt else
    skipBranch ← new_instr (set_opcode CEE_BR);
    r ← load ret;
    store skipBranch (set_target (m_pNext r));;
    InsertAfter b skipBranch) s = Ok (tt, s') /\ good s' l' /\
    (forall q, q ∈ l1 ++ b :: ns ++ ret :: l2 -> q ∈ l') /\ ehs s' = ehs s /\ header_of s' = header_of s.
Proof.
  intros Hg Ht. destruct (good_split_alloc _ _ _ _ Hg) as (i & Hi & Hv & Hbr).
  run_step (store_run _ _ (set_target t) _ Hi).
  set (s1 := with_mem (<[b := set_target t i]> (m_mem s)) s).
  assert (good s1 (l1 ++ b :: ns ++ ret :: l2)) as G1.
  { apply good_store; try done; [by apply (good_split_not_IL _ _ _ _ Hg)|]. split; [done|]. intros _.
    right. simpl. rewrite elem_of_app, elem_of_cons, elem_of_app. auto. }
  assert (m_mem s1 !! b = Some (set_target t i)) as Hi1 by (simpl; by rewrite lookup_insert_eq).
  run_step (load_run _ _ _ Hi1). destruct (_ || _); [by exists s1, (l1 ++ b :: ns ++ ret :: l2)|].
  run_step (new_instr_alloc s1 (set_opcode CEE_BR)).
  assert (ret ∈ IL :: l1 ++ b :: ns ++ ret :: l2) as Hret.
  { right. rewrite elem_of_app, elem_of_cons, elem_of_app, elem_of_cons. auto. }
  destruct (good_load s1 _ ret G1 Hret) as (r & _ & Hr & Hrn & _).
  assert (m_brk s1 <> ret) as Hne by (intros E; by apply (good_fresh _ _ G1); rewrite E).
  erewrite st_bind_run by (apply load_run; simpl; rewrite lookup_insert_ne by done; exact Hr).
  erewrite st_bind_run by (apply store_run; simpl; by rewrite lookup_insert_eq).
  simpl m_mem. rewrite insert_insert_eq.
  destruct (insert_after_run s1 (l1 ++ [b]) (ns ++ ret :: l2) (mkILInstr NULL NULL CEE_BR 0 (m_pNext r)) CEE_BR (m_pNext r)
    ltac:(by rewrite <- app_assoc) eq_refl ltac:(by vm_compute) ltac:(intros _; by rewrite <- app_assoc) b)
    as (s2 & R2 & [I1 I2 I3 I4 I5 I6]).
  { by rewrite app_comm_cons, last_snoc. }
  exists s2, (l1 ++ b :: m_brk s1 :: ns ++ ret :: l2). rewrite <- app_assoc in I1. split_and!; try done.
  intros q. elems. tauto.
Qed.

Lemma reroute_branch_run s l1 b l2 lv mid off :
  good s (l1 ++ b :: l2) ->
  exists s' l', reroute_branch lv mid off b s = Ok (tt, s') /\ good s' l' /\
    (forall q, q ∈ l1 ++ b :: l2 -> q ∈ l') /\ ehs s' = ehs s /\ header_of s' = header_of s.
Proof.
  intros Hg. unfold reroute_branch. run_step (new_instr_alloc s (set_opcode CEE_RET)).
  destruct (insert_after_run s (l1 ++ [b]) l2 (mkILInstr NULL NULL CEE_RET 0 0) CEE_RET 0
    ltac:(by rewrite <- app_assoc) eq_refl ltac:(by vm_compute) ltac:(done) b) as (s1 & R1 & I).
  { by rewrite app_comm_cons, last_snoc. }
  run_step R1. pose proof (in_good _ _ _ _ _ _ I) as G1.
  pose proof (grown_refl s1 (l1 ++ [b]) (m_brk s :: l2) G1) as G0.
  destruct (AddLDCInstrBefore_run s1 s1 (l1 ++ [b]) [] (m_brk s :: l2) [] (m_brk s) off G0 eq_refl) as (s2 & R2 & G2).
  run_step R2.
  destruct (AddLDCInstrBefore_run s1 s2 (l1 ++ [b]) _ (m_brk s :: l2) _ (m_brk s) mid G2 eq_refl) as (s3 & R3 & G3).
  run_step R3.
  destruct (AddProbe_run s1 s3 (l1 ++ [b]) _ (m_brk s :: l2) _ (m_brk s) (addr lv) (getSig lv) G3 eq_refl)
    as (s4 & ns4 & R4 & G4).
  run_step R4. pose proof (gr_good _ _ _ _ _ _ G4) as Hg4. rewrite <- (app_assoc l1) in Hg4. simpl in Hg4.
  destruct (reroute_tail_run s4 l1 b (m_brk s1 :: m_brk s2 :: ns4) (m_brk s) l2 (m_brk s1) Hg4 ltac:(left))
    as (s5 & l5 & R5 & Hg5 & Hsub & Heh & Hhd).
  exists s5, l5. split; [exact R5|]. split; [done|]. split_and!.
  - intros q Hq. apply Hsub. revert Hq. elems. tauto.
  - rewrite Heh, (gr_eh _ _ _ _ _ _ G4). apply I.
  - rewrite Hhd, (gr_header _ _ _ _ _ _ G4). apply I.
Qed.

(** A branch to the return of a tail call needs a [tail.] prefix. *)
Lemma IsTailcallRet_run s l p :
  good s l -> p ∈ IL :: l ->
  exists b, IsTailcallRet p s = Ok (b, s) /\ (b = true -> ~ tail_free (items_of (m_mem s) l)).
Proof.
  intros Hg Hp. unfold IsTailcallRet. destruct (good_load s l p Hg Hp) as (i & Li & _ & _ & Hpv).
  run_step Li. destruct (_ =? _); [|by exists false].
  destruct (good_load s l _ Hg Hpv) as (j & Lj & _ & _ & Hpv2). run_step Lj.
  destruct (good_load s l _ Hg Hpv2) as (k & Lk & Hk & _). run_step Lk.
  eexists. split; [done|]. intros Hb%Z.eqb_eq Ht. apply elem_of_cons in Hpv2 as [E|Hin].
  - pose proof (g_IL _ _ Hg) as HIL. rewrite <- E, (item_of_lookup _ _ _ Hk) in HIL. simpl in HIL. by rewrite Hb in HIL.
  - unfold tail_free, items_of in Ht. rewrite Forall_fmap, Forall_forall in Ht.
    apply (Ht _ Hin). simpl. by rewrite (item_of_lookup _ _ _ Hk).
Qed.

Lemma target_fold lv mid xs : forall s l covered,
  good s l -> Forall (fun x => target x ∈ IL :: l /\ parent x ∈ l) xs ->
  exists covered' s' l', st_fold (target_insertion lv mid) xs covered s = Ok (covered', s') /\ evolves s l s' l'.
Proof.
  induction xs as [|x xs IH]; intros s l covered Hg Hx.
  { exists covered, s, l. split; [done|]. by apply evolves_refl. }
  apply Forall_cons in Hx as [[Ht Hpar] Hx].
  assert (exists c1 s1 l1, target_insertion lv mid x covered s = Ok (c1, s1) /\ evolves s l s1 l1)
    as (c1 & s1 & l1 & R1 & E1).
  { unfold target_insertion. destruct (Z.eqb_spec (target x) IL) as [|HIL].
    { exists covered, s, l. split; [done|]. by apply evolves_refl. }
    destruct (good_load s l _ Hg Ht) as (i & Li & _ & Hn & _). run_step Li.
    case_bool_decide. { exists covered, s, l. split; [done|]. by apply evolves_refl. }
    destruct (IsTailcallRet_run s l _ Hg Hn) as (b & Rb & Hb). run_step Rb. destruct b; cbn [negb].
    - apply list_elem_of_split in Hpar as (a1 & a2 & ->).
      destruct (reroute_branch_run s a1 (parent x) a2 lv mid (m_offset i) Hg) as (s1 & l1 & R1 & Hg1 & Hsub & Heh & Hhd).
      run_step R1. eexists _, s1, l1. split; [done|]. split; try done; [by rewrite Heh|]. intros Htf. by destruct (Hb eq_refl).
    - assert (target x ∈ l) as Hin by (by apply elem_of_cons in Ht as [?|?]).
      apply list_elem_of_split in Hin as (a1 & a2 & ->).
      destruct (AddCoverageProbeAfter_run s a1 _ a2 (probe x) mid Hg) as (s' & ns & new & Hr & Hp).
      run_step Hr. eexists _, s', (a1 ++ target x :: ns ++ a2). split; [done|]. by eapply probed_evolves. }
  destruct (IH s1 l1 c1 (ev_good _ _ _ _ E1)) as (c2 & s2 & l2 & R2 & E2).
  { eapply Forall_impl; [exact Hx|]. intros y [Hy1 Hy2]. split; [by eapply ev_sub_IL|by apply (ev_sub _ _ _ _ E1)]. }
  exists c2, s2, l2. split; [|by eapply evolves_trans]. cbn [st_fold]. by run_step R1.
Qed.

(** *** Walks that insert behind the cursor *)

(** A body at [p] may insert [ns] behind [p]; it leaves the cursor on the
    last instruction it inserted. *)
Lemma for_instrs_grow {A} (body : Z -> A -> M (Z * A)) (I : list Z -> list Z -> A -> ILRewriter -> Prop) :
  (forall don todo a s, I don todo a s -> il_list (m_mem s) (don ++ todo)) ->
  (forall don p todo a s, I don (p :: todo) a s -> exists ns a' s',
     body p a s = Ok ((default p (last ns), a'), s') /\ I (don ++ p :: ns) todo a' s') ->
  forall todo don a s fuel q, I don todo a s -> (length todo <= fuel)%nat -> head (todo ++ [IL]) = Some q ->
  exists a' s' l', for_instrs fuel q body a s = Ok (a', s') /\ I l' [] a' s'.
Proof.
  intros Hil Hstep. induction todo as [|p todo IH]; intros don a s fuel q HI Hfuel Hq.
  { injection Hq as <-. exists a, s, don. split; [|done]. by destruct fuel. }
  injection Hq as <-. pose proof (Hil _ _ _ _ HI) as [_ Hnd]. apply NoDup_cons in Hnd as [HIL _].
  assert (p <> IL) as Hp by (intros ->; apply HIL, elem_of_app; right; left).
  destruct fuel as [|fuel]; simpl in Hfuel; [lia|]. cbn [for_instrs].
  destruct (Z.eqb_spec p IL) as [|_]; [done|].
  destruct (Hstep _ _ _ _ _ HI) as (ns & a1 & s1 & R1 & HI1). run_step R1. cbn [fst snd].
  destruct (head (todo ++ [IL])) as [q|] eqn:Hq; [|by destruct todo].
  destruct (il_list_last _ _ _ (default p (last ns)) q (Hil _ _ _ _ HI1)) as [Hn _]; [|done|].
  { rewrite app_comm_cons. destruct ns as [|x ns]; [apply last_snoc|].
    rewrite last_app_cons. rewrite last_cons. destruct (last (x :: ns)) eqn:E; [done|by apply last_None in E]. }
  apply nxt_Some in Hn as (i & Hi & <-). run_step (load_run _ _ _ Hi). apply (IH _ _ _ _ _ HI1); [lia|done].
Qed.

(** *** The first loop of [RewriteIL] *)

Definition wf_insertions (l : list Z) (pri tgt : list ProbeInsertion) : Prop :=
  Forall (fun x => target x ∈ l) pri /\ Forall (fun x => target x ∈ IL :: l /\ parent x ∈ l) tgt.

Record scanning (s0 : ILRewriter) (l0 don todo : list Z) (acc : scan) (s : ILRewriter) : Prop := {
  sc_good : good s (don ++ todo);
  sc_switches : switches (items_of (m_mem s) todo) 0;
  sc_wf : wf_insertions (don ++ todo) (snd (fst acc)) (snd acc);
  sc_sub q : q ∈ l0 -> q ∈ don ++ todo;
  sc_eh : ehs s = ehs s0;
  sc_header : header_of s = header_of s0;
  sc_free : tail_free (items_of (m_mem s0) l0) -> s = s0 /\ don ++ todo = l0
}.

(** The targets of a switch are found behind it. *)
Lemma switch_targets_run cp s p l todo : forall n q acc,
  good s l -> (forall x, x ∈ todo -> x ∈ l) -> linked (m_mem s) (todo ++ [IL]) ->
  head (todo ++ [IL]) = Some q -> p ∈ l ->
  args_follow n (items_of (m_mem s) todo) 0 ->
  Forall (fun x => target x ∈ IL :: l /\ parent x ∈ l) acc ->
  exists acc', switch_targets n cp p q acc s = Ok (acc', s) /\
    Forall (fun x => target x ∈ IL :: l /\ parent x ∈ l) acc'.
Proof.
  induction todo as [|x todo IH]; intros n q acc Hg Hin Hlk Hq Hp Ha Hacc.
  { destruct n; [by exists acc|]. simpl in Ha. lia. }
  destruct n as [|n]; [by exists acc|]. injection Hq as <-. simpl in Ha. cbn [switch_targets].
  destruct (good_load s l x Hg) as (i & Li & Hi & _); [right; apply Hin; left|].
  rewrite (item_of_lookup _ _ _ Hi) in Ha. destruct Ha as [Hop Ha].
  destruct (ex_ok _ _ (g_ex _ _ Hg) x i (Hin x ltac:(left)) Hi) as [_ Htg]. rewrite Hop in Htg.
  run_step Li. destruct (good_load s l (m_pTarget i) Hg) as (t & Lt & _ & _ & Htp); [by apply Htg|].
  run_step Lt. apply (IH n); try done.
  - intros y Hy. apply Hin. by right.
  - by apply (linked_suffix _ [x]).
  - destruct (todo ++ [IL]) as [|y ys] eqn:E; [by destruct todo|].
    change ((x :: todo) ++ [IL]) with (x :: (todo ++ [IL])) in Hlk. rewrite E in Hlk.
    destruct Hlk as [Hn _]. unfold nxt in Hn. rewrite Hi in Hn. injection Hn as ->. done.
  - apply Forall_app. split; [done|]. by apply Forall_singleton.
Qed.

Lemma sint_wrap_small v : 0 <= sint 32 v -> sint 32 v = wrap 32 v.
Proof.
  unfold sint. pose proof (wrap_range 32 v ltac:(lia)) as [? ?]. destruct (_ <? _) eqn:E; [done|]. lia.
Qed.

Lemma scan_keep s0 l0 don p todo acc s tc pri tgt :
  scanning s0 l0 don (p :: todo) acc s -> wf_insertions (don ++ p :: todo) pri tgt ->
  scanning s0 l0 (don ++ [p]) todo (tc, pri, tgt) s.
Proof.
  intros [H1 H2 H3 H4 H5 H6 H7] Hwf. simpl in H2. destruct (item_of (m_mem s) p). destruct H2 as [_ H2].
  split; try done; by rewrite <- app_assoc.
Qed.

Lemma wf_push l pri tgt t par pr b :
  wf_insertions l pri tgt -> t ∈ l -> wf_insertions l (pri ++ [mkProbeInsertion t par pr b]) tgt.
Proof. intros [H1 H2] Ht. split; [|done]. apply Forall_app. split; [done|]. by apply Forall_singleton. Qed.

(** Assignments of offsets. *)
Lemma good_set_offset s l p i o :
  good s l -> p ∈ l -> m_mem s !! p = Some i ->
  good (with_mem (<[p := set_offset o i]> (m_mem s)) s) l.
Proof.
  intros Hg Hp Hi. apply good_store; try done.
  - intros ->. by apply (good_not_IL _ _ Hg).
  - destruct (ex_ok _ _ (g_ex _ _ Hg) p i Hp Hi) as [? ?]. by split.
Qed.

(** A [tail.] prefix is split into a [nop] and a new prefix. *)
Lemma split_tailcall_run {A} s l1 p l2 (k : Z -> M A) :
  good s (l1 ++ p :: l2) ->
  exists s', (newTailcall ← new_instr (set_opcode CEE_TAILCALL);
    store p (set_opcode CEE_NOP);;
    InsertAfter p newTailcall;;
    nt ← load newTailcall; c ← load (m_pNext nt);
    store newTailcall (set_offset (m_offset c));;
    nt ← load newTailcall; c ← load (m_pNext nt); r ← load (m_pNext c);
    store p (set_offset (m_offset r));; k newTailcall) s = k (m_brk s) s' /\
    good s' (l1 ++ p :: m_brk s :: l2) /\ ehs s' = ehs s /\ header_of s' = header_of s /\
    items_of (m_mem s') l2 = items_of (m_mem s) l2.
Proof.
  intros Hg. destruct (good_split_alloc _ _ _ _ Hg) as (i & Hi & _).
  pose proof (good_split_not_IL _ _ _ _ Hg) as HpIL. pose proof (good_split_range _ _ _ _ Hg) as Hrg.
  run_step (new_instr_alloc s (set_opcode CEE_TAILCALL)).
  erewrite st_bind_run by (apply store_run; simpl; rewrite lookup_insert_ne by lia; exact Hi).
  set (s1 := with_mem (<[p := set_opcode CEE_NOP i]> (m_mem s)) s).
  assert (good s1 ((l1 ++ [p]) ++ l2)) as G1.
  { rewrite <- app_assoc. apply good_store; try done. }
  destruct (insert_after_run s1 (l1 ++ [p]) l2 (mkILInstr NULL NULL CEE_TAILCALL 0 0) CEE_TAILCALL 0 G1 eq_refl
    ltac:(by vm_compute) ltac:(done) p) as (s2 & R2 & [I1 I2 I3 I4 I5 I6]).
  { by rewrite app_comm_cons, last_snoc. }
  change (m_brk s1) with (m_brk s) in *. rewrite <- app_assoc in I1. simpl in I1.
  match goal with |- context [with_mem ?m ?t] => replace (with_mem m t) with
    (allocated s1 (mkILInstr NULL NULL CEE_TAILCALL 0 0)) end.
  2:{ unfold s1, allocated. simpl. unfold with_mem, with_alloc. simpl. f_equal. apply insert_insert_ne. lia. }
  run_step R2.
  assert (m_brk s ∈ l1 ++ p :: m_brk s :: l2) as Hin by (elems; tauto).
  destruct (good_load s2 _ (m_brk s) I1 ltac:(by right)) as (n & Ln & Hn & Hnn & _). run_step Ln.
  destruct (good_load s2 _ (m_pNext n) I1 Hnn) as (c & Lc & _). run_step Lc.
  run_step (store_run _ _ (set_offset (m_offset c)) _ Hn).
  pose proof (good_set_offset s2 _ _ n (m_offset c) I1 Hin Hn) as G3.
  set (s3 := with_mem (<[m_brk s := set_offset (m_offset c) n]> (m_mem s2)) s2) in *.
  destruct (good_load s3 _ (m_brk s) G3 ltac:(by right)) as (n' & Ln' & _ & Hnn' & _). run_step Ln'.
  destruct (good_load s3 _ (m_pNext n') G3 Hnn') as (c' & Lc' & _ & Hcn & _). run_step Lc'.
  destruct (good_load s3 _ (m_pNext c') G3 Hcn) as (r & Lr & _). run_step Lr.
  assert (p ∈ l1 ++ p :: m_brk s :: l2) as Hpin by (elems; tauto).
  destruct (good_load s3 _ p G3 ltac:(by right)) as (i3 & _ & Hi3 & _).
  run_step (store_run _ _ (set_offset (m_offset r)) _ Hi3).
  pose proof (good_set_offset s3 _ _ i3 (m_offset r) G3 Hpin Hi3) as G4.
  eexists. split; [reflexivity|]. split; [exact G4|]. split_and!; [exact I5|exact I6|].
  apply list_fmap_ext. intros k' q Hq. assert (q ∈ l2) as Hq2 by (by eapply list_elem_of_lookup_2).
  pose proof (good_nodup _ _ I1) as Hnd. apply NoDup_app in Hnd as (_ & _ & Hnd).
  apply NoDup_cons in Hnd as [Hnp Hnd]. apply NoDup_cons in Hnd as [Hnb _].
  assert (q <> p) as Hqp by (intros ->; apply Hnp; by right). assert (q <> m_brk s) as Hqb by (by intros ->).
  unfold item_of. simpl. rewrite !lookup_insert_ne by done.
  pose proof (I3 q Hqb) as Hpay. unfold payload in Hpay. simpl in Hpay. rewrite lookup_insert_ne in Hpay by done.
  destruct (m_mem s2 !! q), (m_mem s !! q); simpl in *; congruence.
Qed.

(** The branch case: the probe before the branch and those before its targets. *)
Lemma scan_branch s0 l0 cp lv don p todo acc s i :
  scanning s0 l0 don (p :: todo) acc s -> m_mem s !! p = Some i -> OpcodeIsBranch (m_opcode i) = true ->
  exists acc', scan_instr cp lv p acc s = Ok ((p, acc'), s) /\ scanning s0 l0 (don ++ [p]) todo acc' s.
Proof.
  intros Hsc Hi Hbr. destruct acc as [[tc pri] tgt]. pose proof (sc_good _ _ _ _ _ _ Hsc) as Hg.
  pose proof (sc_wf _ _ _ _ _ _ Hsc) as Hwf. simpl in Hwf.
  assert (p ∈ don ++ p :: todo) as Hp by (elems; tauto).
  destruct (ex_ok _ _ (g_ex _ _ Hg) p i Hp Hi) as [Hv Htg].
  unfold scan_instr. run_step (load_run _ _ _ Hi). cbv zeta. rewrite Hbr.
  destruct (Z.eqb_spec (m_opcode i) CEE_SWITCH) as [Hsw|Hns].
  - pose proof (sc_switches _ _ _ _ _ _ Hsc) as Hs. simpl in Hs. rewrite (item_of_lookup _ _ _ Hi) in Hs.
    destruct Hs as [Hs _]. specialize (Hs Hsw).
    pose proof (ex_list _ _ (g_ex _ _ Hg)) as [Hlk _]. rewrite <- app_assoc in Hlk.
    change (IL :: don ++ (p :: todo) ++ [IL]) with ((IL :: don) ++ (p :: (todo ++ [IL]))) in Hlk.
    apply linked_suffix in Hlk.
    destruct (switch_targets_run cp s p (don ++ p :: todo) todo (Z.to_nat (m_Arg32 i)) (m_pNext i) tgt)
      as (tgt' & R & Hf); try done.
    + intros x Hx. elems. tauto.
    + by apply (linked_suffix _ [p]).
    + destruct (todo ++ [IL]) as [|y ys] eqn:E; [by destruct todo|].
      destruct Hlk as [Hn _]. unfold nxt in Hn. rewrite Hi in Hn. injection Hn as ->. done.
    + destruct (Z.ltb_spec (m_Arg32 i) 0) as [Hneg|Hpos]; [by replace (Z.to_nat (m_Arg32 i)) with 0%nat by lia|].
      unfold m_Arg32 in *. by rewrite sint_wrap_small by lia.
    + apply Hwf.
    + run_step R. eexists. split; [done|]. eapply scan_keep; [done|]. destruct Hwf as [? _].
      split; [|done]. apply Forall_app. split; [done|]. by apply Forall_singleton.
  - assert (is_branch_op (m_opcode i) = true) as Hb.
    { pose proof (for_opcodes_spec (fun o => negb (OpcodeIsBranch o) || (o =? CEE_SWITCH) || is_branch_op o)
        (m_opcode i) ltac:(vm_compute; reflexivity) Hv) as R. cbv beta in R. rewrite Hbr in R.
      rewrite (proj2 (Z.eqb_neq _ _) Hns) in R. by destruct (is_branch_op (m_opcode i)). }
    destruct (good_load s _ (m_pTarget i) Hg (Htg Hb)) as (t & Lt & _ & _ & Htp). run_step Lt.
    eexists. split; [done|]. eapply scan_keep; [done|]. destruct Hwf as [H1 H2]. split.
    + apply Forall_app. split; [done|]. by apply Forall_singleton.
    + apply Forall_app. split; [done|]. by apply Forall_singleton.
Qed.

Lemma scan_step s0 l0 cp lv don p todo acc s :
  scanning s0 l0 don (p :: todo) acc s ->
  exists ns acc' s', scan_instr cp lv p acc s = Ok ((default p (last ns), acc'), s') /\
    scanning s0 l0 (don ++ p :: ns) todo acc' s'.
Proof.
  intros Hsc. pose proof (sc_good _ _ _ _ _ _ Hsc) as Hg.
  destruct (good_split_alloc _ _ _ _ Hg) as (i & Hi & _).
  destruct (OpcodeIsBranch (m_opcode i)) eqn:Hbr.
  { destruct (scan_branch s0 l0 cp lv don p todo acc s i Hsc Hi Hbr) as (acc' & R & H). by exists [], acc', s. }
  destruct acc as [[tc pri] tgt]. pose proof (sc_wf _ _ _ _ _ _ Hsc) as Hwf. simpl in Hwf.
  assert (p ∈ don ++ p :: todo) as Hp by (elems; tauto).
  unfold scan_instr. run_step (load_run _ _ _ Hi). cbv zeta. rewrite Hbr.
  destruct (_ =? CEE_STSFLD).
  { destruct (good_load s _ p Hg ltac:(by right)) as (i' & _ & Hi' & _ & Hpv).
    rewrite Hi in Hi'. injection Hi' as <-.
    destruct (good_load s _ (m_pPrev i) Hg Hpv) as (j & Lj & Hj & _). run_step Lj.
    eexists [], _, s. split; [done|]. eapply scan_keep; [done|]. apply wf_push; [done|].
    destruct (IsPrefix (m_opcode j)) eqn:Epf; [|done]. apply elem_of_cons in Hpv as [E|?]; [|done].
    pose proof (g_IL _ _ Hg) as HIL. rewrite <- E, (item_of_lookup _ _ _ Hj) in HIL. simpl in HIL.
    by rewrite HIL in Epf. }
  destruct (Z.eqb_spec (m_opcode i) CEE_TAILCALL) as [Htc|_].
  { destruct (split_tailcall_run s don p todo (fun newTailcall => mret (newTailcall, (true,
        pri ++ [mkProbeInsertion newTailcall NULL (Tailcall cp) true;
                mkProbeInsertion p NULL (Coverage cp) true], tgt))) Hg) as (s' & R & G' & Heh & Hhd & Hit).
    rewrite R.
    eexists [m_brk s], _, s'. split; [reflexivity|].
    destruct Hsc as [H1 H2 H3 H4 H5 H6 H7]. destruct Hwf as [W1 W2].
    assert (forall q, q ∈ don ++ p :: todo -> q ∈ don ++ p :: m_brk s :: todo) as Hsub by (intros q; elems; tauto).
    assert ((don ++ [p; m_brk s]) ++ todo = don ++ p :: m_brk s :: todo) as El by (by rewrite <- app_assoc).
    split; rewrite ?El; try done.
    - rewrite Hit. simpl in H2. destruct (item_of (m_mem s) p). apply H2.
    - split; cbn [fst snd].
      + apply Forall_app. split; [eapply Forall_impl; [exact W1|intros x; apply Hsub]|].
        apply Forall_cons. split; [simpl; elems; tauto|]. apply Forall_singleton. simpl. by apply Hsub.
      + eapply Forall_impl; [exact W2|]. intros x [Hx1 Hx2]. split; [|by apply Hsub].
        apply elem_of_cons in Hx1 as [->|?]; [left|right; by apply Hsub].
    - intros q Hq. by apply Hsub, H4.
    - congruence.
    - congruence.
    - intros Htf. exfalso. destruct (H7 Htf) as [-> El']. rewrite <- El' in Htf.
      unfold tail_free, items_of in Htf. rewrite Forall_fmap, Forall_forall in Htf.
      apply (Htf p Hp). simpl. by rewrite (item_of_lookup _ _ _ Hi). }
  repeat match goal with |- context [if ?b then _ else _] => destruct b end;
    (eexists [], _, s; split; [done|]; eapply scan_keep; [done|]; first [exact Hwf | by apply wf_push]).
Qed.

Lemma scan_run cp lv s l :
  good s l -> switches (items_of (m_mem s) l) 0 ->
  exists tc pri tgt s' l', for_all_instrs (scan_instr cp lv) (false, [], []) s = Ok ((tc, pri, tgt), s') /\
    evolves s l s' l' /\ wf_insertions l' pri tgt.
Proof.
  intros Hg Hsw. pose proof (ex_list _ _ (g_ex _ _ Hg)) as Hl.
  destruct (head (l ++ [IL])) as [q|] eqn:Hq; [|by destruct l].
  destruct (il_list_last _ [] l IL q Hl eq_refl Hq) as [Hn _]. apply nxt_Some in Hn as (i & Hi & <-).
  destruct (for_instrs_grow (scan_instr cp lv) (scanning s l)
    (fun don todo a t H => ex_list _ _ (g_ex _ _ (sc_good _ _ _ _ _ _ H)))
    (fun don p todo a t H => scan_step s l cp lv don p todo a t H) l [] (false, [], []) s (size (m_mem s)) (m_pNext i))
    as ([[tc pri] tgt] & s' & l' & R & [H1 H2 H3 H4 H5 H6 H7]).
  - by split.
  - by apply il_list_size.
  - done.
  - rewrite app_nil_r in *. exists tc, pri, tgt, s', l'. split_and!; [|..|done].
    + unfold for_all_instrs. run_step (eq_refl : st_get s = Ok (s, s)). by run_step (load_run _ _ _ Hi).
    + split; try done; [by rewrite H5|]. intros Htf. destruct (H7 Htf) as [-> ->]. apply transparent_refl.
Qed.

(** *** The probe at the entry *)

Lemma AddEnterProbe_run s l a sg mid :
  good s l -> exists s' l', AddEnterProbe a sg mid s = Ok (tt, s') /\ evolves s l s' l'.
Proof.
  intros Hg. unfold AddEnterProbe. pose proof (ex_list _ _ (g_ex _ _ Hg)) as Hl.
  destruct (head (l ++ [IL])) as [q|] eqn:Hq; [|by destruct l].
  destruct (il_list_last _ [] l IL q Hl eq_refl Hq) as [Hn _]. apply nxt_Some in Hn as (i & Hi & Hiq).
  run_step (load_run _ _ _ Hi). rewrite Hiq.
  assert (q ∈ IL :: l) as Hqin.
  { destruct l as [|z l']; simpl in Hq; injection Hq as <-; [left|right; left]. }
  destruct (good_load s l q Hg Hqin) as (f & Lf & _). run_step Lf.
  pose proof (grown_refl s [] l Hg) as G0.
  destruct (AddLDCInstrBefore_run s s [] [] l [] q (m_offset f) G0 Hq) as (s1 & R1 & G1). run_step R1.
  destruct (AddLDCInstrBefore_run s s1 [] _ l _ q mid G1 Hq) as (s2 & R2 & G2). run_step R2.
  run_step (new_instr_alloc s2 (set_opcode CEE_LDC_I4_0)).
  destruct (insert_before_run s2 _ l (mkILInstr NULL NULL CEE_LDC_I4_0 0 0) CEE_LDC_I4_0 0
    (gr_good_assoc _ _ _ _ _ _ G2) eq_refl ltac:(by vm_compute) ltac:(done) q Hq) as (s3 & R3 & I3).
  run_step R3. pose proof (grown_snoc _ _ _ _ _ _ _ _ _ G2 I3) as G3.
  destruct (AddProbe_run s s3 [] _ l _ q a sg G3 Hq) as (s4 & ns4 & R4 & G4).
  match type of G4 with grown _ _ _ ?x _ _ => set (ns := x) in G4 end. clearbody ns.
  rewrite R4. exists s4, (ns ++ l). split; [done|].
  destruct G4 as [H1 H2 H3 H4 H5 H6 H7].
  assert (forall p, p ∈ l -> p ∉ ns) as Hdis.
  { intros p Hp Hin. apply H4 in Hin. pose proof (good_range _ _ p Hg ltac:(by right)). lia. }
  assert (forall xs, (forall p, p ∈ xs -> p ∈ l) -> items_of (m_mem s4) xs = items_of (m_mem s) xs) as Hsame.
  { intros xs Hxs. apply items_of_payload. intros p Hp. apply H3, Hdis, Hxs, Hp. }
  split; [exact H1|intros p Hp; elems; tauto|by rewrite H6|done|]. intros _. split.
  - rewrite items_of_app, H2, Hsame by done. apply rtc_once.
    apply (expand_insert [] (enter_items (m_offset f) mid (mkProbeCall a sg)) (items_of (m_mem s) l)), noise_enter.
  - intros p Hp. split; [elems; tauto|]. rewrite from_app_r by (by apply Hdis).
    rewrite Hsame; [apply rtc_refl|]. intros r. apply from_sub.
  - rewrite H6. apply Forall2_same_length_lookup_2; [done|]. intros k e e' E1 E2. rewrite E1 in E2. injection E2 as <-.
    split; [done| |done]. intros He. split; [elems; tauto|]. rewrite from_app_r by (by apply Hdis).
    rewrite Hsame; [apply rtc_refl|]. intros r Hr. eapply from_sub, elem_tail, Hr.
Qed.

(** *** The whole instrumentation *)

Lemma handler_probes_run cp s l pri :
  good s l -> Forall (fun e => m_pHandlerBegin e <> IL) (ehs s) -> Forall (fun x => target x ∈ l) pri ->
  exists pri', handler_probes cp pri s = Ok (pri', s) /\ Forall (fun x => target x ∈ l) pri'.
Proof.
  intros Hg Hb Hpri. unfold handler_probes. run_step (eq_refl : st_get s = Ok (s, s)).
  pose proof (g_nEH _ _ Hg) as Hn. pose proof (g_eh _ _ Hg) as He. unfold ehs in *.
  destruct (m_pEH s) as [es|]; [|by exists pri]. simpl in *. rewrite Hn by done.
  destruct (_ <? _) eqn:E; [exfalso; lia|]. rewrite Nat2Z.id, firstn_all. eexists. split; [done|].
  apply Forall_app. split; [done|]. apply Forall_fmap, Forall_forall. intros e Hin. simpl.
  rewrite Forall_forall in He, Hb. destruct (He e Hin) as (_ & _ & Hh & _).
  apply elem_of_cons in Hh as [Hh|?]; [|done]. by destruct (Hb e Hin).
Qed.

Lemma instrument_list_run cp mid isMain s l :
  good s l -> switches (items_of (m_mem s) l) 0 -> Forall (fun e => m_pHandlerBegin e <> IL) (ehs s) ->
  exists s' l', instrument_list cp mid isMain s = Ok (tt, s') /\ evolves s l s' l'.
Proof.
  intros Hg Hsw Hb. unfold instrument_list. cbv zeta.
  set (lv := if isMain then LeaveMain cp else Leave cp). set (en := if isMain then EnterMain cp else Enter cp).
  destruct (scan_run cp lv s l Hg Hsw) as (tc & pri & tgt & s1 & l1 & R1 & E1 & W1 & W2). run_step R1.
  assert (Forall (fun e => m_pHandlerBegin e <> IL) (ehs s1)) as Hb1.
  { apply Forall_forall. intros e He.
    assert (m_pHandlerBegin e ∈ m_pHandlerBegin <$> ehs s) as Hin
      by (rewrite <- (ev_begins _ _ _ _ E1); by apply list_elem_of_fmap_2).
    apply list_elem_of_fmap in Hin as (e' & -> & He'). rewrite Forall_forall in Hb. by apply Hb. }
  destruct (handler_probes_run cp s1 l1 pri (ev_good _ _ _ _ E1) Hb1 W1) as (pri' & R2 & W1'). run_step R2.
  destruct (priority_fold mid pri' s1 l1 ∅ (ev_good _ _ _ _ E1) W1') as (c3 & s3 & l3 & R3 & E3). run_step R3.
  destruct (target_fold lv mid tgt s3 l3 c3 (ev_good _ _ _ _ E3)) as (c4 & s4 & l4 & R4 & E4).
  { eapply Forall_impl; [exact W2|]. intros x [Hx1 Hx2].
    split; [by eapply ev_sub_IL|by apply (ev_sub _ _ _ _ E3)]. }
  run_step R4.
  destruct (AddEnterProbe_run s4 l4 (addr en) (getSig en) mid (ev_good _ _ _ _ E4)) as (s5 & l5 & R5 & E5).
  exists s5, l5. split; [done|]. eapply evolves_trans; [exact E1|]. eapply evolves_trans; [exact E3|].
  by eapply evolves_trans.
Qed.

(** [AddExitProbe], which [RewriteIL] does not call. *)
Lemma exit_probe_step cp mid don p todo (tc : bool) s :
  good s (don ++ p :: todo) ->
  exists ns tc' s', exit_probe_instr cp mid p tc s = Ok ((default p (last ns), tc'), s') /\
    good s' ((don ++ p :: ns) ++ todo) /\ transparent s (don ++ p :: todo) s' ((don ++ p :: ns) ++ todo).
Proof.
  intros Hg. destruct (good_split_alloc _ _ _ _ Hg) as (i & Hi & _). unfold exit_probe_instr.
  run_step (load_run _ _ _ Hi).
  assert (forall pr b, exists ns s', (q ← AddCoverageProbeBefore p pr mid; mret (q, b)) s
      = Ok ((default p (last ns), b : bool), s') /\
    good s' ((don ++ p :: ns) ++ todo) /\ transparent s (don ++ p :: todo) s' ((don ++ p :: ns) ++ todo)) as Hadd.
  { intros pr b. destruct (AddCoverageProbeBefore_run s don p todo pr mid Hg) as (s' & ns & new & R & P).
    exists ns, s'. rewrite <- app_assoc. simpl. split_and!; [|apply P|by eapply probed_transparent].
    run_step R. by rewrite (pr_last _ _ _ _ _ _ _ P). }
  assert (good s ((don ++ [p]) ++ todo) /\ transparent s (don ++ p :: todo) s ((don ++ [p]) ++ todo)) as Hkeep.
  { rewrite <- app_assoc. split; [done|apply transparent_refl]. }
  destruct (_ =? CEE_TAILCALL); [destruct (Hadd (Tailcall cp) true) as (ns & s' & H); eauto|].
  destruct (_ =? CEE_RET); [|exists [], tc, s; by split].
  destruct tc; [exists [], false, s; by split|]. destruct (Hadd (Leave cp) false) as (ns & s' & H). eauto.
Qed.

Lemma AddExitProbe_run cp mid s l :
  good s l -> exists s' l', AddExitProbe cp mid s = Ok (tt, s') /\ good s' l' /\ transparent s l s' l'.
Proof.
  intros Hg. pose proof (ex_list _ _ (g_ex _ _ Hg)) as Hl. destruct (head (l ++ [IL])) as [q|] eqn:Hq; [|by destruct l].
  destruct (il_list_last _ [] l IL q Hl eq_refl Hq) as [Hn _]. apply nxt_Some in Hn as (i & Hi & <-).
  destruct (for_instrs_grow (exit_probe_instr cp mid)
    (fun don todo _ t => good t (don ++ todo) /\ transparent s l t (don ++ todo))
    (fun don todo a t H => ex_list _ _ (g_ex _ _ (proj1 H)))) with (todo := l) (don := @nil Z) (a := false) (s := s)
      (fuel := size (m_mem s)) (q := m_pNext i) as (tc & s' & l' & R & [H1 H2]); try done.
  - intros don p todo tc t [G T]. destruct (exit_probe_step cp mid don p todo tc t G) as (ns & tc' & t' & R & G' & T').
    exists ns, tc', t'. split; [done|]. split; [done|]. by eapply transparent_trans.
  - split; [done|apply transparent_refl].
  - by apply il_list_size.
  - rewrite app_nil_r in *. exists s', l'. split; [|done]. unfold AddExitProbe, for_all_instrs.
    rewrite !st_bind_assoc. run_step (eq_refl : st_get s = Ok (s, s)). rewrite st_bind_assoc.
    run_step (load_run _ _ _ Hi). by run_step R.
Qed.
