(* ===== verification/ILInstrument.v ===== *)
(** * Instrumenting a method

    The theorems on [RewriteIL]: on every well-formed method the probes are
    inserted without undefined behaviour, the instrumented list is the
    original one with code that only counts inserted, and its export hands
    the runtime the encoding of that list. *)

From S2P Require Import Prelude Opcodes ILList ILCode ILImport ILExport ILRoundTrip ILDecoder ILProbes.
Local Open Scope Z_scope.

(** ** From the import to the instrumentation *)

(** What [RewriteIL] needs of a method: its branches and exception clauses name
    instructions of it, and no handler starts at its end. *)
Record method_wf (decoder : ILMethod) (s : ILRewriter) : Prop := {
  mw_bytes : Forall is_byte (il_Code decoder);
  mw_size : 10 * Z.of_nat (length (il_Code decoder)) < 2 ^ 31;
  mw_import : Import decoder new_ILRewriter = Ok (tt, s);
  mw_targets : no_null_target s;
  mw_clauses : Forall (clause_wf (m_pOffsetToInstr s)) (il_EH decoder);
  mw_handlers : Forall (fun c => eh_HandlerOffset c <> Z.of_nat (length (il_Code decoder))) (il_EH decoder)
}.

(** The imported clauses point into the list. *)
Lemma clause_rel_in pIL s l items c e :
  import_result pIL s l items -> clause_wf (m_pOffsetToInstr s) c -> clause_rel s c e -> clause_in l e.
Proof.
  intros Hres [Hk _] [Hf Htb Hte Hhb Hhe Hla].
  unfold clause_offsets in Hk. apply Forall_app in Hk as [Hk Hkf].
  apply Forall_cons in Hk as [K1 Hk]. apply Forall_cons in Hk as [K2 Hk].
  apply Forall_cons in Hk as [K3 Hk]. apply Forall_cons in Hk as [K4 _].
  repeat split; rewrite ?Htb, ?Hte, ?Hhb; try (by eapply lookup_target_in).
  - pose proof (lookup_target_in _ _ _ _ _ Hres K4) as Hin.
    destruct (il_list_prev _ _ _ (ir_list _ _ _ _ Hres) Hin) as (h & Hpv & _ & Hh).
    rewrite Hhe in Hpv. by injection Hpv as ->.
  - rewrite Hf, Hla. intros Hne. apply Z.eqb_neq in Hne. rewrite Hne in Hkf |- *.
    apply Forall_cons in Hkf as [K5 _]. by eapply lookup_target_in.
Qed.

Lemma clause_rel_begin pIL s l items c e :
  import_result pIL s l items -> clause_wf (m_pOffsetToInstr s) c -> clause_rel s c e ->
  eh_HandlerOffset c <> Z.of_nat (length pIL) -> m_pHandlerBegin e <> IL.
Proof.
  intros Hres [Hk Hu] Hrel Hne. rewrite (cr_hb _ _ _ Hrel). unfold lookup_target.
  apply Forall_cons in Hu as [_ Hu]. apply Forall_cons in Hu as [_ Hu]. apply Forall_cons in Hu as [_ Hu].
  apply Forall_cons in Hu as [Hu _]. rewrite wrap_small by done.
  destruct (m_pOffsetToInstr s !! Z.to_nat (eh_HandlerOffset c)) as [p|] eqn:E; simpl; [|done].
  apply (ir_tab _ _ _ _ Hres) in E as [->|[[-> Hv]|(k & Hk' & _)]]; [done| |].
  - unfold is_uint in Hu. lia.
  - intros ->. destruct (ir_list _ _ _ _ Hres) as [_ Hnd]. apply NoDup_cons in Hnd as [Hin _].
    apply Hin. by eapply list_elem_of_lookup_2.
Qed.

(** The flags of a clause, and its token unless it has a filter, fit their
    fields. *)
Definition eh_u32 (x : Z * Z * Z) : Prop :=
  is_uint 32 x.1.1 /\ (Z.land x.1.1 COR_ILEXCEPTION_CLAUSE_FILTER = 0 -> is_uint 32 x.2).

Lemma clause_rel_u32 s c e : clause_wf (m_pOffsetToInstr s) c -> clause_rel s c e -> eh_u32 (eh_fixed e).
Proof.
  intros [_ Hu] Hrel. repeat (apply Forall_cons in Hu as [? Hu]).
  unfold eh_u32, eh_fixed. cbn [fst snd]. rewrite (cr_flags _ _ _ Hrel), (cr_last _ _ _ Hrel).
  split; [done|]. by intros ->.
Qed.

Lemma switches_fst a b rest :
  Forall2 (fun x y => fst x = fst y /\ (fst x = CEE_SWITCH -> snd x = snd y)) a b ->
  switches a rest -> switches b rest.
Proof.
  assert (forall n x y, Forall2 (fun x y => fst x = fst y /\ (fst x = CEE_SWITCH -> snd x = snd y)) x y ->
    args_follow n x rest -> args_follow n y rest) as Haf.
  { induction n as [|n IH]; [done|]. intros x y [|[o v] [o' v'] x' y' [E _] H]; simpl; [done|].
    simpl in E. subst o'. intros [-> Ha]. split; [done|]. by eapply IH. }
  induction 1 as [|[o v] [o' v'] a b [E1 E2] H IH]; [done|]. simpl in *. subst o'.
  intros [H1 H2]. split; [|by apply IH]. intros Ho. rewrite <- E2 by done. eapply Haf; [exact H|]. by apply H1.
Qed.

(** Assigning offsets keeps a rewriter well formed. *)
Lemma laid_out_good s l m' :
  good s l -> laid_out (m_mem s) m' l 0 ->
  (forall q, nxt m' q = nxt (m_mem s) q) -> (forall q, prv m' q = prv (m_mem s) q) ->
  good (with_mem m' s) l /\ forall p, item_of m' p = item_of (m_mem s) p.
Proof.
  intros [[Hl Hok] Hwf Hn HnE HE HIL] [Hout Hin] Hnx Hpv.
  assert (forall p, op_arg m' p = op_arg (m_mem s) p) as Hoa.
  { intros p. destruct (decide (p ∈ l)) as [Hp|Hp].
    - apply list_elem_of_lookup_1 in Hp as [k Hk]. eapply op_arg_payload, (Hin _ _ Hk).
    - pose proof (Hout p Hp) as E. unfold payload, op_arg in *.
      destruct (m' !! p), (m_mem s !! p); simpl in *; congruence. }
  assert (widened (m_mem s) m') as Hw by (by apply same_widened).
  split; [|intros p; by apply item_of_same].
  split; simpl; try done.
  - apply (widened_exportable (m_mem s)); [done|by split].
  - intros p Hp. apply Hwf. simpl in Hp. pose proof (Hoa p) as E. unfold op_arg in E.
    destruct (m' !! p), (m_mem s !! p); simpl in *; try done; by destruct Hp.
  - by rewrite (item_of_same (m_mem s) m' IL).
Qed.

(** The list after the import and [countOffsets]. *)
Lemma imported_good decoder s :
  method_wf decoder s ->
  exists s1 l, countOffsets s = Ok (tt, s1) /\ good s1 l /\ switches (items_of (m_mem s1) l) 0 /\
    Forall (fun e => m_pHandlerBegin e <> IL) (ehs s1) /\
    items_of (m_mem s1) l = items_of (m_mem s) l /\ il_list (m_mem s) l /\
    header_of s1 = (il_LocalVarSigTok decoder, Z.land (il_Flags decoder) CorILMethod_InitLocals, false,
      Z.of_nat (length (il_EH decoder))) /\
    length (ehs s1) = length (il_EH decoder) /\ Forall eh_u32 (eh_fixed <$> ehs s1).
Proof.
  intros [Hb Hsz HI Hnn Hwf Hh].
  destruct (Import_run decoder s Hb ltac:(lia) HI) as (s0 & l & items & HIL & Hres0 & HEH).
  pose proof (rest_ImportIL _ _ _ _ HIL) as Hrest. unfold rest_of in Hrest. simpl in Hrest.
  injection Hrest as Hsig Hfl Htiny Hcsz HnEH HpEH.
  assert (m_pOffsetToInstr s = m_pOffsetToInstr s0) as Htab.
  { unfold ImportEH in HEH. destruct (il_EH decoder) as [|c cs]; [by injection HEH as <-|].
    change (Z.of_nat (length (c :: cs)) =? 0) with false in HEH. cbv iota in HEH.
    apply st_bind_ok in HEH as (es & s2 & Hf & Hm). injection Hm as <-. simpl.
    eapply (preserves_fold m_pOffsetToInstr); [|exact Hf]. intros c' acc.
    unfold import_clause, GetInstrFromOffset, load. preserve. }
  rewrite Htab in Hwf.
  destruct (ImportEH_run _ _ _ _ (il_EH decoder) Hres0 Hwf) as (s' & HEH' & es & Hrel & Hs').
  rewrite HEH in HEH'. injection HEH' as <-.
  assert (import_result (il_Code decoder) s l items) as Hres by (rewrite Hs'; by destruct Hres0).
  assert (ehs s = es) as Hes.
  { rewrite Hs'. unfold ehs. simpl. destruct (il_EH decoder); [|done]. by inversion Hrel; rewrite HpEH. }
  pose proof (code_size_length _ (ir_ops _ _ _ _ Hres)) as Hn.
  pose proof (length_code_bytes 0 0 items) as Hcs. rewrite (ir_code _ _ _ _ Hres) in Hcs.
  assert (length items = length l) as Hll.
  { pose proof (f_equal length (ir_items _ _ _ _ Hres)) as E. by rewrite length_items_of, length_fmap in E. }
  assert (forall k c e, il_EH decoder !! k = Some c -> es !! k = Some e ->
    clause_wf (m_pOffsetToInstr s0) c /\ clause_rel s0 c e /\
    eh_HandlerOffset c <> Z.of_nat (length (il_Code decoder))) as Hall.
  { intros k c e Hc He. split_and!; [by eapply Forall_lookup_1|by eapply Forall2_lookup_lr|].
    by eapply (Forall_lookup_1 (fun c => eh_HandlerOffset c <> _)). }
  pose proof (Forall2_length _ _ _ Hrel) as Hlen.
  assert (forall e, e ∈ es -> exists c, clause_wf (m_pOffsetToInstr s0) c /\ clause_rel s0 c e /\
    eh_HandlerOffset c <> Z.of_nat (length (il_Code decoder))) as Hcl.
  { intros e He. apply list_elem_of_lookup_1 in He as [k Hk].
    destruct (lookup_lt_is_Some_2 (il_EH decoder) k) as [c Hc]; [apply lookup_lt_Some in Hk; lia|]. eauto. }
  assert (good s l) as Hg.
  { split.
    - by apply (import_exportable (il_Code decoder) _ _ items).
    - apply (ir_wf _ _ _ _ Hres).
    - rewrite (ir_n _ _ _ _ Hres). symmetry. apply wrap_small. unfold is_uint. lia.
    - intros _. rewrite Hes, <- Hlen, Hs'. done.
    - rewrite Hes. apply Forall_forall. intros e He. destruct (Hcl e He) as (c & H1 & H2 & _).
      by apply (clause_rel_in _ _ _ _ c e Hres0).
    - apply (ir_IL _ _ _ _ Hres). }
  destruct (countOffsets_run s l (ir_list _ _ _ _ Hres)) as (m' & Hr & Hlay & Hnx & Hpv); [|lia|].
  { intros p i Hp Hi. by apply (ex_ok _ _ (g_ex _ _ Hg) p i). }
  destruct (laid_out_good s l m' Hg Hlay Hnx Hpv) as [Hg1 Hit].
  assert (items_of m' l = items_of (m_mem s) l) as Hits by (apply list_fmap_ext; intros k p _; apply Hit).
  exists (with_mem m' s), l. split_and!; try done.
  - simpl. rewrite Hits, (ir_items _ _ _ _ Hres). eapply switches_fst; [|apply (ir_switches _ _ _ _ Hres)].
    apply Forall2_fmap_r, Forall2_same_length_lookup_2; [done|]. intros k x y Hx Hy. rewrite Hx in Hy. injection Hy as <-.
    unfold compose, resolve_item. destruct (is_branch_op (fst x)) eqn:E; [|done]. split; [done|]. intros Ho. by rewrite Ho in E.
  - change (ehs (with_mem m' s)) with (ehs s). rewrite Hes. apply Forall_forall. intros e He.
    destruct (Hcl e He) as (c & H1 & H2 & H3). by apply (clause_rel_begin _ _ _ _ c e Hres0).
  - apply (ir_list _ _ _ _ Hres).
  - unfold header_of. simpl. rewrite Hs'. simpl. by rewrite Hsig, Hfl, Htiny.
  - change (ehs (with_mem m' s)) with (ehs s). by rewrite Hes.
  - change (ehs (with_mem m' s)) with (ehs s). rewrite Hes. apply Forall_fmap, Forall_forall. intros e He.
    destruct (Hcl e He) as (c & H1 & H2 & _). by apply (clause_rel_u32 _ c e H1).
Qed.

(** ** Exporting an instrumented list *)

Lemma export_clause_safe t l e :
  layout (m_mem t) l -> clause_in l e -> exists c, export_clause e t = Ok (c, t).
Proof.
  intros Hlo (H1 & H2 & H3 & H4 & H5). pose proof (ex_list _ _ (lo_ex _ _ Hlo)) as Hl. unfold export_clause.
  destruct (load_off t l _ Hl H1) as (i1 & L1 & _). run_step L1.
  destruct (load_off t l _ Hl H2) as (i2 & L2 & _). run_step L2.
  destruct (load_off t l _ Hl H3) as (i3 & L3 & _). run_step L3.
  destruct (load_off t l _ Hl H4) as (i4 & L4 & _ & Hn). run_step L4.
  destruct (il_list_next _ _ _ Hl H4) as (h & Hnx & _ & Hh). rewrite Hn in Hnx. injection Hnx as Hnx.
  rewrite <- Hnx in Hh. destruct (load_off t l _ Hl Hh) as (i5 & L5 & _). run_step L5.
  destruct (Z.eqb_spec (Z.land (m_Flags e) COR_ILEXCEPTION_CLAUSE_FILTER) 0) as [|Hf].
  - rewrite st_ret_bind. eauto.
  - destruct (load_off t l _ Hl (H5 Hf)) as (i6 & L6 & _). rewrite st_bind_assoc. run_step L6.
    rewrite st_ret_bind. eauto.
Qed.

(** The fields of what is exported fit the fat format. *)
Lemma export_clause_u32 t l e c :
  layout (m_mem t) l -> code_size (items_of (m_mem t) l) < 2 ^ 31 -> clause_in l e -> eh_u32 (eh_fixed e) ->
  export_clause e t = Ok (c, t) -> clause_u32 c.
Proof.
  intros Hlo Hsz (H1 & H2 & H3 & H4 & H5) [U1 U2] H. unfold eh_fixed in U1, U2. cbn [fst snd] in U1, U2.
  assert (forall p i s', p ∈ IL :: l -> load p t = Ok (i, s') -> s' = t /\ is_uint 32 (m_offset i)) as Hload.
  { intros p i s' Hp Hr. destruct (load_off t l p (ex_list _ _ (lo_ex _ _ Hlo)) Hp) as (j & Hj & Hoj & _).
    rewrite Hr in Hj. injection Hj as -> ->. pose proof (layout_bound _ _ _ Hlo Hp). split; [done|]. unfold is_uint. lia. }
  unfold export_clause in H.
  apply st_bind_ok in H as (tb & t1 & L1 & H). apply Hload in L1 as [-> O1]; [|done].
  apply st_bind_ok in H as (te & t2 & L2 & H). apply Hload in L2 as [-> O2]; [|done].
  apply st_bind_ok in H as (hb & t3 & L3 & H). apply Hload in L3 as [-> O3]; [|done].
  apply st_bind_ok in H as (he & t4 & L4 & H). apply Hload in L4 as [-> O4]; [|done].
  apply st_bind_ok in H as (hn & t5 & L5 & H).
  apply st_bind_ok in H as (last & t6 & L6 & H).
  unfold mret, st_ret in H. injection H as <- ->. 
  unfold clause_u32. cbn [eh_Flags eh_TryOffset eh_TryLength eh_HandlerOffset eh_HandlerLength eh_ClassTokenOrFilterOffset].
  repeat (apply Forall_cons; split); try done; try (by apply wrap_range).
  destruct (Z.eqb_spec (Z.land (m_Flags e) COR_ILEXCEPTION_CLAUSE_FILTER) 0) as [E|E].
  - unfold mret, st_ret in L6. injection L6 as <- _. by apply U2.
  - apply st_bind_ok in L6 as (f & t7 & L6 & L7). assert (t5 = t) as -> by (unfold load, st_read in L5; destruct (_ !! _); [by injection L5|done]).
    apply Hload in L6 as [-> O6]; [|by apply H5]. unfold mret, st_ret in L7. by injection L7 as <-.
Qed.

(** A well-formed rewriter is exported, as the encoding of its list. *)
Lemma Export_good s l Alloc SetBody junk :
  good s l -> 10 * Z.of_nat (length l) + 24 * Z.of_nat (length (ehs s)) < 2 ^ 31 ->
  m_nEH s = Z.of_nat (length (ehs s)) -> m_fGenerateTinyHeader s = false ->
  alloc_spec Alloc -> (forall body, SetBody body = None) ->
  exists m' pad cs, Export Alloc SetBody junk s =
      Ok (fat_body (m_flags s) (m_maxStack s) (m_tkLocalVarSig s) (code_bytes 0 0 (abs_items m' l)) pad cs,
          with_mem m' s) /\
    layout m' l /\ all_fit 0 (abs_items m' l) /\ widened (m_mem s) m' /\
    Forall2 (fun c e => export_clause e (with_mem m' s) = Ok (c, with_mem m' s)) cs (ehs s) /\
    Z.of_nat (length pad) = aligned (code_size (abs_items m' l)) - code_size (abs_items m' l).
Proof.
  intros Hg Hsz HnE Htiny Hal Hset.
  assert (m_nInstrs s = Z.of_nat (length l)) as Hn.
  { rewrite (g_n _ _ Hg). apply wrap_small. unfold is_uint. lia. }
  destruct (export_code_run junk s l (g_ex _ _ Hg) ltac:(lia) ltac:(lia)) as (buf & m' & Hr & Hw & [Hlo Hc Hf]).
  set (t := with_mem m' s).
  assert (exists cs, Forall2 (fun c e => export_clause e t = Ok (c, t)) cs (ehs s)) as [cs Hcs].
  { pose proof (g_eh _ _ Hg) as He. clear - He Hlo. induction He as [|e es He _ [cs IH]]; [by exists []|].
    destruct (export_clause_safe t l e Hlo He) as [c Hc']. exists (c :: cs). by constructor. }
  pose proof (Forall2_length _ _ _ Hcs) as Hlen.
  pose proof (code_size_bound (abs_items m' l)) as Hbd.
  assert (length (abs_items m' l) = length l) as Hal' by (unfold abs_items; by rewrite length_fmap, length_items_of).
  pose proof (length_code_bytes 0 0 (abs_items m' l)) as Hcl.
  destruct (export_fat_run (code_bytes 0 0 (abs_items m' l)) t cs (ehs s) Alloc Hcs) with (buf := buf)
    as (pad & Hpad & Hfat); try done.
  - unfold t. simpl. lia.
  - intros Hne. unfold ehs in *. simpl. destruct (m_pEH s); [done|]. simpl in Hlen. by destruct cs.
  - lia.
  - exists m', pad, cs. split_and!; try done; [|by rewrite <- Hcl]. unfold Export. run_step Hr.
    run_step (eq_refl : st_get t = Ok (t, t)). change (m_fGenerateTinyHeader t) with (m_fGenerateTinyHeader s).
    rewrite Htiny. rewrite Hcl, code_size_abs in Hfat. run_step Hfat.
    unfold SetILFunctionBody. by rewrite Hset, st_ret_bind.
Qed.

(** ** The theorems *)

(** C2: on a well-formed method the instrumentation between [countOffsets] and
    [Export] runs to its end, with no null or dangling dereference, and leaves
    a well-formed instruction list.  When the method has no [tail.] prefix, the
    new list is the old one with nothing but [nop]s and complete calls of
    probes inserted: control that reaches an original instruction, by falling
    through or by a branch, finds the same code ahead as before, and every
    exception clause still begins and ends at the same code. *)
Theorem instrument_transparent decoder s covProb methodId isMain :
  method_wf decoder s ->
  exists s1 l1 s2 l2, countOffsets s = Ok (tt, s1) /\ il_list (m_mem s1) l1 /\
    items_of (m_mem s1) l1 = items_of (m_mem s) l1 /\
    instrument_list covProb methodId isMain s1 = Ok (tt, s2) /\ good s2 l2 /\
    (tail_free (items_of (m_mem s1) l1) -> transparent s1 l1 s2 l2).
Proof.
  intros Hwf. destruct (imported_good decoder s Hwf) as (s1 & l1 & R1 & Hg & Hsw & Hb & Hit & _ & _).
  destruct (instrument_list_run covProb methodId isMain s1 l1 Hg Hsw Hb) as (s2 & l2 & R2 & E).
  exists s1, l1, s2, l2. split_and!; try done; [apply (g_ex _ _ Hg)|apply E|apply E].
Qed.

(** [RewriteIL] as a whole, with the clauses it exports. *)
Lemma RewriteIL_run decoder s covProb methodId isMain Alloc SetBody junk :
  method_wf decoder s -> alloc_spec Alloc -> (forall body, SetBody body = None) ->
  exists s1 l1 s2 l2, countOffsets s = Ok (tt, s1) /\ il_list (m_mem s1) l1 /\
    instrument_list covProb methodId isMain s1 = Ok (tt, s2) /\ evolves s1 l1 s2 l2 /\
    (10 * Z.of_nat (size (m_mem s2)) + 24 * Z.of_nat (length (il_EH decoder)) < 2 ^ 31 ->
     exists m' pad cs, RewriteIL Alloc SetBody junk decoder covProb methodId isMain new_ILRewriter =
         Ok (fat_body (Z.land (il_Flags decoder) CorILMethod_InitLocals) (m_maxStack s2)
               (il_LocalVarSigTok decoder) (code_bytes 0 0 (abs_items m' l2)) pad cs, with_mem m' s2) /\
       layout m' l2 /\ all_fit 0 (abs_items m' l2) /\ widened (m_mem s2) m' /\
       Forall2 (fun c e => export_clause e (with_mem m' s2) = Ok (c, with_mem m' s2)) cs (ehs s2) /\
       length cs = length (il_EH decoder) /\ Forall clause_u32 cs /\ code_size (abs_items m' l2) < 2 ^ 31 /\
       Z.of_nat (length pad) = aligned (code_size (abs_items m' l2)) - code_size (abs_items m' l2)).
Proof.
  intros Hwf Hal Hset.
  destruct (imported_good decoder s Hwf) as (s1 & l1 & R1 & Hg & Hsw & Hb & _ & _ & Hhd & Hle & Hu).
  destruct (instrument_list_run covProb methodId isMain s1 l1 Hg Hsw Hb) as (s2 & l2 & R2 & E).
  pose proof (ex_list _ _ (g_ex _ _ (ev_good _ _ _ _ E))) as Hl2.
  exists s1, l1, s2, l2. split; [exact R1|]. split; [apply (g_ex _ _ Hg)|]. split; [exact R2|]. split; [exact E|]. intros Hsz.
  apply il_list_size in Hl2.
  pose proof (ev_header _ _ _ _ E) as Hhd2. rewrite Hhd in Hhd2. unfold header_of in Hhd2.
  injection Hhd2 as Hsig Hfl Htiny HnE.
  rewrite <- (ev_fixed _ _ _ _ E), Forall_fmap in Hu.
  assert (length (ehs s2) = length (il_EH decoder)) as Hle2.
  { rewrite <- Hle. pose proof (f_equal length (ev_fixed _ _ _ _ E)) as L. by rewrite !length_fmap in L. }
  destruct (Export_good s2 l2 Alloc SetBody junk (ev_good _ _ _ _ E)) as (m' & pad & cs & R3 & H1 & H2 & H3 & H4 & H5); try done.
  - lia.
  - congruence.
  - pose proof (code_size_bound (abs_items m' l2)) as Hbd.
    assert (length (abs_items m' l2) = length l2) as Hlen by (unfold abs_items; by rewrite length_fmap, length_items_of).
    pose proof (Forall2_length _ _ _ H4) as Hcl.
    exists m', pad, cs. split_and!; try done; [|congruence| |lia].
    + unfold RewriteIL. run_step (mw_import _ _ Hwf). run_step R1. run_step R2. by rewrite R3, Hfl, Hsig.
    + pose proof (g_eh _ _ (ev_good _ _ _ _ E)) as Hin. clear - H1 H4 Hu Hin Hbd Hlen Hsz Hl2.
      assert (code_size (items_of m' l2) < 2 ^ 31) as Hcs by (rewrite <- code_size_abs; lia).
      apply Forall_forall. intros c [i Hi]%list_elem_of_lookup_1.
      destruct (Forall2_lookup_l _ _ _ _ _ H4 Hi) as (e & He & Hr).
      apply (export_clause_u32 (with_mem m' s2) l2 e c H1 Hcs); [by eapply Forall_lookup_1| |done].
      by apply (Forall_lookup_1 _ _ _ _ Hu He).
Qed.

(** [RewriteIL] as a whole on a well-formed method: it hands the runtime a
    body with the original local signature and flags whose code is the encoding
    of the list the instrumentation leaves, every branch reaching its target,
    provided the instrumented method is not too large for the output buffer's
    size to fit an [unsigned]. *)
Theorem RewriteIL_body decoder s covProb methodId isMain Alloc SetBody junk :
  method_wf decoder s -> alloc_spec Alloc -> (forall body, SetBody body = None) ->
  exists s1 s2 l2, countOffsets s = Ok (tt, s1) /\
    instrument_list covProb methodId isMain s1 = Ok (tt, s2) /\ il_list (m_mem s2) l2 /\
    (10 * Z.of_nat (size (m_mem s2)) + 24 * Z.of_nat (length (il_EH decoder)) < 2 ^ 31 ->
     exists m' pad cs, RewriteIL Alloc SetBody junk decoder covProb methodId isMain new_ILRewriter =
         Ok (fat_body (Z.land (il_Flags decoder) CorILMethod_InitLocals) (m_maxStack s2)
               (il_LocalVarSigTok decoder) (code_bytes 0 0 (abs_items m' l2)) pad cs, with_mem m' s2) /\
       layout m' l2 /\ all_fit 0 (abs_items m' l2) /\ widened (m_mem s2) m' /\
       length cs = length (il_EH decoder)).
Proof.
  intros Hwf Hal Hset.
  destruct (RewriteIL_run decoder s covProb methodId isMain Alloc SetBody junk Hwf Hal Hset) as (s1 & l1 & s2 & l2 & R1 & _ & R2 & E & H).
  exists s1, s2, l2. split_and!; try done; [apply (g_ex _ _ (ev_good _ _ _ _ E))|]. intros Hsz.
  destruct (H Hsz) as (m' & pad & cs & R & H1 & H2 & H3 & _ & H4 & _). by exists m', pad, cs.
Qed.

(** C3: [RewriteIL] from bytes to bytes: of a well-formed method read from
    memory it makes a body from which the decoder reads, with the original local
    signature and [InitLocals] flag, exactly the encoding of the instrumented list,
    in which every branch reaches its target, and the clauses of that list,
    provided that it stays below 2 GB; when the method has no [tail.] prefixes the list differs
    from the original one by calls of probes only. *)
Theorem RewriteIL_decodes base mem decoder s covProb methodId isMain Alloc SetBody junk base' :
  Forall is_byte mem -> decode_method base mem = Ok decoder -> method_wf decoder s ->
  alloc_spec Alloc -> (forall body, SetBody body = None) -> base' mod 4 = 0 ->
  exists s1 l1 s2 l2, countOffsets s = Ok (tt, s1) /\ il_list (m_mem s1) l1 /\
    instrument_list covProb methodId isMain s1 = Ok (tt, s2) /\ il_list (m_mem s2) l2 /\
    (tail_free (items_of (m_mem s1) l1) -> transparent s1 l1 s2 l2) /\
    (10 * Z.of_nat (size (m_mem s2)) + 24 * Z.of_nat (length (il_EH decoder)) < 2 ^ 31 ->
     exists body m' cs, RewriteIL Alloc SetBody junk decoder covProb methodId isMain new_ILRewriter = Ok (body, with_mem m' s2) /\
       decode_method base' body =
         Ok (mkILMethod (il_LocalVarSigTok decoder) (wrap 16 (m_maxStack s2))
               (fat_flags (Z.land (il_Flags decoder) CorILMethod_InitLocals) cs) (code_bytes 0 0 (abs_items m' l2)) cs) /\
       layout m' l2 /\ all_fit 0 (abs_items m' l2) /\ widened (m_mem s2) m' /\
       Forall2 (fun c e => export_clause e (with_mem m' s2) = Ok (c, with_mem m' s2)) cs (ehs s2)).
Proof.
  intros Hm Hd Hwf Hal Hset Hb. destruct (decode_method_range base mem Hm decoder Hd) as (_ & _ & D1 & D2).
  destruct (RewriteIL_run decoder s covProb methodId isMain Alloc SetBody junk Hwf Hal Hset)
    as (s1 & l1 & s2 & l2 & R1 & Hl1 & R2 & E & H).
  exists s1, l1, s2, l2. split_and!; try done; [apply (g_ex _ _ (ev_good _ _ _ _ E))|apply E|]. intros Hsz.
  destruct (H Hsz) as (m' & pad & cs & R & H1 & H2 & H3 & H4 & H5 & H6 & H7 & H8).
  eexists _, m', cs. split_and!; [exact R| |done..].
  rewrite <- (length_code_bytes 0 0 (abs_items m' l2)) in H7, H8. apply decode_fat_body; try done. by rewrite H5.
Qed.

(** ** The theorems at a method *)

Definition sample_probes : CoverageProbes :=
  mkCoverageProbes (mkProbeCall 0x1000 0x11000010) (mkProbeCall 0x1100 0x11000010)
    (mkProbeCall 0x1200 0x11000010) (mkProbeCall 0x1300 0x11000011) (mkProbeCall 0x1400 0x11000011)
    (mkProbeCall 0x1500 0x11000010) (mkProbeCall 0x1600 0x11000010) (mkProbeCall 0x1700 0x11000012)
    (mkProbeCall 0x1800 0x11000010) (mkProbeCall 0x1900 0x11000010) (mkProbeCall 0x1A00 0x11000010).

Lemma sample_wf : method_wf sample sample_state.
Proof.
  split.
  - exact sample_bytes.
  - vm_compute. reflexivity.
  - exact sample_import.
  - exact sample_targets.
  - apply (bool_decide_eq_true_1 (Forall (clause_wf (m_pOffsetToInstr sample_state)) (il_EH sample))).
    vm_compute. reflexivity.
  - apply Forall_singleton. vm_compute. discriminate.
Qed.

Lemma instrument_transparent_witness :
  exists s1 l1 s2 l2, countOffsets sample_state = Ok (tt, s1) /\
    instrument_list sample_probes 7 true s1 = Ok (tt, s2) /\ good s2 l2 /\
    (tail_free (items_of (m_mem s1) l1) -> transparent s1 l1 s2 l2).
Proof.
  destruct (instrument_transparent sample sample_state sample_probes 7 true sample_wf)
    as (s1 & l1 & s2 & l2 & H1 & _ & _ & H2 & H3 & H4).
  exists s1, l1, s2, l2. split; [exact H1|]. split; [exact H2|]. split; [exact H3|exact H4].
Defined.

Lemma RewriteIL_body_witness :
  exists s2 l2 m' pad cs, il_list (m_mem s2) l2 /\
    RewriteIL (fun n => Some (replicate (Z.to_nat n) 0)) (fun _ => None) 0xCC
      sample sample_probes 7 true new_ILRewriter =
      Ok (fat_body 0x10 (m_maxStack s2) 0x11000001 (code_bytes 0 0 (abs_items m' l2)) pad cs, with_mem m' s2).
Proof.
  destruct (RewriteIL_body sample sample_state sample_probes 7 true
    (fun n => Some (replicate (Z.to_nat n) 0)) (fun _ => None) 0xCC sample_wf)
    as (s1 & s2 & l2 & R1 & R2 & Hl & H).
  - intros n Hn. eexists. split; [reflexivity|]. rewrite length_replicate. lia.
  - reflexivity.
  - destruct H as (m' & pad & cs & R & _).
    + vm_compute in R1. injection R1 as <-. vm_compute in R2. injection R2 as <-. vm_compute. reflexivity.
    + exists s2, l2, m', pad, cs. split; [exact Hl|exact R].
Defined.

Lemma RewriteIL_decodes_witness :
  exists s2 l2 body m' cs, il_list (m_mem s2) l2 /\
    RewriteIL (fun n => Some (replicate (Z.to_nat n) 0)) (fun _ => None) 0xCC
      sample sample_probes 7 true new_ILRewriter = Ok (body, with_mem m' s2) /\
    decode_method 0x7F2000 body =
      Ok (mkILMethod 0x11000001 (wrap 16 (m_maxStack s2)) (fat_flags 0x10 cs) (code_bytes 0 0 (abs_items m' l2)) cs).
Proof.
  destruct (RewriteIL_decodes 0x7F1000 sample_memory sample sample_state sample_probes 7 true
    (fun n => Some (replicate (Z.to_nat n) 0)) (fun _ => None) 0xCC 0x7F2000 sample_memory_bytes sample_decoded sample_wf)
    as (s1 & l1 & s2 & l2 & R1 & _ & R2 & Hl & _ & H).
  - intros n Hn. eexists. split; [reflexivity|]. rewrite length_replicate. lia.
  - reflexivity.
  - reflexivity.
  - destruct H as (body & m' & cs & R & D & _).
    + vm_compute in R1. injection R1 as <-. vm_compute in R2. injection R2 as <-. vm_compute. reflexivity.
    + exists s2, l2, body, m', cs. split; [exact Hl|]. split; [exact R|exact D].
Defined.

(** ** Branches to the return of a tail call *)

(** [ldc.i4.0; brtrue.s 10; tail. call; ret], the branch going to the [ret]. *)
Definition tail_sample : ILMethod :=
  mkILMethod 0 8 0x3 [0x16; 0x2D; 0x07; 0xFE; 0x14; 0x28; 1; 0; 0; 0x0A; 0x2A] [].

(** The operand words of the instructions with a given opcode. *)
Definition operands (op : Z) (s : ILRewriter) : list Z :=
  m_Arg <$> filter (fun i => m_opcode i = op) (snd <$> map_to_list (m_mem s)).

(** a branch to the return behind a tail call leaves the method without
    a leave probe.  [RewriteIL] has code that sends such a branch to a new call
    of the leave probe, but it is not reached: the new [tail.] prefix carries the
    offset of the call behind it, so that the offset of the branch's target
    block already counts as covered.  In this method the instrumented branch
    still goes to the original [ret], and no call of the leave probe exists. *)
Theorem tailcall_ret_unprobed :
  let s := state_of (Import tail_sample new_ILRewriter) in
  let s' := state_of ((countOffsets;; instrument_list sample_probes 7 false) s) in
  let ret := lookup_target (m_pOffsetToInstr s) 10 in
  fst (item_of (m_mem s) ret) = CEE_RET /\ item_of (m_mem s') ret = item_of (m_mem s) ret /\
  operands 0x2D s = [ret] /\ operands 0x2D s' = [ret] /\
  operands CEE_BR s' = [] /\ addr (Leave sample_probes) ∉ operands CEE_LDC_I8 s'.
Proof.
  split_and!; [vm_compute; reflexivity..|].
  apply (bool_decide_eq_true_1 (addr (Leave sample_probes) ∉ operands CEE_LDC_I8
    (state_of ((countOffsets;; instrument_list sample_probes 7 false) (state_of (Import tail_sample new_ILRewriter)))))).
  vm_compute. reflexivity.
Qed.
