(* ===== verification/ConcStack.v ===== *)
(** * The concreteness stack of the concolic probes

    [VSharp.ClrInteraction/memory/stack.h] and [stack.cpp]: for every managed
    method that runs, a [StackFrame] remembers which cells of its evaluation
    stack, which arguments and which locals hold concrete values; symbolic
    cells are numbered.  A [Stack] is the deque of the frames of a thread.
    Both count what was popped since the symbolic engine was last told, so that
    the next command lets the engine bring its own copy up to date.

    A frame is related to the abstract stack of booleans it stands for; each
    operation is shown to act on the abstract stack, and the counters are shown
    to be what a mirror of the symbolic part needs.  The checks behind
    [#ifdef _DEBUG] are modelled: [debug] says which build it is. *)

From stdpp Require Import sorting.
From S2P Require Import Prelude.
Local Open Scope Z_scope.

Definition CONCRETE : Z := 2 ^ 32 - 1.

Record StackFrame := mkStackFrame {
  m_concreteness : list Z;
  m_capacity : Z;
  m_concretenessTop : Z;
  m_symbolsCount : Z;
  m_lastSentSymbolsCount : Z;
  m_minSymbsCountSinceLastSent : Z;
  m_args : list bool;
  m_locals : list bool;
  m_resolvedToken : Z;
  m_unresolvedToken : Z;
  m_enteredMarker : bool;
  m_spontaneous : bool;
  m_lastPoppedSymbolics : list (Z * Z)
}.

Definition with_cells (cells : list Z) (top symbols : Z) (f : StackFrame) : StackFrame :=
  mkStackFrame cells (m_capacity f) top symbols (m_lastSentSymbolsCount f)
    (m_minSymbsCountSinceLastSent f) (m_args f) (m_locals f) (m_resolvedToken f)
    (m_unresolvedToken f) (m_enteredMarker f) (m_spontaneous f) (m_lastPoppedSymbolics f).
Definition with_popped (popped : list (Z * Z)) (f : StackFrame) : StackFrame :=
  mkStackFrame (m_concreteness f) (m_capacity f) (m_concretenessTop f) (m_symbolsCount f)
    (m_lastSentSymbolsCount f) (m_minSymbsCountSinceLastSent f) (m_args f) (m_locals f)
    (m_resolvedToken f) (m_unresolvedToken f) (m_enteredMarker f) (m_spontaneous f) popped.
Definition with_sent (last min : Z) (f : StackFrame) : StackFrame :=
  mkStackFrame (m_concreteness f) (m_capacity f) (m_concretenessTop f) (m_symbolsCount f)
    last min (m_args f) (m_locals f) (m_resolvedToken f) (m_unresolvedToken f)
    (m_enteredMarker f) (m_spontaneous f) (m_lastPoppedSymbolics f).
Definition with_slots (args locals : list bool) (f : StackFrame) : StackFrame :=
  mkStackFrame (m_concreteness f) (m_capacity f) (m_concretenessTop f) (m_symbolsCount f)
    (m_lastSentSymbolsCount f) (m_minSymbsCountSinceLastSent f) args locals
    (m_resolvedToken f) (m_unresolvedToken f) (m_enteredMarker f) (m_spontaneous f)
    (m_lastPoppedSymbolics f).
Definition with_marks (entered spontaneous : bool) (f : StackFrame) : StackFrame :=
  mkStackFrame (m_concreteness f) (m_capacity f) (m_concretenessTop f) (m_symbolsCount f)
    (m_lastSentSymbolsCount f) (m_minSymbsCountSinceLastSent f) (m_args f) (m_locals f)
    (m_resolvedToken f) (m_unresolvedToken f) entered spontaneous (m_lastPoppedSymbolics f).

(** ** StackFrame *)

(** The constructor; [memcpy] reads [argsCount] flags. *)
Definition new_StackFrame (resolvedToken unresolvedToken : Z) (args : list bool) (argsCount : Z)
    : result StackFrame :=
  match read_at args 0 (Z.to_nat argsCount) with
  | Some args => Ok (mkStackFrame [] 0 0 0 0 0 args [] resolvedToken unresolvedToken false false [])
  | None => Err Undefined
  end.

(** The new arrays hold [junk] until they are written. *)
Definition configure (junk : Z) (maxStackSize localsCount : Z) : st StackFrame unit :=
  st_modify (fun f => mkStackFrame (replicate (Z.to_nat maxStackSize) junk) maxStackSize
    (m_concretenessTop f) (m_symbolsCount f) (m_lastSentSymbolsCount f)
    (m_minSymbsCountSinceLastSent f) (m_args f) (replicate (Z.to_nat localsCount) true)
    (m_resolvedToken f) (m_unresolvedToken f) (m_enteredMarker f) (m_spontaneous f)
    (m_lastPoppedSymbolics f)).

Definition isEmpty (f : StackFrame) : bool := m_concretenessTop f =? 0.
Definition isFull (f : StackFrame) : bool := m_concretenessTop f =? m_capacity f.

(** [m_concreteness[i]]. *)
Definition cell_at (i : Z) : st StackFrame Z :=
  st_read (fun f => if 0 <=? i then m_concreteness f !! Z.to_nat i else None).

Definition peek (idx : Z) : st StackFrame bool :=
  f ← st_get;
  cell ← cell_at (wrap 32 (wrap 32 (m_concretenessTop f - idx) - 1));
  mret (cell =? CONCRETE).
Definition peek0 : st StackFrame bool :=
  f ← st_get; cell ← cell_at (wrap 32 (m_concretenessTop f - 1)); mret (cell =? CONCRETE).
Definition peek1 : st StackFrame bool :=
  f ← st_get; cell ← cell_at (wrap 32 (m_concretenessTop f - 2)); mret (cell =? CONCRETE).
Definition peek2 : st StackFrame bool :=
  f ← st_get; cell ← cell_at (wrap 32 (m_concretenessTop f - 3)); mret (cell =? CONCRETE).

Definition pop0 : st StackFrame unit := st_modify (with_popped []).

(** A slot of [m_args] or [m_locals]. *)
Definition slot (l : list bool) (index : Z) : option bool :=
  if 0 <=? index then l !! Z.to_nat index else None.
Definition arg (index : Z) : st StackFrame bool := st_read (fun f => slot (m_args f) index).
Definition loc (index : Z) : st StackFrame bool := st_read (fun f => slot (m_locals f) index).
Definition setArg (index : Z) (value : bool) : st StackFrame unit :=
  arg index;;
  st_modify (fun f => with_slots (<[Z.to_nat index := value]> (m_args f)) (m_locals f) f).
Definition setLoc (index : Z) (value : bool) : st StackFrame unit :=
  loc index;;
  st_modify (fun f => with_slots (m_args f) (<[Z.to_nat index := value]> (m_locals f)) f).

Definition hasEntered : StackFrame -> bool := m_enteredMarker.
Definition setEnteredMarker (entered : bool) : st StackFrame unit :=
  st_modify (fun f => with_marks entered (m_spontaneous f) f).
Definition setSpontaneous (isUnmanaged : bool) : st StackFrame unit :=
  st_modify (fun f => with_marks (m_enteredMarker f) isUnmanaged f).

Definition evaluationStackPops (f : StackFrame) : Z :=
  wrap 32 (m_lastSentSymbolsCount f - m_minSymbsCountSinceLastSent f).

Definition StackFrame_resetPopsTracking : st StackFrame unit :=
  st_modify (fun f => with_sent (m_symbolsCount f) (m_symbolsCount f) f).

Section build.
(** Whether [_DEBUG] is defined. *)
Context (debug : bool).

Definition push1 (isConcrete : bool) : st StackFrame unit := fun f =>
  if debug && isFull f then Err (Thrown "Stack overflow!") else
  let symbols := if isConcrete then m_symbolsCount f else wrap 32 (m_symbolsCount f + 1) in
  match write_at (m_concreteness f) (m_concretenessTop f) [if isConcrete then CONCRETE else symbols] with
  | Some cells => Ok (tt, with_cells cells (wrap 32 (m_concretenessTop f + 1)) symbols f)
  | None => Err Undefined
  end.

Definition push1Concrete : st StackFrame unit := push1 true.

(** [--m_symbolsCount; m_lastPoppedSymbolics.emplace_back(cell, depth)] for a
    symbolic cell. *)
Definition drop_cell (cell depth : Z) : st StackFrame unit :=
  if cell =? CONCRETE then mret tt else
  st_modify (fun f =>
    with_popped (m_lastPoppedSymbolics f ++ [(cell, depth)])
      (with_cells (m_concreteness f) (m_concretenessTop f) (wrap 32 (m_symbolsCount f - 1)) f)).

Definition pop1 : st StackFrame bool :=
  f ← st_get;
  if debug && isEmpty f then st_fail (Thrown "Corrupted stack!") else
  pop0;;
  st_modify (fun f => with_cells (m_concreteness f) (wrap 32 (m_concretenessTop f - 1)) (m_symbolsCount f) f);;
  f ← st_get;
  cell ← cell_at (m_concretenessTop f);
  drop_cell cell 0;;
  mret (cell =? CONCRETE).

(** [for (i = m_concretenessTop + count; i > m_concretenessTop; --i)]. *)
Definition pop (count : Z) : st StackFrame bool :=
  f ← st_get;
  if debug && (m_concretenessTop f <? count) then st_fail (Thrown "Corrupted stack!") else
  pop0;;
  st_modify (fun f => with_cells (m_concreteness f) (wrap 32 (m_concretenessTop f - count)) (m_symbolsCount f) f);;
  f ← st_get;
  let top := m_concretenessTop f in
  let first := wrap 32 (top + count) in
  st_fold (fun i _ => cell ← cell_at (i - 1); drop_cell cell (wrap 32 (first - i)))
    (reverse (seqZ (top + 1) (first - top))) tt;;
  f ← st_get;
  mret (match m_lastPoppedSymbolics f with [] => true | _ => false end).

Definition pop1Async : st StackFrame unit :=
  pop1;;
  st_modify (fun f => with_sent (m_lastSentSymbolsCount f)
    (if m_symbolsCount f <? m_minSymbsCountSinceLastSent f then m_symbolsCount f
     else m_minSymbsCountSinceLastSent f) f).

Definition dup : st StackFrame bool :=
  concreteness ← pop1;
  if concreteness : bool
  then push1 concreteness;; push1 concreteness;; mret concreteness
  else mret concreteness.
End build.

(** ** Stack *)

(** [m_frames] from the front of the deque to its back, the top frame. *)
Record Stack := mkStack {
  m_frames : list StackFrame;
  m_lastSentTop : Z;
  m_minTopSinceLastSent : Z
}.

(** [new Stack()] zeroes the counters, as the class has no constructor of its
    own. *)
Definition new_Stack : Stack := mkStack [] 0 0.

Definition with_frames (fs : list StackFrame) (k : Stack) : Stack :=
  mkStack fs (m_lastSentTop k) (m_minTopSinceLastSent k).

(** [m_frames.size()], a [size_t]; [framesCount] returns it as an [unsigned]. *)
Definition frames_size (k : Stack) : Z := Z.of_nat (length (m_frames k)).
Definition framesCount (k : Stack) : Z := wrap 32 (frames_size k).
Definition Stack_isEmpty (k : Stack) : bool := match m_frames k with [] => true | _ => false end.

Definition pushFrame (resolvedToken unresolvedToken : Z) (args : list bool) (argsCount : Z) : st Stack unit :=
  f ← st_lift (new_StackFrame resolvedToken unresolvedToken args argsCount);
  st_modify (fun k => with_frames (m_frames k ++ [f]) k).

Section stack_build.
Context (debug : bool).

Definition popFrameUntracked : st Stack unit := fun k =>
  match last (m_frames k) with
  | None => Err (if debug then Thrown "Stack is empty! Can't pop frame!" else Undefined)
  | Some f =>
      if debug && negb (isEmpty f)
      then Err (Thrown "Corrupted stack: opstack is not empty when popping frame!")
      else Ok (tt, with_frames (take (length (m_frames k) - 1) (m_frames k)) k)
  end.

Definition popFrame : st Stack unit :=
  popFrameUntracked;;
  st_modify (fun k => if frames_size k <? m_minTopSinceLastSent k
                      then mkStack (m_frames k) (m_lastSentTop k) (wrap 32 (frames_size k)) else k).

(** An operation on [topFrame()], which is a reference into the deque. *)
Definition topFrame {A} (m : st StackFrame A) : st Stack A := fun k =>
  match last (m_frames k) with
  | None => Err (if debug then Thrown "Requesting top frame of empty stack!" else Undefined)
  | Some f =>
      match m f with
      | Ok (a, f) => Ok (a, with_frames (take (length (m_frames k) - 1) (m_frames k) ++ [f]) k)
      | Err e => Err e
      end
  end.
End stack_build.

Definition tokenAt (index : Z) : st Stack Z :=
  st_read (fun k => m_unresolvedToken <$> (if 0 <=? index then m_frames k !! Z.to_nat index else None)).

Definition unsentPops (k : Stack) : Z := wrap 32 (m_lastSentTop k - m_minTopSinceLastSent k).
Definition minTopSinceLastSent : Stack -> Z := m_minTopSinceLastSent.

(** [int framesCount] is converted to [unsigned]. *)
Definition Stack_resetPopsTracking (framesCount' : Z) : st Stack unit := fun k =>
  let k := mkStack (m_frames k) (wrap 32 framesCount') (wrap 32 (frames_size k)) in
  match last (m_frames k) with
  | None => Ok (tt, k)
  | Some f =>
      Ok (tt, with_frames (take (length (m_frames k) - 1) (m_frames k)
                ++ [with_sent (m_symbolsCount f) (m_symbolsCount f) f]) k)
  end.

(** ** The abstract stack of a frame

    The frame stands for the list of the concreteness flags of its cells, from
    the bottom to the top; the symbolic cells are numbered from 1 upwards. *)

Fixpoint symb (bs : list bool) : Z :=
  match bs with
  | [] => 0
  | true :: bs => symb bs
  | false :: bs => 1 + symb bs
  end.

(** The cells for the flags, when [n] symbolic cells lie below. *)
Fixpoint encode (n : Z) (bs : list bool) : list Z :=
  match bs with
  | [] => []
  | true :: bs => CONCRETE :: encode n bs
  | false :: bs => (n + 1) :: encode (n + 1) bs
  end.

Record frame_rep (f : StackFrame) (bs : list bool) : Prop := {
  fr_top : m_concretenessTop f = Z.of_nat (length bs);
  fr_cells : seg_at (m_concreteness f) 0 (encode 0 bs);
  fr_symbols : m_symbolsCount f = symb bs;
  fr_capacity : Z.of_nat (length (m_concreteness f)) = m_capacity f;
  fr_bound : m_capacity f < 2 ^ 32 - 1
}.

Lemma symb_range bs : 0 <= symb bs <= Z.of_nat (length bs).
Proof. induction bs as [|[] bs IH]; simpl; lia. Qed.

Lemma symb_app bs cs : symb (bs ++ cs) = symb bs + symb cs.
Proof. induction bs as [|[] bs IH]; simpl; lia. Qed.

Lemma encode_app n bs cs : encode n (bs ++ cs) = encode n bs ++ encode (n + symb bs) cs.
Proof.
  revert n. induction bs as [|[] bs IH]; intros n; simpl; rewrite ?IH; [f_equal; lia|done|].
  do 2 f_equal. f_equal. lia.
Qed.

Lemma length_encode n bs : length (encode n bs) = length bs.
Proof. revert n. induction bs as [|[] bs IH]; intros n; simpl; auto. Qed.

Lemma frame_rep_bound f bs : frame_rep f bs -> Z.of_nat (length bs) <= m_capacity f.
Proof.
  intros [_ Hc _ Hcap _]. unfold seg_at, read_at in Hc. rewrite length_encode in Hc.
  destruct (_ && _) eqn:E; [|done]. lia.
Qed.

(** The cell in the middle of the represented ones. *)
Lemma encoded_cell f bs b cs :
  seg_at (m_concreteness f) 0 (encode 0 (bs ++ b :: cs)) ->
  cell_at (Z.of_nat (length bs)) f = Ok (if b then CONCRETE else symb bs + 1, f).
Proof.
  intros Hc. rewrite encode_app in Hc. apply seg_at_app in Hc as [_ Hc].
  rewrite length_encode in Hc. unfold cell_at, st_read.
  destruct (Z.leb_spec 0 (Z.of_nat (length bs))); [|lia].
  assert (m_concreteness f !! Z.to_nat (Z.of_nat (length bs)) = Some (if b then CONCRETE else symb bs + 1)) as ->; [|done].
  unfold seg_at, read_at in Hc. destruct (_ && _); [|done]. apply (inj Some) in Hc.
  replace (Z.to_nat (0 + Z.of_nat (length bs))) with (Z.to_nat (Z.of_nat (length bs))) in Hc by lia.
  rewrite <- (Nat.add_0_r (Z.to_nat _)), <- lookup_drop.
  assert (encode (0 + symb bs) (b :: cs) !! 0%nat = Some (if b then CONCRETE else symb bs + 1)) as He.
  { destruct b; simpl; do 2 f_equal; lia. }
  rewrite <- Hc in He. apply lookup_take_Some in He as [He _]. exact He.
Qed.

(** What lies below a represented stack is represented too. *)
Lemma frame_rep_below f bs cs popped :
  frame_rep f (bs ++ cs) ->
  frame_rep (with_popped popped (with_cells (m_concreteness f) (Z.of_nat (length bs)) (symb bs) f)) bs.
Proof.
  intros [_ Hc _ Hcap Hb]. split; simpl; try done.
  rewrite encode_app in Hc. by apply seg_at_app in Hc as [Hc _].
Qed.

(** The symbolic cells among the flags [cs], from the top down: their numbers
    and their distances from the top, when [n] symbolic cells lie below and [d]
    cells above. *)
Fixpoint popped_of (n d : Z) (cs : list bool) : list (Z * Z) :=
  match cs with
  | [] => []
  | true :: cs => popped_of n d cs
  | false :: cs => popped_of (n + 1) d cs ++ [(n + 1, d + Z.of_nat (length cs))]
  end.

Lemma popped_of_snoc n d cs c :
  popped_of n d (cs ++ [c]) = (if c then [] else [(n + symb cs + 1, d)]) ++ popped_of n (d + 1) cs.
Proof.
  revert n. induction cs as [|[] cs IH]; intros n; simpl.
  - destruct c; simpl; [done|]. do 2 f_equal; lia.
  - by rewrite IH.
  - rewrite IH, <- app_assoc, length_app. simpl. f_equal; [destruct c; [done|]; do 2 f_equal; lia|].
    do 3 f_equal. lia.
Qed.

Lemma popped_of_nil n d cs : popped_of n d cs = [] <-> forallb id cs = true.
Proof.
  revert n. induction cs as [|[] cs IH]; intros n; simpl; [done|apply IH|].
  split; [|done]. by intros [_ ?]%app_nil.
Qed.

Section frame_ops.
Context (debug : bool).

Lemma push1_run f bs b :
  frame_rep f bs -> Z.of_nat (length bs) < m_capacity f ->
  exists cells, push1 debug b f =
      Ok (tt, with_cells cells (Z.of_nat (length (bs ++ [b]))) (symb (bs ++ [b])) f) /\
    frame_rep (with_cells cells (Z.of_nat (length (bs ++ [b]))) (symb (bs ++ [b])) f) (bs ++ [b]).
Proof.
  intros [Ht Hc Hs Hcap Hb] Hlt. pose proof (symb_range bs) as Hr. unfold push1, isFull.
  destruct (debug && _) eqn:E; [exfalso; lia|]. clear E.
  set (sym := if b then m_symbolsCount f else wrap 32 (m_symbolsCount f + 1)).
  assert (sym = symb (bs ++ [b])) as Hsym.
  { unfold sym. rewrite symb_app, Hs. destruct b; simpl; [lia|]. rewrite wrap_small; unfold is_uint; lia. }
  destruct (write_at_some (m_concreteness f) (m_concretenessTop f) [if b then CONCRETE else sym])
    as [cells Hw]; [simpl; lia..|].
  rewrite Hw, Hsym, (wrap_small 32 (m_concretenessTop f + 1)) by (unfold is_uint; lia).
  replace (m_concretenessTop f + 1) with (Z.of_nat (length (bs ++ [b]))) by (rewrite length_app; simpl; lia).
  exists cells. split; [done|]. pose proof (write_at_length _ _ _ _ Hw) as Hl.
  split; simpl; try done; [|lia]. rewrite encode_app. apply seg_at_app. split.
  - eapply write_at_seg_other; [exact Hw| |exact Hc]. rewrite length_encode. lia.
  - rewrite length_encode, <- Ht. simpl. apply write_at_seg in Hw. rewrite Hsym, symb_app in Hw.
    destruct b; simpl in *; [exact Hw|]. replace (symb bs + 1) with (symb bs + (1 + 0)) by lia. exact Hw.
Qed.

Lemma push1_overflow f bs b :
  frame_rep f bs -> Z.of_nat (length bs) = m_capacity f ->
  push1 debug b f = Err (if debug then Thrown "Stack overflow!" else Undefined).
Proof.
  intros [Ht Hc Hs Hcap Hb] Hlt. unfold push1, isFull. rewrite Ht, Hlt, Z.eqb_refl.
  destruct debug; simpl; [done|]. unfold write_at. rewrite Hcap.
  destruct (_ && _) eqn:E; [|done]. simpl in E. exfalso. lia.
Qed.

Lemma drop_cell_run f n (b : bool) d :
  0 <= n -> n + 1 < 2 ^ 32 - 1 ->
  drop_cell (if b then CONCRETE else n + 1) d f =
    Ok (tt, if b then f else
      with_popped (m_lastPoppedSymbolics f ++ [(n + 1, d)])
        (with_cells (m_concreteness f) (m_concretenessTop f) (wrap 32 (m_symbolsCount f - 1)) f)).
Proof.
  intros Hn Hb. unfold drop_cell. destruct b; [by rewrite Z.eqb_refl|].
  destruct (Z.eqb_spec (n + 1) CONCRETE); [unfold CONCRETE in *; lia|done].
Qed.

Lemma cell_concrete n (b : bool) : 0 <= n -> n + 1 < 2 ^ 32 - 1 -> ((if b then CONCRETE else n + 1) =? CONCRETE) = b.
Proof. intros. destruct b; [apply Z.eqb_refl|]. apply Z.eqb_neq. unfold CONCRETE. lia. Qed.

Lemma pop1_run f bs b :
  frame_rep f (bs ++ [b]) ->
  pop1 debug f = Ok (b, with_popped (popped_of (symb bs) 0 [b])
                          (with_cells (m_concreteness f) (Z.of_nat (length bs)) (symb bs) f)).
Proof.
  intros Hr. pose proof (frame_rep_bound _ _ Hr) as Hbd. pose proof Hr as [Ht Hc Hs Hcap Hb].
  rewrite length_app in Ht, Hbd. simpl in Ht, Hbd. pose proof (symb_range bs) as Hsr.
  unfold pop1. rewrite st_get_bind. unfold isEmpty.
  destruct (debug && _) eqn:E; [exfalso; lia|]. clear E.
  unfold pop0. rewrite st_modify_bind.
  set (g := with_cells (m_concreteness f) (Z.of_nat (length bs)) (m_symbolsCount f) (with_popped [] f)).
  assert (st_modify (fun f0 => with_cells (m_concreteness f0) (wrap 32 (m_concretenessTop f0 - 1)) (m_symbolsCount f0) f0)
    (with_popped [] f) = Ok (tt, g)) as R.
  { unfold st_modify, g. simpl. do 3 f_equal. rewrite wrap_small; unfold is_uint; lia. }
  run_step R. rewrite st_get_bind.
  run_step (encoded_cell g bs b [] Hc). run_step (drop_cell_run g (symb bs) b 0 ltac:(lia) ltac:(lia)).
  unfold mret, st_ret. rewrite cell_concrete by lia. do 2 f_equal.
  rewrite symb_app in Hs. unfold g, with_popped, with_cells. destruct b; simpl in *; f_equal; try lia.
  rewrite Hs, wrap_small; unfold is_uint; lia.
Qed.

Lemma pop1_underflow f : frame_rep f [] -> pop1 debug f = Err (if debug then Thrown "Corrupted stack!" else Undefined).
Proof.
  intros [Ht _ _ Hcap Hb]. simpl in Ht. unfold pop1. rewrite st_get_bind.
  unfold isEmpty. rewrite Ht. destruct debug; [done|]. cbn [andb Z.eqb].
  unfold pop0. rewrite !st_modify_bind, st_get_bind. apply st_bind_err. unfold cell_at, st_read.
  destruct (_ <=? _); [|done]. rewrite lookup_ge_None_2; [done|].
  cbn [m_concretenessTop m_concreteness with_cells with_popped]. rewrite Ht.
  change (wrap 32 (Z.of_nat 0 - 1)) with (2 ^ 32 - 1). lia.
Qed.

(** The loop of [pop]: [d] is the distance of the next cell from the top. *)
Lemma pop_loop bs cs d g :
  seg_at (m_concreteness g) 0 (encode 0 (bs ++ cs)) -> m_symbolsCount g = symb (bs ++ cs) ->
  0 <= d -> Z.of_nat (length (bs ++ cs)) + d < 2 ^ 32 - 1 ->
  st_fold (fun i _ => cell ← cell_at (i - 1);
             drop_cell cell (wrap 32 (Z.of_nat (length (bs ++ cs)) + d - i)))
    (reverse (seqZ (Z.of_nat (length bs) + 1) (Z.of_nat (length cs)))) tt g =
  Ok (tt, with_popped (m_lastPoppedSymbolics g ++ popped_of (symb bs) d cs)
            (with_cells (m_concreteness g) (m_concretenessTop g) (symb bs) g)).
Proof.
  revert d g. induction cs as [|c cs IH] using rev_ind; intros d g Hc Hs Hd Hb.
  { simpl. unfold mret, st_ret. rewrite app_nil_r in Hs. rewrite app_nil_r, <- Hs. by destruct g. }
  pose proof (symb_range (bs ++ cs)) as Hr. rewrite (app_assoc bs cs [c]) in *. rewrite !length_app in *. simpl in *.
  replace (Z.of_nat (length cs + 1)) with (Z.of_nat (length cs) + 1) by lia.
  rewrite seqZ_app, reverse_app by lia. rewrite seqZ_cons, seqZ_nil by lia. simpl.
  replace (Z.of_nat (length bs) + 1 + Z.of_nat (length cs) - 1) with (Z.of_nat (length (bs ++ cs)))
    by (rewrite length_app; lia).
  rewrite st_bind_assoc. run_step (encoded_cell g (bs ++ cs) c [] Hc).
  run_step (drop_cell_run g (symb (bs ++ cs)) c
    (wrap 32 (Z.of_nat (length bs + length cs + 1) + d - (Z.of_nat (length bs) + 1 + Z.of_nat (length cs))))
    ltac:(lia) ltac:(lia)).
  rewrite wrap_small by (unfold is_uint; lia).
  replace (Z.of_nat (length bs + length cs + 1) + d - (Z.of_nat (length bs) + 1 + Z.of_nat (length cs))) with d by lia.
  rewrite encode_app in Hc. apply seg_at_app in Hc as [Hc _]. rewrite symb_app in Hs.
  specialize (IH (d + 1)). replace (Z.of_nat (length bs + length cs) + (d + 1))
    with (Z.of_nat (length bs + length cs + 1) + d) in IH by lia.
  rewrite popped_of_snoc. destruct c; simpl in Hs |- *.
  - rewrite IH; try done; lia.
  - rewrite IH; simpl; try done; try lia.
    + rewrite <- app_assoc. simpl. rewrite <- symb_app. done.
    + rewrite Hs, wrap_small; unfold is_uint; lia.
Qed.

Lemma pop_run f bs cs :
  frame_rep f (bs ++ cs) ->
  pop debug (Z.of_nat (length cs)) f =
    Ok (forallb id cs, with_popped (popped_of (symb bs) 0 cs)
                         (with_cells (m_concreteness f) (Z.of_nat (length bs)) (symb bs) f)).
Proof.
  intros Hr. pose proof (frame_rep_bound _ _ Hr) as Hbd. pose proof Hr as [Ht Hc Hs Hcap Hb].
  rewrite length_app in Ht, Hbd. unfold pop. rewrite st_get_bind.
  destruct (debug && _) eqn:E; [exfalso; lia|]. clear E.
  unfold pop0. rewrite !st_modify_bind, st_get_bind.
  set (g := with_cells _ _ _ _). assert (m_concretenessTop g = Z.of_nat (length bs)) as Hg.
  { unfold g. simpl. rewrite wrap_small; unfold is_uint; lia. }
  rewrite Hg, (wrap_small 32 (Z.of_nat (length bs) + _)) by (unfold is_uint; lia).
  replace (Z.of_nat (length bs) + Z.of_nat (length cs) - Z.of_nat (length bs)) with (Z.of_nat (length cs)) by lia.
  pose proof (pop_loop bs cs 0 g Hc Hs ltac:(lia) ltac:(rewrite length_app; lia)) as R.
  replace (Z.of_nat (length (bs ++ cs)) + 0) with (Z.of_nat (length bs) + Z.of_nat (length cs)) in R
    by (rewrite length_app; lia).
  rewrite Hg in R. run_step R. rewrite st_get_bind. unfold mret, st_ret. simpl. do 2 f_equal.
  destruct (popped_of (symb bs) 0 cs) eqn:Ep.
  - symmetry. by apply popped_of_nil in Ep.
  - destruct (forallb id cs) eqn:Ef; [|done]. apply popped_of_nil with (n := symb bs) (d := 0) in Ef. congruence.
Qed.

Lemma pop_underflow f bs count :
  frame_rep f bs -> Z.of_nat (length bs) < count -> debug = true ->
  pop debug count f = Err (Thrown "Corrupted stack!").
Proof.
  intros [Ht _ _ _ _] Hlt ->. unfold pop. rewrite st_get_bind. destruct (_ && _) eqn:E; [done|exfalso; lia].
Qed.
End frame_ops.

(** ** The frame refines the abstract stack *)

Inductive frame_op :=
  | OPush (b : bool)
  | OPop1
  | OPop (n : nat)
  | OPop1Async
  | ODup.

Definition run_op (debug : bool) (o : frame_op) : st StackFrame bool :=
  match o with
  | OPush b => push1 debug b;; mret b
  | OPop1 => pop1 debug
  | OPop n => pop debug (Z.of_nat n)
  | OPop1Async => pop1Async debug;; mret true
  | ODup => dup debug
  end.

(** The stack machine on flags; [None] is an overflow or an underflow. *)
Definition spec_op (cap : Z) (o : frame_op) (bs : list bool) : option (bool * list bool) :=
  let below n := take (length bs - n) bs in
  match o with
  | OPush b => if Z.of_nat (length bs) <? cap then Some (b, bs ++ [b]) else None
  | OPop1 => b ← last bs; Some (b, below 1%nat)
  | OPop n => if (n <=? length bs)%nat then Some (forallb id (drop (length bs - n) bs), below n) else None
  | OPop1Async => last bs;; Some (true, below 1%nat)
  | ODup => b ← last bs;
      if (b : bool) then (if Z.of_nat (length bs) <? cap then Some (true, bs ++ [true]) else None)
      else Some (false, below 1%nat)
  end.

Definition run_ops (debug : bool) (ops : list frame_op) : st StackFrame (list bool) :=
  st_fold (fun o outs => b ← run_op debug o; mret (outs ++ [b])) ops [].

Fixpoint spec_ops (cap : Z) (ops : list frame_op) (bs : list bool) : option (list bool * list bool) :=
  match ops with
  | [] => Some ([], bs)
  | o :: ops => '(b, bs) ← spec_op cap o bs; '(outs, bs) ← spec_ops cap ops bs; Some (b :: outs, bs)
  end.

Lemma last_split {A} (l : list A) a : last l = Some a -> l = take (length l - 1) l ++ [a].
Proof.
  intros H. apply last_Some in H as [l' ->]. rewrite length_app. simpl.
  replace (length l' + 1 - 1)%nat with (length l') by lia. by rewrite take_app_length.
Qed.

Lemma take_init {A} (l : list A) a : take (length (l ++ [a]) - 1) (l ++ [a]) = l.
Proof.
  rewrite length_app. simpl. replace (length l + 1 - 1)%nat with (length l) by lia. apply take_app_length.
Qed.

Section refinement.
Context (debug : bool).

Lemma pop1Async_run f bs b :
  frame_rep f (bs ++ [b]) ->
  pop1Async debug f = Ok (tt, with_sent (m_lastSentSymbolsCount f) (Z.min (symb bs) (m_minSymbsCountSinceLastSent f))
     (with_popped (popped_of (symb bs) 0 [b]) (with_cells (m_concreteness f) (Z.of_nat (length bs)) (symb bs) f))).
Proof.
  intros Hr. unfold pop1Async. run_step (pop1_run debug f bs b Hr). unfold st_modify. simpl.
  do 3 f_equal. destruct (Z.ltb_spec (symb bs) (m_minSymbsCountSinceLastSent f)); lia.
Qed.

Lemma frame_rep_sent f bs last min : frame_rep f bs -> frame_rep (with_sent last min f) bs.
Proof. by intros [? ? ? ? ?]; split. Qed.

Lemma dup_concrete_run f bs :
  frame_rep f (bs ++ [true]) -> Z.of_nat (length (bs ++ [true])) < m_capacity f ->
  exists f', dup debug f = Ok (true, f') /\ frame_rep f' (bs ++ [true; true]) /\
    m_capacity f' = m_capacity f /\ m_minSymbsCountSinceLastSent f' = m_minSymbsCountSinceLastSent f /\
    m_lastSentSymbolsCount f' = m_lastSentSymbolsCount f.
Proof.
  intros Hr Hlt. unfold dup. run_step (pop1_run debug f bs true Hr).
  pose proof (frame_rep_below f bs [true] (popped_of (symb bs) 0 [true]) Hr) as H1.
  set (g := with_popped _ _) in *. rewrite length_app in Hlt. simpl in Hlt.
  destruct (push1_run debug g bs true H1) as (c1 & R1 & H2); [simpl; lia|].
  run_step R1. set (h := with_cells c1 _ _ _) in *.
  destruct (push1_run debug h (bs ++ [true]) true H2) as (c2 & R2 & H3); [rewrite length_app; simpl; lia|].
  run_step R2. eexists. split; [done|]. split; [|done].
  change [true; true] with ([true] ++ [true]). rewrite (app_assoc bs). exact H3.
Qed.

Lemma dup_overflow f bs :
  frame_rep f (bs ++ [true]) -> Z.of_nat (length (bs ++ [true])) = m_capacity f ->
  dup debug f = Err (if debug then Thrown "Stack overflow!" else Undefined).
Proof.
  intros Hr Hlt. unfold dup. run_step (pop1_run debug f bs true Hr).
  pose proof (frame_rep_below f bs [true] (popped_of (symb bs) 0 [true]) Hr) as H1.
  set (g := with_popped _ _) in *. rewrite length_app in Hlt. simpl in Hlt.
  destruct (push1_run debug g bs true H1) as (c1 & R1 & H2); [simpl; lia|].
  run_step R1. set (h := with_cells c1 _ _ _) in *. apply st_bind_err.
  apply (push1_overflow debug h (bs ++ [true])); [done|]. rewrite length_app. simpl. lia.
Qed.

Lemma run_op_refines o f bs :
  frame_rep f bs ->
  match spec_op (m_capacity f) o bs with
  | Some (b, bs') => exists f', run_op debug o f = Ok (b, f') /\ frame_rep f' bs' /\ m_capacity f' = m_capacity f
  | None => debug = true -> exists msg, run_op debug o f = Err (Thrown msg)
  end.
Proof.
  intros Hr. pose proof (frame_rep_bound _ _ Hr) as Hbd.
  assert (Hnil : last bs = None -> frame_rep f []) by (intros ->%last_None; done).
  destruct o as [b| |n| |]; simpl.
  - destruct (Z.ltb_spec (Z.of_nat (length bs)) (m_capacity f)) as [Hlt|Hge].
    + destruct (push1_run debug f bs b Hr Hlt) as (cells & R & H). run_step R. eauto.
    + intros ->. eexists. apply st_bind_err. by apply (push1_overflow true f bs); [|lia].
  - destruct (last bs) as [b|] eqn:El; simpl.
    + rewrite (last_split bs b El) in Hr. eexists. split; [by apply pop1_run|]. split; [|done].
      by apply frame_rep_below with [b].
    + intros ->. eexists. by apply (pop1_underflow true), Hnil.
  - destruct (Nat.leb_spec n (length bs)) as [Hle|Hgt].
    + rewrite <- (take_drop (length bs - n) bs) in Hr. eexists. split.
      * replace n with (length (drop (length bs - n) bs)) at 1 by (rewrite length_drop; lia). by apply pop_run.
      * split; [|done]. by eapply frame_rep_below.
    + intros ->. eexists. apply (pop_underflow true f bs); [done|lia|done].
  - destruct (last bs) as [b|] eqn:El; simpl.
    + rewrite (last_split bs b El) in Hr. eexists. split; [run_step (pop1Async_run f _ _ Hr); done|].
      split; [|done]. apply frame_rep_sent. by apply frame_rep_below with [b].
    + intros ->. eexists. apply st_bind_err. unfold pop1Async. by apply st_bind_err, (pop1_underflow true), Hnil.
  - destruct (last bs) as [b|] eqn:El; simpl.
    + pose proof (last_split bs b El) as Hs. destruct b.
      * destruct (Z.ltb_spec (Z.of_nat (length bs)) (m_capacity f)) as [Hlt|Hge].
        -- rewrite Hs in Hr, Hlt |- *. destruct (dup_concrete_run f _ Hr Hlt) as (f' & R & H & Hc & _).
           exists f'. rewrite <- app_assoc. done.
        -- intros Hd. eexists. rewrite Hs in Hr, Hge, Hbd. rewrite (dup_overflow f _ Hr) by lia. by rewrite Hd.
      * rewrite Hs in Hr. eexists. split; [unfold dup; run_step (pop1_run debug f _ _ Hr); done|].
        split; [|done]. by apply frame_rep_below with [false].
    + intros ->. eexists. unfold dup. by apply st_bind_err, (pop1_underflow true), Hnil.
Qed.
End refinement.

Lemma run_ops_acc debug ops acc f bs :
  frame_rep f bs ->
  match spec_ops (m_capacity f) ops bs with
  | Some (outs, bs') => exists f',
      st_fold (fun o outs => b ← run_op debug o; mret (outs ++ [b])) ops acc f = Ok (acc ++ outs, f') /\
      frame_rep f' bs' /\ m_capacity f' = m_capacity f
  | None => debug = true -> exists msg,
      st_fold (fun o outs => b ← run_op debug o; mret (outs ++ [b])) ops acc f = Err (Thrown msg)
  end.
Proof.
  revert acc f bs. induction ops as [|o ops IH]; intros acc f bs Hr; simpl.
  { exists f. by rewrite app_nil_r. }
  pose proof (run_op_refines debug o f bs Hr) as Ho.
  destruct (spec_op (m_capacity f) o bs) as [[b bs1]|]; simpl.
  - destruct Ho as (f1 & R & Hr1 & Hc). rewrite st_bind_assoc. run_step R. rewrite st_ret_bind.
    specialize (IH (acc ++ [b]) f1 bs1 Hr1). rewrite Hc in IH.
    destruct (spec_ops (m_capacity f) ops bs1) as [[outs bs2]|]; simpl; [|exact IH].
    by rewrite <- app_assoc in IH.
  - intros Hd. destruct (Ho Hd) as [msg R]. exists msg. by apply st_bind_err, st_bind_err.
Qed.

(** C10: a stack frame behaves as a bounded stack of concreteness flags: any
    sequence of pushes, pops and duplications returns the flags the abstract
    stack returns and leaves a frame that stands for the abstract result, with
    its symbolic cells numbered from the bottom.  A sequence that the abstract
    stack refuses, by an overflow or an underflow, ends in the exception of
    the debug build. *)
Theorem frame_refines_stack debug ops f bs :
  frame_rep f bs ->
  match spec_ops (m_capacity f) ops bs with
  | Some (outs, bs') => exists f', run_ops debug ops f = Ok (outs, f') /\ frame_rep f' bs'
  | None => debug = true -> exists msg, run_ops debug ops f = Err (Thrown msg)
  end.
Proof.
  intros Hr. pose proof (run_ops_acc debug ops [] f bs Hr) as H.
  destruct (spec_ops _ _ _) as [[outs bs']|]; [|exact H].
  destruct H as (f' & R & H & _). by exists f'.
Qed.

(** A frame that has just been configured stands for the empty stack. *)
Definition sample_frame : StackFrame :=
  mkStackFrame (replicate 4 0xCDCDCDCD) 4 0 0 0 0 [true; false] [true] 0x06000001 0x06000002 true false [].

Lemma sample_frame_rep : frame_rep sample_frame [].
Proof. split; try done. Qed.

Lemma frame_refines_stack_witness :
  exists f', run_ops true [OPush false; OPush true; ODup; OPush false; OPop 3; OPop1] sample_frame =
      Ok ([false; true; true; false; false; false], f') /\ frame_rep f' [].
Proof.
  pose proof (frame_refines_stack true [OPush false; OPush true; ODup; OPush false; OPop 3; OPop1]
    sample_frame [] sample_frame_rep) as H.
  vm_compute spec_ops in H. exact H.
Defined.

Lemma popped_of_elem n d cs num depth :
  (num, depth) ∈ popped_of n d cs <->
  exists i, cs !! i = Some false /\ num = n + symb (take i cs) + 1 /\
    depth = d + Z.of_nat (length cs) - 1 - Z.of_nat i.
Proof.
  assert (Hsh : forall c cs (P : nat -> Prop),
    (exists i, (c :: cs) !! i = Some false /\ P i) <->
    (c = false /\ P 0%nat) \/ exists i, cs !! i = Some false /\ P (S i)).
  { intros c cs' P. split.
    - intros ([|i] & H & HP); [left; simpl in H; by simplify_eq|right; by exists i].
    - intros [[-> HP]|(i & H & HP)]; [by exists 0%nat|by exists (S i)]. }
  revert n. induction cs as [|c cs IH]; intros n.
  { simpl. rewrite elem_of_nil. split; [done|]. by intros (i & H & _). }
  rewrite Hsh. destruct c; cbn [popped_of length].
  - rewrite IH. split; [intros (i & H & -> & ->); right|intros [[? _]|(i & H & -> & ->)]; [done|]];
      (exists i; split; [done|simpl; lia]).
  - rewrite elem_of_app, IH, list_elem_of_singleton. split.
    + intros [(i & H & -> & ->)|[= -> ->]]; [right; exists i; split; [done|simpl; lia]|left; split; [done|simpl; lia]].
    + intros [[_ [-> ->]]|(i & H & -> & ->)]; [right; f_equal; simpl; lia|left; exists i; split; [done|simpl; lia]].
Qed.

Lemma popped_of_sorted n d cs : StronglySorted Z.lt (snd <$> popped_of n d cs).
Proof.
  revert n. induction cs as [|[] cs IH]; intros n; simpl; [constructor|apply IH|].
  rewrite fmap_app. apply StronglySorted_app_2; [|apply IH|repeat constructor].
  intros x y Hx Hy. apply list_elem_of_singleton in Hy as ->.
  apply list_elem_of_fmap in Hx as ([num dep] & -> & H). apply popped_of_elem in H as (i & Hi & _ & ->).
  apply lookup_lt_Some in Hi. simpl. lia.
Qed.

(** [pop] of [count] cells reports concrete exactly when all of them are,
    and remembers exactly the symbolic ones, from the top down, each with its
    number, counted from the bottom of the frame, and its distance from the old
    top. *)
Theorem pop_reports debug f bs cs :
  frame_rep f (bs ++ cs) ->
  exists f', pop debug (Z.of_nat (length cs)) f = Ok (forallb id cs, f') /\ frame_rep f' bs /\
    (forall num depth, (num, depth) ∈ m_lastPoppedSymbolics f' <->
       exists i, cs !! i = Some false /\ num = symb (bs ++ take i cs) + 1 /\
         depth = Z.of_nat (length cs) - 1 - Z.of_nat i) /\
    StronglySorted Z.lt (snd <$> m_lastPoppedSymbolics f').
Proof.
  intros Hr. eexists. split; [by apply pop_run|]. split; [by eapply frame_rep_below|].
  split; [|apply popped_of_sorted]. intros num depth. simpl. rewrite popped_of_elem.
  by setoid_rewrite symb_app.
Qed.

Lemma pop_reports_witness :
  exists f f', run_ops false [OPush false; OPush true; OPush false] sample_frame = Ok ([false; true; false], f) /\
    pop false 2 f = Ok (false, f') /\ (2, 0) ∈ m_lastPoppedSymbolics f'.
Proof.
  destruct (run_ops_acc false [OPush false; OPush true; OPush false] [] sample_frame [] sample_frame_rep)
    as (f & R & Hr & _).
  destruct (pop_reports false f [false] [true; false] Hr) as (f' & R' & _ & H & _).
  exists f, f'. split; [exact R|]. split; [exact R'|]. apply H. exists 1%nat. split; [reflexivity|]. split; reflexivity.
Defined.

(** ** What the symbolic engine is told

    Between two commands the engine keeps the symbolic values of the frame as
    they were when the last command was answered.  A quiet operation does not
    pop a symbolic value, except by [pop1Async]; the counters then say how far the
    engine's copy is out of date.  Not every probe that sends no command is
    quiet: [Switch], [Track_Box], [Track_Stobj], [Track_Initobj],
    [Track_Stsfld], [Track_Throw] and [Track_Mkrefany] pop with [pop1] or [pop]
    whatever the value is ([silent_pop_unnoticed]).  [A] is the type of the
    engine's values, [None] stands for a concrete cell. *)

Inductive quiet_op (A : Type) :=
  | QPush (v : option A)
  | QPop (n : nat)
  | QPop1Async
  | QDup.
Arguments QPush {A} v.
Arguments QPop {A} n.
Arguments QPop1Async {A}.
Arguments QDup {A}.

Definition concrete {A} (v : option A) : bool := match v with None => true | Some _ => false end.
Definition symbolics {A} (vs : list (option A)) : list A := omap id vs.

Definition quiet_frame_op {A} (o : quiet_op A) : frame_op :=
  match o with
  | QPush v => OPush (concrete v)
  | QPop n => OPop n
  | QPop1Async => OPop1Async
  | QDup => ODup
  end.

(** The cells with their values; [None] when the operation is not quiet. *)
Definition quiet_step {A} (cap : Z) (o : quiet_op A) (vs : list (option A)) : option (list (option A)) :=
  match o with
  | QPush v => if Z.of_nat (length vs) <? cap then Some (vs ++ [v]) else None
  | QPop n =>
      if (n <=? length vs)%nat && forallb concrete (drop (length vs - n) vs)
      then Some (take (length vs - n) vs) else None
  | QPop1Async => last vs;; Some (take (length vs - 1) vs)
  | QDup =>
      v ← last vs;
      if concrete v && (Z.of_nat (length vs) <? cap) then Some (vs ++ [None]) else None
  end.

Fixpoint quiet_steps {A} (cap : Z) (ops : list (quiet_op A)) (vs : list (option A)) : option (list (option A)) :=
  match ops with
  | [] => Some vs
  | o :: ops => vs ← quiet_step cap o vs; quiet_steps cap ops vs
  end.

Section mirror.
Context {A : Type} (debug : bool).
Implicit Types vs : list (option A).

Lemma length_symbolics vs : Z.of_nat (length (symbolics vs)) = symb (concrete <$> vs).
Proof.
  induction vs as [|[v|] vs IH]; [done| |exact IH].
  change (symbolics (Some v :: vs)) with (v :: symbolics vs).
  change (symb (concrete <$> Some v :: vs)) with (1 + symb (concrete <$> vs)).
  cbn [length]. lia.
Qed.

Lemma symbolics_app vs ws : symbolics (vs ++ ws) = symbolics vs ++ symbolics ws.
Proof. apply omap_app. Qed.

Lemma symbolics_concrete vs : forallb concrete vs = true -> symbolics vs = [].
Proof. induction vs as [|[v|] vs IH]; simpl; [done|done|exact IH]. Qed.

(** The engine's values [sent] with [min] of them left, and the frame. *)
Record mirrored (sent : list A) (f : StackFrame) (vs : list (option A)) : Prop := {
  mi_rep : frame_rep f (concrete <$> vs);
  mi_last : m_lastSentSymbolsCount f = Z.of_nat (length sent);
  mi_min : 0 <= m_minSymbsCountSinceLastSent f <= Z.of_nat (length sent);
  mi_new : exists new, symbolics vs = take (Z.to_nat (m_minSymbsCountSinceLastSent f)) sent ++ new
}.

(** The frame after an operation that leaves the counters alone. *)
Definition same_sent (f f' : StackFrame) : Prop :=
  m_lastSentSymbolsCount f' = m_lastSentSymbolsCount f /\
  m_minSymbsCountSinceLastSent f' = m_minSymbsCountSinceLastSent f /\ m_capacity f' = m_capacity f.

Lemma mirrored_same sent f vs f' vs' new :
  mirrored sent f vs -> same_sent f f' -> frame_rep f' (concrete <$> vs') ->
  symbolics vs' = symbolics vs ++ new -> mirrored sent f' vs'.
Proof.
  intros [Hr Hl Hm [nw Hn]] (E1 & E2 & _) Hr' Hs. split; [done|congruence|by rewrite E2|].
  exists (nw ++ new). by rewrite E2, Hs, Hn, app_assoc.
Qed.

(** Popping the last symbolic value. *)
Lemma mirrored_pop sent f vs v :
  mirrored sent f (vs ++ [v]) ->
  exists f', pop1Async debug f = Ok (tt, f') /\ mirrored sent f' vs /\ m_capacity f' = m_capacity f.
Proof.
  intros [Hr Hl Hm [nw Hn]]. rewrite fmap_app in Hr.
  eexists. split; [by apply pop1Async_run|]. split; [|done].
  pose proof (frame_rep_sent _ _ (m_lastSentSymbolsCount f)
    (Z.min (symb (concrete <$> vs)) (m_minSymbsCountSinceLastSent f))
    (frame_rep_below f (concrete <$> vs) _ (popped_of (symb (concrete <$> vs)) 0 [concrete v]) Hr)) as Hr'.
  split; simpl; [exact Hr'|done|rewrite <- length_symbolics; lia|].
  rewrite <- length_symbolics. rewrite symbolics_app in Hn.
  assert (take (length (symbolics vs)) (symbolics vs ++ symbolics [v]) = symbolics vs) as Ht by apply take_app_length.
  rewrite Hn in Ht.
  destruct (Z.min_spec (Z.of_nat (length (symbolics vs))) (m_minSymbsCountSinceLastSent f)) as [[Hlt ->]|[Hge ->]].
  - exists []. rewrite app_nil_r, Nat2Z.id. rewrite <- Ht at 1.
    rewrite take_app_le by (rewrite length_take; lia). rewrite take_take. f_equal. lia.
  - exists (take (length (symbolics vs) - Z.to_nat (m_minSymbsCountSinceLastSent f)) nw).
    rewrite <- Ht at 1. rewrite take_app, take_take, length_take.
    replace (length (symbolics vs) `min` Z.to_nat (m_minSymbsCountSinceLastSent f))%nat
      with (Z.to_nat (m_minSymbsCountSinceLastSent f)) by lia.
    replace (Z.to_nat (m_minSymbsCountSinceLastSent f) `min` length sent)%nat
      with (Z.to_nat (m_minSymbsCountSinceLastSent f)) by lia. done.
Qed.

Lemma quiet_step_run sent o f vs vs' :
  mirrored sent f vs -> quiet_step (m_capacity f) o vs = Some vs' ->
  exists b f', run_op debug (quiet_frame_op o) f = Ok (b, f') /\ mirrored sent f' vs' /\ m_capacity f' = m_capacity f.
Proof.
  intros Hm H. pose proof (mi_rep _ _ _ Hm) as Hr. destruct o as [v|n| |]; simpl in H |- *.
  - destruct (Z.ltb_spec (Z.of_nat (length vs)) (m_capacity f)) as [Hlt|]; [|done]. injection H as <-.
    destruct (push1_run debug f _ (concrete v) Hr) as (cells & R & Hr'); [by rewrite length_fmap|].
    run_step R. do 2 eexists. split; [done|]. split; [|done].
    eapply mirrored_same with (new := symbolics [v]); [exact Hm|done| |apply symbolics_app].
    by rewrite fmap_app.
  - destruct (Nat.leb_spec n (length vs)) as [Hle|]; [|done]. simpl in H.
    destruct (forallb concrete _) eqn:Hc; [|done]. injection H as <-.
    rewrite <- (take_drop (length vs - n) vs), fmap_app in Hr.
    pose proof (pop_run debug f _ _ Hr) as R. rewrite length_fmap, length_drop in R.
    replace (length vs - (length vs - n))%nat with n in R by lia.
    do 2 eexists. split; [exact R|]. split; [|done].
    eapply mirrored_same with (new := []); [exact Hm|done|by eapply frame_rep_below|].
    rewrite app_nil_r.
    assert (symbolics vs = symbolics (take (length vs - n) vs) ++ symbolics (drop (length vs - n) vs)) as ->
      by (by rewrite <- symbolics_app, take_drop).
    by rewrite (symbolics_concrete _ Hc), app_nil_r.
  - destruct (last vs) as [v|] eqn:El; [|done]. injection H as <-.
    rewrite (last_split vs v El) in Hm. destruct (mirrored_pop _ _ _ _ Hm) as (f' & R & Hm' & Hc).
    run_step R. by exists true, f'.
  - destruct (last vs) as [v|] eqn:El; [|done]. simpl in H.
    destruct v as [|]; [done|]. simpl in H.
    destruct (Z.ltb_spec (Z.of_nat (length vs)) (m_capacity f)) as [Hlt|]; [|done]. injection H as <-.
    pose proof (last_split vs None El) as Hs. rewrite Hs, fmap_app in Hr.
    destruct (dup_concrete_run debug f _ Hr) as (f' & R & Hr' & Hc & Hmin & Hlast).
    { rewrite length_app, length_fmap. simpl. rewrite Hs, length_app in Hlt. simpl in Hlt. lia. }
    exists true, f'. split; [exact R|]. split; [|done].
    eapply mirrored_same with (new := []); [exact Hm|done| |by rewrite symbolics_app].
    rewrite Hs, !fmap_app, <- app_assoc. exact Hr'.
Qed.

Lemma quiet_steps_run sent ops f vs vs' acc :
  mirrored sent f vs -> quiet_steps (m_capacity f) ops vs = Some vs' ->
  exists outs f', st_fold (fun o outs => b ← run_op debug o; mret (outs ++ [b])) (quiet_frame_op <$> ops) acc f
      = Ok (outs, f') /\ mirrored sent f' vs'.
Proof.
  revert f vs acc. induction ops as [|o ops IH]; intros f vs acc Hm H; simpl in H.
  { injection H as <-. by exists acc, f. }
  destruct (quiet_step (m_capacity f) o vs) as [vs1|] eqn:Ho; [|done]. simpl in H.
  destruct (quiet_step_run _ _ _ _ _ Hm Ho) as (b & f1 & R & Hm1 & Hc). rewrite <- Hc in H.
  destruct (IH f1 vs1 (acc ++ [b]) Hm1 H) as (outs & f' & R' & Hm').
  exists outs, f'. split; [|done]. simpl. rewrite st_bind_assoc. run_step R. by rewrite st_ret_bind.
Qed.
End mirror.

(** C11: after any run of operations on a frame that pops symbolic values only by
    [pop1Async], [evaluationStackPops] says how many of the symbolic values the
    engine has must be dropped so that the rest are still on the frame's stack:
    the frame's symbolic values are the engine's, less the last
    [evaluationStackPops] ones, followed by those pushed since. *)
Theorem pops_tracking_mirrors {A} debug (ops : list (quiet_op A)) f (vs vs' : list (option A)) :
  frame_rep f (concrete <$> vs) ->
  quiet_steps (m_capacity f) ops vs = Some vs' ->
  exists outs f' new,
    (StackFrame_resetPopsTracking;; run_ops debug (quiet_frame_op <$> ops)) f = Ok (outs, f') /\
    frame_rep f' (concrete <$> vs') /\
    0 <= evaluationStackPops f' <= Z.of_nat (length (symbolics vs)) /\
    symbolics vs' =
      take (length (symbolics vs) - Z.to_nat (evaluationStackPops f')) (symbolics vs) ++ new.
Proof.
  intros Hr Hq. pose proof (frame_rep_bound _ _ Hr) as Hbd. pose proof (symb_range (concrete <$> vs)) as Hsr.
  pose proof (fr_bound _ _ Hr) as Hb. pose proof (length_symbolics vs) as Hls.
  set (f0 := with_sent (m_symbolsCount f) (m_symbolsCount f) f).
  assert (mirrored (symbolics vs) f0 vs) as Hm.
  { pose proof (fr_symbols _ _ Hr) as Hs. split; simpl; [by apply frame_rep_sent|congruence|lia|].
    exists []. rewrite app_nil_r, take_ge by lia. done. }
  destruct (quiet_steps_run debug (symbolics vs) ops f0 vs vs' [] Hm Hq) as (outs & f' & R & [Hr' Hl Hmin [new Hn]]).
  exists outs, f', new. split; [exact R|]. split; [done|]. unfold evaluationStackPops.
  rewrite Hl, wrap_small by (unfold is_uint; lia). split; [lia|]. rewrite Hn. f_equal. f_equal. lia.
Qed.

Lemma pops_tracking_mirrors_witness :
  exists f' new,
    (StackFrame_resetPopsTracking;; run_ops true [OPop1Async; OPop 1; OPush false])
      (with_cells [1; CONCRETE; 2; 0xCDCDCDCD] 3 2 sample_frame) = Ok ([true; true; false], f') /\
    symbolics [Some "a"; Some "c"]%string = take (2 - Z.to_nat (evaluationStackPops f')) ["a"; "b"]%string ++ new /\
    evaluationStackPops f' = 1.
Proof.
  destruct (pops_tracking_mirrors true [QPop1Async; QPop 1; QPush (Some "c"%string)]
    (with_cells [1; CONCRETE; 2; 0xCDCDCDCD] 3 2 sample_frame)
    [Some "a"; None; Some "b"]%string [Some "a"; Some "c"]%string) as (outs & f' & new & R & _ & _ & Hn).
  - split; reflexivity.
  - reflexivity.
  - exists f', new. assert (outs = [true; true; false]) as -> by (vm_compute in R; congruence).
    split; [exact R|]. split; [exact Hn|]. vm_compute in R. injection R as <-. reflexivity.
Defined.

(** A pop of a symbolic value by [pop1] is not counted: with the engine's copy up
    to date before it, [evaluationStackPops] says that there is nothing to drop,
    although the last of the engine's values is gone, and stays so when the value
    is replaced by a concrete one as in [Track_Box]. *)
Theorem silent_pop_unnoticed {A} debug f (vs : list (option A)) v :
  frame_rep f (concrete <$> vs ++ [Some v]) ->
  exists f' f'', (StackFrame_resetPopsTracking;; pop1 debug) f = Ok (false, f') /\
    push1 debug true f' = Ok (tt, f'') /\
    frame_rep f' (concrete <$> vs) /\ frame_rep f'' (concrete <$> vs ++ [None]) /\
    evaluationStackPops f' = 0 /\ evaluationStackPops f'' = 0 /\
    symbolics (vs ++ [Some v]) = symbolics vs ++ [v] /\ symbolics (vs ++ [None]) = symbolics vs.
Proof.
  rewrite !fmap_app. intros Hr. set (f0 := with_sent (m_symbolsCount f) (m_symbolsCount f) f).
  assert (frame_rep f0 ((concrete <$> vs) ++ [false])) as Hr0 by (by apply frame_rep_sent).
  pose proof (frame_rep_below f0 (concrete <$> vs) [false] (popped_of (symb (concrete <$> vs)) 0 [false]) Hr0) as Hr1.
  assert (Z.of_nat (length (concrete <$> vs)) < m_capacity f) as Hlt.
  { pose proof (frame_rep_bound _ _ Hr) as Hc. rewrite length_app in Hc. simpl in Hc. lia. }
  destruct (push1_run debug _ _ true Hr1 Hlt) as (cells & R & Hr2). do 2 eexists.
  split; [exact (pop1_run debug f0 _ _ Hr0)|]. split; [exact R|]. split; [exact Hr1|]. split; [exact Hr2|].
  unfold evaluationStackPops. simpl. rewrite Z.sub_diag. split; [done|]. split; [done|].
  rewrite !symbolics_app, app_nil_r. done.
Qed.

Lemma silent_pop_unnoticed_witness :
  exists f' f'', (StackFrame_resetPopsTracking;; pop1 true) (with_cells [1; CONCRETE; 2; 0xCDCDCDCD] 3 2 sample_frame) =
      Ok (false, f') /\
    push1 true true f' = Ok (tt, f'') /\ evaluationStackPops f'' = 0 /\
    symbolics [Some "a"; None; Some "b"]%string = ["a"; "b"]%string /\ symbolics [Some "a"; None; None]%string = ["a"]%string.
Proof.
  destruct (silent_pop_unnoticed true (with_cells [1; CONCRETE; 2; 0xCDCDCDCD] 3 2 sample_frame)
    [Some "a"; None]%string "b"%string) as (f' & f'' & R & R' & _ & _ & _ & E & S1 & S2).
  - split; reflexivity.
  - exists f', f''. split_and!; [exact R|exact R'|exact E|exact S1|exact S2].
Defined.

(** ** The deque of frames *)

Inductive call_op :=
  | CPush (resolvedToken unresolvedToken : Z) (args : list bool)
  | CPop
  | CTop (o : frame_op).

Definition run_call (debug : bool) (o : call_op) : st Stack unit :=
  match o with
  | CPush r u args => pushFrame r u args (Z.of_nat (length args))
  | CPop => popFrame debug
  | CTop o => topFrame debug (run_op debug o);; mret tt
  end.

Definition run_calls (debug : bool) (ops : list call_op) : st Stack unit :=
  st_fold (fun o _ => run_call debug o) ops tt.

Definition tokens (k : Stack) : list Z := m_unresolvedToken <$> m_frames k.

Section frame_tokens.
Context (debug : bool).
#[local] Hint Extern 1 (preserves m_unresolvedToken (st_modify _)) => apply preserves_modify; done : preserves.

Lemma token_cell_at i : preserves m_unresolvedToken (cell_at i).
Proof. unfold cell_at. preserve. Qed.
Lemma token_push1 b : preserves m_unresolvedToken (push1 debug b).
Proof. intros f a f'. unfold push1. repeat case_match; try done; by intros [= <- <-]. Qed.
Lemma token_drop_cell c d : preserves m_unresolvedToken (drop_cell c d).
Proof. unfold drop_cell. preserve. Qed.
#[local] Hint Resolve token_cell_at token_push1 token_drop_cell : preserves.
Lemma token_pop1 : preserves m_unresolvedToken (pop1 debug).
Proof. unfold pop1, pop0. preserve. Qed.
Lemma token_pop n : preserves m_unresolvedToken (pop debug n).
Proof. unfold pop, pop0. preserve. Qed.
#[local] Hint Resolve token_pop1 token_pop : preserves.

(** No operation changes the token of the frame. *)
Lemma token_run_op o : preserves m_unresolvedToken (run_op debug o).
Proof. destruct o; simpl; unfold pop1Async, dup; preserve. Qed.
End frame_tokens.

Section calls.
Context (debug : bool).

Lemma pushFrame_run r u args k :
  exists k', pushFrame r u args (Z.of_nat (length args)) k = Ok (tt, k') /\
    tokens k' = tokens k ++ [u] /\ m_lastSentTop k' = m_lastSentTop k /\
    m_minTopSinceLastSent k' = m_minTopSinceLastSent k.
Proof.
  unfold pushFrame, new_StackFrame, read_at, st_lift. simpl. rewrite Nat2Z.id, Z.leb_refl.
  eexists. split; [done|]. unfold tokens. simpl. by rewrite fmap_app.
Qed.

Lemma length_tokens k : length (tokens k) = length (m_frames k).
Proof. apply length_fmap. Qed.

Lemma popFrame_inv k k' :
  Z.of_nat (length (m_frames k)) < 2 ^ 32 -> popFrame debug k = Ok (tt, k') ->
  exists t, tokens k = tokens k' ++ [t] /\ m_lastSentTop k' = m_lastSentTop k /\
    m_minTopSinceLastSent k' = Z.min (m_minTopSinceLastSent k) (Z.of_nat (length (tokens k'))).
Proof.
  intros Hlen H. unfold popFrame in H. apply st_bind_ok in H as (? & k1 & H1 & H).
  unfold popFrameUntracked in H1. destruct (last (m_frames k)) as [f|] eqn:El; [|by destruct debug].
  destruct (debug && _); [done|]. injection H1 as <- <-. injection H as <-.
  pose proof (last_split _ _ El) as Hs. exists (m_unresolvedToken f).
  assert (tokens k = (m_unresolvedToken <$> take (length (m_frames k) - 1) (m_frames k)) ++ [m_unresolvedToken f]) as Ht.
  { unfold tokens. rewrite Hs at 1. by rewrite fmap_app. }
  rewrite Ht. unfold frames_size. simpl. rewrite length_take, wrap_small by (unfold is_uint; lia).
  destruct (Z.ltb_spec (Z.of_nat ((length (m_frames k) - 1) `min` length (m_frames k))) (m_minTopSinceLastSent k));
    unfold tokens; simpl; rewrite length_fmap, length_take; split_and!; try done; lia.
Qed.

Lemma topFrame_inv {B} (m : st StackFrame B) k a k' :
  preserves m_unresolvedToken m -> topFrame debug m k = Ok (a, k') ->
  tokens k' = tokens k /\ m_lastSentTop k' = m_lastSentTop k /\ m_minTopSinceLastSent k' = m_minTopSinceLastSent k.
Proof.
  intros Hp H. unfold topFrame in H. destruct (last (m_frames k)) as [f|] eqn:El; [|by destruct debug].
  destruct (m f) as [[b f']|] eqn:Hm; [|done]. injection H as <- <-. split; [|done].
  unfold tokens. simpl. pose proof (last_split _ _ El) as Hs. rewrite Hs at 3. rewrite !fmap_app. simpl.
  by rewrite (Hp _ _ _ Hm).
Qed.

(** The frames of the engine, [sent], and those of the stack. *)
Record calls_mirrored (sent : list Z) (k : Stack) : Prop := {
  cm_last : m_lastSentTop k = Z.of_nat (length sent);
  cm_min : 0 <= m_minTopSinceLastSent k <= Z.of_nat (length sent);
  cm_new : exists new, tokens k = take (Z.to_nat (m_minTopSinceLastSent k)) sent ++ new
}.

Lemma run_call_mirrored sent o k k' :
  calls_mirrored sent k -> Z.of_nat (length (m_frames k)) < 2 ^ 32 -> run_call debug o k = Ok (tt, k') ->
  calls_mirrored sent k' /\ (length (m_frames k') <= length (m_frames k) + 1)%nat.
Proof.
  intros [Hl Hm [new Hn]] Hlen H. rewrite <- (length_tokens k'). rewrite <- (length_tokens k) in Hlen |- *.
  destruct o as [r u args| |o]; simpl in H.
  - destruct (pushFrame_run r u args k) as (k1 & R & Ht & E1 & E2). rewrite H in R. injection R as <-.
    rewrite Ht, length_app. split; [|simpl; lia]. split; [congruence|by rewrite E2|].
    exists (new ++ [u]). by rewrite E2, Ht, Hn, app_assoc.
  - rewrite length_tokens in Hlen. destruct (popFrame_inv k k' Hlen H) as (t & Ht & E1 & E2).
    rewrite Ht, length_app. split; [|lia]. split; [congruence|lia|].
    rewrite Ht in Hn. rewrite E2. set (m := m_minTopSinceLastSent k) in *. set (n := length (tokens k')) in *.
    assert (take n (tokens k' ++ [t]) = tokens k') as Hk by apply take_app_length.
    rewrite Hn, take_app, take_take, length_take in Hk.
    destruct (Z.min_spec m (Z.of_nat n)) as [[Hlt ->]|[Hge ->]].
    + exists (take (n - Z.to_nat m `min` length sent) new). rewrite <- Hk. f_equal. f_equal. lia.
    + exists []. rewrite app_nil_r, <- Hk.
      replace (n - Z.to_nat m `min` length sent)%nat with 0%nat by lia.
      rewrite take_0, app_nil_r. f_equal. lia.
  - apply st_bind_ok in H as (b & k1 & H & [= <-]).
    destruct (topFrame_inv _ _ _ _ (token_run_op debug o) H) as (Ht & E1 & E2).
    rewrite Ht. split; [|lia]. split; [congruence|by rewrite E2|]. exists new. by rewrite E2, Ht.
Qed.
End calls.

(** C12: after any sequence of calls, returns and operations on the top frame
    since the engine was last answered, the numbers of a command let the engine
    bring its call stack up to date: dropping [unsentPops] of its frames leaves
    the first [minTopSinceLastSent] ones, and the frames from that index on are
    those it lacks. *)
Theorem call_stack_mirrors debug ops k k0 k' :
  Z.of_nat (length (m_frames k) + length ops) < 2 ^ 31 ->
  Stack_resetPopsTracking (frames_size k) k = Ok (tt, k0) ->
  run_calls debug ops k0 = Ok (tt, k') ->
  let kept := (length (tokens k) - Z.to_nat (unsentPops k'))%nat in
  0 <= unsentPops k' <= Z.of_nat (length (tokens k)) /\
  minTopSinceLastSent k' = Z.of_nat kept /\
  tokens k' = take kept (tokens k) ++ drop kept (tokens k').
Proof.
  intros Hlen H0 Hrun.
  assert (calls_mirrored (tokens k) k0 /\ length (m_frames k0) = length (m_frames k)) as [Hm Hl0].
  { unfold Stack_resetPopsTracking in H0. unfold frames_size in H0. simpl in H0.
    rewrite wrap_small in H0 by (unfold is_uint; lia).
    assert (tokens k0 = tokens k /\ m_lastSentTop k0 = Z.of_nat (length (m_frames k)) /\
            m_minTopSinceLastSent k0 = Z.of_nat (length (m_frames k))) as (Ht & E1 & E2).
    { destruct (last (m_frames k)) as [f|] eqn:El; injection H0 as <-; [|done]. split; [|done].
      unfold tokens. simpl. pose proof (last_split _ _ El) as Hs. rewrite Hs at 3. by rewrite !fmap_app. }
    rewrite <- !length_tokens, Ht in *. split; [|done]. split; [by rewrite E1|lia|].
    exists []. rewrite E2, Nat2Z.id, app_nil_r. rewrite Ht. by rewrite firstn_all. }
  assert (forall ops k1, Z.of_nat (length (m_frames k1) + length ops) < 2 ^ 31 ->
    calls_mirrored (tokens k) k1 -> run_calls debug ops k1 = Ok (tt, k') -> calls_mirrored (tokens k) k') as Hgen.
  { clear. intros ops. induction ops as [|o ops IH]; intros k1 Hlen Hm Hrun.
    - by injection Hrun as <-.
    - unfold run_calls in Hrun. simpl in Hrun, Hlen. apply st_bind_ok in Hrun as ([] & k2 & H1 & H2).
      destruct (run_call_mirrored debug _ _ _ _ Hm ltac:(lia) H1) as [Hm2 Hl2].
      apply (IH k2); [lia|done|exact H2]. }
  destruct (Hgen ops k0 ltac:(lia) Hm Hrun) as [Hl Hmin [new Hn]].
  rewrite length_tokens in *. unfold unsentPops, minTopSinceLastSent.
  rewrite Hl, wrap_small by (unfold is_uint; lia). cbv zeta.
  replace (length (m_frames k) - Z.to_nat (Z.of_nat (length (m_frames k)) - m_minTopSinceLastSent k'))%nat
    with (Z.to_nat (m_minTopSinceLastSent k')) by lia.
  split; [lia|]. split; [lia|]. rewrite Hn at 2.
  assert (length (take (Z.to_nat (m_minTopSinceLastSent k')) (tokens k)) = Z.to_nat (m_minTopSinceLastSent k')) as Hlt
    by (rewrite length_take, length_tokens; lia).
  rewrite <- Hlt at 2. by rewrite drop_app_length.
Qed.

Lemma call_stack_mirrors_witness :
  exists k', run_calls true [CPop; CPush 5 6 [true]; CPush 7 8 []]
      (mkStack [sample_frame; sample_frame] 2 2) = Ok (tt, k') /\
    unsentPops k' = 1 /\ minTopSinceLastSent k' = 1 /\ drop 1 (tokens k') = [6; 8].
Proof.
  destruct (run_calls true [CPop; CPush 5 6 [true]; CPush 7 8 []]
    (mkStack [sample_frame; sample_frame] 2 2)) as [[[] k']|] eqn:R; [|vm_compute in R; discriminate R].
  exists k'. split; [reflexivity|].
  pose proof (call_stack_mirrors true [CPop; CPush 5 6 [true]; CPush 7 8 []]
    (mkStack [sample_frame; sample_frame] 9 9) (mkStack [sample_frame; sample_frame] 2 2) k'
    ltac:(vm_compute; reflexivity) ltac:(vm_compute; reflexivity) R) as (_ & Hmin & _).
  assert (unsentPops k' = 1) as E by (vm_compute in R; injection R as <-; vm_compute; reflexivity).
  rewrite E in Hmin. split; [exact E|]. split; [exact Hmin|].
  vm_compute in R. injection R as <-. vm_compute. reflexivity.
Defined.
