(* ===== verification/ConcHeap.v ===== *)
(** * The concreteness of the managed heap

    [VSharp.ClrInteraction/memory/heap.h], [heap.cpp] and [intervalTree.h]: the
    objects of the managed heap as address intervals, each with a bit mask that
    says which of its bytes hold concrete values; the moves and deletions of
    the garbage collector; the translation between physical addresses and the
    (object, offset) pairs the symbolic engine sees.

    An [Object] lives in a store indexed by its native address, which is its
    identity for the engine; [delete] removes it from the store, so that a use
    of a deleted object is [Undefined].  The bit masks are proved to implement
    a map from bytes to flags, except when a write starts and ends strictly
    inside one cell of the mask; the last section shows what happens there. *)

From stdpp Require Import sorting.
From S2P Require Import Prelude.
Local Open Scope Z_scope.

(** [ADDR], [SIZE] and [OBJID] are [UINT_PTR]: 64 bits. *)

(** ** Shift and Interval *)

Record Shift := mkShift { oldBase : Z; newBase : Z }.
Definition Shift_move (s : Shift) (addr : Z) : Z := wrap 64 (newBase s + wrap 64 (addr - oldBase s)).

Record Interval := mkInterval {
  marked : bool;
  flushed : bool;
  left : Z;
  right : Z
}.

Definition new_Interval (leftValue size : Z) : Interval :=
  mkInterval false false leftValue (wrap 64 (leftValue + size - 1)).

Definition Interval_eqb (i other : Interval) : bool := (left i =? left other) && (right i =? right other).
Definition contains (i : Interval) (point : Z) : bool := (left i <=? point) && (point <=? right i).
Definition includes (i other : Interval) : bool := (left i <=? left other) && (right other <=? right i).
Definition intersects (i other : Interval) : bool :=
  (left i <=? right other) && (right other <=? right i) || (left i <=? left other) && (left other <=? right i).
(** The second argument of the constructor is a size. *)
Definition intersect (i other : Interval) : Interval :=
  new_Interval (Z.max (left i) (left other)) (Z.min (right i) (right other)).

Definition Interval_move (s : Shift) (i : Interval) : Interval :=
  mkInterval (marked i) (flushed i) (Shift_move s (left i)) (Shift_move s (right i)).
Definition mark (i : Interval) : Interval := mkInterval true (flushed i) (left i) (right i).
Definition unmark (i : Interval) : Interval := mkInterval false (flushed i) (left i) (right i).
Definition flush (i : Interval) : Interval := mkInterval (marked i) true (left i) (right i).

(** ** Object *)

(** A [cell] is a signed [char] of 8 bits, kept here as its bit pattern. *)
Definition sizeofCell : Z := 8.
Definition cell_max : Z := 0xFF.
Definition cell_min : Z := 0x00.

Record Object := mkObject {
  interval : Interval;
  concreteness : list Z
}.

Definition on_interval (f : Interval -> Interval) (o : Object) : Object :=
  mkObject (f (interval o)) (concreteness o).

Definition new_Object (address size : Z) : Object :=
  let squashedSize := wrap 64 (size + sizeofCell - 1) / sizeofCell in
  mkObject (new_Interval address size) (replicate (Z.to_nat squashedSize) cell_max).

(** [concreteness[i]]. *)
Definition get_cell (o : Object) (i : Z) : result Z :=
  match (if 0 <=? i then concreteness o !! Z.to_nat i else None) with
  | Some c => Ok c
  | None => Err Undefined
  end.
Definition set_cell (i c : Z) (o : Object) : result Object :=
  get_cell o i;; Ok (mkObject (interval o) (<[Z.to_nat i := c]> (concreteness o))).

(** [cell startMask = ((cell)1 << shift) - 1]. *)
Definition startMask (startOffset : Z) : Z := wrap 8 (Z.shiftl 1 (sizeofCell - startOffset) - 1).
(** [cell endMask = (max >> shift) << shift]: [max] is [-1] as an [int], and the
    right shift is arithmetic. *)
Definition endMask (endOffset : Z) : Z :=
  let shift := sizeofCell - endOffset in wrap 8 (Z.shiftl (Z.shiftr (sint 8 cell_max) shift) shift).

(** The cells a range of bytes covers as a whole: the loop
    [for (unsigned i = ...; i < endIndex; ++i)], for objects of less than
    [2 ^ 35] bytes. *)
Definition whole_cells (offset size : Z) : list Z :=
  let first := offset / sizeofCell + (if offset mod sizeofCell =? 0 then 0 else 1) in
  seqZ first (wrap 64 (offset + size) / sizeofCell - first).

Fixpoint all_max (o : Object) (idx : list Z) : result bool :=
  match idx with
  | [] => Ok true
  | i :: idx => c ← get_cell o i; if c =? cell_max then all_max o idx else Ok false
  end.

Definition Object_read (o : Object) (offset size : Z) : result bool :=
  let startOffset := offset mod sizeofCell in
  let startIndex := offset / sizeofCell in
  let endOffset := wrap 64 (offset + size) mod sizeofCell in
  let endIndex := wrap 64 (offset + size) / sizeofCell in
  whole ← all_max o (whole_cells offset size);
  if negb whole then Ok false else
  startBad ← (if startOffset =? 0 then Ok false else
    c ← get_cell o startIndex; Ok (negb (Z.land c (startMask startOffset) =? startMask startOffset)));
  if (startBad : bool) then Ok false else
  if endOffset =? 0 then Ok true else
    c ← get_cell o endIndex; Ok (Z.land c (endMask endOffset) =? endMask endOffset).

Fixpoint set_cells (idx : list Z) (c : Z) (o : Object) : result Object :=
  match idx with
  | [] => Ok o
  | i :: idx => o ← set_cell i c o; set_cells idx c o
  end.

(** [concreteness[i] |= mask] or [concreteness[i] &= ~mask]. *)
Definition mask_cell (i mask : Z) (vConcreteness : bool) (o : Object) : result Object :=
  c ← get_cell o i;
  set_cell i (if vConcreteness then Z.lor c mask else wrap 8 (Z.land c (Z.lnot mask))) o.

Definition Object_write (o : Object) (offset size : Z) (vConcreteness : bool) : result Object :=
  let startOffset := offset mod sizeofCell in
  let startIndex := offset / sizeofCell in
  let endOffset := wrap 64 (offset + size) mod sizeofCell in
  let endIndex := wrap 64 (offset + size) / sizeofCell in
  o ← set_cells (whole_cells offset size) (if vConcreteness then cell_max else cell_min) o;
  o ← (if startOffset =? 0 then Ok o else mask_cell startIndex (startMask startOffset) vConcreteness o);
  if endOffset =? 0 then Ok o else mask_cell endIndex (endMask endOffset) vConcreteness o.

(** ** Heap and IntervalTree *)

Record VirtualAddress := mkVirtualAddress { vobj : Z; voffset : Z }.

(** [objs] is the memory that holds the [Object]s and [brk] its first free
    address; [tree] is [IntervalTree::objects].  A new address is kept with
    the type's bytes and their number. *)
Record Heap := mkHeap {
  objs : gmap Z Object;
  brk : Z;
  tree : list Z;
  newAddresses : gmap Z (list Z * Z);
  deletedAddresses : list Z
}.
Definition new_Heap : Heap := mkHeap ∅ 1 [] ∅ [].

Definition with_objs (m : gmap Z Object) (h : Heap) : Heap :=
  mkHeap m (brk h) (tree h) (newAddresses h) (deletedAddresses h).

Definition obj_at (id : Z) : st Heap Object := st_read (fun h => objs h !! id).
Definition set_obj (id : Z) (f : Object -> Object) : st Heap unit :=
  o ← obj_at id; st_modify (fun h => with_objs (<[id := f o]> (objs h)) h).

(** [tree.find]: the first object that contains the point. *)
Fixpoint find_in (m : gmap Z Object) (ids : list Z) (p : Z) : result Z :=
  match ids with
  | [] => Err (Thrown "Unbound pointer!")
  | id :: ids =>
      match m !! id with
      | None => Err Undefined
      | Some o => if contains (interval o) p then Ok id else find_in m ids p
      end
  end.
Definition find (p : Z) : st Heap Z := fun h => st_lift (find_in (objs h) (tree h) p) h.

Definition tree_moveAndMark (i : Interval) (s : Shift) : st Heap unit :=
  h ← st_get;
  st_fold (fun id _ =>
    o ← obj_at id;
    if includes i (interval o)
    then set_obj id (on_interval (Interval_move s));; set_obj id (on_interval mark)
    else mret tt) (tree h) tt.

Definition tree_mark (i : Interval) : st Heap unit :=
  h ← st_get;
  st_fold (fun id _ =>
    o ← obj_at id;
    if includes i (interval o) then set_obj id (on_interval mark) else mret tt) (tree h) tt.

(** [delete obj]. *)
Definition delete_obj (id : Z) : st Heap unit :=
  st_modify (fun h => with_objs (delete id (objs h)) h).

Definition clearUnmarked : st Heap (list Z) :=
  h ← st_get;
  r ← st_fold (fun id '(markeds, unmarkeds) =>
    o ← obj_at id;
    if marked (interval o)
    then set_obj id (on_interval unmark);; mret (markeds ++ [id], unmarkeds)
    else delete_obj id;; mret (markeds, unmarkeds ++ [id])) (tree h) ([], []);
  st_modify (fun h => mkHeap (objs h) (brk h) (fst r) (newAddresses h) (deletedAddresses h));;
  mret (snd r).

Definition tree_flush : st Heap (list Z) :=
  h ← st_get;
  st_fold (fun id acc =>
    o ← obj_at id;
    if negb (flushed (interval o))
    then set_obj id (on_interval flush);; mret (acc ++ [id])
    else mret acc) (tree h) [].

Definition allocateObject (address size : Z) (type : list Z) (typeLength : Z) : st Heap Z := fun h =>
  let id := brk h in
  Ok (id, mkHeap (<[id := new_Object address size]> (objs h)) (id + 1) (tree h ++ [id])
            (<[id := (type, typeLength)]> (newAddresses h)) (deletedAddresses h)).

Definition moveAndMark (oldLeft newLeft length : Z) : st Heap unit :=
  tree_moveAndMark (new_Interval oldLeft length) (mkShift oldLeft newLeft).

Definition markSurvivedObjects (start length : Z) : st Heap unit := tree_mark (new_Interval start length).

Definition clearAfterGC : st Heap unit :=
  deleted ← clearUnmarked;
  st_modify (fun h => mkHeap (objs h) (brk h) (tree h) (newAddresses h) (deletedAddresses h ++ deleted)).

Definition flushObjects : st Heap (gmap Z (list Z * Z)) := fun h =>
  let result := foldl (fun r '(id, a) => <[id := a]> r) ∅ (map_items (newAddresses h)) in
  Ok (result, mkHeap (objs h) (brk h) (tree h) ∅ (deletedAddresses h)).

(** [None] when [find] returns a null pointer. *)
Definition resolve (address : Z) : st Heap (option VirtualAddress) :=
  i ← find address;
  if i =? 0 then mret None else
  o ← obj_at i;
  mret (Some (mkVirtualAddress i (wrap 64 (address - left (interval o))))).

Definition Heap_read (address sizeOfPtr : Z) : st Heap bool :=
  v ← resolve address;
  match v with
  | None => mret false
  | Some v => o ← obj_at (vobj v); st_lift (Object_read o (voffset v) sizeOfPtr)
  end.

Definition Heap_write (address sizeOfPtr : Z) (vConcreteness : bool) : st Heap unit :=
  v ← resolve address;
  match v with
  | None => st_fail (Thrown "Writing to heap: unable to resolve address")
  | Some v =>
      o ← obj_at (vobj v);
      o' ← st_lift (Object_write o (voffset v) sizeOfPtr vConcreteness);
      set_obj (vobj v) (fun _ => o')
  end.

Definition physToVirtAddress (physAddress : Z) : st Heap VirtualAddress :=
  v ← resolve physAddress;
  match v with
  | None => st_fail (Thrown "unable to resolve physical address!")
  | Some v => mret v
  end.

Definition virtToPhysAddress (v : VirtualAddress) : st Heap Z :=
  o ← obj_at (vobj v);
  mret (wrap 64 (left (interval o) + voffset v)).

(** ** The garbage collector's callbacks *)

(** [CorProfiler::MovedReferences], [SurvivingReferences] and
    [GarbageCollectionFinished]; the ranges are triples of the old start, the
    new start and the length, and pairs of the start and the length. *)
Definition MovedReferences (ranges : list (Z * Z * Z)) : st Heap unit :=
  st_fold (fun '(old, new, len) _ => moveAndMark old new len) ranges tt.
Definition SurvivingReferences (ranges : list (Z * Z)) : st Heap unit :=
  st_fold (fun '(start, len) _ => markSurvivedObjects start len) ranges tt.
Definition GarbageCollectionFinished : st Heap unit := clearAfterGC.

(** ** The bit mask as a map from bytes to flags *)

(** The flag of byte [k]: the first byte of a cell is its highest bit. *)
Definition byte_concrete (o : Object) (k : Z) : bool :=
  match concreteness o !! Z.to_nat (k / 8) with
  | Some c => Z.testbit c (7 - k mod 8)
  | None => false
  end.

(** The mask of an object of [size] bytes. *)
Record mask_wf (size : Z) (o : Object) : Prop := {
  mw_length : Z.of_nat (length (concreteness o)) = (size + 7) / 8;
  mw_cells : Forall is_byte (concreteness o)
}.

(** A range of bytes that does not start and end strictly inside one cell. *)
Definition cell_aligned (offset size : Z) : Prop :=
  offset mod 8 = 0 \/ (offset + size) mod 8 = 0 \/ offset / 8 <> (offset + size) / 8.

(** A check of a byte against its eight offsets, by evaluation. *)
Definition for_bytes (P : Z -> bool) : bool := forallb P (seqZ 0 256).
Definition for_offsets (P : Z -> bool) : bool := forallb P (seqZ 0 8).

Lemma for_bytes_spec P c : for_bytes P = true -> is_byte c -> P c = true.
Proof.
  unfold for_bytes. intros H Hc. rewrite forallb_forall in H. apply H.
  apply list_elem_of_In, elem_of_seqZ. unfold is_byte in Hc. lia.
Qed.
Lemma for_offsets_spec P s : for_offsets P = true -> 0 <= s < 8 -> P s = true.
Proof.
  unfold for_offsets. intros H Hc. rewrite forallb_forall in H. apply H.
  apply list_elem_of_In, elem_of_seqZ. lia.
Qed.

Lemma startMask_clear c s : is_byte c -> 0 < s < 8 ->
  Z.land c (startMask s) = startMask s <-> forall k, s <= k < 8 -> Z.testbit c (7 - k) = true.
Proof.
  intros Hc Hs.
  assert (for_bytes (fun c => for_offsets (fun s => (s =? 0) ||
    eqb (Z.land c (startMask s) =? startMask s)
        (forallb (fun k => (k <? s) || Z.testbit c (7 - k)) (seqZ 0 8)))) = true) as H by (vm_compute; reflexivity).
  apply for_bytes_spec with (c := c) in H; [|done]. apply for_offsets_spec with (s := s) in H; [|lia].
  apply orb_true_iff in H as [H|H]; [lia|]. apply eqb_prop in H.
  rewrite <- Z.eqb_eq, H, forallb_forall. split.
  - intros Hk k Hk'. specialize (Hk k ltac:(apply list_elem_of_In, elem_of_seqZ; lia)). lia.
  - intros Hk k Hin. apply list_elem_of_In, elem_of_seqZ in Hin.
    destruct (Z.ltb_spec k s); [done|]. simpl. apply Hk. lia.
Qed.

Lemma endMask_clear c e : is_byte c -> 0 < e < 8 ->
  Z.land c (endMask e) = endMask e <-> forall k, 0 <= k < e -> Z.testbit c (7 - k) = true.
Proof.
  intros Hc Hs.
  assert (for_bytes (fun c => for_offsets (fun e => (e =? 0) ||
    eqb (Z.land c (endMask e) =? endMask e)
        (forallb (fun k => (e <=? k) || Z.testbit c (7 - k)) (seqZ 0 8)))) = true) as H by (vm_compute; reflexivity).
  apply for_bytes_spec with (c := c) in H; [|done]. apply for_offsets_spec with (s := e) in H; [|lia].
  apply orb_true_iff in H as [H|H]; [lia|]. apply eqb_prop in H.
  rewrite <- Z.eqb_eq, H, forallb_forall. split.
  - intros Hk k Hk'. specialize (Hk k ltac:(apply list_elem_of_In, elem_of_seqZ; lia)). lia.
  - intros Hk k Hin. apply list_elem_of_In, elem_of_seqZ in Hin.
    destruct (Z.leb_spec e k); [done|]. simpl. apply Hk. lia.
Qed.

Lemma cell_max_spec c : is_byte c -> c = cell_max <-> forall k, 0 <= k < 8 -> Z.testbit c (7 - k) = true.
Proof.
  intros Hc.
  assert (for_bytes (fun c => eqb (c =? cell_max) (forallb (fun k => Z.testbit c (7 - k)) (seqZ 0 8))) = true) as H
    by (vm_compute; reflexivity).
  apply for_bytes_spec with (c := c) in H; [|done]. apply eqb_prop in H.
  rewrite <- Z.eqb_eq, H, forallb_forall. split.
  - intros Hk k Hk'. apply Hk, list_elem_of_In, elem_of_seqZ. lia.
  - intros Hk k Hin. apply list_elem_of_In, elem_of_seqZ in Hin. apply Hk. lia.
Qed.

(** What the masked assignments of [write] do to the bits of a cell. *)
Lemma mask_bits (mask : Z -> Z) (covers : Z -> Z -> bool) (v : bool) :
  for_bytes (fun c => for_offsets (fun s => (s =? 0) || forallb (fun k =>
    let c' := if v then Z.lor c (mask s) else wrap 8 (Z.land c (Z.lnot (mask s))) in
    (0 <=? c') && (c' <? 256) &&
    eqb (Z.testbit c' (7 - k)) (if covers s k then v else Z.testbit c (7 - k))) (seqZ 0 8))) = true ->
  forall c s, is_byte c -> 0 < s < 8 ->
  let c' := if v then Z.lor c (mask s) else wrap 8 (Z.land c (Z.lnot (mask s))) in
  is_byte c' /\ forall k, 0 <= k < 8 -> Z.testbit c' (7 - k) = if covers s k then v else Z.testbit c (7 - k).
Proof.
  intros H c s Hc Hs. apply for_bytes_spec with (c := c) in H; [|done].
  apply for_offsets_spec with (s := s) in H; [|lia]. apply orb_true_iff in H as [H|H]; [lia|].
  rewrite forallb_forall in H.
  assert (forall k, 0 <= k < 8 -> In k (seqZ 0 8)) as Hin by (intros k Hk; apply list_elem_of_In, elem_of_seqZ; lia).
  split.
  - specialize (H 0 (Hin 0 ltac:(lia))). unfold is_byte. cbv zeta in H.
    apply andb_true_iff in H as [H _]. lia.
  - intros k Hk. specialize (H k (Hin k Hk)). cbv zeta in H. apply andb_true_iff in H as [_ H]. by apply eqb_prop.
Qed.

Lemma startMask_bits (v : bool) c s : is_byte c -> 0 < s < 8 ->
  let c' := if v then Z.lor c (startMask s) else wrap 8 (Z.land c (Z.lnot (startMask s))) in
  is_byte c' /\ forall k, 0 <= k < 8 -> Z.testbit c' (7 - k) = if s <=? k then v else Z.testbit c (7 - k).
Proof. apply mask_bits with (covers := fun s k => s <=? k). destruct v; vm_compute; reflexivity. Qed.

Lemma endMask_bits (v : bool) c e : is_byte c -> 0 < e < 8 ->
  let c' := if v then Z.lor c (endMask e) else wrap 8 (Z.land c (Z.lnot (endMask e))) in
  is_byte c' /\ forall k, 0 <= k < 8 -> Z.testbit c' (7 - k) = if k <? e then v else Z.testbit c (7 - k).
Proof. apply mask_bits with (covers := fun s k => k <? s). destruct v; vm_compute; reflexivity. Qed.

(** ** Reading and writing the mask *)

Section mask.
Context (size : Z) (o : Object) (Hwf : mask_wf size o) (Hsize : 0 < size < 2 ^ 35).

Lemma get_cell_run i :
  0 <= i < (size + 7) / 8 ->
  exists c, get_cell o i = Ok c /\ concreteness o !! Z.to_nat i = Some c /\ is_byte c.
Proof using Hwf.
  intros Hi. destruct Hwf as [Hl Hc].
  destruct (lookup_lt_is_Some_2 (concreteness o) (Z.to_nat i)) as [c H]; [lia|].
  exists c. unfold get_cell. destruct (Z.leb_spec 0 i); [|lia]. rewrite H. split_and!; try done.
  by eapply Forall_lookup_1 in Hc.
Qed.

(** The flags of the bytes of one cell. *)
Lemma byte_of_cell i c k :
  0 <= i -> 0 <= k < 8 -> concreteness o !! Z.to_nat i = Some c -> byte_concrete o (8 * i + k) = Z.testbit c (7 - k).
Proof using.
  intros Hi Hk H. unfold byte_concrete.
  replace ((8 * i + k) / 8) with i by (rewrite (Z.mul_comm 8), Z.div_add_l, Z.div_small; lia).
  replace ((8 * i + k) mod 8) with k by (rewrite Z.add_comm, (Z.mul_comm 8), Z.mod_add, Z.mod_small; lia).
  by rewrite H.
Qed.

Lemma all_max_run idx :
  Forall (fun i => 0 <= i < (size + 7) / 8) idx ->
  exists b, all_max o idx = Ok b /\
    (b = true <-> forall i k, i ∈ idx -> 0 <= k < 8 -> byte_concrete o (8 * i + k) = true).
Proof using Hwf.
  induction 1 as [|i idx Hi _ (b & IH & Hb)]; simpl.
  { exists true. split; [done|]. split; [|done]. intros _ i k Hin. by apply elem_of_nil in Hin. }
  destruct (get_cell_run i Hi) as (c & R & Hc & Hby). rewrite R. cbn [mbind result_bind].
  pose proof (cell_max_spec c Hby) as Hm. destruct (Z.eqb_spec c cell_max) as [He|Hne].
  - exists b. split; [done|]. rewrite Hb. split.
    + intros H j k [->|Hj]%elem_of_cons Hk; [|by apply H]. rewrite (byte_of_cell i c k) by (done || lia).
      by apply Hm.
    + intros H j k Hj Hk. apply H; [by right|done].
  - exists false. split; [done|]. split; [done|]. intros H. exfalso. apply Hne, Hm. intros k Hk.
    rewrite <- (byte_of_cell i c k) by (done || lia). apply H; [by left|done].
Qed.

(** The bytes of a range: those of its first cell, of the whole cells and of
    its last cell. *)
Lemma range_split offset n :
  0 <= offset -> 0 < n -> cell_aligned offset n ->
  let s := offset mod 8 in let e := (offset + n) mod 8 in
  let first := offset / 8 + (if s =? 0 then 0 else 1) in
  forall i k, 0 <= i -> 0 <= k < 8 ->
  (offset <= 8 * i + k < offset + n <->
     (s <> 0 /\ i = offset / 8 /\ s <= k) \/ (first <= i < (offset + n) / 8) \/
     (e <> 0 /\ i = (offset + n) / 8 /\ k < e)).
Proof using.
  intros Ho Hn Ha s e first i k Hi Hk. unfold cell_aligned in Ha. fold s e in Ha.
  pose proof (Z.div_mod offset 8 ltac:(lia)) as E1. pose proof (Z.mod_pos_bound offset 8 ltac:(lia)) as B1.
  pose proof (Z.div_mod (offset + n) 8 ltac:(lia)) as E2. pose proof (Z.mod_pos_bound (offset + n) 8 ltac:(lia)) as B2.
  fold s in E1, B1. fold e in E2, B2. set (a := offset / 8) in *. set (b := (offset + n) / 8) in *.
  assert (a <= b) by (subst a b; apply Z.div_le_mono; lia).
  subst first. destruct (Z.eqb_spec s 0); lia.
Qed.

Lemma seqZ_cells offset n :
  0 <= offset -> 0 < n -> offset + n <= size -> cell_aligned offset n ->
  let first := offset / 8 + (if offset mod 8 =? 0 then 0 else 1) in
  Forall (fun i => 0 <= i < (size + 7) / 8) (seqZ first ((offset + n) / 8 - first)).
Proof using.
  intros Ho Hn Hle Ha first. apply Forall_forall. intros i Hi. apply elem_of_seqZ in Hi.
  pose proof (Z.div_pos offset 8 Ho ltac:(lia)).
  assert ((offset + n) / 8 <= (size + 7) / 8) by (apply Z.div_le_mono; lia).
  unfold first in Hi. destruct (_ =? 0); lia.
Qed.

Lemma start_index_ok offset n : 0 <= offset -> 0 < n -> offset + n <= size -> 0 <= offset / 8 < (size + 7) / 8.
Proof using.
  intros. split; [apply Z.div_pos; lia|]. apply Z.div_lt_upper_bound; [lia|].
  pose proof (Z.div_mod (size + 7) 8 ltac:(lia)). pose proof (Z.mod_pos_bound (size + 7) 8 ltac:(lia)). lia.
Qed.

Lemma end_index_ok offset n :
  0 <= offset -> 0 < n -> offset + n <= size -> (offset + n) mod 8 <> 0 -> 0 <= (offset + n) / 8 < (size + 7) / 8.
Proof using.
  intros Ho Hn Hle He. split; [apply Z.div_pos; lia|].
  pose proof (Z.div_mod (offset + n) 8 ltac:(lia)). pose proof (Z.mod_pos_bound (offset + n) 8 ltac:(lia)).
  apply Z.div_lt_upper_bound; [lia|].
  pose proof (Z.div_mod (size + 7) 8 ltac:(lia)). pose proof (Z.mod_pos_bound (size + 7) 8 ltac:(lia)). lia.
Qed.

Lemma Object_read_run offset n :
  0 <= offset -> 0 < n -> offset + n <= size -> cell_aligned offset n ->
  exists b, Object_read o offset n = Ok b /\
    (b = true <-> forall k, offset <= k < offset + n -> byte_concrete o k = true).
Proof using All.
  intros Ho Hn Hle Ha. pose proof (range_split offset n Ho Hn Ha) as Hsp. cbv zeta in Hsp.
  pose proof (seqZ_cells offset n Ho Hn Hle Ha) as Hw. cbv zeta in Hw.
  pose proof (Z.mod_pos_bound offset 8 ltac:(lia)) as B1. pose proof (Z.mod_pos_bound (offset + n) 8 ltac:(lia)) as B2.
  assert (Hrng : (forall k, offset <= k < offset + n -> byte_concrete o k = true) <->
    (forall i k, 0 <= i -> 0 <= k < 8 -> offset <= 8 * i + k < offset + n -> byte_concrete o (8 * i + k) = true)).
  { split; intros H; [intros; by apply H|]. intros k Hk.
    pose proof (Z.div_mod k 8 ltac:(lia)) as E. rewrite E. apply H; [apply Z.div_pos; lia| |lia].
    apply Z.mod_pos_bound. lia. }
  unfold Object_read, whole_cells, sizeofCell. rewrite (wrap_small 64) by (unfold is_uint; lia).
  destruct (all_max_run _ Hw) as (b & -> & Hb). cbn [mbind result_bind].
  destruct b; cbn [negb].
  2:{ exists false. split; [done|]. split; [done|]. intros H. apply Hb. intros i k Hi%elem_of_seqZ Hk.
      apply H. apply Hsp; [|done|lia]. pose proof (Z.div_pos offset 8 Ho ltac:(lia)). destruct (_ =? 0); lia. }
  assert (Hwhole : forall i k, offset / 8 + (if offset mod 8 =? 0 then 0 else 1) <= i < (offset + n) / 8 -> 0 <= k < 8 ->
    byte_concrete o (8 * i + k) = true).
  { intros i k Hi Hk. apply Hb; [done| |done]. apply elem_of_seqZ. lia. } clear Hb.
  destruct (get_cell_run _ (start_index_ok offset n Ho Hn Hle)) as (cs & Rs & Hcs & Hbs).
  set (sb := if offset mod 8 =? 0 then Ok false else _).
  assert (exists b, sb = Ok b /\ (b = false <->
    (offset mod 8 <> 0 -> forall k, offset mod 8 <= k < 8 -> byte_concrete o (8 * (offset / 8) + k) = true))) as (b & -> & Hstart).
  { unfold sb. destruct (Z.eqb_spec (offset mod 8) 0) as [Hz|Hs].
    { exists false. split; [done|]. split; [|done]. intros _ Hs. by rewrite Hz in Hs. }
    rewrite Rs. cbn [mbind result_bind]. eexists. split; [done|].
    rewrite negb_false_iff, Z.eqb_eq, startMask_clear by (done || lia). split.
    - intros H _ k Hk. rewrite (byte_of_cell _ cs) by (done || lia || (apply Z.div_pos; lia)). by apply H.
    - intros H k Hk. rewrite <- (byte_of_cell (offset / 8) cs) by (done || lia || (apply Z.div_pos; lia)). by apply H. }
  cbn [mbind result_bind]. destruct b.
  { exists false. split; [done|]. split; [done|]. intros H. symmetry. apply Hstart. intros Hs k Hk.
    apply H. apply Hsp; [apply Z.div_pos; lia|lia|]. left. lia. }
  destruct Hstart as [Hstart _]. specialize (Hstart eq_refl).
  destruct (Z.eqb_spec ((offset + n) mod 8) 0) as [He|He].
  - exists true. split; [done|]. split; [intros _|done]. apply Hrng. intros i k Hi Hk Hin.
    apply Hsp in Hin as [(H1 & -> & H3)|[H|(H1 & _)]]; try done; [apply Hstart; lia|by apply Hwhole].
  - destruct (get_cell_run _ (end_index_ok offset n Ho Hn Hle He)) as (ce & Re & Hce & Hbe).
    rewrite Re. cbn [mbind result_bind]. eexists. split; [done|].
    rewrite Z.eqb_eq, endMask_clear, Hrng by (done || lia). split.
    + intros H i k Hi Hk Hin. apply Hsp in Hin as [(H1 & -> & H3)|[H'|(H1 & -> & H3)]]; try done;
        [apply Hstart; lia|by apply Hwhole|]. rewrite (byte_of_cell _ ce) by (done || lia). apply H. lia.
    + intros H k Hk. rewrite <- (byte_of_cell ((offset + n) / 8) ce) by (done || lia || (apply Z.div_pos; lia)).
      apply H; [apply Z.div_pos; lia|lia|]. apply Hsp; [apply Z.div_pos; lia|lia|]. right. right. lia.
Qed.
End mask.

Section mask_write.
Context (size : Z) (Hsize : 0 < size < 2 ^ 35).

(** An update of the mask: which bytes get the flag [v]. *)
Definition mask_update (o o' : Object) (v : bool) (covers : Z -> Z -> bool) : Prop :=
  mask_wf size o' /\ interval o' = interval o /\
  forall i k, 0 <= i -> 0 <= k < 8 ->
    byte_concrete o' (8 * i + k) = if covers i k then v else byte_concrete o (8 * i + k).

Lemma set_cell_run o i c c' (v : bool) (covers : Z -> bool) :
  mask_wf size o -> 0 <= i < (size + 7) / 8 -> concreteness o !! Z.to_nat i = Some c -> is_byte c' ->
  (forall k, 0 <= k < 8 -> Z.testbit c' (7 - k) = if covers k then v else Z.testbit c (7 - k)) ->
  exists o', set_cell i c' o = Ok o' /\ mask_update o o' v (fun j k => (j =? i) && covers k).
Proof using.
  intros Hwf Hi Hc Hb Hbits. unfold set_cell, get_cell. destruct (Z.leb_spec 0 i); [|lia]. rewrite Hc.
  eexists. split; [done|]. destruct Hwf as [Hl HF]. split; [|split; [done|]].
  - split; simpl; [by rewrite length_insert|]. by apply Forall_insert.
  - intros j k Hj Hk. destruct (Z.eqb_spec j i) as [->|Hne]; cbn [andb].
    + rewrite (byte_of_cell _ i c' k) by (lia || (simpl; apply list_lookup_insert_eq; by apply lookup_lt_Some in Hc)).
      rewrite (byte_of_cell _ i c k) by (lia || done). by apply Hbits.
    + unfold byte_concrete. cbn [concreteness].
      replace ((8 * j + k) / 8) with j by (rewrite (Z.mul_comm 8), Z.div_add_l, Z.div_small; lia).
      rewrite list_lookup_insert_ne by lia. done.
Qed.

Lemma mask_update_trans o1 o2 o3 v c1 c2 :
  mask_update o1 o2 v c1 -> mask_update o2 o3 v c2 -> mask_update o1 o3 v (fun i k => c1 i k || c2 i k).
Proof using.
  intros (_ & I1 & U1) (W2 & I2 & U2). split; [done|]. split; [congruence|]. intros i k Hi Hk.
  rewrite U2, U1 by done. by destruct (c1 i k), (c2 i k).
Qed.

Lemma set_cells_run o (v : bool) idx :
  mask_wf size o -> Forall (fun i => 0 <= i < (size + 7) / 8) idx ->
  exists o', set_cells idx (if v then cell_max else cell_min) o = Ok o' /\
    mask_update o o' v (fun i k => bool_decide (i ∈ idx)).
Proof using.
  intros Hwf Hidx. revert o Hwf. induction Hidx as [|i idx Hi _ IH]; intros o Hwf; simpl.
  { exists o. split; [done|]. split; [done|]. split; [done|]. intros i k _ _. done. }
  destruct (get_cell_run size o Hwf i Hi) as (c & _ & Hc & _).
  destruct (set_cell_run o i c (if v then cell_max else cell_min) v (fun _ => true) Hwf Hi Hc) as (o1 & R & U1).
  - destruct v; unfold is_byte, cell_max, cell_min; lia.
  - intros k Hk. assert (forallb (fun k => Z.testbit cell_max (7 - k)) (seqZ 0 8) = true) as H by (vm_compute; reflexivity).
    rewrite forallb_forall in H. destruct v; [|apply Z.bits_0].
    apply H, list_elem_of_In, elem_of_seqZ. lia.
  - rewrite R. cbn [mbind result_bind]. destruct (IH o1) as (o' & R' & U2); [apply U1|].
    exists o'. split; [done|]. destruct (mask_update_trans _ _ _ _ _ _ U1 U2) as (W & I & U).
    split; [done|]. split; [done|]. intros j k Hj Hk. rewrite U by done.
    destruct (Z.eqb_spec j i) as [->|Hne]; simpl.
    + by rewrite bool_decide_true by left.
    + case_bool_decide as E1; case_bool_decide as E2; try done; [by destruct E2; right|].
      by apply elem_of_cons in E2 as [->|E2].
Qed.

Lemma mask_cell_run o i mask (v : bool) (covers : Z -> bool) :
  mask_wf size o -> 0 <= i < (size + 7) / 8 ->
  (forall c, is_byte c -> let c' := if v then Z.lor c mask else wrap 8 (Z.land c (Z.lnot mask)) in
     is_byte c' /\ forall k, 0 <= k < 8 -> Z.testbit c' (7 - k) = if covers k then v else Z.testbit c (7 - k)) ->
  exists o', mask_cell i mask v o = Ok o' /\ mask_update o o' v (fun j k => (j =? i) && covers k).
Proof using.
  intros Hwf Hi Hm. destruct (get_cell_run size o Hwf i Hi) as (c & R & Hc & Hb). unfold mask_cell. rewrite R.
  cbn [mbind result_bind]. destruct (Hm c Hb) as [Hb' Hbits]. by eapply set_cell_run.
Qed.

(** The bytes [write] covers, cell by cell. *)
Definition write_covers (offset n i k : Z) : bool :=
  let first := offset / 8 + (if offset mod 8 =? 0 then 0 else 1) in
  (first <=? i) && (i <? (offset + n) / 8)
  || negb (offset mod 8 =? 0) && (i =? offset / 8) && (offset mod 8 <=? k)
  || negb ((offset + n) mod 8 =? 0) && (i =? (offset + n) / 8) && (k <? (offset + n) mod 8).

Lemma Object_write_covers o offset n v :
  mask_wf size o -> 0 <= offset -> 0 < n -> offset + n <= size ->
  exists o', Object_write o offset n v = Ok o' /\ mask_update o o' v (write_covers offset n).
Proof using All.
  intros Hwf Ho Hn Hle.
  pose proof (Z.mod_pos_bound offset 8 ltac:(lia)) as B1. pose proof (Z.mod_pos_bound (offset + n) 8 ltac:(lia)) as B2.
  assert (Forall (fun i => 0 <= i < (size + 7) / 8)
    (seqZ (offset / 8 + (if offset mod 8 =? 0 then 0 else 1))
       ((offset + n) / 8 - (offset / 8 + (if offset mod 8 =? 0 then 0 else 1))))) as Hw.
  { apply Forall_forall. intros i Hi. apply elem_of_seqZ in Hi. pose proof (Z.div_pos offset 8 Ho ltac:(lia)).
    assert ((offset + n) / 8 <= (size + 7) / 8) by (apply Z.div_le_mono; lia). destruct (_ =? 0); lia. }
  unfold Object_write, whole_cells, sizeofCell. rewrite (wrap_small 64) by (unfold is_uint; lia).
  destruct (set_cells_run o v _ Hwf Hw) as (o1 & -> & U1). cbn [mbind result_bind].
  set (m2 := if offset mod 8 =? 0 then Ok o1 else _).
  assert (exists o2, m2 = Ok o2 /\ mask_update o1 o2 v (fun i k =>
    negb (offset mod 8 =? 0) && (i =? offset / 8) && (offset mod 8 <=? k))) as (o2 & -> & U2).
  { unfold m2. destruct (Z.eqb_spec (offset mod 8) 0) as [|Hs].
    - exists o1. split; [done|]. split; [apply U1|]. by split.
    - apply (mask_cell_run o1 (offset / 8) (startMask (offset mod 8)) v (fun k => offset mod 8 <=? k)).
      + apply U1.
      + by eapply start_index_ok.
      + intros c Hc. apply startMask_bits; [done|lia]. }
  cbn [mbind result_bind]. pose proof (mask_update_trans _ _ _ _ _ _ U1 U2) as U12.
  set (m3 := if (offset + n) mod 8 =? 0 then Ok o2 else _).
  assert (exists o3, m3 = Ok o3 /\ mask_update o2 o3 v (fun i k =>
    negb ((offset + n) mod 8 =? 0) && (i =? (offset + n) / 8) && (k <? (offset + n) mod 8))) as (o3 & -> & U3).
  { unfold m3. destruct (Z.eqb_spec ((offset + n) mod 8) 0) as [|He].
    - exists o2. split; [done|]. split; [apply U2|]. by split.
    - apply (mask_cell_run o2 ((offset + n) / 8) (endMask ((offset + n) mod 8)) v (fun k => k <? (offset + n) mod 8)).
      + apply U2.
      + by apply end_index_ok.
      + intros c Hc. apply endMask_bits; [done|lia]. }
  exists o3. split; [done|]. destruct (mask_update_trans _ _ _ _ _ _ U12 U3) as (W & I & U).
  split; [done|]. split; [done|]. intros i k Hi Hk. rewrite U by done. unfold write_covers.
  assert (bool_decide (i ∈ seqZ (offset / 8 + (if offset mod 8 =? 0 then 0 else 1))
      ((offset + n) / 8 - (offset / 8 + (if offset mod 8 =? 0 then 0 else 1)))) =
    (offset / 8 + (if offset mod 8 =? 0 then 0 else 1) <=? i) && (i <? (offset + n) / 8)) as ->.
  { apply eq_true_iff_eq. rewrite bool_decide_eq_true, elem_of_seqZ. lia. }
  done.
Qed.
End mask_write.

Lemma Object_write_run size o offset n v :
  0 < size < 2 ^ 35 -> mask_wf size o -> 0 <= offset -> 0 < n -> offset + n <= size -> cell_aligned offset n ->
  exists o', Object_write o offset n v = Ok o' /\ mask_wf size o' /\ interval o' = interval o /\
    forall k, 0 <= k ->
      byte_concrete o' k = if (offset <=? k) && (k <? offset + n) then v else byte_concrete o k.
Proof.
  intros Hsz Hwf Ho Hn Hle Ha.
  destruct (Object_write_covers size Hsz o offset n v Hwf Ho Hn Hle) as (o' & R & W & I & U).
  exists o'. split_and!; try done. intros k Hk.
  pose proof (Z.div_mod k 8 ltac:(lia)) as E. pose proof (Z.mod_pos_bound k 8 ltac:(lia)) as B. rewrite E.
  rewrite U by (done || (apply Z.div_pos; lia)).
  pose proof (range_split offset n Ho Hn Ha (k / 8) (k mod 8) ltac:(apply Z.div_pos; lia) B) as Hsp. cbv zeta in Hsp.
  assert (write_covers offset n (k / 8) (k mod 8) =
    (offset <=? 8 * (k / 8) + k mod 8) && (8 * (k / 8) + k mod 8 <? offset + n)) as ->; [|done].
  apply eq_true_iff_eq. unfold write_covers. cbv zeta.
  transitivity (offset <= 8 * (k / 8) + k mod 8 < offset + n); [rewrite Hsp|]; lia.
Qed.

(** a write strictly inside one cell sets the flags of all the eight bytes
    of that cell, also of those it does not write: a concrete value stored
    beside a symbolic one makes the symbolic bytes count as concrete. *)
Theorem Object_write_clobbers_cell size o offset n v :
  0 < size < 2 ^ 35 -> mask_wf size o -> 0 <= offset -> 0 < n -> offset + n <= size -> ~ cell_aligned offset n ->
  exists o', Object_write o offset n v = Ok o' /\
    forall k, offset / 8 * 8 <= k < offset / 8 * 8 + 8 -> byte_concrete o' k = v.
Proof.
  intros Hsz Hwf Ho Hn Hle Ha.
  destruct (Object_write_covers size Hsz o offset n v Hwf Ho Hn Hle) as (o' & R & W & I & U).
  exists o'. split; [done|]. intros k Hk.
  assert (k / 8 = offset / 8) as Hd by (symmetry; apply (Z.div_unique_pos k 8 _ (k - offset / 8 * 8)); lia).
  pose proof (Z.div_mod k 8 ltac:(lia)) as E. pose proof (Z.mod_pos_bound k 8 ltac:(lia)) as B. rewrite E.
  rewrite U by (done || (apply Z.div_pos; pose proof (Z.div_pos offset 8 Ho ltac:(lia)); lia)).
  assert (write_covers offset n (k / 8) (k mod 8) = true) as ->; [|done].
  unfold cell_aligned in Ha. unfold write_covers. rewrite Hd.
  pose proof (Z.div_mod offset 8 ltac:(lia)) as E1. pose proof (Z.mod_pos_bound offset 8 ltac:(lia)) as B1.
  pose proof (Z.div_mod (offset + n) 8 ltac:(lia)) as E2. pose proof (Z.mod_pos_bound (offset + n) 8 ltac:(lia)) as B2.
  assert (offset / 8 = (offset + n) / 8) as Hsame by (destruct (Z.eq_dec (offset / 8) ((offset + n) / 8)); [done|tauto]).
  rewrite <- Hsame in *. lia.
Qed.

(** A two-byte field at offset 12 beside a symbolic one at offset 8. *)
Lemma Object_write_clobbers_cell_witness :
  exists o o', Object_write (new_Object 0x1000 24) 8 2 false = Ok o /\ byte_concrete o 8 = false /\
    Object_write o 12 2 true = Ok o' /\ byte_concrete o' 8 = true.
Proof.
  exists (mkObject (new_Interval 0x1000 24) [0xFF; 0x3F; 0xFF]).
  destruct (Object_write_clobbers_cell 24 (mkObject (new_Interval 0x1000 24) [0xFF; 0x3F; 0xFF]) 12 2 true) as (o' & R & H).
  - lia.
  - split; [vm_compute; reflexivity|]. apply (bool_decide_eq_true_1 (Forall is_byte [0xFF; 0x3F; 0xFF])). vm_compute. reflexivity.
  - lia.
  - lia.
  - lia.
  - unfold cell_aligned. vm_compute. intros [H|[H|H]]; [discriminate H|discriminate H|by apply H].
  - exists o'. split; [vm_compute; reflexivity|]. split; [vm_compute; reflexivity|]. split; [exact R|].
    apply H. vm_compute. split; [discriminate|reflexivity].
Defined.

(** ** The heap as a map from addresses to flags *)

Definition obj_size (o : Object) : Z := right (interval o) - left (interval o) + 1.

Record obj_wf (o : Object) : Prop := {
  ow_left : 0 <= left (interval o);
  ow_order : left (interval o) <= right (interval o);
  ow_right : right (interval o) < 2 ^ 64;
  ow_size : obj_size o < 2 ^ 35;
  ow_mask : mask_wf (obj_size o) o
}.

Record heap_wf (h : Heap) : Prop := {
  hw_nodup : NoDup (tree h);
  hw_ids id : id ∈ tree h -> 0 < id < brk h;
  hw_objs id : id ∈ tree h -> exists o, objs h !! id = Some o /\ obj_wf o;
  hw_disjoint id1 id2 o1 o2 p : id1 ∈ tree h -> id2 ∈ tree h ->
    objs h !! id1 = Some o1 -> objs h !! id2 = Some o2 ->
    contains (interval o1) p = true -> contains (interval o2) p = true -> id1 = id2
}.

(** The object at an address, and the flag of the byte there. *)
Definition addr_object (h : Heap) (p : Z) : option (Z * Object) :=
  match find_in (objs h) (tree h) p with
  | Ok id => o ← objs h !! id; Some (id, o)
  | Err _ => None
  end.
Definition addr_concrete (h : Heap) (p : Z) : option bool :=
  '(_, o) ← addr_object h p; Some (byte_concrete o (p - left (interval o))).

Lemma obj_at_run h id o : objs h !! id = Some o -> obj_at id h = Ok (o, h).
Proof. intros H. unfold obj_at, st_read. by rewrite H. Qed.

Section heap.
Context (h : Heap) (Hwf : heap_wf h).

Lemma find_in_sub ids p :
  (forall id, id ∈ ids -> id ∈ tree h) ->
  (exists id o, find_in (objs h) ids p = Ok id /\ id ∈ ids /\ objs h !! id = Some o /\ contains (interval o) p = true) \/
  (find_in (objs h) ids p = Err (Thrown "Unbound pointer!") /\
   forall id o, id ∈ ids -> objs h !! id = Some o -> contains (interval o) p = false).
Proof using Hwf.
  induction ids as [|id ids IH]; intros Hin; simpl.
  { right. split; [done|]. intros id o Hid. by apply elem_of_nil in Hid. }
  destruct (hw_objs h Hwf id (Hin id ltac:(left))) as (o & Ho & _). rewrite Ho.
  destruct (contains (interval o) p) eqn:Hc.
  - left. exists id, o. split_and!; try done. by left.
  - destruct (IH ltac:(intros; apply Hin; by right)) as [(id' & o' & R & Hi & Ho' & Hc')|[R Hno]].
    + left. exists id', o'. split_and!; try done. by right.
    + right. split; [done|]. intros id' o' [->|Hi]%elem_of_cons Ho'; [congruence|by eapply Hno].
Qed.

(** An address in an object resolves to it. *)
Lemma resolve_run id o p :
  id ∈ tree h -> objs h !! id = Some o -> contains (interval o) p = true ->
  find_in (objs h) (tree h) p = Ok id /\
  resolve p h = Ok (Some (mkVirtualAddress id (p - left (interval o))), h).
Proof using Hwf.
  intros Hid Ho Hc. assert (find_in (objs h) (tree h) p = Ok id) as R.
  { destruct (find_in_sub (tree h) p ltac:(done)) as [(id' & o' & R & Hi & Ho' & Hc')|[_ Hno]].
    - rewrite R. f_equal. eapply (hw_disjoint h Hwf); eauto.
    - by rewrite (Hno id o Hid Ho) in Hc. }
  split; [done|]. unfold resolve.
  assert (find p h = Ok (id, h)) as F by (unfold find; by rewrite R). run_step F. pose proof (hw_ids h Hwf id Hid) as Hpos.
  destruct (Z.eqb_spec id 0); [lia|].
  run_step (obj_at_run h id o Ho). unfold mret, st_ret.
  destruct (hw_objs h Hwf id Hid) as (o' & Ho' & [? ? ? ? _]). rewrite Ho in Ho'. injection Ho' as <-.
  unfold contains in Hc. rewrite wrap_small by (unfold is_uint; lia). done.
Qed.

Lemma resolve_unbound p :
  (forall id o, id ∈ tree h -> objs h !! id = Some o -> contains (interval o) p = false) ->
  resolve p h = Err (Thrown "Unbound pointer!").
Proof using Hwf.
  intros Hno. destruct (find_in_sub (tree h) p ltac:(done)) as [(id' & o' & R & Hi & Ho' & Hc')|[R _]].
  - by rewrite (Hno id' o' Hi Ho') in Hc'.
  - unfold resolve. apply st_bind_err. unfold find. by rewrite R.
Qed.
End heap.

(** Physical addresses and (object, offset) pairs translate into each
    other: an address inside an object resolves to the object and its distance
    from the object's start, translating back gives the address, and an
    address outside all objects is an exception. *)
Theorem address_roundtrip h id o p :
  heap_wf h -> id ∈ tree h -> objs h !! id = Some o -> left (interval o) <= p <= right (interval o) ->
  physToVirtAddress p h = Ok (mkVirtualAddress id (p - left (interval o)), h) /\
  virtToPhysAddress (mkVirtualAddress id (p - left (interval o))) h = Ok (p, h) /\
  (forall q, (forall id' o', id' ∈ tree h -> objs h !! id' = Some o' -> contains (interval o') q = false) ->
     physToVirtAddress q h = Err (Thrown "Unbound pointer!")).
Proof.
  intros Hwf Hid Ho Hp. destruct (hw_objs h Hwf id Hid) as (o' & Ho' & [? ? ? ? _]).
  rewrite Ho in Ho'. injection Ho' as <-.
  destruct (resolve_run h Hwf id o p Hid Ho) as [_ R]; [unfold contains; lia|]. split_and!.
  - unfold physToVirtAddress. by run_step R.
  - unfold virtToPhysAddress. cbn [vobj voffset]. run_step (obj_at_run h id o Ho).
    replace (left (interval o) + (p - left (interval o))) with p by lia.
    by rewrite wrap_small by (unfold is_uint; lia).
  - intros q Hq. unfold physToVirtAddress. by apply st_bind_err, resolve_unbound.
Qed.

(** The search depends on the places of the objects only. *)
Lemma find_in_places m m' ids p :
  (forall id, interval <$> m' !! id = interval <$> m !! id) -> find_in m' ids p = find_in m ids p.
Proof.
  intros H. induction ids as [|id ids IH]; simpl; [done|]. specialize (H id).
  destruct (m' !! id) as [o'|], (m !! id) as [o|]; simpl in H; simplify_eq; [|done].
  rewrite H. by rewrite IH.
Qed.

(** An object may be replaced by one at the same place. *)
Lemma same_place_wf h id o o' :
  heap_wf h -> objs h !! id = Some o -> interval o' = interval o -> mask_wf (obj_size o) o' ->
  heap_wf (with_objs (<[id := o']> (objs h)) h) /\
  forall p, find_in (<[id := o']> (objs h)) (tree h) p = find_in (objs h) (tree h) p.
Proof.
  intros Hwf Ho Hi Hm.
  assert (Hpl : forall i, interval <$> <[id := o']> (objs h) !! i = interval <$> objs h !! i).
  { intros i. destruct (decide (i = id)) as [->|Hne].
    - rewrite lookup_insert_eq, Ho. simpl. by rewrite Hi.
    - by rewrite lookup_insert_ne by congruence. }
  assert (Hinv : forall i oo, <[id := o']> (objs h) !! i = Some oo ->
    exists a, objs h !! i = Some a /\ interval oo = interval a).
  { intros i oo E. specialize (Hpl i). rewrite E in Hpl. destruct (objs h !! i) as [a|]; simplify_eq/=. eauto. }
  split; [|intros p; by apply find_in_places]. split; [apply Hwf|apply Hwf| |].
  - intros i Hin. destruct (hw_objs h Hwf i Hin) as (oo & Hoo & Hw). simpl. destruct (decide (i = id)) as [->|Hne].
    + rewrite lookup_insert_eq. exists o'. split; [done|]. rewrite Ho in Hoo. injection Hoo as <-.
      destruct Hw. split; unfold obj_size in *; rewrite ?Hi; done.
    + rewrite lookup_insert_ne by congruence. eauto.
  - intros i1 i2 o1 o2 q H1 H2 E1 E2. destruct (Hinv _ _ E1) as (a1 & F1 & ->).
    destruct (Hinv _ _ E2) as (a2 & F2 & ->). by apply (hw_disjoint h Hwf i1 i2 a1 a2 q).
Qed.

(** A range of [n] bytes at address [p] that lies in one object and not
    strictly inside one cell of its mask. *)
Record in_object (h : Heap) (p n : Z) (id : Z) (o : Object) : Prop := {
  io_tree : id ∈ tree h;
  io_obj : objs h !! id = Some o;
  io_left : left (interval o) <= p;
  io_pos : 0 < n;
  io_right : p + n - 1 <= right (interval o);
  io_cells : cell_aligned (p - left (interval o)) n
}.

(** A write sets the flags of the addresses of its range and of no others,
    whatever object they belong to, and moves no object. *)
Lemma Heap_write_run h id o p n v :
  heap_wf h -> in_object h p n id o ->
  exists h', Heap_write p n v h = Ok (tt, h') /\ heap_wf h' /\ tree h' = tree h /\
    (forall i, interval <$> objs h' !! i = interval <$> objs h !! i) /\
    forall q, addr_concrete h' q = if (p <=? q) && (q <? p + n) then Some v else addr_concrete h q.
Proof.
  intros Hwf [Hid Ho Hl Hn Hr Ha]. destruct (hw_objs h Hwf id Hid) as (o1 & Ho1 & [W1 W2 W3 W4 W5]).
  rewrite Ho in Ho1. injection Ho1 as <-. unfold obj_size in W4, W5.
  destruct (resolve_run h Hwf id o p Hid Ho) as [_ R]; [unfold contains; lia|].
  destruct (Object_write_run (right (interval o) - left (interval o) + 1) o (p - left (interval o)) n v)
    as (o' & Rw & Wm & Hi & Hb); try done; try lia.
  destruct (same_place_wf h id o o' Hwf Ho Hi Wm) as [Hwf' Hf].
  eexists. split; [|split; [exact Hwf'|split; [done|split]]].
  2: { intros i. cbn [objs with_objs]. destruct (decide (i = id)) as [->|Hne]; [by rewrite lookup_insert_eq, Ho; simpl; rewrite Hi|].
       by rewrite lookup_insert_ne by congruence. }
  { unfold Heap_write. run_step R. cbn [vobj voffset]. run_step (obj_at_run h id o Ho). rewrite Rw.
    change (st_lift (Ok o')) with (mret o' : st Heap Object). rewrite st_ret_bind.
    unfold set_obj. by run_step (obj_at_run h id o Ho). }
  intros q. unfold addr_concrete, addr_object. cbn [objs tree with_objs]. rewrite Hf.
  destruct (find_in_sub h Hwf (tree h) q ltac:(done)) as [(i & oi & Rf & Hi' & Hoi & Hc)|[Rf Hno]]; rewrite Rf.
  - destruct (decide (i = id)) as [->|Hne].
    + rewrite Ho in Hoi. injection Hoi as <-. rewrite lookup_insert_eq, Ho. simpl.
      unfold contains in Hc. rewrite Hi, Hb by lia.
      assert ((p - left (interval o) <=? q - left (interval o)) && (q - left (interval o) <? p - left (interval o) + n) =
        (p <=? q) && (q <? p + n)) as -> by lia. destruct ((p <=? q) && (q <? p + n)); reflexivity.
    + rewrite lookup_insert_ne by congruence.
      destruct ((p <=? q) && (q <? p + n)) eqn:E; [|done]. exfalso. apply Hne.
      apply (hw_disjoint h Hwf i id oi o q); try done. unfold contains. lia.
  - destruct ((p <=? q) && (q <? p + n)) eqn:E; [|done]. exfalso.
    assert (contains (interval o) q = true) as Hc by (unfold contains; lia). by rewrite (Hno id o Hid Ho) in Hc.
Qed.

(** A read answers whether all bytes of its range are concrete. *)
Lemma Heap_read_run h id o p n :
  heap_wf h -> in_object h p n id o ->
  exists b, Heap_read p n h = Ok (b, h) /\
    (b = true <-> forall q, p <= q < p + n -> addr_concrete h q = Some true).
Proof.
  intros Hwf [Hid Ho Hl Hn Hr Ha]. destruct (hw_objs h Hwf id Hid) as (o1 & Ho1 & [W1 W2 W3 W4 W5]).
  rewrite Ho in Ho1. injection Ho1 as <-. unfold obj_size in W4, W5.
  destruct (resolve_run h Hwf id o p Hid Ho) as [_ R]; [unfold contains; lia|].
  destruct (Object_read_run _ o W5 ltac:(lia) (p - left (interval o)) n) as (b & Rr & Hb); try done; try lia.
  exists b. split.
  - unfold Heap_read. run_step R. cbn [vobj voffset]. run_step (obj_at_run h id o Ho). by rewrite Rr.
  - rewrite Hb.
    assert (Hq : forall q, p <= q < p + n -> addr_concrete h q = Some (byte_concrete o (q - left (interval o)))).
    { intros q Hq. unfold addr_concrete, addr_object.
      destruct (resolve_run h Hwf id o q Hid Ho) as [-> _]; [unfold contains; lia|]. by rewrite Ho. }
    split.
    + intros H q Hpq. rewrite Hq by done. f_equal. apply H. lia.
    + intros H k Hk. specialize (H (k + left (interval o)) ltac:(lia)). rewrite Hq in H by lia.
      injection H as H. rewrite <- H. f_equal. lia.
Qed.

(** Accesses of the probes, and what they mean for a map of flags. *)
Inductive access :=
| AWrite (p n : Z) (v : bool)
| ARead (p n : Z).

Definition run_access (a : access) : st Heap (list bool) :=
  match a with
  | AWrite p n v => Heap_write p n v;; mret []
  | ARead p n => b ← Heap_read p n; mret [b]
  end.
Definition run_accesses (l : list access) : st Heap (list bool) :=
  st_fold (fun a outs => out ← run_access a; mret (outs ++ out)) l [].

Definition flag_map := Z -> option bool.
Definition all_concrete (m : flag_map) (p n : Z) : bool :=
  forallb (fun q => match m q with Some b => b | None => false end) (seqZ p n).
Fixpoint spec_accesses (l : list access) (m : flag_map) : list bool * flag_map :=
  match l with
  | [] => ([], m)
  | AWrite p n v :: l => spec_accesses l (fun q => if (p <=? q) && (q <? p + n) then Some v else m q)
  | ARead p n :: l => let '(outs, m') := spec_accesses l m in (all_concrete m p n :: outs, m')
  end.

Definition access_fits (h : Heap) (a : access) : Prop :=
  match a with AWrite p n _ | ARead p n => exists id o, in_object h p n id o end.

Lemma access_fits_places h h' a :
  tree h' = tree h -> (forall i, interval <$> objs h' !! i = interval <$> objs h !! i) ->
  access_fits h a -> access_fits h' a.
Proof.
  intros Ht Hi. assert (forall p n id o, in_object h p n id o -> exists id o, in_object h' p n id o) as H.
  { intros p n id o [H1 H2 H3 H4 H5 H6]. specialize (Hi id). rewrite H2 in Hi.
    destruct (objs h' !! id) as [o'|] eqn:Eo; [|done]. injection Hi as Hi.
    exists id, o'. split; rewrite ?Ht, ?Hi; done. }
  destruct a; simpl; intros (id & o & Ha); by eapply H.
Qed.

Lemma all_concrete_spec m p n :
  all_concrete m p n = true <-> forall q, p <= q < p + n -> m q = Some true.
Proof.
  unfold all_concrete. rewrite forallb_forall. split.
  - intros H q Hq. specialize (H q). rewrite <- list_elem_of_In, elem_of_seqZ in H. specialize (H Hq).
    destruct (m q) as [[]|]; done.
  - intros H q. rewrite <- list_elem_of_In, elem_of_seqZ. intros Hq. by rewrite H.
Qed.

Lemma run_accesses_acc l h outs (m : flag_map) :
  heap_wf h -> Forall (access_fits h) l -> (forall q, addr_concrete h q = m q) ->
  exists h', st_fold (fun a outs => out ← run_access a; mret (outs ++ out)) l outs h = Ok (outs ++ fst (spec_accesses l m), h') /\
    heap_wf h' /\ forall q, addr_concrete h' q = snd (spec_accesses l m) q.
Proof.
  revert h outs m. induction l as [|a l IH]; intros h outs m Hwf HF Hm; cbn [st_fold spec_accesses].
  { exists h. by rewrite app_nil_r. }
  apply Forall_cons in HF as [Ha HF]. destruct a as [p n v|p n]; destruct Ha as (id & o & Ha).
  - destruct (Heap_write_run h id o p n v Hwf Ha) as (h1 & R & Hwf1 & Ht & Hi & Hq).
    rewrite st_bind_assoc. cbn [run_access]. rewrite st_bind_assoc. run_step R. rewrite !st_ret_bind, app_nil_r.
    apply IH; [done| |intros q; by rewrite Hq, Hm].
    eapply Forall_impl; [exact HF|]. intros a. by apply access_fits_places.
  - destruct (Heap_read_run h id o p n Hwf Ha) as (b & R & Hb).
    rewrite st_bind_assoc. cbn [run_access]. rewrite st_bind_assoc. run_step R. rewrite !st_ret_bind.
    assert (b = all_concrete m p n) as ->.
    { apply Bool.eq_iff_eq_true. rewrite Hb, all_concrete_spec. split; intros H q Hq; [rewrite <- Hm|rewrite Hm]; auto. }
    destruct (IH h (outs ++ [all_concrete m p n]) m Hwf HF Hm) as (h' & R' & Hwf' & Hq). exists h'.
    destruct (spec_accesses l m) as [outs' m']. cbn [fst snd] in *. rewrite R', <- app_assoc. done.
Qed.

(** C19: the heap is a map from addresses to flags.  Any sequence of reads and
    writes of ranges inside objects, none strictly inside a cell of a mask,
    answers as the map does and leaves a well-formed heap that stands for the
    map's result; an access outside all objects ends in the exception of the
    search, never in the answer [false] that [Heap::read] has for it. *)
Theorem heap_refines_flag_map l h :
  heap_wf h -> Forall (access_fits h) l ->
  (exists h', run_accesses l h = Ok (fst (spec_accesses l (addr_concrete h)), h') /\ heap_wf h' /\
     forall q, addr_concrete h' q = snd (spec_accesses l (addr_concrete h)) q) /\
  (forall q n v, (forall id o, id ∈ tree h -> objs h !! id = Some o -> contains (interval o) q = false) ->
     Heap_read q n h = Err (Thrown "Unbound pointer!") /\ Heap_write q n v h = Err (Thrown "Unbound pointer!")).
Proof.
  intros Hwf HF. split; [by apply (run_accesses_acc l h [] (addr_concrete h) Hwf HF)|].
  intros q n v Hq. unfold Heap_read, Heap_write. split; by apply st_bind_err, resolve_unbound.
Qed.

(** ** Garbage collections *)

Inductive gc_event :=
  | GcMoved (range : Z * Z * Z)
  | GcSurvived (range : Z * Z).

Definition gc_callback (e : gc_event) : st Heap unit :=
  match e with
  | GcMoved r => MovedReferences [r]
  | GcSurvived r => SurvivingReferences [r]
  end.

(** What a callback does to one object. *)
Definition obj_event (o : Object) (e : gc_event) : Object :=
  match e with
  | GcMoved (old, new, len) =>
      if includes (new_Interval old len) (interval o)
      then on_interval mark (on_interval (Interval_move (mkShift old new)) o) else o
  | GcSurvived (start, len) =>
      if includes (new_Interval start len) (interval o) then on_interval mark o else o
  end.
Definition fate (events : list gc_event) (o : Object) : Object := foldl obj_event o events.

(** A loop over distinct objects that updates each of them on its own. *)
Lemma fold_objs (g : Object -> Object) (body : Z -> unit -> st Heap unit) ids h :
  (forall id h o, objs h !! id = Some o -> body id tt h = Ok (tt, with_objs (<[id := g o]> (objs h)) h)) ->
  NoDup ids -> (forall id, id ∈ ids -> is_Some (objs h !! id)) ->
  exists m, st_fold body ids tt h = Ok (tt, with_objs m h) /\
    forall id, m !! id = if decide (id ∈ ids) then g <$> objs h !! id else objs h !! id.
Proof.
  intros Hb Hnd. revert h. induction Hnd as [|id ids Hni Hnd IH]; intros h Hex.
  { exists (objs h). split; [by destruct h|done]. }
  destruct (Hex id ltac:(left)) as [o Ho]. simpl. run_step (Hb id h o Ho).
  destruct (IH (with_objs (<[id := g o]> (objs h)) h)) as (m & R & Hm).
  { intros i Hi. simpl. destruct (decide (i = id)) as [->|Hne]; [done|].
    rewrite lookup_insert_ne by congruence. apply Hex. by right. }
  exists m. split; [exact R|]. intros i. rewrite Hm. simpl.
  destruct (decide (i = id)) as [->|Hne].
  - rewrite decide_False by done. rewrite decide_True by left. by rewrite lookup_insert_eq, Ho.
  - rewrite lookup_insert_ne by congruence. apply decide_ext. rewrite elem_of_cons. tauto.
Qed.

Lemma set_obj_run h id o f : objs h !! id = Some o -> set_obj id f h = Ok (tt, with_objs (<[id := f o]> (objs h)) h).
Proof. intros H. unfold set_obj. by run_step (obj_at_run h id o H). Qed.

Lemma unchanged_obj h id o : objs h !! id = Some o -> with_objs (<[id := o]> (objs h)) h = h.
Proof. intros H. rewrite insert_id by done. by destruct h. Qed.

Lemma gc_callback_run e h :
  NoDup (tree h) -> (forall id, id ∈ tree h -> is_Some (objs h !! id)) ->
  exists m, gc_callback e h = Ok (tt, with_objs m h) /\
    forall id, m !! id = if decide (id ∈ tree h) then (fun o => obj_event o e) <$> objs h !! id else objs h !! id.
Proof.
  intros Hnd Hex. destruct e as [[[old new] len]|[start len]]; simpl.
  - unfold MovedReferences. simpl. unfold moveAndMark, tree_moveAndMark.
    destruct (fold_objs (fun o => obj_event o (GcMoved (old, new, len)))
      (fun id _ => o ← obj_at id;
         if includes (new_Interval old len) (interval o)
         then set_obj id (on_interval (Interval_move (mkShift old new)));; set_obj id (on_interval mark)
         else mret tt) (tree h) h) as (m & R & Hm); try done.
    + intros id h1 o Ho. run_step (obj_at_run h1 id o Ho). unfold obj_event. destruct (includes _ _).
      * run_step (set_obj_run h1 id o (on_interval (Interval_move (mkShift old new))) Ho).
        erewrite set_obj_run by apply lookup_insert_eq. unfold with_objs. simpl. by rewrite insert_insert_eq.
      * by rewrite unchanged_obj.
    + exists m. split; [|done]. rewrite st_bind_assoc, st_get_bind. by run_step R.
  - unfold SurvivingReferences. simpl. unfold markSurvivedObjects, tree_mark.
    destruct (fold_objs (fun o => obj_event o (GcSurvived (start, len)))
      (fun id _ => o ← obj_at id;
         if includes (new_Interval start len) (interval o) then set_obj id (on_interval mark) else mret tt)
      (tree h) h) as (m & R & Hm); try done.
    + intros id h1 o Ho. run_step (obj_at_run h1 id o Ho). unfold obj_event. destruct (includes _ _).
      * by apply set_obj_run.
      * by rewrite unchanged_obj.
    + exists m. split; [|done]. rewrite st_bind_assoc, st_get_bind. by run_step R.
Qed.

Lemma gc_callbacks_run events h :
  NoDup (tree h) -> (forall id, id ∈ tree h -> is_Some (objs h !! id)) ->
  exists m, st_fold (fun e _ => gc_callback e) events tt h = Ok (tt, with_objs m h) /\
    forall id, m !! id = if decide (id ∈ tree h) then fate events <$> objs h !! id else objs h !! id.
Proof.
  revert h. induction events as [|e events IH]; intros h Hnd Hex.
  { exists (objs h). split; [by destruct h|]. intros id. destruct (decide _); [|done].
    by destruct (objs h !! id). }
  destruct (gc_callback_run e h Hnd Hex) as (m & R & Hm). simpl. run_step R.
  destruct (IH (with_objs m h)) as (m' & R' & Hm'); [done| |].
  { intros id Hid. simpl in *. rewrite Hm, decide_True by done. by apply fmap_is_Some, Hex. }
  exists m'. split; [exact R'|]. intros id. rewrite Hm'. simpl. rewrite Hm.
  destruct (decide (id ∈ tree h)); [|done]. by destruct (objs h !! id).
Qed.

Definition is_marked (m : gmap Z Object) (id : Z) : bool :=
  match m !! id with Some o => marked (interval o) | None => false end.

Lemma filter_marked_ext (b : bool) m m' (ids : list Z) :
  (forall id, id ∈ ids -> is_marked m' id = is_marked m id) ->
  filter (fun id => is_marked m' id = b) ids = filter (fun id => is_marked m id = b) ids.
Proof.
  induction ids as [|id ids IH]; intros H; [done|]. rewrite !filter_cons, (H id) by left.
  by rewrite IH by (intros; apply H; by right).
Qed.

(** What is left of an object after [clearUnmarked]. *)
Definition cleared (o : Object) : option Object :=
  if marked (interval o) then Some (on_interval unmark o) else None.

Lemma clear_fold ids ms us h :
  NoDup ids -> (forall id, id ∈ ids -> is_Some (objs h !! id)) ->
  exists m, st_fold (fun id '(markeds, unmarkeds) =>
      o ← obj_at id;
      if marked (interval o)
      then set_obj id (on_interval unmark);; mret (markeds ++ [id], unmarkeds)
      else delete_obj id;; mret (markeds, unmarkeds ++ [id])) ids (ms, us) h =
    Ok ((ms ++ filter (fun id => is_marked (objs h) id = true) ids,
         us ++ filter (fun id => is_marked (objs h) id = false) ids), with_objs m h) /\
    forall id, m !! id = if decide (id ∈ ids) then objs h !! id ≫= cleared else objs h !! id.
Proof.
  intros Hnd. revert ms us h. induction Hnd as [|id ids Hni Hnd IH]; intros ms us h Hex.
  { exists (objs h). rewrite !app_nil_r. split; [by destruct h|done]. }
  destruct (Hex id ltac:(left)) as [o Ho]. simpl. rewrite st_bind_assoc. run_step (obj_at_run h id o Ho).
  assert (Hmk : is_marked (objs h) id = marked (interval o)) by (unfold is_marked; by rewrite Ho).
  assert (Hstep : forall m1, (forall i, i <> id -> m1 !! i = objs h !! i) ->
    (forall i, i ∈ ids -> is_Some (m1 !! i)) /\ (forall i, i ∈ ids -> is_marked m1 i = is_marked (objs h) i)).
  { intros m1 H1. assert (forall i, i ∈ ids -> i <> id) as Hne by (intros i Hi ->; done).
    split; intros i Hi; [rewrite H1 by auto; apply Hex; by right|]. unfold is_marked. by rewrite H1 by auto. }
  rewrite !filter_cons, Hmk. destruct (marked (interval o)) eqn:Em.
  - rewrite decide_True, decide_False by done. destruct (Hstep (<[id := on_interval unmark o]> (objs h))) as [H1 H2]; [intros; by rewrite lookup_insert_ne|].
    rewrite st_bind_assoc. run_step (set_obj_run h id o (on_interval unmark) Ho). rewrite st_ret_bind.
    destruct (IH (ms ++ [id]) us (with_objs (<[id := on_interval unmark o]> (objs h)) h) H1) as (m & R & Hm).
    exists m. simpl in R. rewrite (filter_marked_ext true (objs h)), (filter_marked_ext false (objs h)) in R by exact H2. split.
    + rewrite R. by rewrite <- app_assoc.
    + intros i. rewrite Hm. simpl. destruct (decide (i = id)) as [->|Hne].
      * rewrite decide_False by done. rewrite decide_True by left. rewrite lookup_insert_eq, Ho. simpl.
        unfold cleared. by rewrite Em.
      * rewrite lookup_insert_ne by congruence. apply decide_ext. rewrite elem_of_cons. tauto.
  - rewrite decide_False, decide_True by done. destruct (Hstep (delete id (objs h))) as [H1 H2]; [intros; by rewrite lookup_delete_ne|].
    rewrite st_bind_assoc. run_step (eq_refl : delete_obj id h = Ok (tt, with_objs (delete id (objs h)) h)). rewrite st_ret_bind.
    destruct (IH ms (us ++ [id]) (with_objs (delete id (objs h)) h) H1) as (m & R & Hm).
    exists m. simpl in R. rewrite (filter_marked_ext true (objs h)), (filter_marked_ext false (objs h)) in R by exact H2. split.
    + rewrite R. by rewrite <- app_assoc.
    + intros i. rewrite Hm. simpl. destruct (decide (i = id)) as [->|Hne].
      * rewrite decide_False by done. rewrite decide_True by left. rewrite lookup_delete_eq, Ho. simpl.
        unfold cleared. by rewrite Em.
      * rewrite lookup_delete_ne by congruence. apply decide_ext. rewrite elem_of_cons. tauto.
Qed.

Lemma fate_concreteness events o : concreteness (fate events o) = concreteness o.
Proof.
  unfold fate. revert o. induction events as [|e events IH]; intros o; simpl; [done|]. rewrite IH.
  destruct e as [[[? ?] ?]|[? ?]]; simpl; by destruct (includes _ _).
Qed.

(** One collection: the callbacks in their order, then the end. *)
Definition gc_cycle (events : list gc_event) : st Heap unit :=
  st_fold (fun e _ => gc_callback e) events tt;; GarbageCollectionFinished.

Definition survives (events : list gc_event) (h : Heap) (id : Z) : bool :=
  match objs h !! id with Some o => marked (interval (fate events o)) | None => false end.

Lemma gc_cycle_run events h :
  heap_wf h ->
  exists m, gc_cycle events h = Ok (tt,
      mkHeap m (brk h) (filter (fun id => survives events h id = true) (tree h)) (newAddresses h)
        (deletedAddresses h ++ filter (fun id => survives events h id = false) (tree h))) /\
    forall id, m !! id = if decide (id ∈ tree h) then objs h !! id ≫= (fun o => cleared (fate events o)) else objs h !! id.
Proof.
  intros Hwf. pose proof (hw_nodup h Hwf) as Hnd.
  assert (Hex : forall id, id ∈ tree h -> is_Some (objs h !! id)).
  { intros id Hid. destruct (hw_objs h Hwf id Hid) as (o & -> & _). done. }
  destruct (gc_callbacks_run events h Hnd Hex) as (m1 & R1 & H1).
  destruct (clear_fold (tree h) [] [] (with_objs m1 h) Hnd) as (m2 & R2 & H2).
  { intros id Hid. simpl. rewrite H1, decide_True by done. by apply fmap_is_Some, Hex. }
  assert (Hs : forall id, id ∈ tree h -> is_marked m1 id = survives events h id).
  { intros id Hid. unfold is_marked, survives. rewrite H1, decide_True by done. by destruct (objs h !! id). }
  assert (Hf : forall b, filter (fun id => is_marked m1 id = b) (tree h) = filter (fun id => survives events h id = b) (tree h)).
  { intros b. clear - Hs. generalize (tree h) Hs. intros ids. induction ids as [|id ids IH]; intros H; [done|].
    rewrite !filter_cons, (H id) by left. by rewrite IH by (intros; apply H; by right). }
  exists m2. split.
  - unfold gc_cycle. run_step R1. unfold GarbageCollectionFinished, clearAfterGC, clearUnmarked.
    rewrite st_bind_assoc, st_get_bind, st_bind_assoc. run_step R2. simpl. by rewrite !Hf.
  - intros id. rewrite H2. simpl. rewrite H1. destruct (decide (id ∈ tree h)); [|done]. by destruct (objs h !! id).
Qed.


(** Where the runtime has put the survivors: at places of the same size that
    do not overlap. *)
Record placed (events : list gc_event) (h : Heap) : Prop := {
  pl_place id o : id ∈ tree h -> objs h !! id = Some o -> survives events h id = true ->
    let i := interval (fate events o) in
    0 <= left i /\ right i < 2 ^ 64 /\ right i - left i = right (interval o) - left (interval o);
  pl_disjoint id1 id2 o1 o2 p : id1 ∈ tree h -> id2 ∈ tree h ->
    objs h !! id1 = Some o1 -> objs h !! id2 = Some o2 ->
    survives events h id1 = true -> survives events h id2 = true ->
    contains (interval (fate events o1)) p = true -> contains (interval (fate events o2)) p = true -> id1 = id2
}.

(** virtual addresses are stable: after a collection that places the
    survivors without overlaps the heap is well formed, and the byte at
    distance [off] from the start of a survivor is, at the survivor's new place,
    the same pair of object and offset with the same flag. *)
Theorem gc_virtual_addresses events h :
  heap_wf h -> placed events h ->
  exists h', gc_cycle events h = Ok (tt, h') /\ heap_wf h' /\
    forall id o off, id ∈ tree h' -> objs h !! id = Some o -> 0 <= off < obj_size o ->
      physToVirtAddress (left (interval (fate events o)) + off) h' = Ok (mkVirtualAddress id off, h') /\
      addr_concrete h' (left (interval (fate events o)) + off) = addr_concrete h (left (interval o) + off).
Proof.
  intros Hwf [Hpl Hdis]. destruct (gc_cycle_run events h Hwf) as (m & R & Hm).
  set (h' := mkHeap m _ _ _ _) in R. exists h'. split; [exact R|].
  assert (Hobj : forall id, id ∈ tree h' -> exists o, id ∈ tree h /\ objs h !! id = Some o /\ obj_wf o /\
    survives events h id = true /\ objs h' !! id = Some (on_interval unmark (fate events o))).
  { intros id [Hs Hid]%list_elem_of_filter. destruct (hw_objs h Hwf id Hid) as (o & Ho & Hw). exists o.
    split_and!; try done. unfold h'. simpl. rewrite Hm, decide_True, Ho by done. simpl. unfold cleared.
    unfold survives in Hs. rewrite Ho in Hs. by rewrite Hs. }
  assert (heap_wf h') as Hwf'.
  { split.
    - apply NoDup_filter, Hwf.
    - intros id [_ Hid]%list_elem_of_filter. by apply Hwf.
    - intros id Hin. destruct (Hobj id Hin) as (o & Hid & Ho & [W1 W2 W3 W4 [W5 W6]] & Hs & Ho').
      destruct (Hpl id o Hid Ho Hs) as (P1 & P2 & P3). eexists. split; [exact Ho'|].
      unfold obj_size in *. split; unfold obj_size; simpl; try lia. split; simpl; rewrite fate_concreteness; [|done].
      rewrite W5. f_equal. lia.
    - intros id1 id2 o1 o2 p H1 H2 E1 E2. destruct (Hobj _ H1) as (a1 & I1 & A1 & _ & S1 & F1).
      destruct (Hobj _ H2) as (a2 & I2 & A2 & _ & S2 & F2). rewrite F1 in E1. rewrite F2 in E2.
      injection E1 as <-. injection E2 as <-. by apply (Hdis id1 id2 a1 a2 p). }
  split; [done|]. intros id o off Hin Ho Hoff. destruct (Hobj id Hin) as (o1 & Hid & Ho1 & Hw & Hs & Ho').
  rewrite Ho in Ho1. injection Ho1 as <-. destruct (Hpl id o Hid Ho Hs) as (P1 & P2 & P3). unfold obj_size in Hoff.
  destruct (resolve_run h' Hwf' id _ (left (interval (fate events o)) + off) Hin Ho') as [F' R'];
    [unfold contains; simpl; lia|].
  destruct (resolve_run h Hwf id o (left (interval o) + off) Hid Ho) as [F _]; [unfold contains; lia|]. split.
  - unfold physToVirtAddress. run_step R'. unfold mret, st_ret. do 3 f_equal. simpl. lia.
  - unfold addr_concrete, addr_object. rewrite F', F, Ho', Ho. simpl. f_equal.
    unfold byte_concrete. simpl. rewrite fate_concreteness.
    replace (left (interval (fate events o)) + off - left (interval (fate events o))) with off by lia.
    by replace (left (interval o) + off - left (interval o)) with off by lia.
Qed.

(** ** Allocation *)

Lemma new_Object_wf address size :
  0 <= address -> 0 < size < 2 ^ 35 -> address + size <= 2 ^ 64 ->
  obj_wf (new_Object address size) /\ obj_size (new_Object address size) = size /\
  (forall k, 0 <= k < size -> byte_concrete (new_Object address size) k = true).
Proof.
  intros Ha Hs Hb.
  assert (right (interval (new_Object address size)) = address + size - 1) as Hr
    by (simpl; rewrite wrap_small; unfold is_uint; lia).
  assert (obj_size (new_Object address size) = size) as Hsz by (unfold obj_size; rewrite Hr; simpl; lia).
  assert (concreteness (new_Object address size) = replicate (Z.to_nat ((size + 7) / 8)) cell_max) as Hc.
  { unfold new_Object, sizeofCell. cbn [concreteness]. rewrite wrap_small by (unfold is_uint; lia). do 3 f_equal. lia. }
  split_and!; [|done|].
  - split; [done|rewrite Hr; simpl; lia|rewrite Hr; lia|lia|]. rewrite Hsz. split; rewrite Hc.
    + rewrite length_replicate, Z2Nat.id; [done|]. apply Z.div_pos; lia.
    + apply Forall_replicate. unfold is_byte, cell_max. lia.
  - intros k Hk. unfold byte_concrete. rewrite Hc, lookup_replicate_2.
    + assert (for_offsets (fun j => Z.testbit cell_max (7 - j)) = true) as H by (vm_compute; reflexivity).
      apply for_offsets_spec with (s := k mod 8) in H; [done|]. apply Z.mod_pos_bound. lia.
    + apply Z2Nat.inj_lt; [apply Z.div_pos; lia..|]. apply Z.div_lt_upper_bound; [lia|].
      pose proof (Z.div_mod (size + 7) 8 ltac:(lia)). pose proof (Z.mod_pos_bound (size + 7) 8 ltac:(lia)). lia.
Qed.

Lemma allocateObject_run h address size type len :
  heap_wf h -> 0 <= address -> 0 < size < 2 ^ 35 -> address + size <= 2 ^ 64 -> 0 < brk h ->
  (forall id o, id ∈ tree h -> objs h !! id = Some o ->
     address + size <= left (interval o) \/ right (interval o) < address) ->
  exists h', allocateObject address size type len h = Ok (brk h, h') /\ heap_wf h' /\ brk h' = brk h + 1 /\
    tree h' = tree h ++ [brk h] /\ objs h' = <[brk h := new_Object address size]> (objs h) /\
    newAddresses h' = <[brk h := (type, len)]> (newAddresses h).
Proof.
  intros Hwf Ha Hs Hb Hk Hfree. eexists. split; [done|]. split; [|done].
  destruct (new_Object_wf address size Ha Hs Hb) as (Hw & Hsz & _).
  assert (right (interval (new_Object address size)) = address + size - 1) as Hr
    by (simpl; rewrite wrap_small; unfold is_uint; lia).
  assert (Hold : forall id, id ∈ tree h -> brk h <> id) by (intros id Hid; pose proof (hw_ids h Hwf id Hid); lia).
  split; cbn [tree objs brk].
  - apply NoDup_app. split_and!; [apply Hwf| |apply NoDup_singleton].
    intros id Hid ->%list_elem_of_singleton. by apply Hold in Hid.
  - intros id [Hid| ->%list_elem_of_singleton]%elem_of_app; [|lia]. pose proof (hw_ids h Hwf id Hid). lia.
  - intros id [Hid| ->%list_elem_of_singleton]%elem_of_app.
    + rewrite lookup_insert_ne by auto. by apply Hwf.
    + rewrite lookup_insert_eq. eauto.
  - intros id1 id2 o1 o2 p H1 H2 E1 E2 C1 C2.
    assert (forall id o, id ∈ tree h ++ [brk h] -> <[brk h := new_Object address size]> (objs h) !! id = Some o ->
      (id = brk h /\ o = new_Object address size) \/ (id ∈ tree h /\ objs h !! id = Some o)) as Hcase.
    { intros id o [Hid| ->%list_elem_of_singleton]%elem_of_app E.
      - right. rewrite lookup_insert_ne in E by auto. done.
      - left. rewrite lookup_insert_eq in E. by injection E as <-. }
    unfold contains in C1, C2.
    destruct (Hcase _ _ H1 E1) as [[-> ->]|[I1 F1]], (Hcase _ _ H2 E2) as [[-> ->]|[I2 F2]]; [done| | |].
    + rewrite Hr in C1. simpl in C1. pose proof (Hfree _ _ I2 F2). lia.
    + rewrite Hr in C2. simpl in C2. pose proof (Hfree _ _ I1 F1). lia.
    + apply (hw_disjoint h Hwf id1 id2 o1 o2 p); try done; unfold contains; lia.
Qed.

Lemma foldl_insert_map (l : list (Z * (list Z * Z))) :
  foldl (fun r '(id, a) => <[id := a]> r) (∅ : gmap Z (list Z * Z)) l = list_to_map (reverse l).
Proof.
  induction l as [|[id a] l IH] using rev_ind; [done|].
  rewrite foldl_app, reverse_app. simpl. by rewrite IH.
Qed.

Lemma flushObjects_run h :
  flushObjects h = Ok (newAddresses h, mkHeap (objs h) (brk h) (tree h) ∅ (deletedAddresses h)).
Proof.
  unfold flushObjects. rewrite foldl_insert_map. do 2 f_equal.
  rewrite <- (list_to_map_to_list (newAddresses h)) at 2.
  assert (Permutation (reverse (map_items (newAddresses h))) (map_to_list (newAddresses h))) as Hp.
  { rewrite reverse_Permutation. apply map_items_perm. }
  apply list_to_map_proper; [|done]. rewrite Hp. apply NoDup_fst_map_to_list.
Qed.

(** an allocation in a free range gives a new object all of whose bytes are
    concrete, keeps the heap well formed and the other flags, and announces the
    object once: the next [flushObjects] reports it with the others that are
    new, and the one after that reports nothing. *)
Theorem allocateObject_spec h address size type len :
  heap_wf h -> 0 <= address -> 0 < size < 2 ^ 35 -> address + size <= 2 ^ 64 -> 0 < brk h ->
  (forall id o, id ∈ tree h -> objs h !! id = Some o ->
     address + size <= left (interval o) \/ right (interval o) < address) ->
  exists h1 h2, allocateObject address size type len h = Ok (brk h, h1) /\ heap_wf h1 /\
    (forall q, addr_concrete h1 q = if (address <=? q) && (q <? address + size) then Some true else addr_concrete h q) /\
    flushObjects h1 = Ok (<[brk h := (type, len)]> (newAddresses h), h2) /\
    flushObjects h2 = Ok (∅, h2).
Proof.
  intros Hwf Ha Hs Hb Hk Hfree.
  destruct (allocateObject_run h address size type len Hwf Ha Hs Hb Hk Hfree) as (h1 & R & Hwf1 & Hbrk & Ht & Ho & Hn).
  destruct (new_Object_wf address size Ha Hs Hb) as (Hw & Hsz & Hbytes).
  exists h1. eexists. split; [exact R|]. split; [done|]. split; [|by rewrite !flushObjects_run, Hn].
  intros q. unfold addr_concrete, addr_object.
  assert (Hin : brk h ∈ tree h1) by (rewrite Ht; apply elem_of_app; right; by left).
  assert (Hnew : objs h1 !! brk h = Some (new_Object address size)) by (rewrite Ho; apply lookup_insert_eq).
  assert (Hbd : contains (interval (new_Object address size)) q = (address <=? q) && (q <? address + size)).
  { unfold contains. simpl. rewrite wrap_small by (unfold is_uint; lia). lia. }
  destruct ((address <=? q) && (q <? address + size)) eqn:E.
  - destruct (resolve_run h1 Hwf1 _ _ q Hin Hnew Hbd) as [-> _]. rewrite Hnew. simpl. f_equal. apply Hbytes. lia.
  - destruct (find_in_sub h Hwf (tree h) q ltac:(done)) as [(i & oi & Rf & Hi & Hoi & Hc)|[Rf Hno]].
    + assert (objs h1 !! i = Some oi) as Hoi1.
      { rewrite Ho, lookup_insert_ne; [done|]. pose proof (hw_ids h Hwf i Hi). lia. }
      destruct (resolve_run h1 Hwf1 i oi q) as [-> _]; [rewrite Ht; apply elem_of_app; by left|done..|].
      by rewrite Rf, Hoi, Hoi1.
    + rewrite Rf. destruct (find_in_sub h1 Hwf1 (tree h1) q ltac:(done)) as [(i & oi & _ & Hi & Hoi & Hc)|[-> _]]; [|done].
      exfalso. rewrite Ht in Hi. rewrite Ho in Hoi. apply elem_of_app in Hi as [Hi| ->%list_elem_of_singleton].
      * rewrite lookup_insert_ne in Hoi by (pose proof (hw_ids h Hwf i Hi); lia). by rewrite (Hno i oi Hi Hoi) in Hc.
      * rewrite lookup_insert_eq in Hoi. injection Hoi as <-. congruence.
Qed.

(** ** The theorems at a heap *)

Lemma new_Heap_wf : heap_wf new_Heap.
Proof.
  split; simpl; [constructor|..]; intros id; try intros id2 o1 o2 p; intros H; by apply elem_of_nil in H.
Qed.

(** Two objects, of 24 bytes at [0x1000] and of 16 bytes at [0x2000]. *)
Definition heap_of {A} (r : result (A * Heap)) : Heap := match r with Ok (_, h) => h | Err _ => new_Heap end.
Definition sample_heap : Heap := Eval vm_compute in
  heap_of ((allocateObject 0x1000 24 [1; 2] 2;; allocateObject 0x2000 16 [] 0) new_Heap).

Lemma sample_heap_wf : heap_wf sample_heap.
Proof.
  destruct (allocateObject_run new_Heap 0x1000 24 [1; 2] 2 new_Heap_wf) as (h1 & R1 & W1 & B1 & T1 & O1 & _);
    try (simpl; lia).
  { intros id o H. by apply elem_of_nil in H. }
  destruct (allocateObject_run h1 0x2000 16 [] 0 W1) as (h2 & R2 & W2 & _); try (rewrite B1; simpl; lia); try lia.
  { intros id o. rewrite T1, O1. intros ->%list_elem_of_singleton. simpl. intros [= <-]. right. reflexivity. }
  assert (Ok (2, h2) = Ok (2, sample_heap)) as E.
  { injection R1 as <-. etransitivity; [symmetry; exact R2|]. vm_compute. reflexivity. }
  injection E as <-. exact W2.
Qed.

Lemma address_roundtrip_witness :
  physToVirtAddress 0x2005 sample_heap = Ok (mkVirtualAddress 2 5, sample_heap) /\
  virtToPhysAddress (mkVirtualAddress 2 5) sample_heap = Ok (0x2005, sample_heap) /\
  physToVirtAddress 0x3000 sample_heap = Err (Thrown "Unbound pointer!").
Proof.
  destruct (address_roundtrip sample_heap 2 (new_Object 0x2000 16) 0x2005 sample_heap_wf) as (H1 & H2 & H3).
  - vm_compute. right. left.
  - vm_compute. reflexivity.
  - vm_compute. split; discriminate.
  - split; [exact H1|]. split; [exact H2|]. apply H3. intros id o Hid Ho.
    apply elem_of_cons in Hid as [->| ->%list_elem_of_singleton]; vm_compute in Ho; injection Ho as <-; vm_compute; reflexivity.
Defined.

Lemma heap_refines_flag_map_witness :
  exists h', run_accesses [ARead 0x1000 24; AWrite 0x1008 8 false; ARead 0x1000 8; ARead 0x1000 24; ARead 0x2000 16]
      sample_heap = Ok ([true; true; false; true], h') /\ addr_concrete h' 0x1008 = Some false /\
    Heap_read 0x3000 8 sample_heap = Err (Thrown "Unbound pointer!").
Proof.
  destruct (heap_refines_flag_map [ARead 0x1000 24; AWrite 0x1008 8 false; ARead 0x1000 8; ARead 0x1000 24; ARead 0x2000 16]
    sample_heap sample_heap_wf) as ((h' & R & _ & Hq) & He).
  - repeat apply List.Forall_cons; [exists 1, (new_Object 0x1000 24)..|exists 2, (new_Object 0x2000 16)|apply List.Forall_nil];
      (constructor; [vm_compute; repeat constructor|vm_compute; reflexivity|vm_compute; discriminate|lia|vm_compute; discriminate|left; vm_compute; reflexivity]).
  - exists h'. split; [rewrite R; vm_compute; reflexivity|]. split; [rewrite Hq; vm_compute; reflexivity|].
    apply (He 0x3000 8 true). intros id o Hid Ho.
    apply elem_of_cons in Hid as [->| ->%list_elem_of_singleton]; vm_compute in Ho; injection Ho as <-; vm_compute; reflexivity.
Defined.


(** The first object moves down, the second dies. *)
Definition sample_events : list gc_event := [GcMoved (0x1000, 0x800, 0x100)].


Lemma gc_virtual_addresses_witness :
  exists h', gc_cycle sample_events sample_heap = Ok (tt, h') /\
    physToVirtAddress 0x805 h' = Ok (mkVirtualAddress 1 5, h').
Proof.
  destruct (gc_virtual_addresses sample_events sample_heap sample_heap_wf) as (h' & R & _ & H).
  - split.
    + intros id o Hid Ho Hs. apply elem_of_cons in Hid as [->| ->%list_elem_of_singleton]; [|vm_compute in Hs; discriminate Hs].
      vm_compute in Ho. injection Ho as <-. vm_compute. split; [discriminate|]. split; reflexivity.
    + intros id1 id2 o1 o2 p H1 H2 _ _ S1 S2 _ _.
      apply elem_of_cons in H1 as [->| ->%list_elem_of_singleton]; [|vm_compute in S1; discriminate S1].
      apply elem_of_cons in H2 as [->| ->%list_elem_of_singleton]; [reflexivity|vm_compute in S2; discriminate S2].
  - exists h'. split; [exact R|].
    destruct (H 1 (new_Object 0x1000 24) 5) as [E _]; [|vm_compute; reflexivity|vm_compute; split; [discriminate|reflexivity]|exact E].
    vm_compute in R. injection R as <-. vm_compute. left.
Defined.

Lemma allocateObject_spec_witness :
  exists h1 h2, allocateObject 0x3000 8 [7] 1 sample_heap = Ok (3, h1) /\ addr_concrete h1 0x3003 = Some true /\
    flushObjects h2 = Ok (∅, h2).
Proof.
  destruct (allocateObject_spec sample_heap 0x3000 8 [7] 1 sample_heap_wf) as (h1 & h2 & R & _ & Hb & _ & Hf).
  - lia.
  - lia.
  - lia.
  - vm_compute. reflexivity.
  - intros id o Hid Ho. right.
    apply elem_of_cons in Hid as [->| ->%list_elem_of_singleton]; vm_compute in Ho; injection Ho as <-; vm_compute; reflexivity.
  - exists h1, h2. split; [exact R|]. split; [rewrite Hb; reflexivity|exact Hf].
Defined.
