(* ===== verification/TypeInfo.v ===== *)
(** * Types of allocated objects

    [CorProfiler::resolveType], [serializeType] and [ObjectAllocated]
    ([VSharp.ClrInteraction/corProfiler.cpp]): when the runtime allocates an
    object, the profiler asks it for the structure of the object's class, keeps
    the answers in nine parallel vectors, serialises these and hands the bytes to
    the heap, which sends them with the next command.

    The runtime's answers are a record of functions ([ClassRuntime]).  A
    [std::vector] is a list.  [type], a [char *] that moves through the block it
    was allocated with, is the block and a position; a write outside the block,
    an index outside a vector and a copy beyond the end of a vector are undefined
    behaviour.  [assert]s are checked when [debug] is set. *)

From S2P Require Import Prelude CorHdr ConcHeap.
Local Open Scope Z_scope.

Definition corElementTypeIsPrimitive (corElementType : Z) : bool :=
  bool_decide (corElementType ∈
    [ELEMENT_TYPE_BOOLEAN; ELEMENT_TYPE_CHAR; ELEMENT_TYPE_I1; ELEMENT_TYPE_U1; ELEMENT_TYPE_I2;
     ELEMENT_TYPE_U2; ELEMENT_TYPE_I4; ELEMENT_TYPE_U4; ELEMENT_TYPE_I8; ELEMENT_TYPE_U8;
     ELEMENT_TYPE_R4; ELEMENT_TYPE_R8; ELEMENT_TYPE_I; ELEMENT_TYPE_U]).

(** The calls of [ICorProfilerInfo8] made here; [inl] is a failing [HRESULT].
    The functions with a buffer are called with its size and return the number
    of elements there are, next to what the buffer holds then. *)
Record ClassRuntime := mkClassRuntime {
  (** element type, class of the elements, rank; [inl] also for [S_FALSE], a class that is no array *)
  IsArrayClass : Z -> Z + (Z * Z * Z);
  (** module, token, number of type arguments, and they *)
  GetClassIDInfo2 : Z -> Z -> Z + (Z * Z * Z * list Z);
  (** size of the name, the name, the assembly *)
  ModuleInfo : Z -> Z -> Z + (Z * list Z * Z);
  AssemblyInfo : Z -> Z -> Z + (Z * list Z);
  GetObjectSize : Z -> Z + Z;
  (** what an uninitialised variable holds *)
  garbage : Z
}.

(** The nine vectors. *)
Record TypeVectors := mkTypeVectors {
  isValid : list bool;
  isArray : list bool;
  arrayTypes : list (Z * Z);
  tokens : list Z;
  typeArgsCount : list Z;
  moduleNames : list Z;
  moduleSizes : list Z;
  assemblyNames : list Z;
  assemblySizes : list Z
}.
Definition no_types : TypeVectors := mkTypeVectors [] [] [] [] [] [] [] [] [].

(** [push_back] of several vectors at once: one vector after the other, member by member. *)
Definition append (v w : TypeVectors) : TypeVectors :=
  mkTypeVectors (isValid v ++ isValid w) (isArray v ++ isArray w) (arrayTypes v ++ arrayTypes w)
    (tokens v ++ tokens w) (typeArgsCount v ++ typeArgsCount w) (moduleNames v ++ moduleNames w)
    (moduleSizes v ++ moduleSizes w) (assemblyNames v ++ assemblyNames w) (assemblySizes v ++ assemblySizes w).

Definition sizeof_WCHAR : Z := 2.
(** [(int) size * (int) sizeof(WCHAR)] *)
Definition byte_size (size : Z) : Z := sint 32 size * sizeof_WCHAR.

(** [for (i = 0; i < n; ++i)] reading [a[i]], [None] outside the array. *)
Definition first_elements (a : list Z) (n : Z) : option (list Z) := read_at a 0 (Z.to_nat n).

Section Resolve.
Variable rt : ClassRuntime.

Definition fail_loud {S A} (hr : Z + A) (msg : string) : st S A :=
  match hr with inl _ => st_fail (Thrown msg) | inr a => mret a end.

(** What is pushed for a class before its type arguments, which are returned.  The
    vectors are local to [ObjectAllocated]: what is in them when an exception leaves is lost. *)
Definition resolve_class (classId typeArgsNum : Z) : st TypeVectors (Z * list Z) :=
  '(moduleId, token, typeArgsNum, typeArgs) ←
    fail_loud (GetClassIDInfo2 rt classId typeArgsNum) "getting generic type info failed!";
  '(moduleSize, _, _) ← fail_loud (ModuleInfo rt moduleId 0) "getting module info failed";
  '(moduleSize, moduleName, assemblyId) ←
    fail_loud (ModuleInfo rt moduleId moduleSize) "getting module info failed";
  moduleName ← st_read (fun _ => first_elements moduleName moduleSize);
  '(assemblySize, _) ← fail_loud (AssemblyInfo rt assemblyId 0) "getting assembly info failed";
  '(assemblySize, assemblyName) ←
    fail_loud (AssemblyInfo rt assemblyId assemblySize) "getting assembly info failed";
  assemblyName ← st_read (fun _ => first_elements assemblyName assemblySize);
  st_modify (fun v => append v
    (mkTypeVectors [true] [false] [] [token] [sint 32 typeArgsNum] moduleName [byte_size moduleSize]
       assemblyName [byte_size assemblySize]));;
  mret (typeArgsNum, typeArgs).

Fixpoint resolveType (fuel : nat) (classId : Z) : st TypeVectors unit :=
  match fuel with
  | O => st_fail OutOfFuel
  | S fuel =>
      match IsArrayClass rt classId with
      | inr (corElementType, elementType, rank) =>
          st_modify (fun v => append v
            (mkTypeVectors [true] [true] [(corElementType, sint 32 rank)] [] [] [] [] [] []));;
          if corElementTypeIsPrimitive corElementType then mret tt else resolveType fuel elementType
      | inl _ =>
          match GetClassIDInfo2 rt classId 0 with
          | inr (_, _, typeArgsNum, _) =>
              '(typeArgsNum, typeArgs) ← resolve_class classId typeArgsNum;
              st_fold (fun i _ => arg ← st_read (fun _ => typeArgs !! Z.to_nat i); resolveType fuel arg)
                (seqZ 0 typeArgsNum) tt
          | inl _ => st_modify (fun v => append v (mkTypeVectors [false] [] [] [] [] [] [] [] []))
          end
      end
  end.
End Resolve.

(** ** Serialization *)

Definition of_bool (b : bool) : Z := if b then 1 else 0.
(** The memory of a vector of [WCHAR]s. *)
Definition wchar_bytes (l : list Z) : list Z := concat (map (le_bytes 2) l).

(** The block of [new char[typeLength]], [type] in it, and the other local variables of the loop. *)
Record Serializer := mkSerializer {
  block : list Z;
  type : Z;
  arrayTypeIndex : nat;
  validObjectIndex : nat;
  tokenIndex : nat;
  moduleNamesPtr : Z;
  assemblyNamesPtr : Z
}.

(** A write through [type] that moves it on. *)
Definition put_bytes (bs : list Z) : st Serializer unit := fun s =>
  match write_at (block s) (type s) bs with
  | Some b => Ok (tt, mkSerializer b (type s + Z.of_nat (length bs)) (arrayTypeIndex s) (validObjectIndex s)
                        (tokenIndex s) (moduleNamesPtr s) (assemblyNamesPtr s))
  | None => Err Undefined
  end.
Definition put_byte (z : Z) : st Serializer unit := put_bytes [z mod 256].
Definition put_int (z : Z) : st Serializer unit := put_bytes (le_bytes 4 z).

Section Serialize.
Variable debug : bool.
Variable v : TypeVectors.

Definition check {S} (b : bool) : st S unit :=
  if debug && negb b then st_fail (Thrown "Assertion failed") else mret tt.

Definition serialize_array : st Serializer unit :=
  arrayType ← st_read (fun s : Serializer => arrayTypes v !! arrayTypeIndex s);
  put_byte (fst arrayType);; put_int (snd arrayType);;
  st_modify (fun s => mkSerializer (block s) (type s) (S (arrayTypeIndex s)) (validObjectIndex s) (tokenIndex s)
    (moduleNamesPtr s) (assemblyNamesPtr s)).

Definition serialize_class : st Serializer unit :=
  token ← st_read (fun s : Serializer => tokens v !! tokenIndex s);
  put_int token;;
  assemblySize ← st_read (fun s : Serializer => assemblySizes v !! tokenIndex s);
  put_int assemblySize;;
  name ← st_read (fun s : Serializer => read_at (wchar_bytes (assemblyNames v)) (assemblyNamesPtr s) (Z.to_nat assemblySize));
  put_bytes name;;
  st_modify (fun s => mkSerializer (block s) (type s) (arrayTypeIndex s) (validObjectIndex s) (tokenIndex s)
    (moduleNamesPtr s) (assemblyNamesPtr s + assemblySize));;
  moduleSize ← st_read (fun s : Serializer => moduleSizes v !! tokenIndex s);
  put_int moduleSize;;
  name ← st_read (fun s : Serializer => read_at (wchar_bytes (moduleNames v)) (moduleNamesPtr s) (Z.to_nat moduleSize));
  put_bytes name;;
  st_modify (fun s => mkSerializer (block s) (type s) (arrayTypeIndex s) (validObjectIndex s) (tokenIndex s)
    (moduleNamesPtr s + moduleSize) (assemblyNamesPtr s));;
  count ← st_read (fun s : Serializer => typeArgsCount v !! tokenIndex s);
  put_int count;;
  st_modify (fun s => mkSerializer (block s) (type s) (arrayTypeIndex s) (validObjectIndex s) (S (tokenIndex s))
    (moduleNamesPtr s) (assemblyNamesPtr s)).

Definition serialize_one (valid : bool) (_ : unit) : st Serializer unit :=
  put_byte (of_bool valid);;
  if valid then
    arrayCheck ← st_read (fun s : Serializer => isArray v !! validObjectIndex s);
    put_byte (of_bool arrayCheck);;
    (if arrayCheck : bool then serialize_array else serialize_class);;
    st_modify (fun s => mkSerializer (block s) (type s) (arrayTypeIndex s) (S (validObjectIndex s)) (tokenIndex s)
      (moduleNamesPtr s) (assemblyNamesPtr s))
  else st_fail (Thrown "Type serialization: type was not resolved!").

(** [(INT32)v.size()] *)
Definition vsize {A} (l : list A) : Z := sint 32 (Z.of_nat (length l)).

Definition typeLength : Z := wrap 64
  (vsize (isValid v) * 1 + vsize (isArray v) * 1 + vsize (arrayTypes v) * (1 + 4) + vsize (tokens v) * 4 +
   vsize (typeArgsCount v) * 4 + vsize (moduleNames v) * sizeof_WCHAR + vsize (moduleSizes v) * 4 +
   vsize (assemblyNames v) * sizeof_WCHAR + vsize (assemblySizes v) * 4).

(** The block and its length. *)
Definition serializeType (fill : Z) : result (list Z * Z) :=
  let tokensSize := vsize (tokens v) in
  let start := mkSerializer (replicate (Z.to_nat typeLength) fill) 0 0 0 0 0 0 in
  '(_, s) ← (check ((tokensSize =? vsize (typeArgsCount v)) && (vsize (typeArgsCount v) =? vsize (moduleSizes v)) &&
               (vsize (moduleSizes v) =? vsize (assemblySizes v)));;
             st_fold serialize_one (isValid v) tt;;
             s ← st_get;
             check ((Z.of_nat (tokenIndex s) =? tokensSize) &&
                    (Z.of_nat (validObjectIndex s) =? vsize (isArray v)))) start;
  Ok (block s, typeLength).
End Serialize.

(** [ObjectAllocated(objectId, classId)]: the allocation as the heap records it. *)
Definition ObjectAllocated (rt : ClassRuntime) (debug : bool) (fuel : nat) (objectId classId : Z) : st Heap Z :=
  let size := match GetObjectSize rt objectId with inr s => s | inl _ => garbage rt end in
  '(_, v) ← st_lift (resolveType rt fuel classId no_types);
  '(bytes, len) ← st_lift (serializeType debug v (garbage rt));
  allocateObject objectId size bytes len.

(** ** The vectors as columns of a table

    A class is described by rows: one for each array or class met on the way, in
    the order they are met.  The vectors are the columns of the table. *)

Inductive row :=
  | RInvalid
  | RArray (elem rank : Z)
  | RClass (token argsCount : Z) (moduleName assemblyName : list Z).

Definition row_columns (r : row) : TypeVectors :=
  match r with
  | RInvalid => mkTypeVectors [false] [] [] [] [] [] [] [] []
  | RArray elem rank => mkTypeVectors [true] [true] [(elem, rank)] [] [] [] [] [] []
  | RClass token n m a =>
      mkTypeVectors [true] [false] [] [token] [n] m [2 * Z.of_nat (length m)] a [2 * Z.of_nat (length a)]
  end.

Definition columns (rows : list row) : TypeVectors := foldr (fun r v => append (row_columns r) v) no_types rows.

Definition row_valid (r : row) : bool := match r with RInvalid => false | _ => true end.

(** The bytes a row is sent as. *)
Definition row_bytes (r : row) : list Z :=
  match r with
  | RInvalid => [0]
  | RArray elem rank => [1; 1; elem mod 256] ++ le_bytes 4 rank
  | RClass token n m a =>
      [1; 0] ++ le_bytes 4 token ++
      le_bytes 4 (2 * Z.of_nat (length a)) ++ wchar_bytes a ++
      le_bytes 4 (2 * Z.of_nat (length m)) ++ wchar_bytes m ++ le_bytes 4 n
  end.
Definition rows_bytes (rows : list row) : list Z := concat (map row_bytes rows).

Lemma append_assoc u v w : append (append u v) w = append u (append v w).
Proof. destruct u, v, w. unfold append. simpl. by rewrite <- !app_assoc. Qed.
Lemma append_nil_r v : append v no_types = v.
Proof. destruct v. unfold append. simpl. by rewrite !app_nil_r. Qed.
Lemma append_nil_l v : append no_types v = v.
Proof. by destruct v. Qed.

Lemma columns_app rows rows' : columns (rows ++ rows') = append (columns rows) (columns rows').
Proof.
  induction rows as [|r rows IH]; simpl; [by rewrite append_nil_l|]. by rewrite IH, append_assoc.
Qed.
Lemma columns_one r : columns [r] = row_columns r.
Proof. apply append_nil_r. Qed.

Lemma wchar_bytes_app a b : wchar_bytes (a ++ b) = wchar_bytes a ++ wchar_bytes b.
Proof. unfold wchar_bytes. by rewrite map_app, concat_app. Qed.
Lemma wchar_bytes_length a : length (wchar_bytes a) = (2 * length a)%nat.
Proof.
  induction a as [|z a IH]; [done|]. change (z :: a) with ([z] ++ a).
  rewrite wchar_bytes_app, length_app, IH. simpl. lia.
Qed.

Lemma byte_size_small n : 0 <= n < 2 ^ 30 -> byte_size n = 2 * n.
Proof. intros. unfold byte_size, sizeof_WCHAR. rewrite sint_uint by lia. lia. Qed.

Lemma first_elements_length a n l : first_elements a n = Some l -> length l = Z.to_nat n.
Proof. apply read_at_length. Qed.

(** *** [resolveType] adds rows *)

(** Names have less than [2^30] characters. *)
Definition short_names (rt : ClassRuntime) : Prop :=
  (forall m cch n name a, ModuleInfo rt m cch = inr (n, name, a) -> 0 <= n < 2 ^ 30) /\
  (forall a cch n name, AssemblyInfo rt a cch = inr (n, name) -> 0 <= n < 2 ^ 30).

Definition adds_rows {A} (m : st TypeVectors A) : Prop :=
  forall v a v', m v = Ok (a, v') -> exists rows, v' = append v (columns rows).

Lemma adds_rows_bind {A B} (m : st TypeVectors A) (k : A -> st TypeVectors B) :
  adds_rows m -> (forall a, adds_rows (k a)) -> adds_rows (m ≫= k).
Proof.
  intros Hm Hk v b v' H. apply st_bind_ok in H as (a & v1 & H1 & H2).
  destruct (Hm _ _ _ H1) as [rows ->]. destruct (Hk _ _ _ _ H2) as [rows' ->].
  exists (rows ++ rows'). by rewrite columns_app, append_assoc.
Qed.

Lemma adds_rows_pure {A} (m : st TypeVectors A) : (forall v a v', m v = Ok (a, v') -> v' = v) -> adds_rows m.
Proof. intros H v a v' E. exists []. by rewrite (H _ _ _ E), append_nil_r. Qed.

Lemma adds_rows_one r : adds_rows (st_modify (fun v => append v (row_columns r))).
Proof. intros v a v' [= <- <-]. exists [r]. by rewrite columns_one. Qed.

Lemma adds_rows_fold {B} (f : B -> unit -> st TypeVectors unit) l :
  (forall b a, adds_rows (f b a)) -> adds_rows (st_fold f l tt).
Proof.
  intros Hf. induction l as [|b l IH]; simpl; [apply adds_rows_pure; by intros v a v' [= _ <-]|].
  apply adds_rows_bind; [apply Hf|]. intros []. apply IH.
Qed.

Lemma fail_loud_ok {S A} (hr : Z + A) msg (s : S) a s' :
  fail_loud hr msg s = Ok (a, s') -> hr = inr a /\ s' = s.
Proof. destruct hr; simpl; [done|]. by intros [= -> ->]. Qed.

Lemma resolve_class_rows rt c n : short_names rt -> adds_rows (resolve_class rt c n).
Proof.
  intros [Hm Ha] v [n' args] v' H. unfold resolve_class in H.
  apply st_bind_ok in H as ([[[mid tok] n1] args1] & v1 & [E1 ->]%fail_loud_ok & H).
  apply st_bind_ok in H as ([[s0 x0] y0] & v2 & [E2 ->]%fail_loud_ok & H).
  apply st_bind_ok in H as ([[ms mname] aid] & v3 & [E3 ->]%fail_loud_ok & H).
  apply st_bind_ok in H as (m & v4 & Em & H).
  unfold st_read in Em. destruct (first_elements mname ms) as [m'|] eqn:Fm; [|done]. injection Em as <- <-.
  apply st_bind_ok in H as ([s1 x1] & v5 & [E4 ->]%fail_loud_ok & H).
  apply st_bind_ok in H as ([asz aname] & v6 & [E5 ->]%fail_loud_ok & H).
  apply st_bind_ok in H as (a & v7 & Ea & H).
  unfold st_read in Ea. destruct (first_elements aname asz) as [a'|] eqn:Fa; [|done]. injection Ea as <- <-.
  st_inv. pose proof (first_elements_length _ _ _ Fm). pose proof (first_elements_length _ _ _ Fa).
  exists [RClass tok (sint 32 n') m' a']. rewrite columns_one. simpl. do 2 f_equal.
  - rewrite byte_size_small by eauto. f_equal. pose proof (Hm _ _ _ _ _ E3). lia.
  - rewrite byte_size_small by eauto. f_equal. pose proof (Ha _ _ _ _ E5). lia.
Qed.

Lemma resolveType_rows rt fuel c : short_names rt -> adds_rows (resolveType rt fuel c).
Proof.
  intros Hs. revert c. induction fuel as [|fuel IH]; intros c; [by intros v a v'|]. cbn [resolveType].
  destruct (IsArrayClass rt c) as [hr|[[e ec] rank]].
  - destruct (GetClassIDInfo2 rt c 0) as [hr2|[[[mid tok] n] args]].
    + apply (adds_rows_one RInvalid).
    + apply adds_rows_bind; [by apply resolve_class_rows|]. intros [n' args']. apply adds_rows_fold.
      intros i []. apply adds_rows_bind; [|intros; apply IH].
      apply adds_rows_pure. intros v a v'. unfold st_read. destruct (_ !! _); [|done]. by intros [= _ <-].
  - apply adds_rows_bind; [apply (adds_rows_one (RArray e (sint 32 rank)))|]. intros _.
    destruct (corElementTypeIsPrimitive e); [|apply IH]. apply adds_rows_pure. by intros v a v' [= _ <-].
Qed.

(** *** [serializeType] writes the rows *)

(** The state after the bytes [done] have been written, [rest] being the free part of the block. *)
Definition at_row (done rest : list Z) (pre : list row) : Serializer :=
  let v := columns pre in
  mkSerializer (done ++ rest) (Z.of_nat (length done)) (length (arrayTypes v)) (length (isArray v))
    (length (tokens v)) (2 * Z.of_nat (length (moduleNames v))) (2 * Z.of_nat (length (assemblyNames v))).

Lemma put_bytes_run bs don rest ia iv it pm pa : (length bs <= length rest)%nat ->
  put_bytes bs (mkSerializer (don ++ rest) (Z.of_nat (length don)) ia iv it pm pa) =
  Ok (tt, mkSerializer ((don ++ bs) ++ drop (length bs) rest) (Z.of_nat (length (don ++ bs))) ia iv it pm pa).
Proof.
  intros Hl. unfold put_bytes. simpl block. simpl type. unfold write_at.
  destruct (_ && _) eqn:E; [|rewrite length_app in E; lia].
  rewrite Nat2Z.id, take_app_length, <- app_assoc. simpl. do 3 f_equal.
  - do 2 f_equal. by rewrite <- drop_drop, drop_app_length.
  - rewrite length_app. lia.
Qed.

Lemma column_lookup {A} (f : TypeVectors -> list A) pre r post x :
  (forall u w, f (append u w) = f u ++ f w) -> f (row_columns r) = [x] ->
  f (columns (pre ++ r :: post)) !! length (f (columns pre)) = Some x.
Proof.
  intros Hf Hr. rewrite columns_app, Hf. change (columns (r :: post)) with (append (row_columns r) (columns post)).
  rewrite Hf, Hr, lookup_app_r, Nat.sub_diag by lia. done.
Qed.

Lemma column_slice (f : TypeVectors -> list Z) pre r post :
  (forall u w, f (append u w) = f u ++ f w) ->
  read_at (wchar_bytes (f (columns (pre ++ r :: post)))) (2 * Z.of_nat (length (f (columns pre))))
    (Z.to_nat (2 * Z.of_nat (length (f (row_columns r))))) = Some (wchar_bytes (f (row_columns r))).
Proof.
  intros Hf. rewrite columns_app, Hf. change (columns (r :: post)) with (append (row_columns r) (columns post)).
  rewrite Hf, !wchar_bytes_app.
  replace (2 * Z.of_nat (length (f (columns pre)))) with (Z.of_nat (length (wchar_bytes (f (columns pre)))))
    by (rewrite wchar_bytes_length; lia).
  replace (Z.to_nat _) with (length (wchar_bytes (f (row_columns r)))) by (rewrite wchar_bytes_length; lia).
  apply read_at_app_r.
Qed.

Lemma row_bytes_length r :
  Z.of_nat (length (row_bytes r)) =
  match r with
  | RInvalid => 1
  | RArray _ _ => 7
  | RClass _ _ m a => 18 + 2 * Z.of_nat (length m) + 2 * Z.of_nat (length a)
  end.
Proof.
  destruct r; [done|done|]. cbn [row_bytes]. rewrite !length_app, !wchar_bytes_length, !length_le_bytes. simpl. lia.
Qed.

Lemma st_read_run {S A} (f : S -> option A) s a : f s = Some a -> st_read f s = Ok (a, s).
Proof. unfold st_read. by intros ->. Qed.

Ltac put_step :=
  unfold put_byte at 1 || unfold put_int at 1 || idtac;
  erewrite st_bind_run;
    [|apply put_bytes_run; simpl length; rewrite ?length_drop, ?length_le_bytes, ?wchar_bytes_length; lia].
Ltac read_step H := erewrite st_bind_run; [|apply st_read_run; exact H].

Lemma columns_lengths rows : let u := columns rows in
  length (typeArgsCount u) = length (tokens u) /\ length (moduleSizes u) = length (tokens u) /\
  length (assemblySizes u) = length (tokens u).
Proof. induction rows as [|r rows IH]; [done|]. destruct r; simpl in *; lia. Qed.

Section RowRun.
Variables (pre post : list row) (r : row) (don rest : list Z) (ivi : nat).
Let u := columns pre.
Let v := columns (pre ++ r :: post).
(** The state inside a row. *)
Let inside (don rest : list Z) (ia it : nat) (pm pa : Z) : Serializer :=
  mkSerializer (don ++ rest) (Z.of_nat (length don)) ia ivi it pm pa.

Lemma serialize_array_run elem rank : r = RArray elem rank -> (5 <= length rest)%nat ->
  let don' := (don ++ [elem mod 256]) ++ le_bytes 4 rank in
  serialize_array v (inside don rest (length (arrayTypes u)) (length (tokens u))
    (2 * Z.of_nat (length (moduleNames u))) (2 * Z.of_nat (length (assemblyNames u)))) =
  Ok (tt, inside don' (drop 5 rest) (S (length (arrayTypes u))) (length (tokens u))
    (2 * Z.of_nat (length (moduleNames u))) (2 * Z.of_nat (length (assemblyNames u)))).
Proof.
  intros Hr Hl don'. unfold serialize_array, inside.
  read_step (column_lookup arrayTypes pre r post (elem, rank) (fun _ _ => eq_refl) ltac:(by rewrite Hr)).
  simpl fst. simpl snd. put_step. put_step. by rewrite drop_drop, length_le_bytes.
Qed.

Lemma serialize_class_run token n m a : r = RClass token n m a ->
  (16 + 2 * length m + 2 * length a <= length rest)%nat ->
  let don' := (((((don ++ le_bytes 4 token) ++ le_bytes 4 (2 * Z.of_nat (length a))) ++ wchar_bytes a) ++
    le_bytes 4 (2 * Z.of_nat (length m))) ++ wchar_bytes m) ++ le_bytes 4 n in
  serialize_class v (inside don rest (length (arrayTypes u)) (length (tokens u))
    (2 * Z.of_nat (length (moduleNames u))) (2 * Z.of_nat (length (assemblyNames u)))) =
  Ok (tt, inside don' (drop (16 + 2 * length m + 2 * length a) rest) (length (arrayTypes u)) (S (length (tokens u)))
    (2 * Z.of_nat (length (moduleNames u)) + 2 * Z.of_nat (length m))
    (2 * Z.of_nat (length (assemblyNames u)) + 2 * Z.of_nat (length a))).
Proof.
  intros Hr Hl don'. unfold serialize_class, inside.
  pose proof (column_lookup tokens pre r post token (fun _ _ => eq_refl) ltac:(by rewrite Hr)) as Et.
  assert (length (typeArgsCount u) = length (tokens u) /\ length (moduleSizes u) = length (tokens u) /\
    length (assemblySizes u) = length (tokens u)) as (L1 & L2 & L3).
  { apply columns_lengths. }
  pose proof (column_lookup typeArgsCount pre r post n (fun _ _ => eq_refl) ltac:(by rewrite Hr)) as En.
  pose proof (column_lookup moduleSizes pre r post _ (fun _ _ => eq_refl) ltac:(by rewrite Hr)) as Ems.
  pose proof (column_lookup assemblySizes pre r post _ (fun _ _ => eq_refl) ltac:(by rewrite Hr)) as Eas.
  pose proof (column_slice moduleNames pre r post (fun _ _ => eq_refl)) as Em.
  pose proof (column_slice assemblyNames pre r post (fun _ _ => eq_refl)) as Ea.
  fold u v in Et, En, Ems, Eas, Em, Ea. rewrite L1 in En. rewrite L2 in Ems. rewrite L3 in Eas.
  rewrite Hr in Em, Ea. simpl row_columns in Em, Ea. simpl moduleNames in Em. simpl assemblyNames in Ea.
  read_step Et. put_step. read_step Eas. put_step. read_step Ea. put_step. rewrite st_modify_bind.
  read_step Ems. put_step. read_step Em. put_step. rewrite st_modify_bind. read_step En. put_step.
  unfold st_modify, don'. cbn [block type arrayTypeIndex validObjectIndex tokenIndex moduleNamesPtr assemblyNamesPtr].
  rewrite !drop_drop, !length_le_bytes, !wchar_bytes_length. do 4 f_equal. f_equal. lia.
Qed.
End RowRun.

Lemma at_row_next pre r don rest :
  at_row don rest (pre ++ [r]) =
  mkSerializer (don ++ rest) (Z.of_nat (length don))
    (length (arrayTypes (columns pre)) + length (arrayTypes (row_columns r)))
    (length (isArray (columns pre)) + length (isArray (row_columns r)))
    (length (tokens (columns pre)) + length (tokens (row_columns r)))
    (2 * Z.of_nat (length (moduleNames (columns pre))) + 2 * Z.of_nat (length (moduleNames (row_columns r))))
    (2 * Z.of_nat (length (assemblyNames (columns pre))) + 2 * Z.of_nat (length (assemblyNames (row_columns r)))).
Proof.
  unfold at_row. rewrite columns_app, columns_one. cbn [append arrayTypes isArray tokens moduleNames assemblyNames].
  rewrite !length_app, !Nat2Z.inj_add. f_equal; lia.
Qed.

Lemma serialize_one_run pre r post don rest :
  row_valid r = true -> (length (row_bytes r) <= length rest)%nat ->
  serialize_one (columns (pre ++ r :: post)) true tt (at_row don rest pre) =
  Ok (tt, at_row (don ++ row_bytes r) (drop (length (row_bytes r)) rest) (pre ++ [r])).
Proof.
  intros Hv Hl. pose proof (row_bytes_length r) as Hb. unfold serialize_one, at_row at 1. simpl of_bool.
  set (v := columns (pre ++ r :: post)). destruct r as [|elem rank|token n m a]; [done| |].
  - put_step.
    read_step (column_lookup isArray pre (RArray elem rank) post true (fun _ _ => eq_refl) eq_refl).
    simpl of_bool. put_step.
    rewrite (st_bind_run _ _ _ _ _ (serialize_array_run pre post (RArray elem rank) ((don ++ [1]) ++ [1])
      (drop 1 (drop 1 rest)) _ elem rank eq_refl ltac:(rewrite !length_drop; lia))).
    unfold st_modify. rewrite at_row_next.
    cbn [block type arrayTypeIndex validObjectIndex tokenIndex moduleNamesPtr assemblyNamesPtr row_columns
      arrayTypes isArray tokens moduleNames assemblyNames].
    rewrite !drop_drop. replace (length (row_bytes (RArray elem rank))) with 7%nat by lia.
    assert (((don ++ [1]) ++ [1]) ++ [elem mod 256] = don ++ [1; 1; elem mod 256]) as E by by rewrite <- !app_assoc.
    cbn [row_bytes]. rewrite (app_assoc don). simpl app. rewrite <- E. simpl length. do 3 f_equal; lia.
  - put_step.
    read_step (column_lookup isArray pre (RClass token n m a) post false (fun _ _ => eq_refl) eq_refl).
    simpl of_bool. put_step.
    rewrite (st_bind_run _ _ _ _ _ (serialize_class_run pre post (RClass token n m a) ((don ++ [1]) ++ [0])
      (drop 1 (drop 1 rest)) _ token n m a eq_refl ltac:(rewrite !length_drop; lia))).
    unfold st_modify. rewrite at_row_next.
    cbn [block type arrayTypeIndex validObjectIndex tokenIndex moduleNamesPtr assemblyNamesPtr row_columns
      arrayTypes isArray tokens moduleNames assemblyNames].
    rewrite !drop_drop.
    replace (length (row_bytes (RClass token n m a))) with (1 + (1 + (16 + 2 * length m + 2 * length a)))%nat by lia.
    cbn [row_bytes]. rewrite <- !app_assoc. simpl app. simpl length. do 3 f_equal; lia.
Qed.

Lemma rows_bytes_app rows rows' : rows_bytes (rows ++ rows') = rows_bytes rows ++ rows_bytes rows'.
Proof. unfold rows_bytes. by rewrite map_app, concat_app. Qed.

Lemma isValid_columns rows : isValid (columns rows) = map row_valid rows.
Proof. induction rows as [|r rows IH]; [done|]. destruct r; simpl; by rewrite IH. Qed.

(** The loop from any row on. *)
Lemma serialize_rows pre post rest :
  length rest = length (rows_bytes post) ->
  st_fold (serialize_one (columns (pre ++ post))) (map row_valid post) tt (at_row (rows_bytes pre) rest pre) =
  if forallb row_valid post then Ok (tt, at_row (rows_bytes (pre ++ post)) [] (pre ++ post))
  else Err (Thrown "Type serialization: type was not resolved!").
Proof.
  revert pre rest. induction post as [|r post IH]; intros pre rest Hl.
  - rewrite app_nil_r. destruct rest; done.
  - change (rows_bytes (r :: post)) with (row_bytes r ++ rows_bytes post) in Hl. rewrite length_app in Hl.
    cbn [map st_fold forallb]. destruct (row_valid r) eqn:Hv; simpl andb.
    + rewrite (st_bind_run _ _ _ _ _ (serialize_one_run pre r post (rows_bytes pre) rest Hv ltac:(lia))).
      specialize (IH (pre ++ [r]) (drop (length (row_bytes r)) rest) ltac:(rewrite length_drop; lia)).
      rewrite <- app_assoc in IH. simpl app in IH. rewrite <- IH. rewrite (rows_bytes_app pre [r]).
      unfold rows_bytes at 3. simpl concat. by rewrite app_nil_r.
    + pose proof (row_bytes_length r) as Hb. apply st_bind_err. unfold serialize_one, at_row.
      destruct r; [|done|done]. by put_step.
Qed.

(** The lengths of the columns, and of what they are sent as. *)
Lemma columns_sizes rows : let v := columns rows in
  Z.of_nat (length (rows_bytes rows)) =
    Z.of_nat (length (isValid v)) + Z.of_nat (length (isArray v)) + 5 * Z.of_nat (length (arrayTypes v)) +
    4 * Z.of_nat (length (tokens v)) + 4 * Z.of_nat (length (typeArgsCount v)) +
    2 * Z.of_nat (length (moduleNames v)) + 4 * Z.of_nat (length (moduleSizes v)) +
    2 * Z.of_nat (length (assemblyNames v)) + 4 * Z.of_nat (length (assemblySizes v)).
Proof.
  induction rows as [|r rows IH]; [done|]. change (rows_bytes (r :: rows)) with (row_bytes r ++ rows_bytes rows).
  rewrite length_app, Nat2Z.inj_add, IH, row_bytes_length. cbn [columns foldr].
  fold (columns rows). destruct r; simpl; rewrite ?length_app; lia.
Qed.

Lemma vsize_small {A} (l : list A) : Z.of_nat (length l) < 2 ^ 31 -> vsize l = Z.of_nat (length l).
Proof. intros. unfold vsize. rewrite sint_uint; lia. Qed.

Lemma typeLength_columns rows : Z.of_nat (length (rows_bytes rows)) < 2 ^ 31 ->
  typeLength (columns rows) = Z.of_nat (length (rows_bytes rows)).
Proof.
  intros Hs. pose proof (columns_sizes rows) as Hc. cbv zeta in Hc. unfold typeLength.
  rewrite !vsize_small by lia. unfold sizeof_WCHAR. rewrite wrap_small by (unfold is_uint; lia). lia.
Qed.

Lemma serialize_columns debug rows fill :
  Z.of_nat (length (rows_bytes rows)) < 2 ^ 31 ->
  serializeType debug (columns rows) fill =
  if forallb row_valid rows then Ok (rows_bytes rows, Z.of_nat (length (rows_bytes rows)))
  else Err (Thrown "Type serialization: type was not resolved!").
Proof.
  intros Hs. unfold serializeType. cbv zeta. rewrite (typeLength_columns _ Hs), Nat2Z.id.
  destruct (columns_lengths rows) as (L1 & L2 & L3).
  assert (forall A (l l' : list A), length l = length l' -> vsize l = vsize l') as Hv by (unfold vsize; congruence).
  rewrite (Hv _ _ _ L1), (Hv _ _ _ L2), (Hv _ _ _ L3), !Z.eqb_refl.
  assert (forall (s : Serializer), check debug true s = Ok (tt, s)) as Hck by (unfold check; by destruct debug).
  run_step (Hck (mkSerializer (replicate (length (rows_bytes rows)) fill) 0 0 0 0 0 0)).
  pose proof (serialize_rows [] rows (replicate (length (rows_bytes rows)) fill) (length_replicate _ _)) as H.
  rewrite isValid_columns. change (at_row (rows_bytes []) _ []) with
    (mkSerializer (replicate (length (rows_bytes rows)) fill) 0 0 0 0 0 0) in H. simpl app in H.
  destruct (forallb row_valid rows) eqn:E.
  - rewrite (st_bind_run _ _ _ _ _ H), st_get_bind. unfold at_row. cbn [tokenIndex validObjectIndex].
    pose proof (columns_sizes rows) as Hc. cbv zeta in Hc. rewrite !vsize_small by lia. rewrite !Z.eqb_refl.
    simpl andb. rewrite Hck. cbn. by rewrite app_nil_r.
  - by rewrite (st_bind_err _ _ _ _ H).
Qed.

(** The serializer against its specification, the rows one after the other:
    on vectors that are the columns of a table it fills the block it allocates
    exactly, no index leaves a vector, no copy leaves a name and both assertions
    hold; it throws exactly where a class was not resolved. *)
Theorem serializeType_spec debug rows fill :
  Z.of_nat (length (rows_bytes rows)) < 2 ^ 31 ->
  serializeType debug (columns rows) fill =
  if forallb row_valid rows then Ok (rows_bytes rows, Z.of_nat (length (rows_bytes rows)))
  else Err (Thrown "Type serialization: type was not resolved!").
Proof. apply serialize_columns. Qed.

(** C30: Whatever the runtime answers, the vectors [resolveType] builds are the
    columns of one table, so that the serializer's indices always agree: it
    either sends the table or throws for a class that was not resolved. *)
Theorem resolved_vectors_agree rt debug fuel c v :
  short_names rt -> resolveType rt fuel c no_types = Ok (tt, v) ->
  exists rows, v = columns rows /\
    (Z.of_nat (length (rows_bytes rows)) < 2 ^ 31 ->
     serializeType debug v (garbage rt) = Ok (rows_bytes rows, Z.of_nat (length (rows_bytes rows))) \/
     serializeType debug v (garbage rt) = Err (Thrown "Type serialization: type was not resolved!")).
Proof.
  intros Hs H. destruct (resolveType_rows rt fuel c Hs _ _ _ H) as [rows ->]. rewrite append_nil_l.
  exists rows. split; [done|]. intros Hl. pose proof (typeLength_columns rows Hl) as HL.
  destruct (serializeType debug (columns rows) (garbage rt)) as [[b l]|e] eqn:E;
    rewrite (serialize_columns debug rows (garbage rt) Hl) in E; destruct (forallb row_valid rows); simplify_eq; auto.
Qed.

(** ** Trees of classes *)

(** The structure of a class: an array, with the class of its elements where
    that is no primitive type, or an instance of a generic class. *)
Inductive type_tree :=
  | TArray (elem rank : Z) (element : option type_tree)
  | TClass (token : Z) (moduleName assemblyName : list Z) (args : list type_tree)
  | TUnresolved.

Fixpoint tree_rows (t : type_tree) : list row :=
  match t with
  | TArray elem rank None => [RArray elem rank]
  | TArray elem rank (Some t) => RArray elem rank :: tree_rows t
  | TClass token m a args => RClass token (Z.of_nat (length args)) m a :: concat (map tree_rows args)
  | TUnresolved => [RInvalid]
  end.

Fixpoint tree_height (t : type_tree) : nat :=
  match t with
  | TArray _ _ None => 1
  | TArray _ _ (Some t) => S (tree_height t)
  | TClass _ _ _ args => S (list_max (map tree_height args))
  | TUnresolved => 1
  end.

(** Induction with the hypothesis for every class inside. *)
Lemma type_tree_nested_ind (P : type_tree -> Prop) :
  (forall e r, P (TArray e r None)) -> (forall e r t, P t -> P (TArray e r (Some t))) ->
  (forall tok m a args, Forall P args -> P (TClass tok m a args)) -> P TUnresolved -> forall t, P t.
Proof.
  intros HN HS HC HU. fix IH 1. intros [e r [t|]|tok m a args|]; [by apply HS|by apply HN| |done].
  apply HC. induction args; constructor; auto.
Qed.

(** What the runtime's documentation says about the calls: the size a call
    returns is the number of elements, and a buffer of that size is filled. *)
Inductive describes (rt : ClassRuntime) : Z -> type_tree -> Prop :=
  | describes_array c e ec rank : IsArrayClass rt c = inr (e, ec, rank) -> corElementTypeIsPrimitive e = true ->
      describes rt c (TArray e (sint 32 rank) None)
  | describes_nested c e ec rank t : IsArrayClass rt c = inr (e, ec, rank) -> corElementTypeIsPrimitive e = false ->
      describes rt ec t -> describes rt c (TArray e (sint 32 rank) (Some t))
  | describes_class c hr tok args mid m a aid x1 x2 x3 x4 x5 x6 ts :
      IsArrayClass rt c = inl hr ->
      GetClassIDInfo2 rt c 0 = inr (x1, x2, Z.of_nat (length args), x3) ->
      GetClassIDInfo2 rt c (Z.of_nat (length args)) = inr (mid, tok, Z.of_nat (length args), args) ->
      ModuleInfo rt mid 0 = inr (Z.of_nat (length m), x4, x5) ->
      ModuleInfo rt mid (Z.of_nat (length m)) = inr (Z.of_nat (length m), m, aid) ->
      AssemblyInfo rt aid 0 = inr (Z.of_nat (length a), x6) ->
      AssemblyInfo rt aid (Z.of_nat (length a)) = inr (Z.of_nat (length a), a) ->
      describes_all rt args ts -> describes rt c (TClass tok m a ts)
  | describes_unresolved c hr hr' : IsArrayClass rt c = inl hr -> GetClassIDInfo2 rt c 0 = inl hr' ->
      describes rt c TUnresolved
with describes_all (rt : ClassRuntime) : list Z -> list type_tree -> Prop :=
  | describes_nil : describes_all rt [] []
  | describes_cons c cs t ts : describes rt c t -> describes_all rt cs ts -> describes_all rt (c :: cs) (t :: ts).

Scheme describes_mind := Minimality for describes Sort Prop
  with describes_all_mind := Minimality for describes_all Sort Prop.
Combined Scheme describes_both from describes_mind, describes_all_mind.

(** Names and arguments that fit their 32-bit sizes. *)
Fixpoint tree_fits (t : type_tree) : Prop :=
  match t with
  | TArray e r None => is_byte e /\ is_sint 32 r /\ corElementTypeIsPrimitive e = true
  | TArray e r (Some t) => is_byte e /\ is_sint 32 r /\ corElementTypeIsPrimitive e = false /\ tree_fits t
  | TClass tok m a args => is_uint 32 tok /\ Z.of_nat (length m) < 2 ^ 30 /\ Z.of_nat (length a) < 2 ^ 30 /\
      Forall (is_uint 16) m /\ Forall (is_uint 16) a /\ Z.of_nat (length args) < 2 ^ 31 /\
      foldr (fun t P => tree_fits t /\ P) True args
  | TUnresolved => True
  end.

Lemma first_elements_all l : first_elements l (Z.of_nat (length l)) = Some l.
Proof.
  unfold first_elements. rewrite Nat2Z.id. pose proof (read_at_app_r [] l []) as H.
  by rewrite app_nil_r in H.
Qed.

Lemma all_fit args : foldr (fun t P => tree_fits t /\ P) True args <-> Forall tree_fits args.
Proof.
  induction args as [|t args IH]; simpl; [by split|]. rewrite IH. split; [by intros []; constructor|].
  inversion 1. done.
Qed.

(** A loop over the indices of an array is a loop over its elements. *)
Lemma fold_indices {S B} (f : B -> st S unit) (l : list B) s :
  st_fold (fun i _ => b ← st_read (fun _ => l !! Z.to_nat i); f b) (seqZ 0 (Z.of_nat (length l))) tt s =
  st_fold (fun b _ => f b) l tt s.
Proof.
  assert (forall l pre s, st_fold (fun i _ => b ← st_read (fun _ => (pre ++ l) !! Z.to_nat i); f b)
    (seqZ (Z.of_nat (length pre)) (Z.of_nat (length l))) tt s = st_fold (fun b _ => f b) l tt s) as H.
  { clear. induction l as [|b l IH]; intros pre s; [done|]. rewrite seqZ_cons by (simpl; lia).
    cbn [st_fold]. rewrite st_bind_assoc.
    rewrite (st_bind_run _ _ _ b s); [|apply st_read_run; rewrite Nat2Z.id; by apply list_lookup_middle].
    unfold mbind, st_bind. destruct (f b s) as [[[] s']|e]; [|done].
    specialize (IH (pre ++ [b]) s'). rewrite <- app_assoc in IH. simpl app in IH. rewrite <- IH.
    rewrite length_app. f_equal. f_equal; simpl; lia. }
  apply (H l []).
Qed.

Lemma resolve_class_run rt c tok args mid m a aid x4 x5 x6 v :
  GetClassIDInfo2 rt c (Z.of_nat (length args)) = inr (mid, tok, Z.of_nat (length args), args) ->
  ModuleInfo rt mid 0 = inr (Z.of_nat (length m), x4, x5) ->
  ModuleInfo rt mid (Z.of_nat (length m)) = inr (Z.of_nat (length m), m, aid) ->
  AssemblyInfo rt aid 0 = inr (Z.of_nat (length a), x6) ->
  AssemblyInfo rt aid (Z.of_nat (length a)) = inr (Z.of_nat (length a), a) ->
  Z.of_nat (length m) < 2 ^ 30 -> Z.of_nat (length a) < 2 ^ 30 -> Z.of_nat (length args) < 2 ^ 31 ->
  resolve_class rt c (Z.of_nat (length args)) v =
  Ok ((Z.of_nat (length args), args), append v (row_columns (RClass tok (Z.of_nat (length args)) m a))).
Proof.
  intros E1 E2 E3 E4 E5 Hm Ha Hn. unfold resolve_class, fail_loud.
  rewrite E1, st_ret_bind, E2, st_ret_bind, E3, st_ret_bind.
  read_step (first_elements_all m). rewrite E4, st_ret_bind, E5, st_ret_bind. read_step (first_elements_all a).
  rewrite st_modify_bind, !byte_size_small, sint_uint by lia. done.
Qed.

Lemma resolve_describes rt :
  (forall c t, describes rt c t -> tree_fits t -> forall fuel v, (tree_height t <= fuel)%nat ->
    resolveType rt fuel c v = Ok (tt, append v (columns (tree_rows t)))) /\
  (forall cs ts, describes_all rt cs ts -> Forall tree_fits ts -> length cs = length ts /\
    forall fuel v, (list_max (map tree_height ts) <= fuel)%nat ->
    st_fold (fun c _ => resolveType rt fuel c) cs tt v = Ok (tt, append v (columns (concat (map tree_rows ts))))).
Proof.
  apply describes_both.
  - intros c e ec rank E Hp _ [|fuel] v Hf; simpl in Hf; [lia|]. cbn [resolveType]. rewrite E, st_modify_bind, Hp.
    simpl tree_rows. by rewrite columns_one.
  - intros c e ec rank t E Hp _ IH (_ & _ & _ & Ht) [|fuel] v Hf; simpl in Hf; [lia|]. cbn [resolveType].
    rewrite E, st_modify_bind, Hp, IH by (done || lia). cbn [tree_rows columns foldr].
    by rewrite append_assoc.
  - intros c hr tok args mid m a aid x1 x2 x3 x4 x5 x6 ts E E1 E2 E3 E4 E5 E6 _ IH Ht [|fuel] v Hf;
      simpl in Hf; [lia|]. destruct Ht as (_ & Hm & Ha & _ & _ & Hn & Hts%all_fit).
    destruct (IH Hts) as [Hl IHs]. rewrite <- Hl in Hn. cbn [resolveType]. rewrite E, E1.
    run_step (resolve_class_run rt c tok args mid m a aid x4 x5 x6 v E2 E3 E4 E5 E6 Hm Ha Hn).
    rewrite fold_indices, IHs by lia. cbn [tree_rows columns foldr]. rewrite Hl. by rewrite append_assoc.
  - intros c hr hr' E E' _ [|fuel] v Hf; simpl in Hf; [lia|]. cbn [resolveType]. rewrite E, E'.
    simpl tree_rows. by rewrite columns_one.
  - intros _. split; [done|]. intros fuel v _. simpl. by rewrite append_nil_r.
  - intros c cs t ts _ IHt _ IHs [Ht Hts]%Forall_cons. destruct (IHs Hts) as [Hl IH]. split; [simpl; lia|].
    intros fuel v Hf. cbn [map list_max foldr] in Hf. fold (list_max (map tree_height ts)) in Hf.
    cbn [st_fold]. rewrite (st_bind_run _ _ _ _ _ (IHt Ht fuel v ltac:(lia))), IH by lia.
    cbn [map concat]. by rewrite columns_app, append_assoc.
Qed.

(** ** Reading the bytes back *)

Fixpoint wchars (bs : list Z) : list Z :=
  match bs with a :: b :: bs => a + 256 * b :: wchars bs | _ => [] end.

Section Decode.
Variable decode : list Z -> option (type_tree * list Z).
Fixpoint decode_args (n : nat) (bs : list Z) : option (list type_tree * list Z) :=
  match n with
  | O => Some ([], bs)
  | S n => '(t, bs) ← decode bs; '(ts, bs) ← decode_args n bs; Some (t :: ts, bs)
  end.
End Decode.

Definition decode_int (bs : list Z) : option (Z * list Z) :=
  '(i, bs) ← take_bytes 4 bs; Some (le_Z i, bs).
Definition decode_name (bs : list Z) : option (list Z * list Z) :=
  '(n, bs) ← decode_int bs; '(name, bs) ← take_bytes (Z.to_nat n) bs; Some (wchars name, bs).

(** The reader of the format: flags, then an array with its element or a class with its arguments. *)
Fixpoint decode_type (fuel : nat) (bs : list Z) : option (type_tree * list Z) :=
  match fuel with
  | O => None
  | S fuel =>
      match bs with
      | 1 :: 1 :: elem :: bs =>
          '(rank, bs) ← decode_int bs;
          if corElementTypeIsPrimitive elem then Some (TArray elem (sint 32 rank) None, bs)
          else '(t, bs) ← decode_type fuel bs; Some (TArray elem (sint 32 rank) (Some t), bs)
      | 1 :: 0 :: bs =>
          '(token, bs) ← decode_int bs;
          '(assembly, bs) ← decode_name bs;
          '(module, bs) ← decode_name bs;
          '(n, bs) ← decode_int bs;
          '(args, bs) ← decode_args (decode_type fuel) (Z.to_nat n) bs;
          Some (TClass token module assembly args, bs)
      | _ => None
      end
  end.

Fixpoint resolved (t : type_tree) : bool :=
  match t with
  | TArray _ _ None => true
  | TArray _ _ (Some t) => resolved t
  | TClass _ _ _ args => forallb resolved args
  | TUnresolved => false
  end.

Lemma decode_int_run z rest : decode_int (le_bytes 4 z ++ rest) = Some (wrap 32 z, rest).
Proof.
  unfold decode_int. rewrite take_bytes_app by apply length_le_bytes. cbn [mbind option_bind]. by rewrite (le_Z_bytes 4).
Qed.

Lemma wchars_bytes l : Forall (is_uint 16) l -> wchars (wchar_bytes l) = l.
Proof.
  induction 1 as [|z l Hz _ IH]; [done|].
  assert (wchar_bytes (z :: l) = z mod 256 :: z / 256 mod 256 :: wchar_bytes l) as -> by reflexivity.
  cbn [wchars]. rewrite IH. f_equal.
  pose proof (le_Z_bytes 2 z) as H. cbn -[Z.add Z.mul Z.modulo Z.div Z.pow] in H.
  rewrite wrap_small in H by done. lia.
Qed.

Lemma decode_name_run l rest : Forall (is_uint 16) l -> Z.of_nat (length l) < 2 ^ 30 ->
  decode_name (le_bytes 4 (2 * Z.of_nat (length l)) ++ wchar_bytes l ++ rest) = Some (l, rest).
Proof.
  intros Hl Hs. unfold decode_name. rewrite decode_int_run. simpl.
  rewrite wrap_small by (unfold is_uint; lia).
  rewrite take_bytes_app by (rewrite wchar_bytes_length; lia). simpl. by rewrite wchars_bytes.
Qed.

Lemma rows_bytes_cons r rows : rows_bytes (r :: rows) = row_bytes r ++ rows_bytes rows.
Proof. done. Qed.

Lemma decode_tree_bytes t : tree_fits t -> resolved t = true -> forall fuel rest, (tree_height t <= fuel)%nat ->
  decode_type fuel (rows_bytes (tree_rows t) ++ rest) = Some (t, rest).
Proof.
  induction t as [e r|e r t IH|tok m a args IH|] using type_tree_nested_ind; intros Hfit Hr [|fuel] rest Hf;
    try (simpl in Hf; lia); try done.
  - destruct Hfit as (He & Hrk & Hp). cbn [tree_rows]. rewrite rows_bytes_cons, app_nil_r.
    unfold is_byte in He. cbn [row_bytes]. rewrite Z.mod_small by lia. cbn [app decode_type].
    rewrite decode_int_run. simpl. rewrite Hp, sint_wrap, sint_small by (done || lia). done.
  - destruct Hfit as (He & Hrk & Hp & Ht). cbn [tree_rows]. rewrite rows_bytes_cons.
    unfold is_byte in He. cbn [row_bytes]. rewrite Z.mod_small by lia. rewrite <- !app_assoc.
    cbn [app decode_type]. rewrite decode_int_run. simpl in Hf, Hr. simpl.
    rewrite Hp, IH by (done || lia). simpl. rewrite sint_wrap, sint_small by (done || lia). done.
  - destruct Hfit as (Htok & Hm & Ha & Hm16 & Ha16 & Hn & Hargs%all_fit). cbn [tree_rows].
    rewrite rows_bytes_cons. cbn [row_bytes]. rewrite <- !app_assoc. cbn [app decode_type].
    rewrite decode_int_run. cbn [mbind option_bind]. unfold is_uint in Htok. rewrite (wrap_small 32 tok) by (unfold is_uint; lia).
    rewrite decode_name_run by done. cbn [mbind option_bind]. rewrite decode_name_run by done. cbn [mbind option_bind].
    rewrite decode_int_run. cbn [mbind option_bind]. rewrite wrap_small, Nat2Z.id by (unfold is_uint; lia).
    assert (decode_args (decode_type fuel) (length args) (rows_bytes (concat (map tree_rows args)) ++ rest) =
      Some (args, rest)) as ->; [|done].
    simpl in Hr, Hf. apply le_S_n in Hf. clear - IH Hargs Hr Hf. revert rest.
    induction args as [|t args IHa]; intros rest; [done|].
    apply Forall_cons in IH as [IHt IHs]. apply Forall_cons in Hargs as [Ht Hts].
    simpl in Hr, Hf. apply andb_true_iff in Hr as [Hr Hrs].
    cbn [map concat]. rewrite rows_bytes_app, <- app_assoc. cbn [length decode_args].
    rewrite IHt by (done || lia). simpl. rewrite IHa by (done || lia). done.
Qed.

Lemma resolved_rows t : forallb row_valid (tree_rows t) = resolved t.
Proof.
  induction t as [e r|e r t IH|tok m a args IH|] using type_tree_nested_ind; simpl; [done|done| |done].
  induction IH as [|t args Ht _ IHs]; [done|]. simpl. by rewrite forallb_app, Ht, IHs.
Qed.

(** ** Allocation *)

Lemma resolved_vectors rt c t fuel debug :
  describes rt c t -> tree_fits t -> (tree_height t <= fuel)%nat ->
  Z.of_nat (length (rows_bytes (tree_rows t))) < 2 ^ 31 ->
  resolveType rt fuel c no_types = Ok (tt, columns (tree_rows t)) /\
  serializeType debug (columns (tree_rows t)) (garbage rt) =
    if resolved t then Ok (rows_bytes (tree_rows t), Z.of_nat (length (rows_bytes (tree_rows t))))
    else Err (Thrown "Type serialization: type was not resolved!").
Proof.
  intros Hd Hfit Hf Hl. split.
  - rewrite (proj1 (resolve_describes rt) c t Hd Hfit fuel no_types Hf). by rewrite append_nil_l.
  - by rewrite (serialize_columns debug _ (garbage rt) Hl), resolved_rows.
Qed.

(** C29: An allocation of an object whose class the runtime describes as a tree is
    recorded in the heap at the object's addresses, together with bytes of the
    recorded length from which exactly that tree is read back. *)
Theorem ObjectAllocated_spec rt debug fuel h objectId c t size :
  describes rt c t -> tree_fits t -> resolved t = true -> (tree_height t <= fuel)%nat ->
  Z.of_nat (length (rows_bytes (tree_rows t))) < 2 ^ 31 ->
  GetObjectSize rt objectId = inr size ->
  heap_wf h -> 0 <= objectId -> 0 < size < 2 ^ 35 -> objectId + size <= 2 ^ 64 -> 0 < brk h ->
  (forall id o, id ∈ tree h -> objs h !! id = Some o ->
     objectId + size <= left (interval o) \/ right (interval o) < objectId) ->
  exists bytes h', ObjectAllocated rt debug fuel objectId c h = Ok (brk h, h') /\ heap_wf h' /\
    objs h' = <[brk h := new_Object objectId size]> (objs h) /\
    newAddresses h' = <[brk h := (bytes, Z.of_nat (length bytes))]> (newAddresses h) /\
    decode_type fuel bytes = Some (t, []).
Proof.
  intros Hd Hfit Hr Hf Hl Hsz Hwf Ha Hs Hb Hk Hfree.
  destruct (resolved_vectors rt c t fuel debug Hd Hfit Hf Hl) as [E1 E2]. rewrite Hr in E2.
  destruct (allocateObject_run h objectId size (rows_bytes (tree_rows t))
    (Z.of_nat (length (rows_bytes (tree_rows t)))) Hwf Ha Hs Hb Hk Hfree) as (h' & R & Hwf' & _ & _ & Ho & Hn).
  exists (rows_bytes (tree_rows t)), h'. split; [|split_and!; [done..|]].
  - unfold ObjectAllocated. rewrite Hsz, E1. cbn [st_lift]. run_step (eq_refl (Ok ((tt, columns (tree_rows t)), h))).
    rewrite E2. run_step (eq_refl (Ok ((rows_bytes (tree_rows t), Z.of_nat (length (rows_bytes (tree_rows t)))), h))).
    exact R.
  - pose proof (decode_tree_bytes t Hfit Hr fuel [] Hf) as H. by rewrite app_nil_r in H.
Qed.

(** Where any class inside is one the runtime does not describe, an exception
    leaves the profiler's callback, and the object is not recorded. *)
Theorem unresolved_type_throws rt debug fuel h objectId c t :
  describes rt c t -> tree_fits t -> resolved t = false -> (tree_height t <= fuel)%nat ->
  Z.of_nat (length (rows_bytes (tree_rows t))) < 2 ^ 31 ->
  ObjectAllocated rt debug fuel objectId c h = Err (Thrown "Type serialization: type was not resolved!").
Proof.
  intros Hd Hfit Hr Hf Hl. destruct (resolved_vectors rt c t fuel debug Hd Hfit Hf Hl) as [E1 E2].
  rewrite Hr in E2. unfold ObjectAllocated. rewrite E1. cbn [st_lift].
  run_step (eq_refl (Ok ((tt, columns (tree_rows t)), h))). by rewrite E2.
Qed.

(** ** The theorems at a runtime

    Class 1 is a generic class with one argument, [int[]] (class 2); class 3 is
    an array of a class that is not described. *)
Definition example_runtime : ClassRuntime := mkClassRuntime
  (fun c => if c =? 2 then inr (ELEMENT_TYPE_I4, 0, 1) else
            if c =? 3 then inr (0x12, 4, 2) else inl 1)
  (fun c n => if c =? 1 then inr (10, 0x02000007, 1, if n =? 0 then [] else [2]) else inl (-1))
  (fun m n => inr (3, if n =? 0 then [] else [0x41; 0x142; 0], 20))
  (fun a n => inr (2, if n =? 0 then [] else [0x43; 0]))
  (fun o => inr 24)
  0.
Definition example_tree : type_tree :=
  TClass 0x02000007 [0x41; 0x142; 0] [0x43; 0] [TArray ELEMENT_TYPE_I4 1 None].

Lemma example_describes : describes example_runtime 1 example_tree.
Proof.
  apply (describes_class example_runtime 1 1 0x02000007 [2] 10 [0x41; 0x142; 0] [0x43; 0] 20
    10 0x02000007 [] [] 20 []); try reflexivity.
  constructor; [|constructor]. by apply (describes_array example_runtime 2 ELEMENT_TYPE_I4 0 1).
Qed.

Lemma example_unresolved : describes example_runtime 3 (TArray 0x12 2 (Some TUnresolved)).
Proof.
  apply (describes_nested example_runtime 3 0x12 4 2); [done..|]. by apply (describes_unresolved _ 4 1 (-1)).
Qed.

Lemma example_fits : tree_fits example_tree.
Proof.
  unfold example_tree, tree_fits, is_uint, is_sint, is_byte. simpl.
  split_and!; try lia; try done; repeat constructor; lia.
Qed.

Definition empty_heap : Heap := mkHeap ∅ 1 [] ∅ [].

Lemma empty_heap_wf : heap_wf empty_heap.
Proof. split; simpl; [constructor|set_solver|set_solver|set_solver]. Qed.

Lemma serializeType_spec_witness :
  serializeType true (columns [RArray 0x12 2; RClass 5 0 [65] [66; 67]]) 0 =
  Ok ([1; 1; 0x12; 2; 0; 0; 0] ++ [1; 0; 5; 0; 0; 0; 4; 0; 0; 0; 66; 0; 67; 0; 2; 0; 0; 0; 65; 0; 0; 0; 0; 0], 31).
Proof.
  rewrite (serializeType_spec true [RArray 0x12 2; RClass 5 0 [65] [66; 67]] 0); [reflexivity|].
  vm_compute. reflexivity.
Defined.

Lemma resolved_vectors_agree_witness :
  exists rows, columns (tree_rows example_tree) = columns rows /\
    (Z.of_nat (length (rows_bytes rows)) < 2 ^ 31 ->
     serializeType true (columns (tree_rows example_tree)) 0 = Ok (rows_bytes rows, Z.of_nat (length (rows_bytes rows))) \/
     serializeType true (columns (tree_rows example_tree)) 0 = Err (Thrown "Type serialization: type was not resolved!")).
Proof.
  apply (resolved_vectors_agree example_runtime true 2 1).
  - split; simpl.
    + intros m cch n name a [= <- _ _]. lia.
    + intros a cch n name [= <- _]. lia.
  - vm_compute. reflexivity.
Defined.

Lemma ObjectAllocated_spec_witness :
  exists bytes h', ObjectAllocated example_runtime true 2 0x1000 1 empty_heap = Ok (1, h') /\ heap_wf h' /\
    objs h' = <[1 := new_Object 0x1000 24]> ∅ /\
    newAddresses h' = <[1 := (bytes, Z.of_nat (length bytes))]> ∅ /\
    decode_type 2 bytes = Some (example_tree, []).
Proof.
  apply (ObjectAllocated_spec example_runtime true 2 empty_heap 0x1000 1 example_tree 24);
    [apply example_describes|apply example_fits|reflexivity|simpl; lia|vm_compute; reflexivity|reflexivity
    |apply empty_heap_wf|lia|lia|lia|simpl; lia|simpl; set_solver].
Defined.

Lemma unresolved_type_throws_witness :
  ObjectAllocated example_runtime false 2 0x1000 3 empty_heap =
  Err (Thrown "Type serialization: type was not resolved!").
Proof.
  apply (unresolved_type_throws example_runtime false 2 empty_heap 0x1000 3 (TArray 0x12 2 (Some TUnresolved)));
    [apply example_unresolved| |reflexivity|simpl; lia|vm_compute; reflexivity].
  unfold tree_fits, is_byte, is_sint. split_and!; [lia..|reflexivity|done].
Defined.
