(* ===== verification/MemBuffer.v ===== *)
(** * The operand buffer of the concolic probes

    The part of [VSharp.ClrInteraction/memory/memory.cpp] that keeps copies of
    the operands of an instruction while its probe runs: [clear_mem], [mem_*],
    [update_*], [unmem_*].

    The buffer is a pair of [std::vector]s that the code writes through
    [operator[]] and [data()] after it has only [reserve]d memory, so a vector
    is modelled with its storage: an access is defined when it stays inside the
    storage.  Floating-point values are their bit patterns; the conversion from
    [DOUBLE] to [FLOAT] is a parameter. *)

From S2P Require Import Prelude CorHdr.
Local Open Scope Z_scope.

(** ** Vectors with their storage *)

Record vec := mkVec { storage : list Z; vsize : nat }.

Definition empty_vec : vec := mkVec [] 0.

Section vectors.
(** What fresh memory holds. *)
Context (junk : Z).

Definition vec_reserve (n : nat) (v : vec) : vec :=
  if (n <=? length (storage v))%nat then v
  else mkVec (take (vsize v) (storage v) ++ replicate (n - vsize v) junk) (vsize v).

(** New elements are zero; storage that is too small grows to twice the size,
    or to what is needed. *)
Definition vec_resize (n : nat) (v : vec) : vec :=
  if (n <=? vsize v)%nat then mkVec (storage v) n
  else if (n <=? length (storage v))%nat
  then mkVec (take (vsize v) (storage v) ++ replicate (n - vsize v) 0 ++ drop n (storage v)) n
  else mkVec (take (vsize v) (storage v) ++ replicate (n - vsize v) 0
                ++ replicate (Nat.max (2 * vsize v) n - n) junk) n.
End vectors.

(** ** The buffer *)

Record mem_state := mkMem {
  entries_count : Z;
  data_ptr : Z;
  data : vec;
  dataPtrs : vec;
  memSize : Z
}.
Definition mem_init : mem_state := mkMem 0 0 empty_vec empty_vec 0.

(** [sizeof(DOUBLE) + sizeof(CorElementType)]. *)
Definition entry_max : Z := 12.

Section buffer.
Context (junk : Z).

Definition clear_mem : st mem_state unit := st_modify (fun s =>
  mkMem 0 0 (vec_reserve junk (Z.to_nat (3 * entry_max)) (data s)) (vec_reserve junk 3 (dataPtrs s)) 3).

(** [dataPtrs[idx] = p]. *)
Definition set_dataPtr (idx p : Z) : st mem_state unit := fun s =>
  match write_at (storage (dataPtrs s)) idx [p] with
  | Some c => Ok (tt, mkMem (entries_count s) (data_ptr s) (data s) (mkVec c (vsize (dataPtrs s))) (memSize s))
  | None => Err Undefined
  end.
Definition get_dataPtr (idx : Z) : st mem_state Z :=
  st_read (fun s => if 0 <=? idx then storage (dataPtrs s) !! Z.to_nat idx else None).

(** A copy of bytes to [data.data() + at]. *)
Definition set_data (at_ : Z) (bytes : list Z) : st mem_state unit := fun s =>
  match write_at (storage (data s)) at_ bytes with
  | Some c => Ok (tt, mkMem (entries_count s) (data_ptr s) (mkVec c (vsize (data s))) (dataPtrs s) (memSize s))
  | None => Err Undefined
  end.
Definition get_data (at_ : Z) (n : nat) : st mem_state (list Z) :=
  st_read (fun s => read_at (storage (data s)) at_ n).

(** [mem(value, t, size, idx)], the value as its bytes. *)
Definition mem_at (value : list Z) (t idx : Z) : st mem_state unit :=
  st_modify (fun s =>
    if memSize s <? idx
    then mkMem (entries_count s) (data_ptr s) (vec_resize junk (Z.to_nat ((idx + 1) * entry_max)) (data s))
           (vec_resize junk (Z.to_nat (idx + 1)) (dataPtrs s)) (idx + 1)
    else s);;
  st_modify (fun s => mkMem (wrap 32 (entries_count s + 1)) (data_ptr s) (data s) (dataPtrs s) (memSize s));;
  s ← st_get;
  set_dataPtr idx (data_ptr s);;
  set_data (data_ptr s) (le_bytes 4 t);;
  set_data (data_ptr s + 4) value;;
  st_modify (fun s => mkMem (entries_count s) (wrap 32 (data_ptr s + (Z.of_nat (length value) + 4)))
                        (data s) (dataPtrs s) (memSize s)).

(** [mem(value, t, size)]. *)
Definition mem (value : list Z) (t : Z) : st mem_state unit :=
  s ← st_get; mem_at value t (sint 8 (entries_count s)).

Definition update (value : list Z) (idx : Z) : st mem_state unit :=
  p ← get_dataPtr idx; set_data (p + 4) value.

Definition mem_i1 (value : Z) := mem (le_bytes 1 value) ELEMENT_TYPE_I1.
Definition mem_i1_at (value idx : Z) := mem_at (le_bytes 1 value) ELEMENT_TYPE_I1 idx.
Definition mem_i2 (value : Z) := mem (le_bytes 2 value) ELEMENT_TYPE_I2.
Definition mem_i2_at (value idx : Z) := mem_at (le_bytes 2 value) ELEMENT_TYPE_I2 idx.
Definition mem_i4 (value : Z) := mem (le_bytes 4 value) ELEMENT_TYPE_I4.
Definition mem_i4_at (value idx : Z) := mem_at (le_bytes 4 value) ELEMENT_TYPE_I4 idx.
Definition mem_i8 (value : Z) := mem (le_bytes 8 value) ELEMENT_TYPE_I8.
Definition mem_i8_at (value idx : Z) := mem_at (le_bytes 8 value) ELEMENT_TYPE_I8 idx.
Definition mem_f4 (value : Z) := mem (le_bytes 4 value) ELEMENT_TYPE_R4.
Definition mem_f4_at (value idx : Z) := mem_at (le_bytes 4 value) ELEMENT_TYPE_R4 idx.
Definition mem_f8 (value : Z) := mem (le_bytes 8 value) ELEMENT_TYPE_R8.
Definition mem_f8_at (value idx : Z) := mem_at (le_bytes 8 value) ELEMENT_TYPE_R8 idx.
Definition mem_p (value : Z) := mem (le_bytes 8 value) ELEMENT_TYPE_PTR.
Definition mem_p_at (value idx : Z) := mem_at (le_bytes 8 value) ELEMENT_TYPE_PTR idx.

Definition update_i1 (value idx : Z) := update (le_bytes 1 value) idx.
Definition update_i2 (value idx : Z) := update (le_bytes 2 value) idx.
Definition update_i4 (value idx : Z) := update (le_bytes 4 value) idx.
Definition update_i8 (value idx : Z) := update (le_bytes 8 value) idx.
Definition update_f8 (value idx : Z) := update (le_bytes 8 value) idx.
Definition update_p (value idx : Z) := update (le_bytes 8 value) idx.
(** [(FLOAT) tmp]: the bits of the [FLOAT] nearest to the [DOUBLE] with the given
    bits. *)
Definition update_f4 (to_float : Z -> Z) (value idx : Z) := update (le_bytes 4 (to_float value)) idx.

Definition unmemType (idx : Z) : st mem_state Z :=
  p ← get_dataPtr idx; bs ← get_data p 4; mret (sint 32 (le_Z bs)).

(** The [n] bytes behind the type of an entry. *)
Definition unmem_bytes (idx : Z) (n : nat) : st mem_state (list Z) :=
  p ← get_dataPtr idx; get_data (p + 4) n.
Definition unmem_i1 (idx : Z) : st mem_state Z := bs ← unmem_bytes idx 1; mret (sint 8 (le_Z bs)).
Definition unmem_i2 (idx : Z) : st mem_state Z := bs ← unmem_bytes idx 2; mret (sint 16 (le_Z bs)).
Definition unmem_i4 (idx : Z) : st mem_state Z := bs ← unmem_bytes idx 4; mret (sint 32 (le_Z bs)).
Definition unmem_i8 (idx : Z) : st mem_state Z := bs ← unmem_bytes idx 8; mret (sint 64 (le_Z bs)).
Definition unmem_f4 (idx : Z) : st mem_state Z := bs ← unmem_bytes idx 4; mret (le_Z bs).
Definition unmem_f8 (idx : Z) : st mem_state Z := bs ← unmem_bytes idx 8; mret (le_Z bs).
Definition unmem_p (idx : Z) : st mem_state Z := bs ← unmem_bytes idx 8; mret (sint 64 (le_Z bs)).
End buffer.

(** ** The strings pool of the debug build *)

Record strings_pool := mkPool { stringsPool : gmap Z (list Z); topStringIndex : Z }.

(** [int topStringIndex] is read as [unsigned]; counting past [INT_MAX] is
    undefined. *)
Definition allocateString (s : list Z) : st strings_pool Z := fun p =>
  let currentIndex := wrap 32 (topStringIndex p) in
  if topStringIndex p + 1 <? 2 ^ 31
  then Ok (currentIndex, mkPool (<[currentIndex := s]> (stringsPool p)) (topStringIndex p + 1))
  else Err Undefined.

(** ** Typed operands *)

Inductive mem_val :=
  | MI1 (v : Z) | MI2 (v : Z) | MI4 (v : Z) | MI8 (v : Z) | MF4 (bits : Z) | MF8 (bits : Z) | MP (v : Z).

Definition val_bytes (v : mem_val) : list Z :=
  match v with
  | MI1 v => le_bytes 1 v | MI2 v => le_bytes 2 v | MI4 v => le_bytes 4 v | MI8 v => le_bytes 8 v
  | MF4 v => le_bytes 4 v | MF8 v => le_bytes 8 v | MP v => le_bytes 8 v
  end.
Definition val_type (v : mem_val) : Z :=
  match v with
  | MI1 _ => ELEMENT_TYPE_I1 | MI2 _ => ELEMENT_TYPE_I2 | MI4 _ => ELEMENT_TYPE_I4 | MI8 _ => ELEMENT_TYPE_I8
  | MF4 _ => ELEMENT_TYPE_R4 | MF8 _ => ELEMENT_TYPE_R8 | MP _ => ELEMENT_TYPE_PTR
  end.
(** The value fits its C type. *)
Definition val_ok (v : mem_val) : Prop :=
  match v with
  | MI1 v => is_sint 8 v | MI2 v => is_sint 16 v | MI4 v => is_sint 32 v | MI8 v => is_sint 64 v
  | MF4 v => is_uint 32 v | MF8 v => is_uint 64 v | MP v => is_sint 64 v
  end.

(** The probe [Mem_*_idx] for the operand's type, without the [clear_mem] of
    the first one. *)
Definition store_val (junk : Z) (v : mem_val) (idx : Z) : st mem_state unit :=
  match v with
  | MI1 v => mem_i1_at junk v idx | MI2 v => mem_i2_at junk v idx | MI4 v => mem_i4_at junk v idx
  | MI8 v => mem_i8_at junk v idx | MF4 v => mem_f4_at junk v idx | MF8 v => mem_f8_at junk v idx
  | MP v => mem_p_at junk v idx
  end.
(** The probe [Unmem_*] for the type of [v]. *)
Definition load_val (v : mem_val) (idx : Z) : st mem_state mem_val :=
  match v with
  | MI1 _ => x ← unmem_i1 idx; mret (MI1 x) | MI2 _ => x ← unmem_i2 idx; mret (MI2 x)
  | MI4 _ => x ← unmem_i4 idx; mret (MI4 x) | MI8 _ => x ← unmem_i8 idx; mret (MI8 x)
  | MF4 _ => x ← unmem_f4 idx; mret (MF4 x) | MF8 _ => x ← unmem_f8 idx; mret (MF8 x)
  | MP _ => x ← unmem_p idx; mret (MP x)
  end.

Lemma store_val_at junk v idx : store_val junk v idx = mem_at junk (val_bytes v) (val_type v) idx.
Proof. by destruct v. Qed.

Lemma val_bytes_bound v : (0 < length (val_bytes v) <= 8)%nat.
Proof. destruct v; cbn [val_bytes]; rewrite length_le_bytes; lia. Qed.

(** ** Entries *)

Definition stored (s : mem_state) (idx : nat) (v : mem_val) : Prop :=
  exists p, 0 <= p /\ storage (dataPtrs s) !! idx = Some p /\
    seg_at (storage (data s)) p (le_bytes 4 (val_type v) ++ val_bytes v) /\
    p + 4 + Z.of_nat (length (val_bytes v)) <= data_ptr s.

(** The buffer after stores: the storage is the same, the entries are kept. *)
Record grew (s s' : mem_state) (extra : Z) (new : list nat) : Prop := {
  gw_memSize : memSize s' = memSize s;
  gw_data : length (storage (data s')) = length (storage (data s));
  gw_ptrs : length (storage (dataPtrs s')) = length (storage (dataPtrs s));
  gw_ptr : data_ptr s' = data_ptr s + extra;
  gw_kept j v : j ∉ new -> stored s j v -> stored s' j v
}.

Section stores.
Context (junk : Z).

Lemma mem_at_grown v (idx : nat) s :
  Z.of_nat idx <= memSize s -> (idx < length (storage (dataPtrs s)))%nat -> 0 <= data_ptr s ->
  data_ptr s + 4 + Z.of_nat (length (val_bytes v)) <= Z.of_nat (length (storage (data s))) ->
  Z.of_nat (length (storage (data s))) < 2 ^ 31 ->
  exists s', store_val junk v (Z.of_nat idx) s = Ok (tt, s') /\ stored s' idx v /\
    grew s s' (4 + Z.of_nat (length (val_bytes v))) [idx].
Proof.
  intros Hsz Hidx Hp Hroom Hbig. rewrite store_val_at. unfold mem_at. rewrite !st_modify_bind.
  destruct (Z.ltb_spec (memSize s) (Z.of_nat idx)); [lia|]. rewrite st_get_bind. cbn [data_ptr].
  set (s1 := mkMem _ _ _ _ _).
  destruct (write_at_some (storage (dataPtrs s)) (Z.of_nat idx) [data_ptr s]) as [c1 W1]; [lia|simpl; lia|].
  set (s2 := mkMem (entries_count s1) (data_ptr s) (data s) (mkVec c1 (vsize (dataPtrs s))) (memSize s)).
  assert (set_dataPtr (Z.of_nat idx) (data_ptr s) s1 = Ok (tt, s2)) as R1.
  { unfold set_dataPtr, s1. cbn [dataPtrs]. by rewrite W1. }
  run_step R1. cbn [data_ptr s1].
  destruct (write_at_some (storage (data s)) (data_ptr s) (le_bytes 4 (val_type v))) as [c2 W2];
    [lia|rewrite length_le_bytes; lia|]. pose proof (write_at_length _ _ _ _ W2) as L2.
  set (s3 := mkMem (entries_count s1) (data_ptr s) (mkVec c2 (vsize (data s))) (dataPtrs s2) (memSize s)).
  assert (set_data (data_ptr s) (le_bytes 4 (val_type v)) s2 = Ok (tt, s3)) as R2.
  { unfold set_data, s2. cbn [data]. by rewrite W2. }
  run_step R2.
  destruct (write_at_some c2 (data_ptr s + 4) (val_bytes v)) as [c3 W3]; [lia..|].
  pose proof (write_at_length _ _ _ _ W3) as L3. pose proof (write_at_length _ _ _ _ W1) as L1.
  set (s4 := mkMem (entries_count s1) (data_ptr s) (mkVec c3 (vsize (data s))) (dataPtrs s2) (memSize s)).
  assert (set_data (data_ptr s + 4) (val_bytes v) s3 = Ok (tt, s4)) as R3.
  { unfold set_data, s3. cbn [data storage]. by rewrite W3. }
  run_step R3. eexists. split; [done|].
  assert (Hdp : wrap 32 (data_ptr s + (Z.of_nat (length (val_bytes v)) + 4)) = data_ptr s + (4 + Z.of_nat (length (val_bytes v)))).
  { rewrite wrap_small; unfold is_uint; lia. }
  cbn [data_ptr s4]. rewrite Hdp. split.
  - exists (data_ptr s). cbn [data dataPtrs storage data_ptr s4 s2]. split_and!; [done| | |lia].
    + apply write_at_seg in W1. unfold seg_at, read_at in W1. destruct (_ && _); [|done]. injection W1 as W1.
      rewrite Nat2Z.id in W1. rewrite <- (Nat.add_0_r idx), <- lookup_drop. by destruct (drop idx c1); simplify_eq/=.
    + apply seg_at_app. rewrite length_le_bytes. split; [|by apply write_at_seg in W3].
      eapply write_at_seg_other; [exact W3| |by apply write_at_seg in W2]. rewrite length_le_bytes. lia.
  - split; cbn [memSize data dataPtrs storage data_ptr s4 s2]; [done|lia|done|lia|].
    intros j v' Hj (p & P1 & P2 & P3 & P4). exists p. cbn [data dataPtrs storage data_ptr].
    split_and!; [done| | |lia].
    + assert (read_at c1 (Z.of_nat j) 1 = read_at (storage (dataPtrs s)) (Z.of_nat j) 1) as Hr.
      { eapply write_at_read_other; [exact W1|]. simpl. apply not_elem_of_cons in Hj as [Hj _]. lia. }
      pose proof (lookup_lt_Some _ _ _ P2) as Hlt. unfold read_at in Hr. rewrite L1 in Hr.
      destruct (_ && _) eqn:E; [|exfalso; lia]. injection Hr as Hr. rewrite Nat2Z.id in Hr.
      rewrite <- (Nat.add_0_r j), <- lookup_drop in P2 |- *.
      destruct (drop j c1), (drop j (storage (dataPtrs s))); by simplify_eq/=.
    + eapply write_at_seg_other; [exact W3| |eapply write_at_seg_other; [exact W2| |exact P3]];
        rewrite length_app, length_le_bytes; lia.
Qed.

(** A sequence of stores into distinct entries. *)
Lemma stores_run (l : list (nat * mem_val)) s :
  NoDup l.*1 -> (forall i v, (i, v) ∈ l -> Z.of_nat i <= memSize s /\ (i < length (storage (dataPtrs s)))%nat) ->
  0 <= data_ptr s -> data_ptr s + entry_max * Z.of_nat (length l) <= Z.of_nat (length (storage (data s))) ->
  Z.of_nat (length (storage (data s))) < 2 ^ 31 ->
  exists s', st_fold (fun '(i, v) _ => store_val junk v (Z.of_nat i)) l tt s = Ok (tt, s') /\
    (forall i v, (i, v) ∈ l -> stored s' i v) /\ (forall j v, j ∉ l.*1 -> stored s j v -> stored s' j v).
Proof.
  intros Hnd. revert s. induction l as [|[i v] l IH]; intros s Hin Hp Hroom Hbig.
  { exists s. split_and!; try done. intros i v H. by apply elem_of_nil in H. }
  apply NoDup_cons in Hnd as [Hni Hnd]. pose proof (val_bytes_bound v) as Hb. unfold entry_max in *. simpl in Hroom.
  destruct (Hin i v ltac:(left)) as [H1 H2].
  destruct (mem_at_grown v i s H1 H2 Hp ltac:(lia) Hbig) as (s1 & R & St & [G1 G2 G3 G4 G5]).
  destruct (IH Hnd s1) as (s' & R' & Hall & Hkept); try lia.
  { intros j w Hj. rewrite G1, G3. apply (Hin j w). by right. }
  exists s'. split; [simpl; by run_step R|]. split.
  - intros j w [[= -> ->]|Hj]%elem_of_cons; [|by apply Hall]. by apply Hkept.
  - intros j w Hj Hs. apply not_elem_of_cons in Hj as [Hne Hj]. apply Hkept; [done|].
    apply G5; [|done]. by apply not_elem_of_cons; split; [|apply not_elem_of_nil].
Qed.

Lemma get_dataPtr_run s (idx : nat) p : storage (dataPtrs s) !! idx = Some p -> get_dataPtr (Z.of_nat idx) s = Ok (p, s).
Proof. intros H. unfold get_dataPtr, st_read. destruct (Z.leb_spec 0 (Z.of_nat idx)); [|lia]. by rewrite Nat2Z.id, H. Qed.

Lemma load_stored s idx v :
  stored s idx v -> val_ok v ->
  unmemType (Z.of_nat idx) s = Ok (val_type v, s) /\ load_val v (Z.of_nat idx) s = Ok (v, s).
Proof.
  intros (p & Hp & Hl & Hseg & _) Hok. apply seg_at_app in Hseg as [S1 S2]. rewrite length_le_bytes in S2.
  change (Z.of_nat 4) with 4 in S2. unfold seg_at in S1, S2. rewrite length_le_bytes in S1.
  assert (forall n, length (val_bytes v) = n -> unmem_bytes (Z.of_nat idx) n s = Ok (val_bytes v, s)) as Hby.
  { intros n Hn. unfold unmem_bytes. run_step (get_dataPtr_run s idx p Hl). unfold get_data, st_read.
    rewrite <- Hn. by rewrite S2. }
  split.
  - unfold unmemType. run_step (get_dataPtr_run s idx p Hl).
    assert (get_data p 4 s = Ok (le_bytes 4 (val_type v), s)) as R by (unfold get_data, st_read; by rewrite S1).
    run_step R. unfold mret, st_ret. rewrite le_Z_bytes. do 2 f_equal. by destruct v.
  - destruct v; cbn [load_val val_bytes] in *; unfold unmem_i1, unmem_i2, unmem_i4, unmem_i8, unmem_f4, unmem_f8, unmem_p;
      rewrite st_bind_assoc; run_step (Hby _ (length_le_bytes _ _)); rewrite st_ret_bind, le_Z_bytes;
      unfold mret, st_ret; do 3 f_equal; simpl in Hok;
      [rewrite sint_wrap by lia; by apply sint_small..|by apply wrap_small|by apply wrap_small|
       rewrite sint_wrap by lia; by apply sint_small].
Qed.
End stores.

(** ** Storing all operands of an instruction *)

(** The instrumented code stores the last operand first; the first probe clears
    the buffer. *)
Definition store_operands (junk : Z) (vals : list mem_val) : st mem_state unit :=
  clear_mem junk;;
  st_fold (fun '(i, v) _ => store_val junk v (Z.of_nat i)) (reverse (zip (seq 0 (length vals)) vals)) tt.

Definition vec_ok (v : vec) : Prop := (vsize v <= length (storage v))%nat.

Lemma vec_reserve_length junk n v :
  vec_ok v -> length (storage (vec_reserve junk n v)) = Nat.max n (length (storage v)) /\
    vsize (vec_reserve junk n v) = vsize v.
Proof.
  unfold vec_ok, vec_reserve. intros H. destruct (Nat.leb_spec n (length (storage v))); simpl; [lia|].
  rewrite length_app, length_take, length_replicate. lia.
Qed.

Lemma vec_resize_length junk n v :
  vec_ok v -> (n <= length (storage (vec_resize junk n v)) <= Nat.max n (2 * length (storage v)))%nat.
Proof.
  unfold vec_ok, vec_resize. intros H. destruct (Nat.leb_spec n (vsize v)); simpl; [lia|].
  destruct (Nat.leb_spec n (length (storage v))); simpl;
    rewrite !length_app, ?length_take, ?length_drop, !length_replicate; lia.
Qed.

Lemma elem_of_zip_seq {A} (l : list A) i v : (i, v) ∈ zip (seq 0 (length l)) l <-> l !! i = Some v.
Proof.
  rewrite list_elem_of_lookup. setoid_rewrite lookup_zip_with_Some. setoid_rewrite lookup_seq. split.
  - intros (k & x & y & [= -> ->] & [Hx _] & Hy). simpl in Hx. by subst.
  - intros H. exists i, i, v. split; [done|]. split; [split; [done|by apply lookup_lt_Some in H]|done].
Qed.

Lemma NoDup_zip_seq {A} (l : list A) : NoDup (reverse (zip (seq 0 (length l)) l)).*1.
Proof.
  rewrite fmap_reverse, fst_zip by (by rewrite length_seq). rewrite reverse_Permutation. apply NoDup_seq.
Qed.

Section operands.
Context (junk : Z).

(** The first store makes room for an entry that is too large. *)
Definition resized (idx : Z) (s : mem_state) : mem_state :=
  if memSize s <? idx
  then mkMem (entries_count s) (data_ptr s) (vec_resize junk (Z.to_nat ((idx + 1) * entry_max)) (data s))
         (vec_resize junk (Z.to_nat (idx + 1)) (dataPtrs s)) (idx + 1)
  else s.

Lemma store_resized v idx s : store_val junk v idx s = store_val junk v idx (resized idx s).
Proof.
  rewrite store_val_at. unfold mem_at. rewrite !st_modify_bind. unfold resized.
  destruct (Z.ltb_spec (memSize s) idx) as [H|H]; cbn [memSize].
  - destruct (Z.ltb_spec (idx + 1) idx); [lia|done].
  - destruct (Z.ltb_spec (memSize s) idx); [lia|done].
Qed.

(** The room there is after [clear_mem] and the first store's growth. *)
Lemma operands_room (n : nat) s :
  vec_ok (data s) -> vec_ok (dataPtrs s) -> (0 < n <= 127)%nat ->
  (n = 4 -> 4 <= length (storage (dataPtrs s)) /\ 48 <= length (storage (data s)))%nat ->
  Z.of_nat (length (storage (data s))) < 2 ^ 29 ->
  exists s0, clear_mem junk s = Ok (tt, s0) /\ let s1 := resized (Z.of_nat n - 1) s0 in
    Z.of_nat n - 1 <= memSize s1 /\ (n <= length (storage (dataPtrs s1)))%nat /\ data_ptr s1 = 0 /\
    entry_max * Z.of_nat n <= Z.of_nat (length (storage (data s1))) < 2 ^ 31.
Proof.
  intros Hd Hp Hn Hfour Hbig. eexists. split; [done|].
  destruct (vec_reserve_length junk (Z.to_nat (3 * entry_max)) (data s) Hd) as [L1 S1].
  destruct (vec_reserve_length junk 3 (dataPtrs s) Hp) as [L2 S2].
  unfold resized, entry_max in *. cbn [memSize data dataPtrs data_ptr entries_count].
  destruct (Z.ltb_spec 3 (Z.of_nat n - 1)) as [H|H]; cbn [memSize data dataPtrs data_ptr].
  - pose proof (vec_resize_length junk (Z.to_nat ((Z.of_nat n - 1 + 1) * 12)) (vec_reserve junk (Z.to_nat (3 * 12)) (data s))) as R1.
    pose proof (vec_resize_length junk (Z.to_nat (Z.of_nat n - 1 + 1)) (vec_reserve junk 3 (dataPtrs s))) as R2.
    unfold vec_ok in *. specialize (R1 ltac:(lia)). specialize (R2 ltac:(lia)). lia.
  - assert (n <= 3 \/ n = 4)%nat as [Hlt|Heq] by lia; [lia|]. destruct (Hfour Heq). lia.
Qed.
End operands.

(** C18: the operands stored by the probes [Mem_*_idx], last operand first, are
    read back unchanged with their types by [unmemType] and [Unmem_*], for
    every number of operands up to 127 except four; for four operands the
    buffer must have grown before. *)
Theorem operands_roundtrip junk vals s :
  vec_ok (data s) -> vec_ok (dataPtrs s) -> (0 < length vals <= 127)%nat -> Forall val_ok vals ->
  (length vals = 4 -> 4 <= length (storage (dataPtrs s)) /\ 48 <= length (storage (data s)))%nat ->
  Z.of_nat (length (storage (data s))) < 2 ^ 29 ->
  exists s', store_operands junk vals s = Ok (tt, s') /\
    forall i v, vals !! i = Some v ->
      unmemType (Z.of_nat i) s' = Ok (val_type v, s') /\ load_val v (Z.of_nat i) s' = Ok (v, s').
Proof.
  intros Hd Hp Hn Hok Hfour Hbig.
  destruct (operands_room junk (length vals) s Hd Hp Hn Hfour Hbig) as (s0 & R0 & Hm & Hl & Hdp & Hroom).
  set (s1 := resized junk (Z.of_nat (length vals) - 1) s0) in *. set (l := reverse (zip (seq 0 (length vals)) vals)).
  assert (Hin : forall i v, (i, v) ∈ l <-> vals !! i = Some v) by (intros; unfold l; rewrite elem_of_reverse; apply elem_of_zip_seq).
  assert (length l = length vals) as Hlen by (unfold l; rewrite length_reverse, length_zip_with, length_seq; lia).
  destruct (stores_run junk l s1) as (s' & R & Hall & _).
  - apply NoDup_zip_seq.
  - intros i v Hi%Hin. apply lookup_lt_Some in Hi. lia.
  - lia.
  - rewrite Hlen. lia.
  - lia.
  - exists s'. split.
    + unfold store_operands. run_step R0. fold l.
      destruct vals as [|v0 vals0 _] using rev_ind; [simpl in Hn; lia|].
      assert (exists rest, l = (length vals0, v0) :: rest) as [rest Hrest].
      { unfold l. rewrite length_app, seq_app. simpl. rewrite zip_with_app by (by rewrite length_seq).
        rewrite reverse_app. simpl. eauto. }
      rewrite Hrest in R |- *. cbn [st_fold] in R |- *. rewrite <- R. unfold mbind, st_bind.
      rewrite store_resized. unfold s1. rewrite length_app. simpl.
      replace (Z.of_nat (length vals0 + 1) - 1) with (Z.of_nat (length vals0)) by lia. done.
    + intros i v Hi. apply load_stored; [by apply Hall, Hin|]. by eapply Forall_lookup_1 in Hok.
Qed.

Lemma operands_roundtrip_witness :
  exists s', store_operands 0xCD [MI4 (-1); MP 0x7FFF0000; MI1 5; MF8 0x3FF0000000000000; MI2 (-300)] mem_init = Ok (tt, s') /\
    unmemType 4 s' = Ok (ELEMENT_TYPE_I2, s') /\ load_val (MI2 0) 4 s' = Ok (MI2 (-300), s').
Proof.
  destruct (operands_roundtrip 0xCD [MI4 (-1); MP 0x7FFF0000; MI1 5; MF8 0x3FF0000000000000; MI2 (-300)] mem_init)
    as (s' & R & H).
  - unfold vec_ok. simpl. lia.
  - unfold vec_ok. simpl. lia.
  - simpl. lia.
  - repeat constructor; vm_compute; discriminate.
  - simpl. discriminate.
  - reflexivity.
  - destruct (H 4%nat (MI2 (-300)) eq_refl) as [H1 H2]. exists s'. split; [exact R|]. split; [exact H1|exact H2].
Defined.

(** four operands overrun a buffer that has not grown yet: [mem] grows it
    only when the index exceeds [memSize], and index 3 does not exceed 3. *)
Theorem four_operands_overrun junk v1 v2 v3 v4 :
  store_operands junk [v1; v2; v3; v4] mem_init = Err Undefined.
Proof.
  unfold store_operands. run_step (eq_refl : clear_mem junk mem_init = Ok (tt, mkMem 0 0
    (mkVec (replicate 36 junk) 0) (mkVec (replicate 3 junk) 0) 3)).
  cbn [length seq zip_with zip reverse rev_append st_fold]. apply st_bind_err. rewrite store_val_at. reflexivity.
Qed.
