(* ===== verification/Protocol.v ===== *)
(** * The message protocol with the symbolic engine

    [VSharp.ClrInteraction/communication/protocol.h] and [protocol.cpp]: every
    message is a four-byte length, a confirmation byte from the receiver, the
    bytes themselves and a second confirmation.  The transport is the interface
    [Communicator]; its instance [socket_communicator] stands for the Unix
    socket, whose [read] may deliver fewer bytes than asked for. *)

From S2P Require Import Prelude.
Local Open Scope Z_scope.

(** ** The transport *)

(** [read(buffer, count)] returns a number and the bytes it has put into the
    buffer; [write(message, count)] returns the number of bytes written. *)
Class Communicator (S : Type) := {
  comm_read : Z -> st S (Z * list Z);
  comm_write : list Z -> st S Z;
  comm_open : st S bool
}.

(** A socket: what the peer has sent and will send, what was written, and for
    each coming [read] how many bytes it may deliver at most; a negative number
    is an error of the system call.  Reads without an entry deliver what there
    is. *)
Record socket := mkSocket {
  inbox : list Z;
  outbox : list Z;
  chunks : list Z
}.

Definition socket_read (count : Z) : st socket (Z * list Z) := fun s =>
  let deliver k rest :=
    let bs := take (Z.to_nat (Z.min k count)) (inbox s) in
    Ok ((Z.of_nat (length bs), bs), mkSocket (drop (length bs) (inbox s)) (outbox s) rest) in
  match chunks s with
  | [] => deliver count []
  | k :: rest => if k <? 0 then Ok ((-1, []), mkSocket (inbox s) (outbox s) rest) else deliver k rest
  end.

Definition socket_write (message : list Z) : st socket Z := fun s =>
  Ok (Z.of_nat (length message), mkSocket (inbox s) (outbox s ++ message) (chunks s)).

#[export] Instance socket_communicator : Communicator socket := {
  comm_read := socket_read;
  comm_write := socket_write;
  comm_open := mret true
}.

(** ** Messages *)

Definition Confirmation : Z := 0x55.
Definition InstrumentCommand : Z := 0x56.
Definition ExecuteCommand : Z := 0x57.
Definition ReadMethodBody : Z := 0x58.
Definition ReadString : Z := 0x59.

Section protocol.
Context {S : Type} {HC : Communicator S}.
(** What a variable holds before [read] fills it, and the model's bound on the
    iterations of the reading loop. *)
Context (junk : Z) (fuel : nat).

Definition readConfirmation : st S bool :=
  r ← comm_read 1;
  let '(bytesRead, buffer) := (r : Z * list Z) in
  mret (negb (negb (bytesRead =? 1) || negb (default junk (head buffer) =? Confirmation))).

Definition writeConfirmation : st S bool :=
  bytesWritten ← comm_write [Confirmation];
  mret (bytesWritten =? 1).

(** [None]: the function returned [false]. *)
Definition readCount : st S (option Z) :=
  r ← comm_read 4;
  let '(countCount, bs) := (r : Z * list Z) in
  mret (if countCount =? 4 then Some (sint 32 (le_Z bs)) else None).

Definition writeCount (count : Z) : st S bool :=
  bytesWritten ← comm_write (le_bytes 4 count);
  mret (bytesWritten =? 4).

(** [while (bytesRead < count)]: [buffer] points [bytesRead] bytes behind the
    beginning of the array. *)
Fixpoint read_loop (fuel : nat) (array : list Z) (bytesRead count : Z) : st S (list Z * Z) :=
  if bytesRead <? count then
    match fuel with
    | O => st_fail OutOfFuel
    | Datatypes.S fuel =>
        r ← comm_read (count - bytesRead);
        let '(newBytesCount, bs) := (r : Z * list Z) in
        array ← st_read (fun _ => match bs with [] => Some array | _ => write_at array bytesRead bs end);
        if newBytesCount =? 0 then mret (array, bytesRead)
        else read_loop fuel array (bytesRead + newBytesCount) count
    end
  else mret (array, bytesRead).

Definition readBuffer : st S (option (list Z)) :=
  c ← readCount;
  match c with
  | None => mret None
  | Some count =>
      if count <=? 0 then mret None else
      ok ← writeConfirmation;
      if negb ok then mret None else
      r ← read_loop fuel (replicate (Z.to_nat count) junk) 0 count;
      let '(buffer, bytesRead) := (r : list Z * Z) in
      if negb (bytesRead =? count) then mret None else
      ok ← writeConfirmation;
      mret (if (ok : bool) then Some buffer else None)
  end.

Definition writeBuffer (buffer : list Z) : st S bool :=
  ok ← writeCount (Z.of_nat (length buffer));
  if negb ok then mret false else
  ok ← readConfirmation;
  if negb ok then mret false else
  bytesWritten ← comm_write buffer;
  if negb (bytesWritten =? Z.of_nat (length buffer)) then mret false else readConfirmation.

(** [sendSerializable]: the command byte, then the object's bytes. *)
Definition sendSerializable (commandByte : Z) (bytes : list Z) : st S bool :=
  ok ← writeBuffer [commandByte];
  if negb ok then mret false else writeBuffer bytes.

(** [strcmp(message, "Hi!")] compares up to the terminating zero, which the
    received bytes must contain. *)
Definition hi : list Z := [0x48; 0x69; 0x21; 0].
Fixpoint strcmp_eq (message expected : list Z) : option bool :=
  match expected, message with
  | [], _ => Some true
  | _, [] => None
  | e :: expected, m :: message =>
      if m =? e then (if e =? 0 then Some true else strcmp_eq message expected) else Some false
  end.

Definition handshake : st S bool :=
  m ← readBuffer;
  match m with
  | None => mret false
  | Some message =>
      same ← st_read (fun _ => strcmp_eq message hi);
      if negb same then mret false else writeBuffer (take 3 hi)
  end.

(** The addresses of the probes, eight bytes each. *)
Definition sendProbes (ProbesAddresses : list Z) : st S bool :=
  writeBuffer (flat_map (le_bytes 8) ProbesAddresses).

Definition connect : st S bool :=
  ok ← comm_open;
  if (ok : bool) then handshake else mret false.

Definition startSession (ProbesAddresses : list Z) : st S bool :=
  ok ← connect;
  if (ok : bool) then sendProbes ProbesAddresses else mret false.

Definition acceptEntryPoint : st S (list Z) :=
  m ← readBuffer;
  match m with
  | None => st_fail (Thrown "Exec response validation failed!")
  | Some bytes => mret bytes
  end.

Definition acceptCommand : st S (option Z) :=
  m ← readBuffer;
  match m with
  | None => mret None
  | Some message => c ← st_read (fun _ => head message); mret (Some (sint 8 c))
  end.

Definition acceptString : st S (option (list Z)) := readBuffer.

Definition sendStringsPoolIndex (index : Z) : st S bool := writeBuffer (le_bytes 4 index).

(** The parts of the answer to [InstrumentCommand]: the code, the stack size
    and the exception clauses. *)
Record method_body := mkMethodBody {
  mb_code : list Z;
  mb_codeLength : Z;
  mb_maxStackSize : Z;
  mb_ehs : list Z;
  mb_ehsLength : Z
}.

Definition acceptMethodBody : st S (option method_body) :=
  m ← readBuffer;
  match m with
  | None => mret None
  | Some message =>
      let messageLength := Z.of_nat (length message) in
      lenBytes ← st_read (fun _ => read_at message 0 4);
      let codeLength := sint 32 (le_Z lenBytes) in
      maxBytes ← st_read (fun _ => read_at message 4 4);
      (if codeLength <? 0 then st_fail (Thrown "bad_array_new_length") else mret tt);;
      code ← st_read (fun _ => read_at message 8 (Z.to_nat codeLength));
      let ehsLength := wrap 32 (messageLength - 4 - 4 - codeLength) in
      ehs ← st_read (fun _ => read_at message (8 + codeLength) (Z.to_nat ehsLength));
      mret (Some (mkMethodBody code codeLength (le_Z maxBytes) ehs ehsLength))
  end.

Definition acceptExecResult : st S (list Z) :=
  m ← readBuffer;
  match m with
  | None => st_fail (Thrown "Exec response validation failed!")
  | Some bytes => mret bytes
  end.

Definition shutdown : st S bool := writeCount (-1).
End protocol.

(** A message on the wire, and what its receiver sends back. *)
Definition message (bytes : list Z) : list Z := le_bytes 4 (Z.of_nat (length bytes)) ++ bytes.
Definition confirmations (n : nat) : list Z := replicate n Confirmation.

(** ** Lawful transports *)

(** What the protocol relies on: [incoming] is what [comm_read] will deliver,
    in any pieces, [outgoing] what [comm_write] has sent.  A [sound] transport
    is one whose calls do not fail; the next read of a [whole] one is not cut
    below four bytes. *)
Class LawfulCommunicator (S : Type) `{HC : Communicator S} := {
  incoming : S -> list Z;
  outgoing : S -> list Z;
  sound : S -> Prop;
  whole : S -> Prop;
  read_law : forall count s, 0 < count < 2 ^ 31 -> sound s -> exists bs s',
    comm_read count s = Ok ((Z.of_nat (length bs), bs), s') /\
    incoming s = bs ++ incoming s' /\ outgoing s' = outgoing s /\ sound s' /\
    Z.of_nat (length bs) <= count /\ (incoming s <> [] -> bs <> []) /\
    (whole s -> count <= 4 -> count <= Z.of_nat (length (incoming s)) -> Z.of_nat (length bs) = count);
  write_law : forall m s, Z.of_nat (length m) < 2 ^ 31 -> sound s -> exists s',
    comm_write m s = Ok (Z.of_nat (length m), s') /\
    incoming s' = incoming s /\ outgoing s' = outgoing s ++ m /\ sound s'
}.

Section lawful.
Context {S : Type} {HC : Communicator S} {HL : LawfulCommunicator S}.
Implicit Types s : S.

(** From [s] to [s']: [bs] was consumed, [out] was sent, nothing has failed. *)
Definition passes (s : S) (bs out : list Z) (s' : S) : Prop :=
  incoming s = bs ++ incoming s' /\ outgoing s' = outgoing s ++ out /\ sound s'.

Lemma passes_trans s1 s2 s3 bs1 bs2 out1 out2 :
  passes s1 bs1 out1 s2 -> passes s2 bs2 out2 s3 -> passes s1 (bs1 ++ bs2) (out1 ++ out2) s3.
Proof.
  intros (I1 & O1 & _) (I2 & O2 & Hs). split_and!; [by rewrite I1, I2, <- app_assoc|by rewrite O2, O1, <- app_assoc|done].
Qed.

Lemma passes_in s s' bs out rest : passes s bs out s' -> incoming s = bs ++ rest -> incoming s' = rest.
Proof. intros (Hi & _ & _) Hr. rewrite Hi in Hr. by simplify_list_eq. Qed.

(** A read whose bytes are all there, in one piece. *)
Lemma comm_read_whole bs rest s :
  (0 < length bs)%nat -> sound s -> incoming s = bs ++ rest -> length bs = 1%nat \/ whole s /\ (length bs <= 4)%nat ->
  exists s', comm_read (Z.of_nat (length bs)) s = Ok ((Z.of_nat (length bs), bs), s') /\ passes s bs [] s'.
Proof.
  intros Hl Hs Hi Hw. destruct (read_law (Z.of_nat (length bs)) s) as (bs' & s' & R & Hi' & Ho & Hs' & Hle & Hpos & Hfull); [lia|done|].
  assert (length bs' = length bs) as Hl'.
  { destruct Hw as [H1|[Hw H4]].
    - assert (bs' <> []) by (apply Hpos; rewrite Hi; by destruct bs). destruct bs'; [done|simpl in *; lia].
    - apply Nat2Z.inj, Hfull; [done|lia|]. rewrite Hi, length_app. lia. }
  rewrite Hi in Hi'. apply app_inj_1 in Hi' as [<- ->]; [|done].
  exists s'. split; [done|]. by rewrite <- (app_nil_r (outgoing s)) in Ho.
Qed.

Lemma comm_write_passes m s : Z.of_nat (length m) < 2 ^ 31 -> sound s ->
  exists s', comm_write m s = Ok (Z.of_nat (length m), s') /\ passes s [] m s'.
Proof. intros Hm Hs. destruct (write_law m s Hm Hs) as (s' & R & Hi & Ho & Hs'). exists s'. split; [done|]. by split_and!. Qed.

Context (junk : Z) (fuel : nat).

Lemma readConfirmation_passes rest s : sound s -> incoming s = Confirmation :: rest ->
  exists s', readConfirmation junk s = Ok (true, s') /\ passes s [Confirmation] [] s'.
Proof.
  intros Hs Hi. destruct (comm_read_whole [Confirmation] rest s) as (s' & R & P); [simpl; lia|done|done|by left|].
  exists s'. split; [|done]. unfold readConfirmation. by run_step R.
Qed.

Lemma writeConfirmation_passes s : sound s ->
  exists s', writeConfirmation s = Ok (true, s') /\ passes s [] [Confirmation] s'.
Proof.
  intros Hs. destruct (comm_write_passes [Confirmation] s) as (s' & R & P); [simpl; lia|done|].
  exists s'. split; [|done]. unfold writeConfirmation. by run_step R.
Qed.

(** The first word of a message. *)
Lemma readCount_passes n rest s : is_sint 32 n -> sound s -> whole s -> incoming s = le_bytes 4 n ++ rest ->
  exists s', readCount s = Ok (Some n, s') /\ passes s (le_bytes 4 n) [] s'.
Proof.
  intros Hn Hs Hw Hi. destruct (comm_read_whole (le_bytes 4 n) rest s) as (s' & R & P);
    [rewrite length_le_bytes; lia|done|done|right; by rewrite length_le_bytes|].
  exists s'. split; [|done]. unfold readCount. rewrite length_le_bytes in R. run_step R. cbv beta iota. unfold mret, st_ret.
  rewrite le_Z_bytes, sint_wrap by lia. change (8 * Z.of_nat 4) with 32. by rewrite sint_small by (done || lia).
Qed.

Lemma writeCount_passes n s : sound s ->
  exists s', writeCount n s = Ok (true, s') /\ passes s [] (le_bytes 4 n) s'.
Proof.
  intros Hs. destruct (comm_write_passes (le_bytes 4 n) s) as (s' & R & P); [rewrite length_le_bytes; lia|done|].
  exists s'. split; [|done]. unfold writeCount. run_step R. by rewrite length_le_bytes.
Qed.

(** One iteration of the reading loop that brings [bs]. *)
Lemma read_loop_step n array bytesRead count bs array' s s' :
  bytesRead < count -> 0 <= bytesRead -> bs <> [] ->
  comm_read (count - bytesRead) s = Ok ((Z.of_nat (length bs), bs), s') -> write_at array bytesRead bs = Some array' ->
  read_loop (Datatypes.S n) array bytesRead count s = read_loop n array' (bytesRead + Z.of_nat (length bs)) count s'.
Proof.
  intros Hlt Hb Hne R Hw. cbn [read_loop]. destruct (Z.ltb_spec bytesRead count); [|lia]. run_step R. cbv beta iota.
  rewrite (st_bind_run _ _ _ array' s') by (unfold st_read; destruct bs; [done|by rewrite Hw]).
  destruct (Z.eqb_spec (Z.of_nat (length bs)) 0); [destruct bs; [done|simpl in *; lia]|done].
Qed.

Lemma read_loop_passes n array bytesRead count payload rest s :
  incoming s = payload ++ rest -> Z.of_nat (length payload) = count - bytesRead ->
  0 <= bytesRead -> Z.of_nat (length array) = count -> count < 2 ^ 31 -> (length payload <= n)%nat -> sound s ->
  exists s', read_loop n array bytesRead count s = Ok ((take (Z.to_nat bytesRead) array ++ payload, count), s') /\
    passes s payload [] s'.
Proof.
  revert array bytesRead payload s. induction n as [|n IH]; intros array bytesRead payload s Hi Hp Hb Ha Hc Hf Hs.
  all: destruct (Z.ltb_spec bytesRead count) as [Hlt|Hge].
  1: { simpl in Hf. lia. }
  1, 3: destruct payload; [|simpl in Hp; lia]; exists s; unfold passes; rewrite !app_nil_r, take_ge by lia;
    replace bytesRead with count by (simpl in Hp; lia); split; [|by split_and!]; cbn [read_loop];
    by destruct (Z.ltb_spec count count); [lia|].
  destruct (read_law (count - bytesRead) s) as (bs & s1 & R & Hi' & Ho & Hs1 & Hle & Hpos & _); [lia|done|].
  assert (bs <> []) as Hne by (apply Hpos; rewrite Hi; destruct payload; [simpl in Hp; lia|done]).
  rewrite Hi in Hi'. assert (exists p2, payload = bs ++ p2) as [p2 ->].
  { exists (drop (length bs) payload). pose proof (f_equal (take (length bs)) Hi') as Ht.
    rewrite take_app_length, take_app_le in Ht by lia. by rewrite <- Ht at 1; rewrite take_drop. }
  rewrite <- app_assoc in Hi'. apply app_inv_head in Hi'. rewrite length_app in Hp, Hf.
  assert (0 < length bs)%nat by (destruct bs; [done|simpl; lia]).
  destruct (write_at_some array bytesRead bs Hb ltac:(lia)) as [array' Hw]. pose proof (write_at_length _ _ _ _ Hw) as Hl.
  rewrite (read_loop_step n array bytesRead count bs array' s s1) by done.
  destruct (IH array' (bytesRead + Z.of_nat (length bs)) p2 s1) as (s' & R' & P); [done|lia..|done|].
  exists s'. split.
  - rewrite R'. do 3 f_equal. unfold write_at in Hw. destruct (_ && _); [|done]. injection Hw as <-.
    rewrite (app_assoc (take (Z.to_nat bytesRead) array) bs).
    replace (Z.to_nat (bytesRead + Z.of_nat (length bs))) with (length (take (Z.to_nat bytesRead) array ++ bs))
      by (rewrite length_app, length_take; lia).
    by rewrite take_app_length, <- app_assoc.
  - apply (passes_trans s s1 s' bs p2 [] []); [|done]. unfold passes. rewrite app_nil_r. split_and!; [|done|done].
    by rewrite Hi, <- app_assoc, Hi'.
Qed.

(** A message that is there is read and confirmed twice. *)
Lemma readBuffer_passes payload rest s :
  (0 < length payload <= fuel)%nat -> Z.of_nat (length payload) < 2 ^ 31 -> sound s -> whole s ->
  incoming s = message payload ++ rest ->
  exists s', readBuffer junk fuel s = Ok (Some payload, s') /\ passes s (message payload) (confirmations 2) s'.
Proof.
  intros Hl Hb Hs Hw Hi. unfold readBuffer. unfold message in Hi. rewrite <- app_assoc in Hi.
  destruct (readCount_passes (Z.of_nat (length payload)) (payload ++ rest) s) as (s1 & R1 & P1); [unfold is_sint; lia|done..|].
  run_step R1. destruct (Z.leb_spec (Z.of_nat (length payload)) 0); [lia|].
  destruct (writeConfirmation_passes s1) as (s2 & R2 & P2); [apply P1|]. run_step R2. cbn [negb].
  destruct (read_loop_passes fuel (replicate (Z.to_nat (Z.of_nat (length payload))) junk) 0 (Z.of_nat (length payload))
    payload rest s2) as (s3 & R3 & P3).
  { exact (passes_in _ _ _ _ (payload ++ rest) P2 (passes_in _ _ _ _ _ P1 Hi)). }
  all: try (rewrite ?length_replicate; lia). { apply P2. }
  run_step R3. cbv beta iota. rewrite Z.eqb_refl. cbn [negb].
  destruct (writeConfirmation_passes s3) as (s4 & R4 & P4); [apply P3|]. run_step R4. exists s4. split; [done|].
  pose proof (passes_trans _ _ _ _ _ _ _ (passes_trans _ _ _ _ _ _ _ (passes_trans _ _ _ _ _ _ _ P1 P2) P3) P4) as P.
  by rewrite !app_nil_r in P.
Qed.

(** A message that is confirmed twice is written. *)
Lemma writeBuffer_passes payload rest s :
  Z.of_nat (length payload) < 2 ^ 31 -> sound s -> incoming s = confirmations 2 ++ rest ->
  exists s', writeBuffer junk payload s = Ok (true, s') /\ passes s (confirmations 2) (message payload) s'.
Proof.
  intros Hb Hs Hi. unfold writeBuffer.
  destruct (writeCount_passes (Z.of_nat (length payload)) s Hs) as (s1 & R1 & P1). run_step R1. cbn [negb].
  pose proof (passes_in _ _ _ _ (Confirmation :: Confirmation :: rest) P1 Hi) as Hi1.
  destruct (readConfirmation_passes (Confirmation :: rest) s1) as (s2 & R2 & P2); [apply P1|done|]. run_step R2. cbn [negb].
  destruct (comm_write_passes payload s2) as (s3 & R3 & P3); [done|apply P2|]. run_step R3. rewrite Z.eqb_refl. cbn [negb].
  pose proof (passes_in _ _ _ _ (Confirmation :: rest) P3 (passes_in _ _ _ _ (Confirmation :: rest) P2 Hi1)) as Hi3.
  destruct (readConfirmation_passes rest s3) as (s4 & R4 & P4); [apply P3|done|]. exists s4. split; [done|].
  pose proof (passes_trans _ _ _ _ _ _ _ (passes_trans _ _ _ _ _ _ _ (passes_trans _ _ _ _ _ _ _ P1 P2) P3) P4) as P.
  by rewrite !app_nil_r in P.
Qed.
(** The engine greets with a string: [Hi!], a zero, anything. *)
Definition greets (greeting : list Z) : Prop :=
  strcmp_eq greeting hi = Some true /\ Z.of_nat (length greeting) < 2 ^ 31.

Lemma greets_length greeting b : strcmp_eq greeting hi = Some b -> (0 < length greeting)%nat.
Proof. destruct greeting; [done|simpl; lia]. Qed.

Lemma handshake_passes greeting rest s :
  greets greeting -> (length greeting <= fuel)%nat -> sound s -> whole s ->
  incoming s = message greeting ++ confirmations 2 ++ rest ->
  exists s', handshake junk fuel s = Ok (true, s') /\
    passes s (message greeting ++ confirmations 2) (confirmations 2 ++ message (take 3 hi)) s'.
Proof.
  intros [Hg Hb] Hf Hs Hw Hi. pose proof (greets_length _ _ Hg). unfold handshake.
  destruct (readBuffer_passes greeting (confirmations 2 ++ rest) s) as (s1 & R1 & P1); [lia|done..|]. run_step R1.
  rewrite (st_bind_run _ _ _ true s1) by (unfold st_read; by rewrite Hg). cbn [negb].
  destruct (writeBuffer_passes (take 3 hi) rest s1) as (s2 & R2 & P2);
    [simpl; lia|apply P1|exact (passes_in _ _ _ _ _ P1 Hi)|].
  exists s2. split; [done|]. exact (passes_trans _ _ _ _ _ _ _ P1 P2).
Qed.

(** The start of a session over any transport that can be opened. *)
Lemma startSession_passes ProbesAddresses greeting rest s s0 :
  comm_open s = Ok (true, s0) -> sound s0 -> whole s0 -> greets greeting -> (length greeting <= fuel)%nat ->
  8 * Z.of_nat (length ProbesAddresses) < 2 ^ 31 -> incoming s0 = message greeting ++ confirmations 4 ++ rest ->
  exists s', startSession junk fuel ProbesAddresses s = Ok (true, s') /\
    passes s0 (message greeting ++ confirmations 4)
      (confirmations 2 ++ message (take 3 hi) ++ message (flat_map (le_bytes 8) ProbesAddresses)) s'.
Proof.
  intros Ho Hs Hw Hg Hf Hp Hi. unfold startSession, connect. rewrite st_bind_assoc. run_step Ho. cbv iota.
  destruct (handshake_passes greeting (confirmations 2 ++ rest) s0) as (s1 & R1 & P1); [done..|]. run_step R1.
  unfold sendProbes. destruct (writeBuffer_passes (flat_map (le_bytes 8) ProbesAddresses) rest s1) as (s2 & R2 & P2).
  - rewrite length_flat_map_le. lia.
  - apply P1.
  - apply (passes_in _ _ _ _ _ P1). by rewrite Hi, <- !app_assoc.
  - exists s2. split; [done|]. pose proof (passes_trans _ _ _ _ _ _ _ P1 P2) as P. by rewrite <- !app_assoc in P.
Qed.
End lawful.

(** ** The socket is lawful *)

(** No read fails, and the next one may deliver four bytes. *)
Definition smooth (cs : list Z) : Prop :=
  Forall (fun k => 0 < k) cs /\ match cs with [] => True | k :: _ => 4 <= k end.

Lemma socket_read_run count s :
  0 < count -> Forall (fun k => 0 < k) (chunks s) ->
  exists bs rest, socket_read count s = Ok ((Z.of_nat (length bs), bs), mkSocket (drop (length bs) (inbox s)) (outbox s) rest) /\
    bs = take (length bs) (inbox s) /\ Z.of_nat (length bs) <= count /\
    (inbox s <> [] -> (0 < length bs)%nat) /\ Forall (fun k => 0 < k) rest /\
    (match chunks s with [] => True | k :: _ => count <= k end -> count <= Z.of_nat (length (inbox s)) ->
       Z.of_nat (length bs) = count).
Proof.
  intros Hc HF. unfold socket_read.
  assert (Hgen : forall k rest, 0 < k -> Forall (fun k => 0 < k) rest ->
    let bs := take (Z.to_nat (Z.min k count)) (inbox s) in
    bs = take (length bs) (inbox s) /\ Z.of_nat (length bs) <= count /\ (inbox s <> [] -> (0 < length bs)%nat) /\
    Forall (fun k => 0 < k) rest /\
    (count <= k -> count <= Z.of_nat (length (inbox s)) -> Z.of_nat (length bs) = count)).
  { intros k rest Hk Hr bs. subst bs. split_and!; rewrite ?take_length_take, ?length_take.
    - done.
    - lia.
    - intros Hne. destruct (inbox s); [done|simpl; lia].
    - done.
    - lia. }
  destruct (chunks s) as [|k rest] eqn:E.
  - destruct (Hgen count [] Hc HF) as (H1 & H2 & H3 & H4 & H5). do 2 eexists. split; [done|].
    split_and!; try done. intros _. apply H5. lia.
  - apply Forall_cons in HF as [Hk HF]. destruct (Z.ltb_spec k 0); [lia|].
    destruct (Hgen k rest Hk HF) as (H1 & H2 & H3 & H4 & H5). do 2 eexists. split; [done|]. by split_and!.
Qed.

#[export] Instance socket_lawful : LawfulCommunicator socket.
Proof.
  refine {| incoming := inbox; outgoing := outbox; sound := fun s => Forall (fun k => 0 < k) (chunks s);
            whole := fun s => match chunks s with [] => True | k :: _ => 4 <= k end |}.
  - intros count s Hc HF. destruct (socket_read_run count s) as (bs & cs & R & Hbs & Hle & Hpos & HF' & Hfull); [lia|done|].
    exists bs, (mkSocket (drop (length bs) (inbox s)) (outbox s) cs). cbn [inbox outbox chunks]. split_and!; try done.
    + rewrite Hbs at 1. by rewrite take_drop.
    + intros H ->. specialize (Hpos H). simpl in Hpos. lia.
    + intros Hw H4. apply Hfull. destruct (chunks s); [done|lia].
  - intros m s _ HF. eexists. split; [reflexivity|]. by split_and!.
Defined.

Lemma comm_write_run m (s : socket) :
  comm_write m s = Ok (Z.of_nat (length m), mkSocket (inbox s) (outbox s ++ m) (chunks s)).
Proof. done. Qed.

Lemma writeConfirmation_run (s : socket) :
  writeConfirmation s = Ok (true, mkSocket (inbox s) (outbox s ++ [Confirmation]) (chunks s)).
Proof. done. Qed.

(** [passes] on sockets, spelled out. *)
Lemma socket_passes i o cs bs out rest s' :
  passes (mkSocket i o cs) bs out s' -> i = bs ++ rest ->
  exists cs', s' = mkSocket rest (o ++ out) cs' /\ Forall (fun k => 0 < k) cs'.
Proof.
  intros P Hi. pose proof (passes_in _ _ _ _ rest P Hi) as Hr. destruct P as (_ & Ho & Hs), s' as [i' o' cs'].
  cbn in *. subst. eauto.
Qed.

Lemma readBuffer_run junk fuel payload rest out cs :
  (0 < length payload <= fuel)%nat -> Z.of_nat (length payload) < 2 ^ 31 -> smooth cs ->
  exists cs', readBuffer junk fuel (mkSocket (le_bytes 4 (Z.of_nat (length payload)) ++ payload ++ rest) out cs) =
      Ok (Some payload, mkSocket rest (out ++ [Confirmation; Confirmation]) cs') /\ Forall (fun k => 0 < k) cs'.
Proof.
  intros Hl Hb [HF H4]. rewrite app_assoc.
  destruct (readBuffer_passes junk fuel payload rest (mkSocket (message payload ++ rest) out cs)) as (s' & R & P);
    [done|done|exact HF|exact H4|done|].
  destruct (socket_passes _ _ _ _ _ rest _ P eq_refl) as (cs' & -> & HF'). by exists cs'.
Qed.

Lemma writeBuffer_run junk payload rest out cs :
  Z.of_nat (length payload) < 2 ^ 31 -> Forall (fun k => 0 < k) cs ->
  exists cs', writeBuffer junk payload (mkSocket (Confirmation :: Confirmation :: rest) out cs) =
      Ok (true, mkSocket rest (out ++ le_bytes 4 (Z.of_nat (length payload)) ++ payload) cs') /\ Forall (fun k => 0 < k) cs'.
Proof.
  intros Hb HF.
  destruct (writeBuffer_passes junk payload rest (mkSocket (Confirmation :: Confirmation :: rest) out cs)) as (s' & R & P); try done.
  destruct (socket_passes _ _ _ _ _ rest _ P eq_refl) as (cs' & -> & HF'). by exists cs'.
Qed.

(** ** Messages over a socket that delivers what is asked for *)

Lemma writeBuffer_all junk bytes rest out :
  writeBuffer junk bytes (mkSocket (Confirmation :: Confirmation :: rest) out []) =
    Ok (true, mkSocket rest (out ++ message bytes) []).
Proof.
  unfold writeBuffer.
  rewrite (st_bind_run _ _ _ true (mkSocket (Confirmation :: Confirmation :: rest) (out ++ le_bytes 4 (Z.of_nat (length bytes))) [])).
  2: { unfold writeCount. rewrite (st_bind_run _ _ _ _ _ (comm_write_run _ _)). by rewrite length_le_bytes. }
  cbn [negb]. rewrite (st_bind_run _ _ _ true (mkSocket (Confirmation :: rest) (out ++ le_bytes 4 (Z.of_nat (length bytes))) [])) by done.
  cbn [negb]. rewrite (st_bind_run _ _ _ _ _ (comm_write_run _ _)), Z.eqb_refl. cbn [negb inbox outbox chunks].
  unfold message. by rewrite app_assoc.
Qed.

Lemma sendSerializable_all junk cmd bytes rest out :
  sendSerializable junk cmd bytes (mkSocket (confirmations 4 ++ rest) out []) =
    Ok (true, mkSocket rest (out ++ message [cmd] ++ message bytes) []).
Proof.
  unfold sendSerializable. cbn [confirmations replicate app]. run_step (writeBuffer_all junk [cmd] (Confirmation :: Confirmation :: rest) out).
  cbn [negb]. by rewrite writeBuffer_all, <- app_assoc.
Qed.

Lemma socket_read_all bs rest out :
  socket_read (Z.of_nat (length bs)) (mkSocket (bs ++ rest) out []) = Ok ((Z.of_nat (length bs), bs), mkSocket rest out []).
Proof.
  unfold socket_read. cbn [chunks inbox outbox]. rewrite Z.min_id, Nat2Z.id, take_app_length.
  by rewrite drop_app_length.
Qed.

Lemma readBuffer_all junk fuel bytes rest out :
  (0 < length bytes)%nat -> (0 < fuel)%nat -> Z.of_nat (length bytes) < 2 ^ 31 ->
  readBuffer junk fuel (mkSocket (message bytes ++ rest) out []) =
    Ok (Some bytes, mkSocket rest (out ++ confirmations 2) []).
Proof.
  intros Hl Hf Hb. unfold readBuffer, message. rewrite <- app_assoc.
  rewrite (st_bind_run _ _ _ (Some (Z.of_nat (length bytes))) (mkSocket (bytes ++ rest) out [])).
  2: { unfold readCount. change (@comm_read socket _) with socket_read.
       pose proof (socket_read_all (le_bytes 4 (Z.of_nat (length bytes))) (bytes ++ rest) out) as R.
       rewrite length_le_bytes in R. run_step R. cbv iota beta. unfold mret, st_ret. rewrite le_Z_bytes.
       rewrite sint_wrap, sint_small by (unfold is_sint; lia). done. }
  destruct (Z.leb_spec (Z.of_nat (length bytes)) 0); [lia|]. run_step (writeConfirmation_run (mkSocket (bytes ++ rest) out [])).
  cbn [negb inbox outbox chunks]. destruct fuel as [|fuel]; [lia|].
  rewrite (st_bind_run _ _ _ (bytes, Z.of_nat (length bytes)) (mkSocket rest (out ++ [Confirmation]) [])).
  2: { cbn [read_loop]. destruct (Z.ltb_spec 0 (Z.of_nat (length bytes))); [|lia]. rewrite Z.sub_0_r.
       change (@comm_read socket _) with socket_read. run_step (socket_read_all bytes rest (out ++ [Confirmation])). cbv beta iota.
       rewrite (st_bind_run _ _ _ bytes (mkSocket rest (out ++ [Confirmation]) [])).
       - destruct (Z.eqb_spec (Z.of_nat (length bytes)) 0); [lia|]. rewrite Z.add_0_l.
         destruct fuel; cbn [read_loop]; rewrite Z.ltb_irrefl; done.
       - unfold st_read, write_at. rewrite length_replicate, Nat2Z.id. destruct bytes as [|b bs] eqn:E; [simpl in Hl; lia|]. rewrite <- E.
         destruct (_ && _) eqn:Eb; [|exfalso; lia]. rewrite (drop_ge (replicate _ _)) by (rewrite length_replicate; simpl; lia).
         by rewrite app_nil_r. }
  rewrite Z.eqb_refl. cbn [negb]. run_step (writeConfirmation_run (mkSocket rest (out ++ [Confirmation]) [])).
  cbn [inbox outbox chunks]. by rewrite <- app_assoc.
Qed.

(** C16: a message passes between two ends of a connection: the bytes that
    [writeBuffer] sends, after the two confirmations that [readBuffer] sends,
    make [readBuffer] return exactly the message, in however many pieces the
    socket delivers its body, and neither end consumes anything else.  The four
    bytes of the length must arrive in one read ([smooth]); the code refuses the
    message otherwise ([split_length_refused]). *)
Theorem message_roundtrip junk fuel payload rest rest' cs cs' :
  (0 < length payload <= fuel)%nat -> Z.of_nat (length payload) < 2 ^ 31 ->
  Forall (fun k => 0 < k) cs' -> smooth cs ->
  exists sender receiver,
    writeBuffer junk payload (mkSocket (Confirmation :: Confirmation :: rest') [] cs') = Ok (true, sender) /\
    readBuffer junk fuel (mkSocket (outbox sender ++ rest) [] cs) = Ok (Some payload, receiver) /\
    inbox receiver = rest /\ outbox receiver = [Confirmation; Confirmation] /\ inbox sender = rest'.
Proof.
  intros Hl Hb HF Hs.
  destruct (writeBuffer_run junk payload rest' [] cs' Hb HF) as (c1 & R1 & _).
  destruct (readBuffer_run junk fuel payload rest [] cs Hl Hb Hs) as (c2 & R2 & _).
  do 2 eexists. split; [exact R1|]. cbn [outbox inbox app]. rewrite <- app_assoc. split; [exact R2|done].
Qed.

Lemma message_roundtrip_witness :
  exists sender receiver,
    writeBuffer 0 [1; 2; 3; 4; 5] (mkSocket [0x55; 0x55] [] [1; 1]) = Ok (true, sender) /\
    readBuffer 0 5 (mkSocket (outbox sender) [] [4; 2; 1; 2]) = Ok (Some [1; 2; 3; 4; 5], receiver).
Proof.
  destruct (message_roundtrip 0 5 [1; 2; 3; 4; 5] [] [] [4; 2; 1; 2] [1; 1]) as (s & r & R1 & R2 & _).
  - simpl. lia.
  - simpl. lia.
  - repeat constructor.
  - split; [repeat constructor|lia].
  - exists s, r. split; [exact R1|]. rewrite app_nil_r in R2. exact R2.
Defined.

(** [readCount] reads once: a message whose length word arrives in two pieces is
    refused although all of it is there, and the rest of the word is left as
    the beginning of the next message. *)
Theorem split_length_refused junk fuel payload rest out k cs :
  0 <= k < 4 ->
  let sent := le_bytes 4 (Z.of_nat (length payload)) ++ payload ++ rest in
  readBuffer junk fuel (mkSocket sent out (k :: cs)) = Ok (None, mkSocket (drop (Z.to_nat k) sent) out cs).
Proof.
  intros Hk sent. assert (4 <= length sent)%nat as Hl by (subst sent; rewrite length_app, length_le_bytes; lia).
  assert (length (take (Z.to_nat (Z.min k 4)) sent) = Z.to_nat k) as Ht by (rewrite length_take; lia).
  unfold readBuffer, readCount. rewrite st_bind_assoc.
  rewrite (st_bind_run _ _ _ (k, take (Z.to_nat (Z.min k 4)) sent) (mkSocket (drop (Z.to_nat k) sent) out cs)).
  - cbn beta iota. rewrite st_ret_bind. destruct (Z.eqb_spec k 4); [lia|done].
  - change (@comm_read socket _) with socket_read. unfold socket_read. cbn [chunks inbox outbox].
    destruct (Z.ltb_spec k 0); [lia|]. by rewrite Ht, Z2Nat.id by lia.
Qed.

Lemma split_length_refused_witness :
  readBuffer 0 9 (mkSocket [2; 0; 0; 0; 7; 7] [] [3; 5]) = Ok (None, mkSocket [0; 7; 7] [] [5]).
Proof. apply (split_length_refused 0 9 [7; 7] [] [] 3 [5]). lia. Defined.

(** The engine's answer to [InstrumentCommand]. *)
Definition body_message (code : list Z) (maxStack : Z) (ehs : list Z) : list Z :=
  le_bytes 4 (Z.of_nat (length code)) ++ le_bytes 4 maxStack ++ code ++ ehs.

Lemma length_body_message code maxStack ehs : length (body_message code maxStack ehs) = (8 + length code + length ehs)%nat.
Proof. unfold body_message. rewrite !length_app, !length_le_bytes. lia. Qed.

Lemma acceptMethodBody_run junk fuel code maxStack ehs (s0 s : socket) :
  Z.of_nat (length (body_message code maxStack ehs)) < 2 ^ 31 -> is_uint 32 maxStack ->
  readBuffer junk fuel s0 = Ok (Some (body_message code maxStack ehs), s) ->
  acceptMethodBody junk fuel s0 = Ok (Some (mkMethodBody code (Z.of_nat (length code)) maxStack ehs (Z.of_nat (length ehs))), s).
Proof.
  intros Hb Hm R. pose proof (length_body_message code maxStack ehs) as Hlen. unfold acceptMethodBody. run_step R.
  set (m := body_message code maxStack ehs) in *.
  assert (seg_at m 0 (le_bytes 4 (Z.of_nat (length code)) ++ le_bytes 4 maxStack ++ code ++ ehs)) as Hseg.
  { fold (body_message code maxStack ehs). fold m. unfold seg_at, read_at. destruct (_ && _) eqn:E; [|exfalso; lia].
    change (Z.to_nat 0) with 0%nat. by rewrite drop_0, firstn_all. }
  apply seg_at_app in Hseg as [S1 Hseg]. apply seg_at_app in Hseg as [S2 Hseg]. apply seg_at_app in Hseg as [S3 S4].
  unfold seg_at in S1, S2, S3, S4. repeat rewrite length_le_bytes in S1. repeat rewrite length_le_bytes in S2.
  repeat rewrite length_le_bytes in S3. repeat rewrite length_le_bytes in S4.
  change (0 + Z.of_nat 4) with 4 in *. change (4 + Z.of_nat 4) with 8 in *.
  rewrite (st_bind_run _ _ _ _ s) by (unfold st_read; by rewrite S1).
  rewrite le_Z_bytes. change (8 * Z.of_nat 4) with 32. rewrite sint_wrap, sint_small by (unfold is_sint; lia).
  rewrite (st_bind_run _ _ _ _ s) by (unfold st_read; by rewrite S2).
  destruct (Z.ltb_spec (Z.of_nat (length code)) 0); [lia|]. rewrite st_ret_bind, Nat2Z.id.
  rewrite (st_bind_run _ _ _ _ s) by (unfold st_read; by rewrite S3).
  replace (Z.of_nat (length m) - 4 - 4 - Z.of_nat (length code)) with (Z.of_nat (length ehs)) by lia.
  rewrite wrap_small, Nat2Z.id by (unfold is_uint; lia).
  rewrite (st_bind_run _ _ _ _ s) by (unfold st_read; by rewrite S4).
  rewrite le_Z_bytes. change (8 * Z.of_nat 4) with 32. by rewrite wrap_small.
Qed.

(** The engine's answer to [InstrumentCommand] is taken apart as it was put
    together: code length, stack size, code, exception clauses. *)
Theorem acceptMethodBody_spec junk fuel code maxStack ehs rest out cs :
  let m := body_message code maxStack ehs in
  (length m <= fuel)%nat -> Z.of_nat (length m) < 2 ^ 31 -> is_uint 32 maxStack -> smooth cs ->
  exists s, acceptMethodBody junk fuel (mkSocket (message m ++ rest) out cs) =
      Ok (Some (mkMethodBody code (Z.of_nat (length code)) maxStack ehs (Z.of_nat (length ehs))), s) /\ inbox s = rest.
Proof.
  intros m Hl Hb Hm Hs. pose proof (length_body_message code maxStack ehs) as Hlen. fold m in Hlen.
  destruct (readBuffer_run junk fuel m rest out cs ltac:(lia) Hb Hs) as (c & R & _).
  eexists. unfold message. rewrite <- app_assoc. by split; [apply acceptMethodBody_run|].
Qed.

Lemma acceptMethodBody_spec_witness :
  exists s, acceptMethodBody 0 13 (mkSocket [13; 0; 0; 0; 3; 0; 0; 0; 8; 0; 0; 0; 0x16; 0x26; 0x2A; 7; 9] [] []) =
    Ok (Some (mkMethodBody [0x16; 0x26; 0x2A] 3 8 [7; 9] 2), s) /\ inbox s = [].
Proof.
  apply (acceptMethodBody_spec 0 13 [0x16; 0x26; 0x2A] 8 [7; 9] [] [] []).
  - simpl. lia.
  - simpl. lia.
  - split; [lia|reflexivity].
  - split; [constructor|exact I].
Defined.

(** a failing [read] in the middle of a message moves the write position
    in front of the receive buffer, and the next bytes are written there. *)
Theorem read_error_underruns junk fuel b1 b2 b3 b4 b5 bs out k cs :
  1 < sint 32 (le_Z [b1; b2; b3; b4]) -> 0 < k ->
  readBuffer junk (S (S fuel)) (mkSocket ([b1; b2; b3; b4; b5] ++ bs) out (4 :: -1 :: k :: cs)) = Err Undefined.
Proof.
  intros Hn Hk. unfold readBuffer.
  assert (readCount (mkSocket ([b1; b2; b3; b4; b5] ++ bs) out (4 :: -1 :: k :: cs)) =
    Ok (Some (sint 32 (le_Z [b1; b2; b3; b4])), mkSocket (b5 :: bs) out (-1 :: k :: cs))) as R1 by done.
  run_step R1. set (n := sint 32 _) in *. destruct (Z.leb_spec n 0); [lia|].
  rewrite (st_bind_run _ _ _ _ _ (writeConfirmation_run _)). cbn [negb inbox outbox chunks].
  apply st_bind_err. cbn [read_loop]. destruct (Z.ltb_spec 0 n); [|lia].
  change (@comm_read socket _) with socket_read.
  rewrite (st_bind_run (socket_read (n - 0)) _ _ (-1, []) (mkSocket (b5 :: bs) (out ++ [Confirmation]) (k :: cs))) by done.
  cbn beta iota. rewrite (st_bind_run _ _ _ (replicate (Z.to_nat n) junk) (mkSocket (b5 :: bs) (out ++ [Confirmation]) (k :: cs))) by done.
  cbn [Z.eqb]. change (0 + -1) with (-1). destruct (Z.ltb_spec (-1) n); [|lia].
  destruct (socket_read_run (n - -1) (mkSocket (b5 :: bs) (out ++ [Confirmation]) [k])) as (bs' & cs' & R & Hbs & _ & Hpos & _ & _);
    [lia|by repeat constructor|]. cbn [inbox outbox] in *. specialize (Hpos ltac:(done)).
  assert (socket_read (n - -1) (mkSocket (b5 :: bs) (out ++ [Confirmation]) (k :: cs)) =
    Ok ((Z.of_nat (length bs'), bs'), mkSocket (drop (length bs') (b5 :: bs)) (out ++ [Confirmation]) cs)) as R'.
  { unfold socket_read in R |- *. cbn [chunks inbox outbox] in *. destruct (Z.ltb_spec k 0); [lia|].
    injection R as E1 E2 E3 E4. by rewrite E2. }
  run_step R'. cbn beta iota. apply st_bind_err. unfold st_read, write_at.
  destruct bs'; [simpl in Hpos; lia|done].
Qed.

Lemma read_error_underruns_witness :
  readBuffer 0 9 (mkSocket [2; 0; 0; 0; 7; 7] [] [4; -1; 1]) = Err Undefined.
Proof. apply (read_error_underruns 0 7 2 0 0 0 7 [7] [] 1 []); [reflexivity|lia]. Defined.
