(* ===== verification/WinPipe.v ===== *)
(** * The connection on Windows

    The named-pipe side of [Communicator]
    ([VSharp.ClrInteraction/communication/windowsFifoCommunicator.cpp]).  The
    protocol of Protocol.v runs over it through the laws that it shares with the
    Unix socket.  The environment and [CreateFile] are parameters; what each
    [ReadFile] and [WriteFile] does is a schedule in the state. *)

From S2P Require Import Prelude Protocol.
Local Open Scope Z_scope.

(** ** The system and the pipe *)

(** The environment variable [CONCOLIC_PIPE] as wide characters, and the handle
    that the system gives for a name. *)
Record WinSystem := {
  wide_variable : option (list Z);
  CreateFile : list Z -> Z
}.

Definition INVALID_HANDLE_VALUE : Z := -1.

(** [hPipe], the open handles, the names that were opened, the bytes from and to
    the engine; for each coming [ReadFile] its result and how many bytes it
    delivers at most (a failed one may have delivered bytes), for each coming
    [WriteFile] how many bytes it takes.  A call without an entry succeeds and
    moves all there is. *)
Record pipe := mkPipe {
  hPipe : Z;
  handles : list Z;
  names : list (list Z);
  from_engine : list Z;
  to_engine : list Z;
  reads : list (bool * Z);
  writes : list (bool * Z)
}.

(** [ReadFile(hPipe, buffer, count, &cbRead, NULL)]: its result, [cbRead], which
    it sets to zero before it does anything else, and the bytes in the buffer. *)
Definition ReadFile (count : Z) : st pipe (bool * Z * list Z) := fun p =>
  let deliver ok k rest :=
    let bs := take (Z.to_nat (Z.min k count)) (from_engine p) in
    Ok ((ok, Z.of_nat (length bs), bs),
        mkPipe (hPipe p) (handles p) (names p) (drop (length bs) (from_engine p)) (to_engine p) rest (writes p)) in
  match reads p with
  | [] => deliver true count []
  | (ok, k) :: rest => deliver ok k rest
  end.

(** [WriteFile(hPipe, message, count, &cbWritten, NULL)]. *)
Definition WriteFile (message : list Z) : st pipe (bool * Z) := fun p =>
  let accept ok k rest :=
    let bs := take (Z.to_nat k) message in
    Ok ((ok, Z.of_nat (length bs)),
        mkPipe (hPipe p) (handles p) (names p) (from_engine p) (to_engine p ++ bs) (reads p) rest) in
  match writes p with
  | [] => accept true (Z.of_nat (length message)) []
  | (ok, k) :: rest => accept ok k rest
  end.

(** ** [Communicator] *)

(** A null pointer for a missing variable goes to the constructor of the string,
    before the test that is meant to reject it. *)
Definition pipe_open (sys : WinSystem) : st pipe bool :=
  pipeFile ← st_read (fun _ => wide_variable sys);
  if Z.of_nat (length pipeFile) <? 1 then st_fail (Thrown "Invalid pipe environment variable!") else
  st_modify (fun p => mkPipe (CreateFile sys pipeFile) (handles p) (names p ++ [pipeFile]) (from_engine p) (to_engine p) (reads p) (writes p));;
  p ← st_get;
  if hPipe p =? INVALID_HANDLE_VALUE then mret false else
  st_modify (fun p => mkPipe (hPipe p) (hPipe p :: handles p) (names p) (from_engine p) (to_engine p) (reads p) (writes p));;
  mret true.

(** [if (!fSuccess || cbRead < 0) reportError();] only logs: the number of bytes
    is returned as an [int] whatever the call's result. *)
Definition pipe_read (count : Z) : st pipe (Z * list Z) :=
  r ← ReadFile count;
  let '(fSuccess, cbRead, buffer) := (r : bool * Z * list Z) in
  mret (sint 32 cbRead, buffer).

Definition pipe_write (message : list Z) : st pipe Z :=
  r ← WriteFile message;
  let '(fSuccess, cbWritten) := (r : bool * Z) in
  mret (sint 32 cbWritten).

(** The result of [CloseHandle] is not looked at. *)
Definition pipe_close : st pipe bool :=
  st_modify (fun p => mkPipe (hPipe p) (List.filter (fun h => negb (h =? hPipe p)) (handles p)) (names p)
    (from_engine p) (to_engine p) (reads p) (writes p));;
  mret true.

#[export] Instance pipe_communicator (sys : WinSystem) : Communicator pipe := {
  comm_read := pipe_read;
  comm_write := pipe_write;
  comm_open := pipe_open sys
}.

(** ** The pipe is lawful *)

(** Every read delivers something, whether it succeeds or not, and nothing cuts a
    write. *)
Definition flowing (p : pipe) : Prop := Forall (fun r => 0 < r.2) (reads p) /\ writes p = [].

Lemma ReadFile_run count p : 0 < count -> Forall (fun r => 0 < r.2) (reads p) ->
  exists ok bs rest,
    ReadFile count p = Ok ((ok, Z.of_nat (length bs), bs),
      mkPipe (hPipe p) (handles p) (names p) (drop (length bs) (from_engine p)) (to_engine p) rest (writes p)) /\
    bs = take (length bs) (from_engine p) /\ Z.of_nat (length bs) <= count /\ (from_engine p <> [] -> bs <> []) /\
    Forall (fun r => 0 < r.2) rest /\
    (match reads p with [] => True | r :: _ => count <= r.2 end -> count <= Z.of_nat (length (from_engine p)) ->
       Z.of_nat (length bs) = count).
Proof.
  intros Hc HF. assert (exists ok k rest, 0 < k /\ Forall (fun r : bool * Z => 0 < r.2) rest /\
    ReadFile count p = (let bs := take (Z.to_nat (Z.min k count)) (from_engine p) in Ok ((ok, Z.of_nat (length bs), bs),
      mkPipe (hPipe p) (handles p) (names p) (drop (length bs) (from_engine p)) (to_engine p) rest (writes p))) /\
    (match reads p with [] => True | r :: _ => count <= r.2 end -> count <= k)) as (ok & k & rest & Hk & Hr & R & Hw).
  { unfold ReadFile. destruct (reads p) as [|[ok k] rest].
    - exists true, count, []. by split_and!.
    - apply Forall_cons in HF as [Hk HF]. by exists ok, k, rest. }
  exists ok, (take (Z.to_nat (Z.min k count)) (from_engine p)), rest. split_and!; [exact R|..|done|].
  - by rewrite take_length_take.
  - rewrite length_take. lia.
  - intros Hne E. apply (f_equal length) in E. rewrite length_take in E. destruct (from_engine p); [done|simpl in E; lia].
  - intros H1 H2. specialize (Hw H1). rewrite length_take. lia.
Qed.

Lemma WriteFile_run m p : writes p = [] ->
  WriteFile m p = Ok ((true, Z.of_nat (length m)),
    mkPipe (hPipe p) (handles p) (names p) (from_engine p) (to_engine p ++ m) (reads p) []).
Proof. intros Hw. unfold WriteFile. by rewrite Hw, Nat2Z.id, firstn_all. Qed.

#[export] Instance pipe_lawful (sys : WinSystem) : LawfulCommunicator pipe (HC := pipe_communicator sys).
Proof.
  refine {| incoming := from_engine; outgoing := to_engine; sound := flowing;
            whole := fun p => match reads p with [] => True | r :: _ => 4 <= r.2 end |}.
  - intros count p Hc [HF Hw]. cbn [comm_read pipe_communicator]. unfold pipe_read.
    destruct (ReadFile_run count p) as (ok & bs & rest & R & Hbs & Hle & Hne & HF' & Hfull); [lia|done|].
    run_step R. cbv beta iota. rewrite sint_small by (unfold is_sint; lia). do 2 eexists. split; [reflexivity|].
    cbn [from_engine to_engine]. split_and!; [rewrite Hbs at 1; by rewrite take_drop|done|done|done|done|].
    intros H4 H4'. apply Hfull. destruct (reads p); [done|lia].
  - intros m p Hm [HF Hw]. cbn [comm_write pipe_communicator]. unfold pipe_write.
    run_step (WriteFile_run m p Hw). cbv beta iota.
    rewrite sint_small by (unfold is_sint; lia). eexists. split; [reflexivity|]. by split_and!.
Defined.

(** ** The start of a session *)

(** The variable names a pipe that can be opened. *)
Record names_pipe (sys : WinSystem) (name : list Z) : Prop := {
  np_variable : wide_variable sys = Some name;
  np_name : (0 < length name)%nat;
  np_handle : CreateFile sys name <> INVALID_HANDLE_VALUE
}.

Definition pipe_opened (sys : WinSystem) (name : list Z) (p : pipe) : pipe :=
  mkPipe (CreateFile sys name) (CreateFile sys name :: handles p) (names p ++ [name]) (from_engine p) (to_engine p)
    (reads p) (writes p).

Lemma pipe_open_run sys name p : names_pipe sys name -> pipe_open sys p = Ok (true, pipe_opened sys name p).
Proof.
  intros [Hv Hn Hh]. unfold pipe_open. rewrite (st_bind_run _ _ _ name p) by (unfold st_read; by rewrite Hv).
  destruct (Z.ltb_spec (Z.of_nat (length name)) 1); [lia|]. rewrite st_modify_bind, st_get_bind. cbn [hPipe].
  by destruct (Z.eqb_spec (CreateFile sys name) INVALID_HANDLE_VALUE).
Qed.

(** C38: Over a pipe that can be opened the session starts as over the socket,
    in whatever pieces the pipe delivers after a first read of at least four
    bytes (the code refuses a length that is split), also when a read reports a
    failure with the bytes it brings, as it does on a pipe of messages: the
    engine is greeted back and sent the addresses of the probes, every message is
    confirmed and nothing else is read or written. *)
Theorem pipe_session_starts sys junk fuel name ProbesAddresses greeting rest p :
  names_pipe sys name -> Forall (fun r => 0 < r.2) (reads p) -> writes p = [] ->
  match reads p with [] => True | r :: _ => 4 <= r.2 end ->
  greets greeting -> (length greeting <= fuel)%nat -> 8 * Z.of_nat (length ProbesAddresses) < 2 ^ 31 ->
  from_engine p = message greeting ++ confirmations 4 ++ rest ->
  exists p', startSession (HC := pipe_communicator sys) junk fuel ProbesAddresses p = Ok (true, p') /\
    from_engine p' = rest /\
    to_engine p' = to_engine p ++ confirmations 2 ++ message (take 3 hi) ++ message (flat_map (le_bytes 8) ProbesAddresses).
Proof.
  intros Hn HF Hw H4 Hg Hf Hp Hi.
  destruct (startSession_passes (HC := pipe_communicator sys) junk fuel ProbesAddresses greeting rest p (pipe_opened sys name p))
    as (p' & R & P); [by apply pipe_open_run|by split|exact H4|done..|].
  exists p'. split; [done|]. rewrite app_assoc in Hi. split; [exact (passes_in _ _ _ _ rest P Hi)|apply P].
Qed.

(** Two messages of the engine, in pieces of four, one and two bytes; the second
    read reports a failure. *)
Lemma pipe_session_starts_witness :
  exists p', startSession (HC := pipe_communicator {| wide_variable := Some [92]; CreateFile := fun _ => 7 |}) 0 4 [513]
      (mkPipe 0 [] [] [4; 0; 0; 0; 0x48; 0x69; 0x21; 0; 0x55; 0x55; 0x55; 0x55] [] [(true, 4); (false, 1); (true, 2)] []) = Ok (true, p') /\
    from_engine p' = [] /\
    to_engine p' = [0x55; 0x55; 3; 0; 0; 0; 0x48; 0x69; 0x21; 8; 0; 0; 0; 1; 2; 0; 0; 0; 0; 0; 0].
Proof.
  apply (pipe_session_starts {| wide_variable := Some [92]; CreateFile := fun _ => 7 |} 0 4 [92] [513] [0x48; 0x69; 0x21; 0] []).
  - split; [reflexivity|simpl; lia|done].
  - repeat constructor.
  - reflexivity.
  - simpl. lia.
  - split; reflexivity.
  - simpl. lia.
  - simpl. lia.
  - reflexivity.
Defined.

(** ** Failures *)

(** Without the variable the string is made from a null pointer. *)
Lemma pipe_open_unset sys p : wide_variable sys = None -> pipe_open sys p = Err Undefined.
Proof. intros H. unfold pipe_open. apply st_bind_err. unfold st_read. by rewrite H. Qed.

(** A read that fails in the middle of a message, after the bytes [got], ends the
    message: it is refused, and confirmed only once.  On the socket the same
    failure is written in front of the buffer ([read_error_underruns]). *)
Theorem pipe_failure_refused sys junk fuel b1 b2 b3 b4 b5 got p rs :
  let n := sint 32 (le_Z [b1; b2; b3; b4]) in
  Z.of_nat (length (b5 :: got)) < n -> from_engine p = [b1; b2; b3; b4] ++ b5 :: got -> writes p = [] ->
  reads p = (true, 4) :: (true, n) :: (false, 0) :: rs ->
  exists p', readBuffer (HC := pipe_communicator sys) junk (S (S fuel)) p = Ok (None, p') /\
    from_engine p' = [] /\ to_engine p' = to_engine p ++ confirmations 1.
Proof.
  intros n Hn Hi Hw Hr. destruct p as [h hs ns i out rd w]. cbn [from_engine to_engine reads writes] in *. subst i w rd.
  set (q inp out rs := mkPipe h hs ns inp out rs []).
  assert (n < 2 ^ 31) by (pose proof (sint_range 32 (le_Z [b1; b2; b3; b4]) ltac:(lia)); unfold is_sint in *; fold n in H; lia).
  unfold readBuffer.
  fold (q ([b1; b2; b3; b4] ++ b5 :: got) out ((true, 4) :: (true, n) :: (false, 0) :: rs)).
  rewrite (st_bind_run readCount _ _ (Some n) (q (b5 :: got) out ((true, n) :: (false, 0) :: rs))) by done.
  destruct (Z.leb_spec n 0); [lia|].
  rewrite (st_bind_run writeConfirmation _ _ true (q (b5 :: got) (out ++ [Confirmation]) ((true, n) :: (false, 0) :: rs))) by done.
  cbn [negb]. exists (q [] (out ++ confirmations 1) rs). split; [|done].
  destruct (write_at_some (replicate (Z.to_nat n) junk) 0 (b5 :: got)) as [array Ha]; [lia|rewrite length_replicate; lia|].
  rewrite (st_bind_run _ _ _ (array, Z.of_nat (length (b5 :: got))) (q [] (out ++ confirmations 1) rs)).
  { cbv iota beta. by destruct (Z.eqb_spec (Z.of_nat (length (b5 :: got))) n); [lia|]. }
  rewrite (read_loop_step (HC := pipe_communicator sys) (S fuel) _ 0 n (b5 :: got) array _
    (q [] (out ++ [Confirmation]) ((false, 0) :: rs))); [|lia|lia|done| |done].
  - cbn [read_loop]. destruct (Z.ltb_spec (0 + Z.of_nat (length (b5 :: got))) n); [|lia].
    rewrite (st_bind_run (comm_read _) _ _ (0, []) (q [] (out ++ [Confirmation]) rs)); [done|].
    cbn [comm_read pipe_communicator]. unfold pipe_read.
    rewrite (st_bind_run _ _ _ (false, 0, []) (q [] (out ++ [Confirmation]) rs)); [done|].
    unfold ReadFile. cbn [reads q]. by rewrite Z.min_l by lia.
  - cbn [comm_read pipe_communicator]. unfold pipe_read.
    rewrite (st_bind_run _ _ _ (true, Z.of_nat (length (b5 :: got)), b5 :: got) (q [] (out ++ [Confirmation]) ((false, 0) :: rs))).
    + cbv beta iota. by rewrite sint_small by (unfold is_sint; lia).
    + unfold ReadFile. cbn [reads q from_engine]. rewrite Z.sub_0_r, Z.min_id, (take_ge (b5 :: got)) by lia. by rewrite drop_ge by lia.
Qed.

Lemma pipe_failure_refused_witness :
  exists p', readBuffer (HC := pipe_communicator {| wide_variable := None; CreateFile := fun _ => 7 |}) 0 9
      (mkPipe 7 [7] [] [3; 0; 0; 0; 1; 2] [] [(true, 4); (true, 3); (false, 0)] []) = Ok (None, p') /\
    from_engine p' = [] /\ to_engine p' = [0x55].
Proof.
  apply (pipe_failure_refused {| wide_variable := None; CreateFile := fun _ => 7 |} 0 7 3 0 0 0 1 [2]
    (mkPipe 7 [7] [] [3; 0; 0; 0; 1; 2] [] [(true, 4); (true, 3); (false, 0)] []) []); reflexivity.
Defined.
