(* ===== verification/Commands.v ===== *)
(** * Commands to the symbolic engine

    The first part of [VSharp.ClrInteraction/probes.h] and the thread switching
    of [memory.cpp]: the state all probes share, the operands and the commands
    with their memory images, and [sendCommand], which describes to the engine
    what has happened since the last command, waits for its answer and applies
    it.  The state puts the components together: a [Stack] per thread, the
    [Heap], the operand buffer and the connection. *)

From S2P Require Import Prelude CorHdr ConcStack ConcHeap MemBuffer Protocol.
Local Open Scope Z_scope.

(** ** The shared state *)

(** [currentStack] is a pointer to the [Stack] of a thread; [None] is null. *)
Record concolic := mkConcolic {
  lastThreadID : Z;
  currentStack : option Z;
  stacks : gmap Z Stack;
  heap : Heap;
  buffer : mem_state;
  chan : socket;
  main_entered : bool
}.
Definition concolic_init (s : socket) : concolic := mkConcolic 0 None ∅ new_Heap mem_init s false.

Definition with_stacks (m : gmap Z Stack) (c : concolic) : concolic :=
  mkConcolic (lastThreadID c) (currentStack c) m (heap c) (buffer c) (chan c) (main_entered c).

Definition on_heap {A} (m : st Heap A) : st concolic A := fun c =>
  match m (heap c) with
  | Ok (a, h) => Ok (a, mkConcolic (lastThreadID c) (currentStack c) (stacks c) h (buffer c) (chan c) (main_entered c))
  | Err e => Err e
  end.
Definition on_buffer {A} (m : st mem_state A) : st concolic A := fun c =>
  match m (buffer c) with
  | Ok (a, b) => Ok (a, mkConcolic (lastThreadID c) (currentStack c) (stacks c) (heap c) b (chan c) (main_entered c))
  | Err e => Err e
  end.
Definition on_chan {A} (m : st socket A) : st concolic A := fun c =>
  match m (chan c) with
  | Ok (a, s) => Ok (a, mkConcolic (lastThreadID c) (currentStack c) (stacks c) (heap c) (buffer c) s (main_entered c))
  | Err e => Err e
  end.

Definition mainEntered : st concolic unit := st_modify (fun c =>
  mkConcolic (lastThreadID c) (currentStack c) (stacks c) (heap c) (buffer c) (chan c) true).

(** [switchContext], run by thread [tid] without another thread between its
    accesses to the two global variables; ConcThreads.v has them one by one. *)
Definition switchContext (tid : Z) : st concolic unit := st_modify (fun c =>
  if tid =? lastThreadID c then c
  else mkConcolic tid (Some tid)
         (match stacks c !! tid with Some _ => stacks c | None => <[tid := new_Stack]> (stacks c) end)
         (heap c) (buffer c) (chan c) (main_entered c)).

(** An operation on [*currentStack]. *)
Definition on_current {A} (m : st Stack A) : st concolic A := fun c =>
  match currentStack c ≫= (fun t => k ← stacks c !! t; Some (t, k)) with
  | None => Err Undefined
  | Some (t, k) =>
      match m k with
      | Ok (a, k) => Ok (a, with_stacks (<[t := k]> (stacks c)) c)
      | Err e => Err e
      end
  end.

(** An operation on [vsharp::stack()] that no other thread interrupts. *)
Definition stack {A} (tid : Z) (m : st Stack A) : st concolic A :=
  switchContext tid;; on_current m.

(** An operation on [vsharp::topFrame()]. *)
Definition top_frame {A} (debug : bool) (tid : Z) (m : st StackFrame A) : st concolic A :=
  stack tid (topFrame debug m).

Definition mainLeft (tid : Z) : st concolic bool :=
  c ← st_get;
  if main_entered c then stack tid (k ← st_get; mret (Stack_isEmpty k)) else mret false.

(** [vsharp::resolve]. *)
Definition vsharp_resolve (p : Z) : st concolic VirtualAddress := on_heap (physToVirtAddress (wrap 64 p)).

(** [validateStackEmptyness] of the debug build. *)
Definition validateStackEmptyness (debug : bool) : st concolic unit := fun c =>
  if debug && negb (forallb (fun '(_, k) => Stack_isEmpty k) (map_items (stacks c)))
  then Err (Thrown "Stack is not empty after program termination!!") else Ok (tt, c).

Definition with_chan (s : socket) (c : concolic) : concolic :=
  mkConcolic (lastThreadID c) (currentStack c) (stacks c) (heap c) (buffer c) s (main_entered c).

Lemma on_chan_run {A} (m : st socket A) c a s : m (chan c) = Ok (a, s) -> on_chan m c = Ok (a, with_chan s c).
Proof. intros H. unfold on_chan. by rewrite H. Qed.

(** ** Operands *)

Definition OpSymbolic : Z := 1.
Definition OpI4 : Z := 2.
Definition OpI8 : Z := 3.
Definition OpR4 : Z := 4.
Definition OpR8 : Z := 5.
Definition OpRef : Z := 6.

(** The union [content] as its two 64-bit words: [number], which is also
    [address.obj], and [address.offset]. *)
Record EvalStackOperand := mkOperand {
  typ : Z;
  number : Z;
  address_offset : Z
}.
Definition op_address (o : EvalStackOperand) : VirtualAddress := mkVirtualAddress (wrap 64 (number o)) (address_offset o).

Definition operand_size (o : EvalStackOperand) : Z := if typ o =? OpRef then 4 + 8 + 8 else 4 + 8.

(** ** Writing memory images *)

(** A block of memory and the position of the pointer [buffer] in it. *)
Definition writer := st (list Z * Z).
Definition put (bs : list Z) : writer unit := fun '(block, pos) =>
  match write_at block pos bs with
  | Some block => Ok (tt, (block, pos + Z.of_nat (length bs)))
  | None => Err Undefined
  end.

Definition operand_serialize (o : EvalStackOperand) : writer unit :=
  put (le_bytes 4 (typ o));;
  if typ o =? OpRef
  then put (le_bytes 8 (number o));; put (le_bytes 8 (address_offset o))
  else put (le_bytes 8 (number o)).

(** [deserialize]: the operand and the rest of the bytes. *)
Definition operand_deserialize (old : EvalStackOperand) (bytes : list Z) : option (EvalStackOperand * list Z) :=
  '(t, bytes) ← take_bytes 4 bytes;
  let typ := le_Z t in
  if typ =? OpRef
  then '(obj, bytes) ← take_bytes 8 bytes;
       '(off, bytes) ← take_bytes 8 bytes;
       Some (mkOperand typ (sint 64 (le_Z obj)) (le_Z off), bytes)
  else '(num, bytes) ← take_bytes 8 bytes;
       Some (mkOperand typ (sint 64 (le_Z num)) (address_offset old), bytes).

(** ** ExecCommand *)

Record ExecCommand := mkExecCommand {
  cmd_offset : Z;
  cmd_isBranch : Z;
  newCallStackFramesCount : Z;
  callStackFramesPops : Z;
  evaluationStackPushesCount : Z;
  cmd_evaluationStackPops : Z;
  newAddressesCount : Z;
  newCallStackFrames : list Z;
  evaluationStackPushes : list EvalStackOperand;
  cmd_newAddresses : list Z;
  newAddressesTypeLengths : list Z;
  newAddressesTypes : list Z
}.

(** The elements of an array a loop or a [memcpy] reads. *)
Definition elements {A} (count : Z) (l : list A) : writer (list A) := st_read (fun _ => read_at l 0 (Z.to_nat count)).

(** [count], the size of the message; all sums are in [unsigned]. *)
Definition command_count (cmd : ExecCommand) (pushes : list EvalStackOperand) (fullTypesSize : Z) : Z :=
  let count := wrap 32 (7 * 4 + 4 * newCallStackFramesCount cmd) in
  let count := foldl (fun count o => wrap 32 (count + operand_size o)) count pushes in
  let count := wrap 32 (count + 8 * newAddressesCount cmd) in
  let count := wrap 32 (count + newAddressesCount cmd * 8) in
  wrap 32 (count + fullTypesSize).

Definition serialize (junk : Z) (cmd : ExecCommand) : result (list Z) :=
  match read_at (evaluationStackPushes cmd) 0 (Z.to_nat (evaluationStackPushesCount cmd)),
        read_at (newAddressesTypeLengths cmd) 0 (Z.to_nat (newAddressesCount cmd)) with
  | Some pushes, Some lengths =>
      let fullTypesSize := foldl (fun s l => wrap 64 (s + l)) 0 lengths in
      let count := command_count cmd pushes fullTypesSize in
      let write : writer unit :=
        put (le_bytes 4 (cmd_offset cmd));;
        put (le_bytes 4 (cmd_isBranch cmd));;
        put (le_bytes 4 (newCallStackFramesCount cmd));;
        put (le_bytes 4 (callStackFramesPops cmd));;
        put (le_bytes 4 (evaluationStackPushesCount cmd));;
        put (le_bytes 4 (cmd_evaluationStackPops cmd));;
        put (le_bytes 4 (newAddressesCount cmd));;
        frames ← elements (newCallStackFramesCount cmd) (newCallStackFrames cmd);
        put (flat_map (le_bytes 4) frames);;
        st_fold (fun o _ => operand_serialize o) pushes tt;;
        addrs ← elements (newAddressesCount cmd) (cmd_newAddresses cmd);
        put (flat_map (le_bytes 8) addrs);;
        put (flat_map (le_bytes 8) lengths);;
        types ← elements fullTypesSize (newAddressesTypes cmd);
        put types in
      match write (replicate (Z.to_nat count) junk, 0) with
      | Ok (_, (bytes, _)) => Ok bytes
      | Err e => Err e
      end
  | _, _ => Err Undefined
  end.

(** ** Memory images of commands *)

Definition operand_bytes (o : EvalStackOperand) : list Z :=
  le_bytes 4 (typ o) ++ le_bytes 8 (number o) ++ (if typ o =? OpRef then le_bytes 8 (address_offset o) else []).

Definition command_bytes (cmd : ExecCommand) : list Z :=
  le_bytes 4 (cmd_offset cmd) ++ le_bytes 4 (cmd_isBranch cmd) ++ le_bytes 4 (newCallStackFramesCount cmd)
    ++ le_bytes 4 (callStackFramesPops cmd) ++ le_bytes 4 (evaluationStackPushesCount cmd)
    ++ le_bytes 4 (cmd_evaluationStackPops cmd) ++ le_bytes 4 (newAddressesCount cmd)
    ++ flat_map (le_bytes 4) (newCallStackFrames cmd)
    ++ flat_map operand_bytes (evaluationStackPushes cmd)
    ++ flat_map (le_bytes 8) (cmd_newAddresses cmd) ++ flat_map (le_bytes 8) (newAddressesTypeLengths cmd)
    ++ newAddressesTypes cmd.

(** The counts of a command agree with its arrays, and it is not too long. *)
Record command_wf (cmd : ExecCommand) : Prop := {
  cw_frames : newCallStackFramesCount cmd = Z.of_nat (length (newCallStackFrames cmd));
  cw_pushes : evaluationStackPushesCount cmd = Z.of_nat (length (evaluationStackPushes cmd));
  cw_addresses : newAddressesCount cmd = Z.of_nat (length (cmd_newAddresses cmd));
  cw_lengths : newAddressesCount cmd = Z.of_nat (length (newAddressesTypeLengths cmd));
  cw_nonneg : Forall (fun l => 0 <= l) (newAddressesTypeLengths cmd);
  cw_types : foldr Z.add 0 (newAddressesTypeLengths cmd) = Z.of_nat (length (newAddressesTypes cmd));
  cw_size : Z.of_nat (length (command_bytes cmd)) < 2 ^ 31
}.

(** [m] writes the bytes [bs] and returns [a]. *)
Definition writes {A} (junk : Z) (m : writer A) (a : A) (bs : list Z) : Prop :=
  forall pre n, (length bs <= n)%nat ->
    m (pre ++ replicate n junk, Z.of_nat (length pre)) =
      Ok (a, ((pre ++ bs) ++ replicate (n - length bs) junk, Z.of_nat (length (pre ++ bs)))).

Lemma read_all {A} (l : list A) : read_at l 0 (length l) = Some l.
Proof.
  unfold read_at. destruct (_ && _) eqn:E; [|exfalso; lia].
  change (Z.to_nat 0) with 0%nat. by rewrite drop_0, firstn_all.
Qed.

Section writes.
Context (junk : Z).

Lemma writes_ret {A} (a : A) : writes junk (mret a) a [].
Proof. intros pre n _. rewrite app_nil_r, Nat.sub_0_r. done. Qed.

Lemma writes_bind {A B} (m : writer A) (f : A -> writer B) a b bs cs :
  writes junk m a bs -> writes junk (f a) b cs -> writes junk (m ≫= f) b (bs ++ cs).
Proof.
  intros Hm Hf pre n Hn. rewrite length_app in Hn. run_step (Hm pre n ltac:(lia)).
  rewrite (Hf (pre ++ bs) (n - length bs)%nat) by lia. rewrite <- (app_assoc pre bs cs), (length_app bs cs).
  replace (n - length bs - length cs)%nat with (n - (length bs + length cs))%nat by lia. done.
Qed.

Lemma writes_put bs : writes junk (put bs) tt bs.
Proof.
  intros pre n Hn. unfold put, write_at. rewrite !length_app, length_replicate.
  destruct (_ && _) eqn:E; [|exfalso; lia]. do 3 f_equal; [|lia].
  rewrite Nat2Z.id, take_app_length, drop_app_ge by lia.
  replace (length pre + length bs - length pre)%nat with (length bs) by lia.
  by rewrite drop_replicate, app_assoc.
Qed.

Lemma writes_put_bind {B} bs (f : unit -> writer B) b cs :
  writes junk (f tt) b cs -> writes junk (put bs ≫= f) b (bs ++ cs).
Proof. apply writes_bind, writes_put. Qed.

Lemma writes_elements {A B} (l : list A) (f : list A -> writer B) b cs :
  writes junk (f l) b cs -> writes junk (elements (Z.of_nat (length l)) l ≫= f) b cs.
Proof.
  intros Hf pre n Hn. rewrite (st_bind_run _ _ _ l (pre ++ replicate n junk, Z.of_nat (length pre))).
  - by apply Hf.
  - unfold elements, st_read. by rewrite Nat2Z.id, read_all.
Qed.

Lemma writes_operand o : writes junk (operand_serialize o) tt (operand_bytes o).
Proof.
  unfold operand_serialize, operand_bytes. apply writes_put_bind. destruct (typ o =? OpRef).
  - apply writes_put_bind, writes_put.
  - rewrite app_nil_r. apply writes_put.
Qed.

Lemma writes_fold {B} (f : B -> unit -> writer unit) (g : B -> list Z) l :
  (forall b, writes junk (f b tt) tt (g b)) -> writes junk (st_fold f l tt) tt (flat_map g l).
Proof.
  intros Hf. induction l as [|b l IH]; simpl; [apply writes_ret|]. by eapply writes_bind.
Qed.
End writes.

Lemma length_operand_image o : Z.of_nat (length (operand_bytes o)) = operand_size o.
Proof.
  unfold operand_bytes, operand_size. rewrite !length_app, !length_le_bytes.
  destruct (typ o =? OpRef); rewrite ?length_le_bytes; simpl; lia.
Qed.

(** The sums in [unsigned] do not wrap. *)
Lemma foldl_wrap_sum {A} w (size : A -> Z) l acc :
  0 < w -> Forall (fun a => 0 <= size a) l -> 0 <= acc -> acc + foldr Z.add 0 (size <$> l) < 2 ^ w ->
  foldl (fun s a => wrap w (s + size a)) acc l = acc + foldr Z.add 0 (size <$> l).
Proof.
  intros Hw HF. revert acc. induction HF as [|a l Ha HF IH]; intros acc Hacc Hlt; [simpl; lia|].
  change (foldr Z.add 0 (size <$> a :: l)) with (size a + foldr Z.add 0 (size <$> l)) in *.
  assert (0 <= foldr Z.add 0 (size <$> l)).
  { clear - HF. induction HF as [|x l Hx _ IHx]; [done|].
    change (foldr Z.add 0 (size <$> x :: l)) with (size x + foldr Z.add 0 (size <$> l)). lia. }
  cbn [foldl]. rewrite wrap_small by (unfold is_uint; lia). rewrite IH; lia.
Qed.

Lemma length_flat_map_operands l :
  Z.of_nat (length (flat_map operand_bytes l)) = foldr Z.add 0 (operand_size <$> l).
Proof.
  induction l as [|o l IH]; [done|]. cbn [flat_map]. rewrite length_app.
  change (foldr Z.add 0 (operand_size <$> o :: l)) with (operand_size o + foldr Z.add 0 (operand_size <$> l)).
  rewrite <- IH, <- length_operand_image. lia.
Qed.

Lemma operand_size_pos l : Forall (fun o => 0 <= operand_size o) l.
Proof. apply Forall_forall. intros o _. unfold operand_size. destruct (_ =? _); lia. Qed.

(** C17: the bytes of a command.  The size that [serialize] computes is exactly
    the number of bytes it writes, so that the block it allocates is filled and
    not overrun, with the seven numbers, the new frames, the operands, the new
    addresses, the lengths of their types and the types, in this order. *)
Theorem serialize_spec junk cmd : command_wf cmd -> serialize junk cmd = Ok (command_bytes cmd).
Proof.
  intros [W1 W2 W3 W4 W5 W6 W7]. unfold serialize. rewrite W2, W4, !Nat2Z.id, !read_all.
  assert (length (command_bytes cmd) = 28 + 4 * length (newCallStackFrames cmd)
    + length (flat_map operand_bytes (evaluationStackPushes cmd)) + 8 * length (cmd_newAddresses cmd)
    + 8 * length (newAddressesTypeLengths cmd) + length (newAddressesTypes cmd))%nat as Hlen.
  { unfold command_bytes. rewrite !length_app, !length_flat_map_le, !length_le_bytes. lia. }
  pose proof (length_flat_map_operands (evaluationStackPushes cmd)) as Hops.
  assert (foldl (fun s l => wrap 64 (s + l)) 0 (newAddressesTypeLengths cmd) = Z.of_nat (length (newAddressesTypes cmd))) as Hft.
  { rewrite <- W6. pose proof (foldl_wrap_sum 64 (fun l => l) (newAddressesTypeLengths cmd) 0) as H.
    rewrite list_fmap_id in H. apply H; [lia|done|lia|]. rewrite W6. lia. }
  rewrite Hft.
  assert (command_count cmd (evaluationStackPushes cmd) (Z.of_nat (length (newAddressesTypes cmd))) =
    Z.of_nat (length (command_bytes cmd))) as ->.
  { unfold command_count. rewrite W1, W4. rewrite (wrap_small 32 (7 * 4 + _)) by (unfold is_uint; lia).
    rewrite foldl_wrap_sum by (apply operand_size_pos || lia).
    rewrite (wrap_small 32 (_ + 8 * _)) by (unfold is_uint; lia).
    rewrite !wrap_add_l, wrap_small; unfold is_uint; lia. }
  rewrite Nat2Z.id.
  match goal with |- context [match ?w (replicate _ junk, 0) with _ => _ end] =>
    assert (writes junk w tt (command_bytes cmd)) as Hw end.
  { unfold command_bytes. rewrite W1, W2, W4. do 7 apply writes_put_bind. apply writes_elements, writes_put_bind.
    eapply writes_bind; [apply writes_fold; intros o; apply writes_operand|].
    rewrite <- W4, W3. apply writes_elements, writes_put_bind, writes_put_bind, writes_elements, writes_put. }
  specialize (Hw [] (length (command_bytes cmd)) (le_n _)). rewrite Nat.sub_diag, !app_nil_l, app_nil_r in Hw.
  change (Z.of_nat (length [])) with 0 in Hw. by rewrite Hw.
Qed.

Definition sample_command : ExecCommand :=
  mkExecCommand 0x1A 0 1 0 2 0 1 [0x06000003] [mkOperand OpI4 (-1) 0; mkOperand OpRef 7 16] [7] [3] [1; 2; 3].

Lemma sample_command_wf : command_wf sample_command.
Proof. split; try reflexivity. repeat constructor; discriminate. Qed.

Lemma serialize_spec_witness : serialize 0xCD sample_command = Ok (command_bytes sample_command).
Proof. apply (serialize_spec 0xCD sample_command sample_command_wf). Defined.

(** operands survive the way to the engine and back: reading the bytes of
    an operand gives the operand, and the bytes behind it. *)
Theorem operand_roundtrip o old rest :
  is_uint 32 (typ o) -> is_sint 64 (number o) -> is_uint 64 (address_offset o) ->
  operand_deserialize old (operand_bytes o ++ rest) =
    Some (mkOperand (typ o) (number o) (if typ o =? OpRef then address_offset o else address_offset old), rest).
Proof.
  intros Ht Hn Ho.
  assert (Htk : forall n z tl, take_bytes n (le_bytes n z ++ tl) = Some (le_bytes n z, tl))
    by (intros; apply take_bytes_app, length_le_bytes).
  unfold operand_deserialize, operand_bytes. rewrite <- app_assoc, Htk. cbn [mbind option_bind].
  rewrite le_Z_bytes. change (8 * Z.of_nat 4) with 32. rewrite wrap_small by done.
  rewrite <- app_assoc. destruct (typ o =? OpRef) eqn:E.
  - rewrite Htk. cbn [mbind option_bind]. rewrite Htk. cbn [mbind option_bind].
    rewrite !le_Z_bytes. change (8 * Z.of_nat 8) with 64. rewrite sint_wrap, sint_small, wrap_small by (done || lia). done.
  - rewrite Htk. cbn [mbind option_bind]. rewrite le_Z_bytes. change (8 * Z.of_nat 8) with 64.
    rewrite sint_wrap, sint_small by (done || lia). done.
Qed.

Lemma operand_roundtrip_witness :
  operand_deserialize (mkOperand 0 0 0) (operand_bytes (mkOperand OpRef (-5) 24) ++ [9]) =
    Some (mkOperand OpRef (-5) 24, [9]).
Proof. apply (operand_roundtrip (mkOperand OpRef (-5) 24)); vm_compute; split; (discriminate || reflexivity). Defined.

(** ** Building commands and applying answers *)

Section commands.
(** The build, the thread that runs the probe, what fresh memory holds, the
    bound on the reading loop, and the conversions between the bit patterns of
    [FLOAT] and [DOUBLE] values. *)
Context (debug : bool) (tid junk : Z) (fuel : nat) (to_float to_double : Z -> Z).

(** [ops[idx]] of the array of operands. *)
Definition op_at {S} (ops : list EvalStackOperand) (idx : Z) : st S EvalStackOperand :=
  st_read (fun _ => if 0 <=? idx then ops !! Z.to_nat idx else None).

(** The call stack and the symbolic operands: [minCallFrames .. currCallFrames]
    and [poppedSymbs]. *)
Definition new_frames : st Stack (list Z) :=
  k ← st_get;
  st_fold (fun i acc => t ← tokenAt i; mret (acc ++ [t]))
    (seqZ (minTopSinceLastSent k) (framesCount k - minTopSinceLastSent k)) [].

Definition symbolic_ops (opsCount : Z) (top : StackFrame) (ops : list EvalStackOperand)
    : st Stack (list EvalStackOperand) :=
  let popped := m_lastPoppedSymbolics top in
  let currentSymbs := wrap 32 (m_symbolsCount top + Z.of_nat (length popped)) in
  st_fold (fun pair ops =>
    let idx := wrap 32 (wrap 32 (opsCount - snd pair) - 1) in
    o ← op_at ops idx;
    mret (<[Z.to_nat idx := mkOperand OpSymbolic (wrap 32 (currentSymbs - fst pair)) (address_offset o)]> ops))
    popped ops.

(** The types of the new objects, one behind the other. *)
Definition types_of (items : list (Z * (list Z * Z))) : st Heap (list Z) :=
  st_fold (fun item acc =>
    t ← st_read (fun _ => read_at (fst (snd item)) 0 (Z.to_nat (snd (snd item))));
    mret (acc ++ t)) items [].

Definition initCommand (offset : Z) (isBranch : bool) (opsCount : Z) (ops : list EvalStackOperand)
    : st concolic ExecCommand :=
  frames ← stack tid new_frames;
  k ← stack tid st_get;
  top ← stack tid (topFrame debug st_get);
  ops ← stack tid (symbolic_ops opsCount top ops);
  newAddresses ← on_heap flushObjects;
  let items := map_items newAddresses in
  types ← on_heap (types_of items);
  mret (mkExecCommand offset (if isBranch then 1 else 0)
    (wrap 32 (framesCount k - minTopSinceLastSent k)) (unsentPops k) opsCount (evaluationStackPops top)
    (wrap 32 (Z.of_nat (length items))) frames ops (fst <$> items) ((fun i => snd (snd i)) <$> items) types).

(** The engine's answer, taken apart. *)
Definition get_bytes {S} (n : nat) (bytes : list Z) : st S (list Z * list Z) := st_read (fun _ => take_bytes n bytes).

(** Returns [opsConcretized], the operands, [count], [framesCount] and
    [result]. *)
Definition readExecResponse (ops : list EvalStackOperand) (result : EvalStackOperand)
    : st concolic (bool * list EvalStackOperand * Z * Z * EvalStackOperand) :=
  bytes ← on_chan (acceptExecResult junk fuel);
  r ← get_bytes 4 bytes; let '(b, bytes) := (r : list Z * list Z) in let framesCount := sint 32 (le_Z b) in
  r ← get_bytes 1 bytes; let '(b, bytes) := (r : list Z * list Z) in let lastPush := sint 8 (le_Z b) in
  r ← get_bytes 4 bytes; let '(b, bytes) := (r : list Z * list Z) in let opsLength := sint 32 (le_Z b) in
  r ← get_bytes 1 bytes; let '(b, bytes) := (r : list Z * list Z) in let hasInternalCallResult := 0 <? sint 8 (le_Z b) in
  let opsConcretized := -1 <? opsLength in
  (if 0 <? lastPush then top_frame debug tid (push1 debug (lastPush =? 2)) else mret tt);;
  r ← (if opsConcretized then
         st_fold (fun i '(ops, bytes) =>
           old ← op_at ops i;
           r ← st_read (fun _ => operand_deserialize old bytes);
           mret (<[Z.to_nat i := fst r]> ops, snd r)) (seqZ 0 opsLength) (ops, bytes)
       else mret (ops, bytes));
  let '(ops, bytes) := (r : list EvalStackOperand * list Z) in
  result ← (if (hasInternalCallResult : bool) then r ← st_read (fun _ => operand_deserialize result bytes); mret (fst r)
            else mret result);
  mret (opsConcretized, ops, wrap 32 opsLength, framesCount, result).

Definition updateMemory (op : EvalStackOperand) (idx : Z) : st concolic unit :=
  let idx := sint 8 idx in
  if typ op =? OpI4 then on_buffer (update_i4 (number op) idx)
  else if typ op =? OpI8 then on_buffer (update_i8 (number op) idx)
  else if typ op =? OpR4 then on_buffer (update_f4 to_float (wrap 64 (number op)) idx)
  else if typ op =? OpR8 then on_buffer (update_f8 (number op) idx)
  else if typ op =? OpRef then
    p ← on_heap (virtToPhysAddress (op_address op)); on_buffer (update_p p idx)
  else if typ op =? OpSymbolic then
    st_fail (Thrown "updateMemory: unexpected symbolic value after concretization!")
  else mret tt.

Definition sendCommand (offset opsCount : Z) (ops : list EvalStackOperand) : st concolic bool :=
  command ← initCommand offset false opsCount ops;
  bytes ← st_lift (serialize junk command);
  on_chan (sendSerializable junk ExecuteCommand bytes);;
  r ← readExecResponse (evaluationStackPushes command) (mkOperand OpSymbolic 0 0);
  let '(opsConcretized, ops, newCount, framesCount, internalCallResult) := r in
  (if (opsConcretized : bool) && (0 <? newCount) then
     top ← top_frame debug tid st_get;
     st_fold (fun pair _ =>
       let idx := wrap 32 (wrap 32 (newCount - snd pair) - 1) in
       op ← op_at ops idx;
       updateMemory op idx) (m_lastPoppedSymbolics top) tt
   else mret tt);;
  (if typ internalCallResult =? OpSymbolic then mret tt else updateMemory internalCallResult opsCount);;
  stack tid (Stack_resetPopsTracking framesCount);;
  mret opsConcretized.

(** [new EvalStackOperand[1]] is not initialised. *)
Definition junk_op : EvalStackOperand := mkOperand junk junk junk.
Definition sendCommand0 (offset : Z) : st concolic bool := sendCommand offset 0 [].
Definition sendCommand1 (offset : Z) : st concolic bool := sendCommand offset 1 [junk_op].

Definition mkop_4 (op : Z) : EvalStackOperand := mkOperand OpI4 op junk.
Definition mkop_8 (op : Z) : EvalStackOperand := mkOperand OpI8 op junk.
Definition mkop_f4 (op : Z) : EvalStackOperand := mkOperand OpR4 (sint 64 (to_double op)) junk.
Definition mkop_f8 (op : Z) : EvalStackOperand := mkOperand OpR8 (sint 64 op) junk.
Definition mkop_p (op : Z) : st concolic EvalStackOperand :=
  a ← on_heap (physToVirtAddress (wrap 64 op));
  mret (mkOperand OpRef (sint 64 (vobj a)) (voffset a)).
Definition mkop_struct (op : Z) : st concolic EvalStackOperand := st_fail (Thrown "not implemented").

(** One operand of [createOps]. *)
Definition create_op (i : Z) : st concolic EvalStackOperand :=
  let i := sint 8 i in
  type ← on_buffer (unmemType i);
  if type =? ELEMENT_TYPE_I1 then v ← on_buffer (unmem_i1 i); mret (mkop_4 v)
  else if type =? ELEMENT_TYPE_I2 then v ← on_buffer (unmem_i2 i); mret (mkop_4 v)
  else if type =? ELEMENT_TYPE_I4 then v ← on_buffer (unmem_i4 i); mret (mkop_4 v)
  else if type =? ELEMENT_TYPE_I8 then v ← on_buffer (unmem_i8 i); mret (mkop_8 v)
  else if type =? ELEMENT_TYPE_R4 then v ← on_buffer (unmem_f4 i); mret (mkop_f4 v)
  else if type =? ELEMENT_TYPE_R8 then v ← on_buffer (unmem_f8 i); mret (mkop_f8 v)
  else if type =? ELEMENT_TYPE_PTR then v ← on_buffer (unmem_p i); mkop_p v
  else st_fail (Thrown "Exec_Call: not implemented").

Definition createOps (opsCount : Z) : st concolic (list EvalStackOperand) :=
  st_fold (fun i ops => o ← create_op i; mret (ops ++ [o])) (seqZ 0 opsCount) [].
End commands.

(** ** Threads *)

(** [currentStack] is the stack of [lastThreadID], once a thread has run. *)
Definition context_ok (c : concolic) : Prop :=
  (lastThreadID c = 0 /\ currentStack c = None) \/
  (currentStack c = Some (lastThreadID c) /\ is_Some (stacks c !! lastThreadID c)).

(** The stack of a thread, empty before its first probe. *)
Definition thread_stack (c : concolic) (t : Z) : Stack := default new_Stack (stacks c !! t).

Lemma stack_run {A} tid (m : st Stack A) c :
  context_ok c -> tid <> 0 ->
  stack tid m c =
    match m (thread_stack c tid) with
    | Ok (a, k) => Ok (a, mkConcolic tid (Some tid) (<[tid := k]> (stacks c)) (heap c) (buffer c) (chan c) (main_entered c))
    | Err e => Err e
    end.
Proof.
  intros Hc Ht. unfold stack, switchContext. rewrite st_modify_bind. unfold on_current, thread_stack.
  destruct (Z.eqb_spec tid (lastThreadID c)) as [->|Hne].
  - destruct Hc as [[H _]|[Hcur [k Hk]]]; [done|]. rewrite Hcur. cbn [mbind option_bind]. rewrite Hk. simpl.
    destruct (m k) as [[a k']|]; [|done]. unfold with_stacks. by rewrite Hcur.
  - cbn [currentStack stacks mbind option_bind].
    destruct (stacks c !! tid) as [k|] eqn:Hk.
    + rewrite Hk. simpl. by destruct (m k) as [[a k']|].
    + rewrite lookup_insert_eq. simpl. destruct (m new_Stack) as [[a k']|]; [|done].
      unfold with_stacks. simpl. by rewrite insert_insert_eq.
Qed.

(** ** What a command tells the engine *)

(** The operands after the symbolic ones are marked. *)
Lemma symbolic_ops_run opsCount top ops k :
  opsCount = Z.of_nat (length ops) -> opsCount < 2 ^ 32 -> NoDup (snd <$> m_lastPoppedSymbolics top) ->
  Forall (fun p => 0 <= snd p < opsCount) (m_lastPoppedSymbolics top) ->
  exists ops', symbolic_ops opsCount top ops k = Ok (ops', k) /\ length ops' = length ops /\
    let current := wrap 32 (m_symbolsCount top + Z.of_nat (length (m_lastPoppedSymbolics top))) in
    (forall num depth, (num, depth) ∈ m_lastPoppedSymbolics top ->
       exists off, ops' !! Z.to_nat (opsCount - 1 - depth) = Some (mkOperand OpSymbolic (wrap 32 (current - num)) off)) /\
    (forall j, (forall num depth, (num, depth) ∈ m_lastPoppedSymbolics top -> j <> Z.to_nat (opsCount - 1 - depth)) ->
       ops' !! j = ops !! j).
Proof.
  intros Hc Hb Hnd HF. unfold symbolic_ops. cbv zeta.
  set (current := wrap 32 (m_symbolsCount top + _)). clearbody current.
  revert ops Hc. generalize dependent (m_lastPoppedSymbolics top). intros popped.
  induction popped as [|[num depth] popped IH]; intros Hnd HF ops Hc.
  { exists ops. split; [done|]. split; [done|]. split; [|done]. intros num depth H. by apply elem_of_nil in H. }
  apply NoDup_cons in Hnd as [Hni Hnd]. apply Forall_cons in HF as [Hd HF]. simpl in Hni, Hd.
  assert (wrap 32 (wrap 32 (opsCount - depth) - 1) = opsCount - 1 - depth) as Hidx.
  { rewrite wrap_sub_l, wrap_small; unfold is_uint; lia. }
  destruct (lookup_lt_is_Some_2 ops (Z.to_nat (opsCount - 1 - depth)) ltac:(lia)) as [o Ho].
  cbn [st_fold fst snd]. rewrite Hidx, st_bind_assoc.
  rewrite (st_bind_run _ _ k o k).
  2:{ unfold op_at, st_read. destruct (Z.leb_spec 0 (opsCount - 1 - depth)); [|lia]. by rewrite Ho. }
  rewrite st_ret_bind. set (ops1 := <[_ := _]> ops).
  destruct (IH Hnd HF ops1) as (ops' & R & Hl & Hin & Hout); [unfold ops1; by rewrite length_insert|].
  exists ops'. split; [exact R|]. split; [rewrite Hl; apply length_insert|]. split.
  - intros n d [[= -> ->]|H]%elem_of_cons; [|by apply Hin]. exists (address_offset o). rewrite Hout.
    + unfold ops1. rewrite list_lookup_insert_eq; [done|]. by apply lookup_lt_Some in Ho.
    + intros n' d' H Heq. apply Hni. rewrite Forall_forall in HF. specialize (HF _ H). simpl in HF.
      replace depth with d' by lia. apply list_elem_of_fmap. by exists (n', d').
  - intros j Hj. rewrite Hout by (intros n' d' H; apply (Hj n' d'); by right).
    unfold ops1. rewrite list_lookup_insert_ne; [done|]. intros Heq. apply (Hj num depth); [by left|done].
Qed.

Lemma new_frames_run k :
  0 <= m_minTopSinceLastSent k <= frames_size k -> frames_size k < 2 ^ 32 ->
  new_frames k = Ok (drop (Z.to_nat (m_minTopSinceLastSent k)) (tokens k), k).
Proof.
  intros Hm Hb. unfold new_frames. rewrite st_get_bind. unfold minTopSinceLastSent, framesCount.
  rewrite wrap_small by (unfold is_uint; lia). unfold frames_size in *. pose proof (length_tokens k) as Hl.
  assert (forall n acc, (n <= length (tokens k))%nat ->
    st_fold (fun i acc => t ← tokenAt i; mret (acc ++ [t])) (seqZ (Z.of_nat (length (tokens k) - n)) (Z.of_nat n)) acc k =
    Ok (acc ++ drop (length (tokens k) - n) (tokens k), k)) as Hgen.
  { induction n as [|n IH]; intros acc Hn.
    - simpl. rewrite Nat.sub_0_r, drop_ge, app_nil_r by lia. done.
    - rewrite seqZ_cons by lia. cbn [st_fold]. set (i := (length (tokens k) - S n)%nat).
      destruct (lookup_lt_is_Some_2 (tokens k) i ltac:(lia)) as [t Ht].
      assert (tokenAt (Z.of_nat i) k = Ok (t, k)) as R.
      { unfold tokenAt, st_read. destruct (Z.leb_spec 0 (Z.of_nat i)); [|lia]. rewrite Nat2Z.id.
        unfold tokens in Ht. rewrite list_lookup_fmap in Ht. by rewrite Ht. }
      rewrite st_bind_assoc. run_step R. rewrite st_ret_bind.
      replace (Z.succ (Z.of_nat i)) with (Z.of_nat (length (tokens k) - n)) by lia.
      replace (Z.pred (Z.of_nat (S n))) with (Z.of_nat n) by lia. rewrite IH by lia.
      rewrite <- app_assoc. do 3 f_equal. rewrite (drop_S _ _ _ Ht). unfold i. simpl.
      replace (length (tokens k) - n)%nat with (S (length (tokens k) - S n)) by lia. done. }
  specialize (Hgen (length (tokens k) - Z.to_nat (m_minTopSinceLastSent k))%nat [] ltac:(lia)).
  replace (length (tokens k) - (length (tokens k) - Z.to_nat (m_minTopSinceLastSent k)))%nat
    with (Z.to_nat (m_minTopSinceLastSent k)) in Hgen by lia.
  rewrite Z2Nat.id in Hgen by lia.
  replace (Z.of_nat (length (m_frames k)) - m_minTopSinceLastSent k)
    with (Z.of_nat (length (tokens k) - Z.to_nat (m_minTopSinceLastSent k))) by lia. exact Hgen.
Qed.

(** The state after thread [tid] has looked at its stack. *)
Definition entered (tid : Z) (c : concolic) : concolic :=
  mkConcolic tid (Some tid) (<[tid := thread_stack c tid]> (stacks c)) (heap c) (buffer c) (chan c) (main_entered c).

Lemma entered_ok tid c : context_ok (entered tid c).
Proof. right. split; [done|]. simpl. rewrite lookup_insert_eq. by eexists. Qed.

Lemma entered_stack tid c : thread_stack (entered tid c) tid = thread_stack c tid.
Proof. unfold thread_stack at 1. simpl. by rewrite lookup_insert_eq. Qed.

Lemma stack_look {A} tid (m : st Stack A) c a :
  context_ok c -> tid <> 0 -> m (thread_stack c tid) = Ok (a, thread_stack c tid) ->
  stack tid m c = Ok (a, entered tid c).
Proof. intros Hc Ht Hm. rewrite stack_run by done. by rewrite Hm. Qed.

Lemma stack_look_again {A} tid (m : st Stack A) c a :
  tid <> 0 -> m (thread_stack c tid) = Ok (a, thread_stack c tid) ->
  stack tid m (entered tid c) = Ok (a, entered tid c).
Proof.
  intros Ht Hm. rewrite (stack_look tid m _ a); [|apply entered_ok|done|by rewrite entered_stack].
  unfold entered. do 2 f_equal. unfold thread_stack. simpl. by rewrite lookup_insert_eq, insert_insert_eq.
Qed.

Lemma topFrame_get debug k fs f :
  m_frames k = fs ++ [f] -> topFrame debug st_get k = Ok (f, k).
Proof.
  intros Hk. unfold topFrame. rewrite Hk, last_snoc. simpl. do 2 f_equal.
  rewrite take_init. unfold with_frames. rewrite <- Hk. by destruct k.
Qed.

Lemma types_of_run items h :
  Forall (fun i => snd (snd i) = Z.of_nat (length (fst (snd i)))) items ->
  types_of items h = Ok (flat_map (fun i => fst (snd i)) items, h).
Proof.
  intros HF. unfold types_of.
  assert (forall acc, st_fold (fun item acc =>
    t ← st_read (fun _ => read_at (fst (snd item)) 0 (Z.to_nat (snd (snd item))));
    mret (acc ++ t)) items acc h = Ok (acc ++ flat_map (fun i => fst (snd i)) items, h)) as Hgen; [|apply Hgen].
  induction HF as [|i items Hi HF IH]; intros acc; cbn [st_fold flat_map].
  - by rewrite app_nil_r.
  - rewrite st_bind_assoc, (st_bind_run _ _ h (fst (snd i)) h).
    + by rewrite st_ret_bind, IH, app_assoc.
    + unfold st_read. by rewrite Hi, Nat2Z.id, read_all.
Qed.

Lemma length_popped n d cs : Z.of_nat (length (popped_of n d cs)) = symb cs.
Proof.
  revert n. induction cs as [|[] cs IH]; intros n; simpl; [done|apply IH|]. rewrite length_app, Nat2Z.inj_add, IH. simpl. lia.
Qed.

Lemma popped_NoDup n d cs : NoDup (snd <$> popped_of n d cs).
Proof.
  revert n. induction cs as [|[] cs IH]; intros n; simpl; [constructor|apply IH|]. rewrite fmap_app.
  apply NoDup_app. split; [apply IH|]. split; [|apply NoDup_singleton].
  intros x Hx Hy. apply list_elem_of_singleton in Hy as ->.
  apply list_elem_of_fmap in Hx as ([num dep] & E & H). apply popped_of_elem in H as (i & Hi & _ & ->).
  apply lookup_lt_Some in Hi. simpl in E. lia.
Qed.

(** A symbolic operand's number counts from the bottom of the engine's symbolic
    values; the command holds its distance from their top. *)
Lemma symbolic_offset bs cs i :
  cs !! i = Some false -> Z.of_nat (length bs + length cs) < 2 ^ 32 ->
  wrap 32 (wrap 32 (symb bs + symb cs) - (symb bs + symb (take i cs) + 1)) = symb (drop (S i) cs).
Proof.
  intros Hs Hb. assert (symb cs = symb (take i cs) + (1 + symb (drop (S i) cs))) as E.
  { rewrite <- (take_drop_middle cs i false Hs) at 1. by rewrite symb_app. }
  pose proof (symb_range bs). pose proof (symb_range cs).
  pose proof (symb_range (take i cs)). pose proof (symb_range (drop (S i) cs)).
  rewrite (wrap_small 32 (symb bs + symb cs)) by (unfold is_uint; lia).
  rewrite wrap_small; unfold is_uint; lia.
Qed.

(** C14: a command describes exactly what the engine lacks.  After the operands
    [cs] were popped from the top frame: the new frames are those above
    [minTopSinceLastSent]; each symbolic operand is replaced by its distance from
    the top of the engine's symbolic values, the concrete ones are passed as
    they are; all new objects are announced, in the order of their addresses,
    and none is left. *)
Theorem initCommand_spec debug tid offset isBranch ops c fs f bs cs :
  let k := thread_stack c tid in
  context_ok c -> tid <> 0 -> m_frames k = fs ++ [f] -> frame_rep f bs ->
  m_lastPoppedSymbolics f = popped_of (symb bs) 0 cs -> length ops = length cs ->
  Z.of_nat (length bs + length cs) < 2 ^ 32 ->
  0 <= m_minTopSinceLastSent k <= frames_size k -> frames_size k < 2 ^ 32 ->
  Forall (fun i => snd (snd i) = Z.of_nat (length (fst (snd i)))) (map_items (newAddresses (heap c))) ->
  exists cmd c', initCommand debug tid offset isBranch (Z.of_nat (length ops)) ops c = Ok (cmd, c') /\
    newCallStackFrames cmd = drop (Z.to_nat (m_minTopSinceLastSent k)) (tokens k) /\
    newCallStackFramesCount cmd = Z.of_nat (length (newCallStackFrames cmd)) /\
    callStackFramesPops cmd = unsentPops k /\ cmd_evaluationStackPops cmd = evaluationStackPops f /\
    (forall i o, ops !! i = Some o ->
       if bool_decide (cs !! i = Some false)
       then exists off, evaluationStackPushes cmd !! i = Some (mkOperand OpSymbolic (symb (drop (S i) cs)) off)
       else evaluationStackPushes cmd !! i = Some o) /\
    cmd_newAddresses cmd = fst <$> map_items (newAddresses (heap c)) /\
    newAddressesTypes cmd = flat_map (fun i => fst (snd i)) (map_items (newAddresses (heap c))) /\
    newAddresses (heap c') = ∅ /\ thread_stack c' tid = k.
Proof.
  intros k Hc Ht Hfr Hrep Hpop Hlen Hbd Hmin Hsz Hty.
  assert (Forall (fun p => 0 <= snd p < Z.of_nat (length ops)) (m_lastPoppedSymbolics f)) as HF.
  { rewrite Hpop. apply Forall_forall. intros [num d] H. apply popped_of_elem in H as (i & Hi & _ & ->).
    apply lookup_lt_Some in Hi. simpl. lia. }
  destruct (symbolic_ops_run (Z.of_nat (length ops)) f ops k) as (ops' & Rs & Hl & Hin & Hout);
    [done|lia|rewrite Hpop; apply popped_NoDup|done|].
  unfold initCommand.
  run_step (stack_look tid new_frames c _ Hc Ht (new_frames_run k Hmin Hsz)).
  run_step (stack_look_again tid st_get c k Ht eq_refl).
  run_step (stack_look_again tid (topFrame debug st_get) c f Ht (topFrame_get debug k fs f Hfr)).
  run_step (stack_look_again tid (symbolic_ops (Z.of_nat (length ops)) f ops) c ops' Ht Rs).
  set (h' := mkHeap (objs (heap c)) (brk (heap c)) (tree (heap c)) ∅ (deletedAddresses (heap c))).
  set (c' := mkConcolic tid (Some tid) (<[tid := k]> (stacks c)) h' (buffer c) (chan c) (main_entered c)).
  assert (on_heap flushObjects (entered tid c) = Ok (newAddresses (heap c), c')) as R1.
  { unfold on_heap. change (heap (entered tid c)) with (heap c). by rewrite flushObjects_run. }
  run_step R1.
  assert (on_heap (types_of (map_items (newAddresses (heap c)))) c' =
    Ok (flat_map (fun i => fst (snd i)) (map_items (newAddresses (heap c))), c')) as R2.
  { unfold on_heap. change (heap c') with h'. by rewrite types_of_run. }
  run_step R2. do 2 eexists. split; [done|].
  cbn [newCallStackFrames newCallStackFramesCount callStackFramesPops cmd_evaluationStackPops evaluationStackPushes
       cmd_newAddresses newAddressesTypes].
  split_and!; try done.
  - unfold framesCount, minTopSinceLastSent, frames_size in *. rewrite length_drop, length_tokens.
    rewrite (wrap_small 32 (Z.of_nat _)) by (unfold is_uint; lia). rewrite wrap_small; unfold is_uint; lia.
  - intros i o Ho. pose proof (lookup_lt_Some _ _ _ Ho) as Hi. case_bool_decide as Hs.
    + destruct (Hin (symb bs + symb (take i cs) + 1) (Z.of_nat (length cs) - 1 - Z.of_nat i)) as [off E].
      { rewrite Hpop. apply popped_of_elem. exists i. split; [done|]. lia. }
      exists off. rewrite Hlen in E. replace (Z.to_nat (Z.of_nat (length cs) - 1 - (Z.of_nat (length cs) - 1 - Z.of_nat i))) with i in E by lia.
      rewrite E. do 2 f_equal. rewrite Hpop, length_popped, (fr_symbols _ _ Hrep).
      apply symbolic_offset; [done|lia].
    + rewrite Hout; [done|]. intros num d H. rewrite Hpop in H. apply popped_of_elem in H as (i' & Hi' & _ & ->).
      intros ->. apply Hs. rewrite <- Hi'. f_equal. apply lookup_lt_Some in Hi'. lia.
  - unfold thread_stack. simpl. by rewrite lookup_insert_eq.
Qed.

(** One frame, a symbolic and a concrete operand popped, one new object. *)
Definition sample_frame : StackFrame :=
  mkStackFrame [CONCRETE; 1; CONCRETE] 3 1 0 0 0 [] [] 7 7 true false [(1, 1)].
Definition sample_concolic : concolic :=
  mkConcolic 5 (Some 5) {[5 := mkStack [sample_frame] 0 0]}
    (mkHeap ∅ 2 [] {[1 := ([7; 0], 2)]} []) mem_init (mkSocket [] [] []) true.

Lemma initCommand_spec_witness :
  exists cmd c', initCommand true 5 3 false 2 [mkOperand OpI4 10 0; mkOperand OpI4 20 0] sample_concolic = Ok (cmd, c') /\
    newCallStackFrames cmd = [7] /\ newAddresses (heap c') = ∅.
Proof.
  destruct (initCommand_spec true 5 3 false [mkOperand OpI4 10 0; mkOperand OpI4 20 0] sample_concolic
    [] sample_frame [true] [false; true]) as (cmd & c' & H & Hf & _ & _ & _ & _ & _ & _ & Hn & _).
  - right. split; [reflexivity|]. vm_compute. eexists. reflexivity.
  - discriminate.
  - reflexivity.
  - constructor; reflexivity.
  - reflexivity.
  - reflexivity.
  - reflexivity.
  - vm_compute. split; discriminate.
  - reflexivity.
  - vm_compute. repeat constructor.
  - exists cmd, c'. split; [exact H|]. split; [exact Hf|exact Hn].
Defined.
