(* ===== verification/ConcThreads.v ===== *)
(** * The current stack and the threads

    [stack()] and [switchContext] of
    [VSharp.ClrInteraction/memory/memory.cpp] keep the stack of the running
    thread in two global variables without a lock.  Here an access to the stack
    is the sequence of its reads and writes of these variables, and the accesses
    of several threads are interleaved step by step.  [stack] of Commands.v, on
    which the probes are built, is an access that nobody interrupts
    ([access_alone]).

    A step on [stacks], a [std::map] that is not protected either, is taken to be
    atomic, and so is the operation on the stack that was found. *)

From S2P Require Import Prelude ConcStack Protocol Commands.
Local Open Scope Z_scope.

(** ** The steps of an access *)

(** What a thread is about to do: compare its identifier with [lastThreadID],
    write it there, look up its stack (and create it), write [currentStack],
    read [currentStack], and use the stack it has got a reference to. *)
Inductive access :=
  | Testing
  | Naming
  | Finding
  | Pointing (s : Z)
  | Returning
  | Using (s : Z).
#[export] Instance access_eq_dec : EqDecision access.
Proof. solve_decision. Defined.

Definition with_context (last : Z) (current : option Z) (m : gmap Z Stack) (c : concolic) : concolic :=
  mkConcolic last current m (heap c) (buffer c) (chan c) (main_entered c).

(** An operation on the stack of thread [s]. *)
Definition on_stack {A} (s : Z) (m : st Stack A) : st concolic A := fun c =>
  match stacks c !! s with
  | None => Err Undefined
  | Some k => match m k with
              | Ok (a, k) => Ok (a, with_stacks (<[s := k]> (stacks c)) c)
              | Err e => Err e
              end
  end.

(** The map with a stack for the thread. *)
Definition find_stack (tid : Z) (m : gmap Z Stack) : gmap Z Stack :=
  match m !! tid with Some _ => m | None => <[tid := new_Stack]> m end.

(** One step of thread [tid] towards [m] on its stack; [None]: the access is
    over. *)
Definition step_access (tid : Z) (m : st Stack unit) (ph : access) : st concolic (option access) :=
  match ph with
  | Testing => c ← st_get; mret (Some (if tid =? lastThreadID c then Returning else Naming))
  | Naming => st_modify (fun c => with_context tid (currentStack c) (stacks c) c);; mret (Some Finding)
  | Finding => st_modify (fun c => with_stacks (find_stack tid (stacks c)) c);; mret (Some (Pointing tid))
  | Pointing s => st_modify (fun c => with_context (lastThreadID c) (Some s) (stacks c) c);; mret (Some Returning)
  | Returning => s ← st_read currentStack; mret (Some (Using s))
  | Using s => on_stack s m;; mret None
  end.

(** ** The threads *)

Record thread := mkThread { next_step : access; todo : list call_op }.
Record system := mkSystem { globals : concolic; threads : gmap Z thread }.

Section Run.
Context (debug : bool).

Definition step (tid : Z) (y : system) : result system :=
  match threads y !! tid with
  | Some (mkThread ph (o :: ops)) =>
      '(ph', c) ← step_access tid (run_call debug o) ph (globals y);
      Ok (mkSystem c (<[tid := match ph' with Some ph' => mkThread ph' (o :: ops) | None => mkThread Testing ops end]> (threads y)))
  | _ => Ok y
  end.

Fixpoint run (schedule : list Z) (y : system) : result system :=
  match schedule with
  | [] => Ok y
  | tid :: schedule => y ← step tid y; run schedule y
  end.

(** No other thread is in the middle of an access. *)
Definition undisturbed (tid : Z) (y : system) : Prop :=
  map_Forall (fun t th => t = tid \/ next_step th = Testing) (threads y).
#[export] Instance undisturbed_dec tid y : Decision (undisturbed tid y).
Proof. unfold undisturbed. apply _. Defined.

(** What is reached when accesses do not overlap. *)
Inductive exclusive (y0 : system) : system -> Prop :=
  | excl_start : exclusive y0 y0
  | excl_step tid y y' : exclusive y0 y -> undisturbed tid y -> step tid y = Ok y' -> exclusive y0 y'.

(** A schedule, tried. *)
Fixpoint run_exclusive (schedule : list Z) (y : system) : option system :=
  match schedule with
  | [] => Some y
  | tid :: schedule =>
      if decide (undisturbed tid y) then match step tid y with Ok y => run_exclusive schedule y | Err _ => None end else None
  end.

Lemma run_exclusive_reached schedule y0 y y' :
  exclusive y0 y -> run_exclusive schedule y = Some y' -> exclusive y0 y'.
Proof.
  revert y. induction schedule as [|tid schedule IH]; intros y E H; cbn [run_exclusive] in H; [by injection H as <-|].
  case_decide; [|done]. destruct (step tid y) as [y1|] eqn:Es; [|done]. apply (IH y1); [|done]. by eapply excl_step.
Qed.
End Run.

(** Threads with operations to do, none begun. *)
Definition start (c : concolic) (progs : gmap Z (list call_op)) : system := mkSystem c (mkThread Testing <$> progs).

(** ** An access alone is [stack] *)

(** At most [n] steps of one access. *)
Fixpoint access_steps (n : nat) (tid : Z) (m : st Stack unit) (ph : access) : st concolic (option access) :=
  match n with
  | O => mret (Some ph)
  | S n => r ← step_access tid m ph; match r with None => mret None | Some ph => access_steps n tid m ph end
  end.

Lemma access_next n tid m ph c ph' c' :
  step_access tid m ph c = Ok (Some ph', c') -> access_steps (S n) tid m ph c = access_steps n tid m ph' c'.
Proof. intros H. cbn [access_steps]. by run_step H. Qed.

Lemma access_return n tid m c :
  access_steps (S (S n)) tid m Returning c = match on_current m c with Ok (_, c') => Ok (None, c') | Err e => Err e end.
Proof.
  unfold on_current. destruct (currentStack c) as [s|] eqn:Ec.
  - rewrite (access_next _ tid m Returning c (Using s) c).
    2: { cbn [step_access]. unfold st_read, mbind, st_bind. by rewrite Ec. }
    cbn [access_steps step_access mbind option_bind]. unfold on_stack, mbind, st_bind.
    destruct (stacks c !! s) as [k|]; [|done]. simpl. by destruct (m k) as [[a k']|].
  - cbn [access_steps step_access]. unfold st_read, mbind, st_bind. by rewrite Ec.
Qed.

(** The steps of an access that nobody interrupts are [stack]. *)
Lemma access_alone tid m c :
  access_steps 6 tid m Testing c =
  match stack tid m c with Ok (_, c') => Ok (None, c') | Err e => Err e end.
Proof.
  unfold stack, switchContext. rewrite st_modify_bind.
  rewrite (access_next 5 tid m Testing c (if tid =? lastThreadID c then Returning else Naming) c) by done.
  destruct (Z.eqb_spec tid (lastThreadID c)) as [->|Hne]; [apply (access_return 3)|].
  do 3 (erewrite access_next; [|reflexivity]). apply (access_return 0).
Qed.

(** ** Accesses that do not overlap *)

(** What the step a thread is about to take finds in the variables. *)
Definition midway (tid : Z) (c : concolic) (ph : access) : Prop :=
  match ph with
  | Testing | Naming => context_ok c
  | Finding => lastThreadID c = tid
  | Pointing s => s = tid /\ lastThreadID c = tid /\ is_Some (stacks c !! tid)
  | Returning => lastThreadID c = tid /\ currentStack c = Some tid /\ is_Some (stacks c !! tid)
  | Using s => s = tid /\ lastThreadID c = tid /\ currentStack c = Some tid /\ is_Some (stacks c !! tid)
  end.

(** One step of a thread that is not disturbed: the stacks are those before,
    but for its own operation on its own stack. *)
Lemma step_access_run tid m ph c :
  tid <> 0 -> midway tid c ph ->
  match step_access tid m ph c with
  | Ok (Some ph', c') => midway tid c' ph' /\ forall t, thread_stack c' t = thread_stack c t
  | Ok (None, c') => context_ok c' /\ m (thread_stack c tid) = Ok (tt, thread_stack c' tid) /\
      forall t, t <> tid -> thread_stack c' t = thread_stack c t
  | Err e => m (thread_stack c tid) = Err e
  end.
Proof.
  intros Ht H. destruct ph as [| | |s| |s]; cbn [step_access midway] in *.
  - rewrite st_get_bind. unfold mret, st_ret. destruct (Z.eqb_spec tid (lastThreadID c)) as [->|]; [|by split_and!].
    destruct H as [[H _]|[H1 H2]]; [done|]. by split_and!.
  - rewrite st_modify_bind. by split_and!.
  - rewrite st_modify_bind. unfold mret, st_ret, find_stack, thread_stack. cbn [midway lastThreadID stacks with_stacks].
    destruct (stacks c !! tid) as [k|] eqn:E; [by split_and!; try eexists|].
    split; [split_and!; [done..|]; rewrite lookup_insert_eq; by eexists|]. intros t.
    destruct (decide (t = tid)) as [->|]; [by rewrite lookup_insert_eq, E|by rewrite lookup_insert_ne].
  - destruct H as (-> & H1 & H2). rewrite st_modify_bind. by split_and!.
  - destruct H as (H1 & H2 & H3). rewrite (st_bind_run _ _ c tid c) by (unfold st_read; by rewrite H2). by split_and!.
  - destruct H as (-> & H1 & H2 & [k H3]). unfold thread_stack. rewrite H3. cbn [default from_option id].
    destruct (m k) as [[[] k']|e] eqn:Em.
    + rewrite (st_bind_run _ _ c tt (with_stacks (<[tid := k']> (stacks c)) c)) by (unfold on_stack; by rewrite H3, Em).
      unfold mret, st_ret. cbn [stacks with_stacks]. rewrite lookup_insert_eq. split; [|split; [done|]].
      * right. cbn. rewrite H1, lookup_insert_eq. split; [done|by eexists].
      * intros t Hne. by rewrite lookup_insert_ne.
    + unfold mbind, st_bind, on_stack. by rewrite H3, Em.
Qed.

Section Isolation.
Context (debug : bool) (c : concolic) (progs : gmap Z (list call_op)).
Hypothesis Hc : context_ok c.
Hypothesis Hid : progs !! 0 = None.

(** A thread has done the first of its operations, on its own stack. *)
Definition done_alone (y : system) (t : Z) (th : thread) : Prop :=
  exists ops, progs !! t = Some (ops ++ todo th) /\
    run_calls debug ops (thread_stack c t) = Ok (tt, thread_stack (globals y) t).

Record isolated (y : system) : Prop := {
  is_done t th : threads y !! t = Some th -> done_alone y t th;
  is_others t : threads y !! t = None -> progs !! t = None /\ thread_stack (globals y) t = thread_stack c t;
  is_midway t th : threads y !! t = Some th -> undisturbed t y -> midway t (globals y) (next_step th)
}.

Lemma isolated_start : isolated (start c progs).
Proof using Hc.
  split; cbn [start threads globals]; intros t.
  - intros th. rewrite lookup_fmap. destruct (progs !! t) as [ops|] eqn:E; [|done]. intros [= <-]. exists []. by split.
  - rewrite lookup_fmap. by destruct (progs !! t).
  - intros th. rewrite lookup_fmap. destruct (progs !! t); [|done]. by intros [= <-] _.
Qed.

Lemma run_calls_snoc ops o k k' : run_calls debug ops k = Ok (tt, k') ->
  run_calls debug (ops ++ [o]) k = match run_call debug o k' with Ok (_, k'') => Ok (tt, k'') | Err e => Err e end.
Proof.
  intros H. unfold run_calls in *. rewrite st_fold_app. run_step H. cbn [st_fold]. unfold mbind, st_bind.
  by destruct (run_call debug o k') as [[[] k'']|].
Qed.

Lemma isolated_thread y t ph o ops : isolated y -> undisturbed t y -> threads y !! t = Some (mkThread ph (o :: ops)) ->
  t <> 0 /\ midway t (globals y) ph.
Proof using Hid.
  intros [I1 I2 I3] Hu Ht. split; [|by apply (I3 t _ Ht)]. intros ->. destruct (I1 _ _ Ht) as (l & Hl & _). by rewrite Hid in Hl.
Qed.

Lemma isolated_step t y y' : isolated y -> undisturbed t y -> step debug t y = Ok y' -> isolated y'.
Proof using Hid.
  intros I Hu H. unfold step in H. destruct (threads y !! t) as [[ph [|o ops]]|] eqn:Ht; [by injection H as <-| |by injection H as <-].
  destruct (isolated_thread y t ph o ops I Hu Ht) as [Hne Hm]. destruct I as [I1 I2 I3].
  pose proof (step_access_run t (run_call debug o) ph (globals y) Hne Hm) as S. apply result_bind_ok in H as ([r c'] & H1 & [= <-]).
  rewrite H1 in S. set (th' := match r with Some ph' => _ | None => _ end).
  assert ((forall t', t' <> t -> thread_stack c' t' = thread_stack (globals y) t') /\ midway t c' (next_step th') /\
    done_alone (mkSystem c' (<[t := th']> (threads y))) t th') as (So & Sm & Sd).
  { destruct (I1 _ _ Ht) as (l & Hl & Hr). destruct r as [ph'|]; subst th'; cbn [next_step].
    - destruct S as [S1 S2]. split_and!; [by intros|done|]. exists l. cbn [globals todo] in *. by rewrite S2.
    - destruct S as (S1 & S2 & S3). split_and!; [done|done|]. exists (l ++ [o]). cbn [globals todo] in *.
      rewrite <- app_assoc. split; [done|]. by rewrite (run_calls_snoc _ _ _ _ Hr), S2. }
  clearbody th'. split; cbn [globals threads].
  - intros t' th. destruct (decide (t' = t)) as [->|Hn]; [by rewrite lookup_insert_eq; intros [= <-]|].
    rewrite lookup_insert_ne by done. intros E. destruct (I1 _ _ E) as (l & Hl & Hr). exists l. cbn [globals]. by rewrite So.
  - intros t'. destruct (decide (t' = t)) as [->|Hn]; [by rewrite lookup_insert_eq|]. rewrite lookup_insert_ne, So by done. apply I2.
  - intros t' th. destruct (decide (t' = t)) as [->|Hn]; [by rewrite lookup_insert_eq; intros [= <-]|].
    rewrite lookup_insert_ne by done. intros E Hu'. destruct (Hu t' th E) as [|Et']; [done|]. rewrite Et'.
    assert (next_step th' = Testing) as Et by (destruct (Hu' t th' (lookup_insert_eq _ _ _)) as [->|]; done). by rewrite Et in Sm.
Qed.

Lemma exclusive_isolated y : exclusive debug (start c progs) y -> isolated y.
Proof using Hc Hid. induction 1; [apply isolated_start|by eapply isolated_step]. Qed.
End Isolation.

(** C15: Threads do not disturb each other as long as their accesses to
    [stack()] do not overlap, whatever the order of the accesses: the stack of
    every thread is what its own operations so far, in their order, make of the
    one it had, and a step fails only if the thread's own operation fails on its
    own stack. *)
Theorem threads_isolated debug c progs y t th :
  context_ok c -> progs !! 0 = None -> exclusive debug (start c progs) y -> threads y !! t = Some th ->
  exists ops, progs !! t = Some (ops ++ todo th) /\
    run_calls debug ops (thread_stack c t) = Ok (tt, thread_stack (globals y) t) /\
    forall e, undisturbed t y -> step debug t y = Err e ->
      exists o rest, todo th = o :: rest /\ run_calls debug (ops ++ [o]) (thread_stack c t) = Err e.
Proof.
  intros Hc Hid E Ht. pose proof (exclusive_isolated debug c progs Hc Hid y E) as I.
  destruct (is_done _ _ _ _ I _ _ Ht) as (ops & Ho & Hr). exists ops. split; [done|]. split; [done|]. intros e Hu H.
  unfold step in H. rewrite Ht in H. destruct th as [ph [|o rest]]; [done|]. exists o, rest. split; [done|].
  destruct (isolated_thread debug c progs Hid y t ph o rest I Hu Ht) as [Hne Hm].
  pose proof (step_access_run t (run_call debug o) ph (globals y) Hne Hm) as S. rewrite (run_calls_snoc _ _ _ _ _ Hr).
  destruct (step_access _ _ _ _) as [[r c']|e']; [done|]. injection H as ->. by rewrite S.
Qed.

Definition sample_progs : gmap Z (list call_op) := {[11 := [CPush 1 1 []; CPop]; 12 := [CPush 2 2 [true]]]}.

Lemma threads_isolated_witness :
  exists y th, exclusive true (start (concolic_init (mkSocket [] [] [])) sample_progs) y /\
    threads y !! 11 = Some th /\ todo th = [CPop] /\
    run_calls true [CPush 1 1 []] new_Stack = Ok (tt, thread_stack (globals y) 11).
Proof.
  set (y0 := start _ _).
  destruct (run_exclusive true (replicate 6 11 ++ replicate 6 12 ++ [11; 11]) y0) as [y|] eqn:R; [|vm_compute in R; discriminate R].
  assert (exclusive true y0 y) as E by (apply (run_exclusive_reached true _ y0 y0 y (excl_start true y0) R)).
  assert (threads y !! 11 = Some (mkThread Finding [CPop])) as Ht.
  { vm_compute in R. injection R as <-. vm_compute. reflexivity. }
  exists y, (mkThread Finding [CPop]). split; [exact E|]. split; [exact Ht|]. split; [reflexivity|].
  destruct (threads_isolated true (concolic_init (mkSocket [] [] [])) sample_progs y 11 _ (or_introl (conj eq_refl eq_refl)) ltac:(vm_compute; reflexivity) E Ht)
    as (ops & Ho & H & _).
  assert (ops = [CPush 1 1 []]) as ->.
  { destruct ops as [|o1 [|o2 [|]]]; vm_compute in Ho; try discriminate Ho. injection Ho as <-. reflexivity. }
  exact H.
Defined.

(** ** Accesses that overlap *)

Section Overlap.
Context (debug : bool) (t1 t2 : Z) (Hne : t1 <> t2).

Definition two_threads (c : concolic) (a b : thread) : system := mkSystem c (<[t1 := a]> (<[t2 := b]> ∅)).

Lemma step_first c ph o ops b r c' : step_access t1 (run_call debug o) ph c = Ok (r, c') ->
  step debug t1 (two_threads c (mkThread ph (o :: ops)) b) =
    Ok (two_threads c' (match r with Some ph' => mkThread ph' (o :: ops) | None => mkThread Testing ops end) b).
Proof.
  intros H. unfold step, two_threads. cbn [threads globals]. rewrite lookup_insert_eq, H. cbn [mbind result_bind].
  by rewrite insert_insert_eq.
Qed.

Lemma step_second c a ph o ops r c' : step_access t2 (run_call debug o) ph c = Ok (r, c') ->
  step debug t2 (two_threads c a (mkThread ph (o :: ops))) =
    Ok (two_threads c' a (match r with Some ph' => mkThread ph' (o :: ops) | None => mkThread Testing ops end)).
Proof using Hne.
  intros H. unfold step, two_threads. cbn [threads globals]. rewrite lookup_insert_ne, lookup_insert_eq, H by done. cbn [mbind result_bind].
  by rewrite insert_insert_ne, insert_insert_eq by done.
Qed.
End Overlap.

Lemma overlap_stacks c t1 t2 : t1 <> t2 ->
  find_stack t1 (find_stack t2 (stacks c)) !! t1 = Some (thread_stack c t1) /\
  default new_Stack (find_stack t1 (find_stack t2 (stacks c)) !! t2) = thread_stack c t2.
Proof.
  intros Hne. unfold find_stack, thread_stack.
  destruct (stacks c !! t2) eqn:E2, (stacks c !! t1) eqn:E1; simplify_map_eq; by rewrite ?E1, ?E2; simplify_map_eq.
Qed.

(** While the pointer is at [t1]'s stack under [t2]'s name, [t2] works there. *)
Lemma wrong_context t1 t2 {A} (m : st Stack A) c : lastThreadID c = t2 -> currentStack c = Some t1 ->
  stack t2 m c = on_stack t1 m c.
Proof.
  intros H1 H2. unfold stack, switchContext. rewrite st_modify_bind, H1, Z.eqb_refl. unfold on_current, on_stack.
  rewrite H2. cbn [mbind option_bind]. by destruct (stacks c !! t1).
Qed.

Lemma wrong_context_fold t1 t2 (ms : list (st Stack unit)) (u : unit) c : lastThreadID c = t2 -> currentStack c = Some t1 ->
  st_fold (fun m _ => stack t2 m) ms u c = st_fold (fun m _ => on_stack t1 m) ms u c.
Proof.
  revert u c. induction ms as [|m ms IH]; intros u c H1 H2; [done|]. cbn [st_fold]. unfold mbind, st_bind.
  rewrite (wrong_context t1 t2 m c H1 H2). unfold on_stack. destruct (stacks c !! t1) as [k|]; [|done].
  destruct (m k) as [[a k']|]; [|done]. by apply IH.
Qed.

(** C33: Between naming itself and setting the pointer a thread can be overtaken by
    the whole switch of another one.  The pointer is then left at the first
    thread's stack under the second one's name: its operation is done on the
    stack of the first thread, and so are all its later ones until a third
    thread or the first one switches again. *)
Theorem wrong_stack_stays debug c t1 t2 o1 o2 k1 k2 :
  t1 <> t2 -> lastThreadID c <> t1 -> lastThreadID c <> t2 ->
  run_call debug o1 (thread_stack c t1) = Ok (tt, k1) -> run_call debug o2 k1 = Ok (tt, k2) ->
  exists y, run debug ([t1; t1] ++ replicate 4 t2 ++ replicate 4 t1 ++ [t2; t2]) (start c (<[t1 := [o1]]> (<[t2 := [o2]]> ∅))) = Ok y /\
    threads y = <[t1 := mkThread Testing []]> (<[t2 := mkThread Testing []]> ∅) /\
    thread_stack (globals y) t1 = k2 /\ thread_stack (globals y) t2 = thread_stack c t2 /\
    forall ms : list (st Stack unit),
      st_fold (fun m _ => stack t2 m) ms tt (globals y) = st_fold (fun m _ => on_stack t1 m) ms tt (globals y).
Proof.
  intros Hne H1 H2 R1 R2. set (m := find_stack t1 (find_stack t2 (stacks c))).
  assert (m !! t1 = Some (thread_stack c t1)) as M1 by (by apply overlap_stacks).
  assert (default new_Stack (m !! t2) = thread_stack c t2) as M2 by (by apply overlap_stacks).
  set (c1 := with_context t2 (Some t1) m c). set (c2 := with_stacks (<[t1 := k1]> m) c1).
  set (c3 := with_stacks (<[t1 := k2]> (<[t1 := k1]> m)) c1).
  exists (two_threads t1 t2 c3 (mkThread Testing []) (mkThread Testing [])). split.
  - assert (start c (<[t1 := [o1]]> (<[t2 := [o2]]> ∅)) = two_threads t1 t2 c (mkThread Testing [o1]) (mkThread Testing [o2])) as ->
      by (unfold start, two_threads; by rewrite !fmap_insert, fmap_empty).
    pose proof (step_first debug t1 t2) as F. pose proof (step_second debug t1 t2 Hne) as G.
    cbn [replicate app run].
    rewrite (F c Testing o1 [] _ (Some Naming) c) by (cbn; by rewrite st_get_bind, (proj2 (Z.eqb_neq _ _)) by done).
    cbn [mbind result_bind]. erewrite F by reflexivity. cbn [mbind result_bind].
    erewrite (G _ _ Testing o2 [] (Some Naming)); [|cbn; by rewrite st_get_bind, (proj2 (Z.eqb_neq _ _)) by done].
    cbn [mbind result_bind]. do 3 (erewrite G by reflexivity; cbn [mbind result_bind]).
    do 3 (erewrite F by reflexivity; cbn [mbind result_bind]). change (with_context _ _ _ _) with c1 at 1.
    rewrite (F c1 (Using t1) o1 [] _ None c2).
    2: { cbn [step_access]. by rewrite (st_bind_run _ _ c1 tt c2) by (unfold on_stack; cbn; by rewrite M1, R1). }
    cbn [mbind result_bind]. rewrite (G c2 _ Returning o2 [] (Some (Using t1)) c2) by reflexivity. cbn [mbind result_bind].
    rewrite (G c2 _ (Using t1) o2 [] None c3); [done|].
    cbn [step_access]. by rewrite (st_bind_run _ _ c2 tt c3) by (unfold on_stack; cbn; by rewrite lookup_insert_eq, R2).
  - split; [done|]. unfold thread_stack. cbn [globals two_threads stacks c3 with_stacks].
    rewrite lookup_insert_eq, !lookup_insert_ne by done. split; [done|]. split; [done|]. intros ms.
    by apply wrong_context_fold.
Qed.

(** A stack is pushed for thread 12 in thread 11's place. *)
Lemma wrong_stack_stays_witness :
  exists y, run true ([11; 11] ++ replicate 4 12 ++ replicate 4 11 ++ [12; 12])
      (start (concolic_init (mkSocket [] [] [])) (<[11 := [CPush 1 1 []]]> (<[12 := [CPush 2 2 []]]> ∅))) = Ok y /\
    Z.of_nat (length (m_frames (thread_stack (globals y) 11))) = 2 /\ m_frames (thread_stack (globals y) 12) = [].
Proof.
  destruct (wrong_stack_stays true (concolic_init (mkSocket [] [] [])) 11 12 (CPush 1 1 []) (CPush 2 2 [])
    (match run_calls true [CPush 1 1 []] new_Stack with Ok (_, k) => k | Err _ => new_Stack end)
    (match run_calls true [CPush 1 1 []; CPush 2 2 []] new_Stack with Ok (_, k) => k | Err _ => new_Stack end))
    as (y & R & _ & E1 & E2 & _); [discriminate|discriminate|discriminate|reflexivity|reflexivity|].
  exists y. split; [exact R|]. rewrite E1, E2. split; reflexivity.
Defined.
