(* ===== verification/ConcProbes.v ===== *)
(** * The probes of the concolic profiler

    The probes of [VSharp.ClrInteraction/probes.h], which the instrumented code
    calls before and after its instructions.  Each is a function on the shared
    state of [Commands.v], run by the thread [tid]; probes of several threads
    run one after the other.  A probe works on the concreteness flags of the
    top frame and, when an operand is symbolic, sends a command.

    Probes whose body is only a comment in the source do nothing here too.  Messages to the log are left out. *)

From S2P Require Import Prelude CorHdr ConcStack ConcHeap MemBuffer Protocol Commands.
Local Open Scope Z_scope.

Section probes.
(** As in [Commands.v]; [destroyed] is what reading the flag [m_spontaneous] of
    a frame gives after the frame was removed from the deque. *)
Context (debug : bool) (tid junk : Z) (fuel : nat) (to_float to_double : Z -> Z) (destroyed : bool -> bool).

Local Abbreviation top m := (top_frame debug tid m).
Local Abbreviation send := (sendCommand debug tid junk fuel to_float).
Local Abbreviation send0 := (sendCommand0 debug tid junk fuel to_float).
Local Abbreviation send1 := (sendCommand1 debug tid junk fuel to_float).

(** A statement whose result is not used. *)
Definition ignore {S A} (m : st S A) : st S unit := m;; mret tt.
Definition unless {S} (b : bool) (m : st S bool) : st S unit := if b then mret tt else ignore m.

(** ** Registration *)

Definition registerProbe (probe : Z) : st (list Z) Z := st_modify (fun ProbesAddresses => ProbesAddresses ++ [probe]);; mret 0.

(** ** Arguments and locals *)

(** The index is converted to [INT16] and then to [unsigned]. *)
Definition ldarg (idx : Z) : st concolic bool :=
  top (pop0;; concreteness ← arg (wrap 32 (sint 16 idx));
       (if (concreteness : bool) then push1Concrete debug else mret tt);; mret concreteness).

Definition Track_Ldarg_0 (offset : Z) : st concolic unit := c ← ldarg 0; unless c (send0 offset).
Definition Track_Ldarg_1 (offset : Z) : st concolic unit := c ← ldarg 1; unless c (send0 offset).
Definition Track_Ldarg_2 (offset : Z) : st concolic unit := c ← ldarg 2; unless c (send0 offset).
Definition Track_Ldarg_3 (offset : Z) : st concolic unit := c ← ldarg 3; unless c (send0 offset).
Definition Track_Ldarg_S (idx offset : Z) : st concolic unit := c ← ldarg idx; unless c (send0 offset).
Definition Track_Ldarg (idx offset : Z) : st concolic unit := c ← ldarg idx; unless c (send0 offset).
Definition Track_Ldarga (ptr idx : Z) : st concolic unit := top (push1Concrete debug).

Definition ldloc (idx : Z) : st concolic bool :=
  top (pop0;; concreteness ← loc (wrap 32 (sint 16 idx));
       (if (concreteness : bool) then push1Concrete debug else mret tt);; mret concreteness).
Definition Track_Ldloc_0 (offset : Z) : st concolic unit := c ← ldloc 0; unless c (send0 offset).
Definition Track_Ldloc_1 (offset : Z) : st concolic unit := c ← ldloc 1; unless c (send0 offset).
Definition Track_Ldloc_2 (offset : Z) : st concolic unit := c ← ldloc 2; unless c (send0 offset).
Definition Track_Ldloc_3 (offset : Z) : st concolic unit := c ← ldloc 3; unless c (send0 offset).
Definition Track_Ldloc_S (idx offset : Z) : st concolic unit := c ← ldloc idx; unless c (send0 offset).
Definition Track_Ldloc (idx offset : Z) : st concolic unit := c ← ldloc idx; unless c (send0 offset).
Definition Track_Ldloca (ptr idx : Z) : st concolic unit := top (push1Concrete debug).

Definition starg (idx : Z) : st concolic bool :=
  top (concreteness ← pop1 debug; setArg (wrap 32 (sint 16 idx)) concreteness;; mret concreteness).
Definition Track_Starg_S (idx offset : Z) : st concolic unit := c ← starg idx; unless c (send1 offset).
Definition Track_Starg (idx offset : Z) : st concolic unit := c ← starg idx; unless c (send1 offset).

Definition stloc (idx : Z) : st concolic bool :=
  top (concreteness ← pop1 debug; setLoc (wrap 32 (sint 16 idx)) concreteness;; mret concreteness).
Definition Track_Stloc_0 (offset : Z) : st concolic unit := c ← stloc 0; unless c (send1 offset).
Definition Track_Stloc_1 (offset : Z) : st concolic unit := c ← stloc 1; unless c (send1 offset).
Definition Track_Stloc_2 (offset : Z) : st concolic unit := c ← stloc 2; unless c (send1 offset).
Definition Track_Stloc_3 (offset : Z) : st concolic unit := c ← stloc 3; unless c (send1 offset).
Definition Track_Stloc_S (idx offset : Z) : st concolic unit := c ← stloc idx; unless c (send1 offset).
Definition Track_Stloc (idx offset : Z) : st concolic unit := c ← stloc idx; unless c (send1 offset).

(** ** Stack, branches and arithmetic *)

Definition Track_Ldc : st concolic unit := top (push1Concrete debug).
Definition Track_Dup (offset : Z) : st concolic unit :=
  c ← top (dup debug);
  if (c : bool) then mret tt else send1 offset;; top (push1 debug false).
Definition Track_Pop : st concolic unit := top (pop1Async debug).
Definition branch (offset : Z) : st concolic bool :=
  c ← top (pop1 debug);
  if (c : bool) then mret true else send1 offset.
Definition BrTrue (offset : Z) : st concolic unit := ignore (branch offset).
Definition BrFalse (offset : Z) : st concolic unit := ignore (branch offset).
Definition Switch (offset : Z) : st concolic unit := ignore (top (pop1 debug)).

(** One operand replaced by one result. *)
Definition conv (offset : Z) : st concolic unit :=
  concreteness ← top (pop1 debug);
  if (concreteness : bool) then top (push1Concrete debug) else ignore (send1 offset).
Definition Track_UnOp (op offset : Z) : st concolic unit :=
  concreteness ← top (pop1 debug);
  if (concreteness : bool) then top (push1Concrete debug) else ignore (send1 offset).
Definition Track_BinOp : st concolic bool :=
  top (concreteness ← pop debug 2; (if (concreteness : bool) then push1Concrete debug else mret tt);; mret concreteness).

(** The operands of a command, evaluated from the left. *)
Definition send2 (offset : Z) (op1 op2 : st concolic EvalStackOperand) : st concolic unit :=
  o1 ← op1; o2 ← op2; ignore (send offset 2 [o1; o2]).

Definition Exec_BinOp_4 (op arg1 arg2 offset : Z) : st concolic unit :=
  send2 offset (mret (mkop_4 junk arg1)) (mret (mkop_4 junk arg2)).
Definition Exec_BinOp_8 (op arg1 arg2 offset : Z) : st concolic unit :=
  send2 offset (mret (mkop_8 junk arg1)) (mret (mkop_8 junk arg2)).
Definition Exec_BinOp_f4 (op arg1 arg2 offset : Z) : st concolic unit :=
  send2 offset (mret (mkop_f4 junk to_double arg1)) (mret (mkop_f4 junk to_double arg2)).
Definition Exec_BinOp_f8 (op arg1 arg2 offset : Z) : st concolic unit :=
  send2 offset (mret (mkop_f8 junk arg1)) (mret (mkop_f8 junk arg2)).
Definition Exec_BinOp_p (op arg1 arg2 offset : Z) : st concolic unit :=
  send2 offset (mkop_p arg1) (mkop_p arg2).
Definition Exec_BinOp_8_4 (op arg1 arg2 offset : Z) : st concolic unit :=
  send2 offset (mret (mkop_8 junk arg1)) (mret (mkop_4 junk arg2)).
Definition Exec_BinOp_4_p (op arg1 arg2 offset : Z) : st concolic unit :=
  send2 offset (mret (mkop_4 junk arg1)) (mkop_p arg2).
Definition Exec_BinOp_p_4 (op arg1 arg2 offset : Z) : st concolic unit :=
  send2 offset (mkop_p arg1) (mret (mkop_4 junk arg2)).
Definition Exec_BinOp_4_ovf (op arg1 arg2 offset : Z) : st concolic unit :=
  send2 offset (mret (mkop_4 junk arg1)) (mret (mkop_4 junk arg2)).
Definition Exec_BinOp_8_ovf (op arg1 arg2 offset : Z) : st concolic unit :=
  send2 offset (mret (mkop_8 junk arg1)) (mret (mkop_8 junk arg2)).
Definition Exec_BinOp_f4_ovf (op arg1 arg2 offset : Z) : st concolic unit :=
  send2 offset (mret (mkop_f4 junk to_double arg1)) (mret (mkop_f4 junk to_double arg2)).
Definition Exec_BinOp_f8_ovf (op arg1 arg2 offset : Z) : st concolic unit :=
  send2 offset (mret (mkop_f8 junk arg1)) (mret (mkop_f8 junk arg2)).
Definition Exec_BinOp_p_ovf (op arg1 arg2 offset : Z) : st concolic unit :=
  send2 offset (mkop_p arg1) (mkop_p arg2).
Definition Exec_BinOp_8_4_ovf (op arg1 arg2 offset : Z) : st concolic unit :=
  send2 offset (mret (mkop_8 junk arg1)) (mret (mkop_4 junk arg2)).
Definition Exec_BinOp_4_p_ovf (op arg1 arg2 offset : Z) : st concolic unit :=
  send2 offset (mret (mkop_4 junk arg1)) (mkop_p arg2).
Definition Exec_BinOp_p_4_ovf (op arg1 arg2 offset : Z) : st concolic unit :=
  send2 offset (mkop_p arg1) (mret (mkop_4 junk arg2)).

(** ** Memory *)

Definition Track_Ldind (ptr offset : Z) : st concolic unit := mret tt.
Definition Track_Stind (ptr sizeOfPtr : Z) : st concolic bool :=
  valueIsConcrete ← top peek0;
  addressIsConcrete ← top peek1;
  (if (addressIsConcrete : bool) then on_heap (Heap_write (wrap 64 ptr) (wrap 64 sizeOfPtr) valueIsConcrete) else mret tt);;
  top (pop debug 2).
Definition Exec_Stind_I1 (ptr value offset : Z) : st concolic unit := send2 offset (mkop_p ptr) (mret (mkop_4 junk value)).
Definition Exec_Stind_I2 (ptr value offset : Z) : st concolic unit := send2 offset (mkop_p ptr) (mret (mkop_4 junk value)).
Definition Exec_Stind_I4 (ptr value offset : Z) : st concolic unit := send2 offset (mkop_p ptr) (mret (mkop_4 junk value)).
Definition Exec_Stind_I8 (ptr value offset : Z) : st concolic unit := send2 offset (mkop_p ptr) (mret (mkop_8 junk value)).
Definition Exec_Stind_R4 (ptr value offset : Z) : st concolic unit := send2 offset (mkop_p ptr) (mret (mkop_f4 junk to_double value)).
Definition Exec_Stind_R8 (ptr value offset : Z) : st concolic unit := send2 offset (mkop_p ptr) (mret (mkop_f8 junk value)).
Definition Exec_Stind_ref (ptr value offset : Z) : st concolic unit := send2 offset (mkop_p ptr) (mkop_p value).
Definition Track_Conv (offset : Z) : st concolic unit := conv offset.
Definition Track_Conv_Ovf (offset : Z) : st concolic unit := conv offset.
Definition Track_Newarr (ptr typeToken offset : Z) : st concolic unit := mret tt.
Definition Track_Localloc (len offset : Z) : st concolic unit := mret tt.
Definition Track_Ldobj (ptr offset : Z) : st concolic unit := mret tt.
Definition Track_Ldstr (ptr : Z) : st concolic unit := top (push1Concrete debug).
Definition Track_Ldtoken : st concolic unit := top (push1Concrete debug).
Definition Track_Stobj (ptr : Z) : st concolic unit := ignore (top (pop debug 2)).
Definition Track_Initobj (ptr : Z) : st concolic unit := ignore (top (pop1 debug)).
Definition Track_Ldlen (ptr offset : Z) : st concolic unit :=
  concreteness ← top (pop1 debug);
  if (concreteness : bool) then top (push1Concrete debug) else ignore (send1 offset).
Definition Track_Cpobj (dest src : Z) : st concolic bool := top (pop debug 2).
Definition Exec_Cpobj (typeToken dest src offset : Z) : st concolic unit := mret tt.
Definition Track_Cpblk (dest src : Z) : st concolic bool := top (pop debug 3).
Definition Exec_Cpblk (dest src count offset : Z) : st concolic unit := mret tt.
Definition Track_Initblk (ptr : Z) : st concolic bool := top (pop debug 3).
Definition Exec_Initblk (ptr value count offset : Z) : st concolic unit := mret tt.
Definition Track_Castclass (ptr typeToken offset : Z) : st concolic unit := mret tt.
Definition Track_Isinst (ptr typeToken offset : Z) : st concolic unit := mret tt.
Definition Track_Box (ptr offset : Z) : st concolic unit := top (pop1 debug;; push1Concrete debug).
Definition Track_Unbox (ptr typeToken offset : Z) : st concolic unit := mret tt.
Definition Track_Unbox_Any (ptr typeToken offset : Z) : st concolic unit := mret tt.

(** ** Fields and elements *)

Definition ldfld (fieldPtr fieldSize : Z) : st concolic bool :=
  ptrIsConcrete ← top (pop1 debug);
  if (ptrIsConcrete : bool) then on_heap (Heap_read (wrap 64 fieldPtr) (wrap 64 fieldSize)) else mret false.
Definition Track_Ldfld (objPtr fieldOffset fieldSize offset : Z) : st concolic unit :=
  c ← ldfld (objPtr + fieldOffset) fieldSize;
  if (c : bool) then top (push1Concrete debug)
  else o ← mkop_p objPtr; ignore (send offset 1 [o]).
Definition Track_Ldflda (fieldPtr fieldToken offset : Z) : st concolic unit := mret tt.
Definition stfld (fieldToken ptr : Z) : st concolic bool := top (pop debug 2).
Definition Track_Stfld_4 (fieldToken ptr value offset : Z) : st concolic unit :=
  c ← stfld fieldToken ptr; if (c : bool) then mret tt else send2 offset (mkop_p ptr) (mret (mkop_4 junk value)).
Definition Track_Stfld_8 (fieldToken ptr value offset : Z) : st concolic unit :=
  c ← stfld fieldToken ptr; if (c : bool) then mret tt else send2 offset (mkop_p ptr) (mret (mkop_8 junk value)).
Definition Track_Stfld_f4 (fieldToken ptr value offset : Z) : st concolic unit :=
  c ← stfld fieldToken ptr; if (c : bool) then mret tt else send2 offset (mkop_p ptr) (mret (mkop_f4 junk to_double value)).
Definition Track_Stfld_f8 (fieldToken ptr value offset : Z) : st concolic unit :=
  c ← stfld fieldToken ptr; if (c : bool) then mret tt else send2 offset (mkop_p ptr) (mret (mkop_f8 junk value)).
Definition Track_Stfld_p (fieldToken ptr value offset : Z) : st concolic unit :=
  c ← stfld fieldToken ptr; if (c : bool) then mret tt else send2 offset (mkop_p ptr) (mkop_p value).
Definition Track_Stfld_struct (fieldToken ptr value offset : Z) : st concolic unit :=
  c ← stfld fieldToken ptr; if (c : bool) then mret tt else send2 offset (mkop_p ptr) (mkop_struct value).
Definition Track_Ldsfld (fieldToken offset : Z) : st concolic unit := top (push1Concrete debug).
Definition Track_Ldsflda (ptr : Z) : st concolic unit := top (push1Concrete debug).
Definition Track_Stsfld (fieldToken offset : Z) : st concolic unit := ignore (top (pop1 debug)).
Definition Track_Ldelema (ptr index : Z) : st concolic bool :=
  top (c ← pop1 debug; if (c : bool) then peek0 else mret false).
Definition Track_Ldelem (ptr index : Z) : st concolic bool :=
  top (c ← pop1 debug; if (c : bool) then peek0 else mret false).
Definition Exec_Ldelema (ptr index offset : Z) : st concolic unit := mret tt.
Definition Exec_Ldelem (ptr index offset : Z) : st concolic unit := mret tt.
Definition Track_Stelem (ptr index : Z) : st concolic bool := top (pop debug 3).
Definition Exec_Stelem_I (ptr index value offset : Z) : st concolic unit := mret tt.
Definition Exec_Stelem_I1 (ptr index value offset : Z) : st concolic unit := mret tt.
Definition Exec_Stelem_I2 (ptr index value offset : Z) : st concolic unit := mret tt.
Definition Exec_Stelem_I4 (ptr index value offset : Z) : st concolic unit := mret tt.
Definition Exec_Stelem_I8 (ptr index value offset : Z) : st concolic unit := mret tt.
Definition Exec_Stelem_R4 (ptr index value offset : Z) : st concolic unit := mret tt.
Definition Exec_Stelem_R8 (ptr index value offset : Z) : st concolic unit := mret tt.
Definition Exec_Stelem_Ref (ptr index value offset : Z) : st concolic unit := mret tt.
Definition Exec_Stelem_Struct (ptr index value offset : Z) : st concolic unit := mret tt.
Definition Track_Ckfinite : st concolic unit := mret tt.
Definition Track_Sizeof : st concolic unit := top (push1Concrete debug).
Definition Track_Ldftn : st concolic unit := top (push1Concrete debug).
Definition Track_Arglist : st concolic unit := top (push1Concrete debug).
Definition Track_Ldvirtftn (ptr token offset : Z) : st concolic unit := mret tt.
Definition Track_Mkrefany : st concolic unit := ignore (top (pop1 debug)).

(** ** Calls and returns *)

(** [new bool[n]] set to one value by [memset]. *)
Definition Track_Enter (token maxStackSize argsCount localsCount : Z) : st concolic unit :=
  stack tid (
    expected ← topFrame debug (f ← st_get; mret (m_resolvedToken f));
    (if (expected =? 0) || (expected =? token)
     then topFrame debug (setSpontaneous false)
     else pushFrame token token (replicate (Z.to_nat argsCount) true) argsCount;;
          topFrame debug (setSpontaneous true));;
    topFrame debug (setEnteredMarker true;; configure junk maxStackSize localsCount)).
Definition Track_EnterMain (token argsCount : Z) (argsConcreteness : bool) (maxStackSize localsCount : Z)
    : st concolic unit :=
  mainEntered;;
  stack tid (pushFrame token token (replicate (Z.to_nat argsCount) argsConcreteness) argsCount);;
  Track_Enter token maxStackSize argsCount localsCount;;
  stack tid (Stack_resetPopsTracking 1).

(** The reference to the top frame is read after the frame was removed. *)
Definition leave_frame (returnValues : Z) : st Stack unit :=
  f ← topFrame debug st_get;
  if debug && negb (m_concretenessTop f =? returnValues)
  then st_fail (Thrown "Corrupted stack: stack is not empty when popping frame!")
  else if returnValues =? 0 then popFrame debug
  else
    returnValue ← topFrame debug (pop1 debug);
    popFrame debug;;
    k ← st_get;
    if Stack_isEmpty k
    then st_fail (Thrown "Function returned result, but there is no frame to push return value!")
    else if destroyed (m_spontaneous f) then mret tt
    else topFrame debug (push1 debug returnValue).
Definition Track_Leave (returnValues offset : Z) : st concolic unit := stack tid (leave_frame returnValues).

Definition leaveMain (offset opsCount : Z) (ops : list EvalStackOperand) : st concolic unit :=
  (if 0 <? opsCount then ignore (stack tid (topFrame debug (pop1 debug))) else mret tt);;
  send offset opsCount ops;;
  (if 0 <? opsCount then ignore (stack tid (topFrame debug (pop1 debug))) else mret tt);;
  stack tid (popFrame debug).
Definition Track_LeaveMain_0 (offset : Z) : st concolic unit := leaveMain offset 0 [].
Definition Track_LeaveMain_4 (returnValue offset : Z) : st concolic unit :=
  o ← mret (mkop_4 junk returnValue); leaveMain offset 1 [o].
Definition Track_LeaveMain_8 (returnValue offset : Z) : st concolic unit :=
  o ← mret (mkop_8 junk returnValue); leaveMain offset 1 [o].
Definition Track_LeaveMain_f4 (returnValue offset : Z) : st concolic unit :=
  o ← mret (mkop_f4 junk to_double returnValue); leaveMain offset 1 [o].
Definition Track_LeaveMain_f8 (returnValue offset : Z) : st concolic unit :=
  o ← mret (mkop_f8 junk returnValue); leaveMain offset 1 [o].
Definition Track_LeaveMain_p (returnValue offset : Z) : st concolic unit :=
  o ← mkop_p returnValue; leaveMain offset 1 [o].

Definition Finalize_Call (returnValues : Z) : st concolic unit :=
  stack tid (
    entered ← topFrame debug (f ← st_get; mret (hasEntered f));
    if (entered : bool) then mret tt
    else
      popFrame debug;;
      k ← st_get;
      if debug && Stack_isEmpty k
      then st_fail (Thrown "Corrupted stack: stack is empty after executing external function!")
      else if returnValues =? 0 then mret tt else topFrame debug (push1Concrete debug)).

Definition Exec_Call (argsCount offset : Z) : st concolic unit :=
  ops ← createOps junk to_double argsCount; ignore (send offset argsCount ops).
Definition Track_Call (argsCount : Z) : st concolic bool := stack tid (topFrame debug (pop debug argsCount)).

(** [memset(at, true, n)] of the array of flags. *)
Definition set_true (at_ n : Z) (flags : list bool) : result (list bool) :=
  match write_at flags at_ (replicate (Z.to_nat n) true) with Some l => Ok l | None => Err Undefined end.

(** The flags of the arguments; the new array holds [junk]. *)
Definition argsConcreteness (newobj : bool) (argsCount : Z) (poppedSymbs : list (Z * Z)) : st Stack (list bool) :=
  let flags := replicate (Z.to_nat argsCount) (0 <? junk) in
  flags ← st_lift (if newobj then flags ← set_true 0 1 flags; set_true 1 argsCount flags
                   else set_true 0 argsCount flags);
  st_fold (fun pair flags =>
    let idx := wrap 32 (wrap 32 (argsCount - snd pair) - 1) in
    match write_at flags idx [false] with Some l => mret l | None => st_fail Undefined end) poppedSymbs flags.

Definition PushFrame (unresolvedToken resolvedToken : Z) (newobj : bool) (argsCount offset : Z) : st concolic unit :=
  stack tid (
    f ← topFrame debug st_get;
    let argsCount := if newobj then wrap 16 (argsCount + 1) else argsCount in
    flags ← argsConcreteness newobj argsCount (m_lastPoppedSymbolics f);
    pushFrame resolvedToken unresolvedToken flags argsCount).
Definition Track_CallVirt (count offset : Z) : st concolic unit := Track_Call count;; PushFrame 0 0 false count offset.
Definition Track_Newobj (ptr : Z) : st concolic unit := top (push1Concrete debug).
Definition Track_Calli (signature offset : Z) : st concolic unit := st_fail (Thrown "CALLI NOT IMLEMENTED!").
Definition Track_Throw (offset : Z) : st concolic unit := ignore (top (pop1 debug)).
Definition Track_Rethrow (offset : Z) : st concolic unit := mret tt.

(** ** The operand buffer *)

Definition Mem_p (arg : Z) : st concolic unit := on_buffer (clear_mem junk;; mem_p junk arg).
Definition Mem_1_idx (arg idx order : Z) : st concolic unit :=
  on_buffer ((if order =? 0 then clear_mem junk else mret tt);; mem_i1_at junk arg idx).
Definition Mem_2_idx (arg idx order : Z) : st concolic unit :=
  on_buffer ((if order =? 0 then clear_mem junk else mret tt);; mem_i2_at junk arg idx).
Definition Mem_4_idx (arg idx order : Z) : st concolic unit :=
  on_buffer ((if order =? 0 then clear_mem junk else mret tt);; mem_i4_at junk arg idx).
Definition Mem_8_idx (arg idx order : Z) : st concolic unit :=
  on_buffer ((if order =? 0 then clear_mem junk else mret tt);; mem_i8_at junk arg idx).
Definition Mem_f4_idx (arg idx order : Z) : st concolic unit :=
  on_buffer ((if order =? 0 then clear_mem junk else mret tt);; mem_f4_at junk arg idx).
Definition Mem_f8_idx (arg idx order : Z) : st concolic unit :=
  on_buffer ((if order =? 0 then clear_mem junk else mret tt);; mem_f8_at junk arg idx).
Definition Mem_p_idx (arg idx order : Z) : st concolic unit :=
  on_buffer ((if order =? 0 then clear_mem junk else mret tt);; mem_p_at junk arg idx).
Definition Mem2_4 (arg1 arg2 : Z) : st concolic unit := on_buffer (clear_mem junk;; mem_i4 junk arg1;; mem_i4 junk arg2).
Definition Mem2_8 (arg1 arg2 : Z) : st concolic unit := on_buffer (clear_mem junk;; mem_i8 junk arg1;; mem_i8 junk arg2).
Definition Mem2_f4 (arg1 arg2 : Z) : st concolic unit := on_buffer (clear_mem junk;; mem_f4 junk arg1;; mem_f4 junk arg2).
Definition Mem2_f8 (arg1 arg2 : Z) : st concolic unit := on_buffer (clear_mem junk;; mem_f8 junk arg1;; mem_f8 junk arg2).
Definition Mem2_8_4 (arg1 arg2 : Z) : st concolic unit := on_buffer (clear_mem junk;; mem_i8 junk arg1;; mem_i4 junk arg2).
Definition Unmem_1 (idx : Z) : st concolic Z := on_buffer (unmem_i1 idx).
Definition Unmem_2 (idx : Z) : st concolic Z := on_buffer (unmem_i2 idx).
Definition Unmem_4 (idx : Z) : st concolic Z := on_buffer (unmem_i4 idx).
Definition Unmem_8 (idx : Z) : st concolic Z := on_buffer (unmem_i8 idx).
Definition Unmem_f4 (idx : Z) : st concolic Z := on_buffer (unmem_f4 idx).
Definition Unmem_f8 (idx : Z) : st concolic Z := on_buffer (unmem_f8 idx).
Definition Unmem_p (idx : Z) : st concolic Z := on_buffer (unmem_p idx).

(** The log of the debug build reads the frame; a null entry of the pool is no
    entry. *)
Definition DumpInstruction (pool : strings_pool) (index : Z) : st concolic unit :=
  if debug then
    match stringsPool pool !! index with
    | None => mret tt
    | Some _ => ignore (top st_get)
    end
  else mret tt.
End probes.
