(* ===== verification/ConcProbeSpec.v ===== *)
(** * What the concolic probes do

    Theorems about the probes of [ConcProbes.v].  Instructions on concrete
    operands are tracked on the flags of the top frame alone; calls hand the
    flags of the arguments to the new frame and returns hand the flag of the
    result back; flags stored in the heap are found again by a later load; an
    instruction with symbolic operands is one exchange with the engine, after
    which the counters of pops start anew. *)

From S2P Require Import Prelude CorHdr ConcStack ConcHeap MemBuffer Protocol Commands ConcProbes.
Local Open Scope Z_scope.

(** ** The top frame of a thread *)

(** The state after thread [tid] has changed its stack to [k]. *)
Definition at_thread (tid : Z) (k : Stack) (c : concolic) : concolic :=
  mkConcolic tid (Some tid) (<[tid := k]> (stacks c)) (heap c) (buffer c) (chan c) (main_entered c).

Definition set_top (tid : Z) (fs : list StackFrame) (f : StackFrame) (c : concolic) : concolic :=
  at_thread tid (with_frames (fs ++ [f]) (thread_stack c tid)) c.

Record top_is (tid : Z) (c : concolic) (fs : list StackFrame) (f : StackFrame) : Prop := {
  ti_context : context_ok c;
  ti_tid : tid <> 0;
  ti_frames : m_frames (thread_stack c tid) = fs ++ [f]
}.

Lemma at_thread_ok tid k c : context_ok (at_thread tid k c).
Proof. right. split; [done|]. simpl. rewrite lookup_insert_eq. by eexists. Qed.

Lemma at_thread_stack tid k c : thread_stack (at_thread tid k c) tid = k.
Proof. unfold thread_stack. simpl. by rewrite lookup_insert_eq. Qed.

Lemma at_thread_at_thread tid k k' c : at_thread tid k' (at_thread tid k c) = at_thread tid k' c.
Proof. unfold at_thread. simpl. by rewrite insert_insert_eq. Qed.

Lemma set_top_is tid fs fs' f f' c : top_is tid c fs f -> top_is tid (set_top tid fs' f' c) fs' f'.
Proof. intros [Hc Ht _]. split; [apply at_thread_ok|done|]. unfold set_top. by rewrite at_thread_stack. Qed.

Lemma set_top_set_top tid fs fs' f f' c : set_top tid fs' f' (set_top tid fs f c) = set_top tid fs' f' c.
Proof. unfold set_top. by rewrite at_thread_stack, at_thread_at_thread. Qed.

Lemma stack_step {A} tid (m : st Stack A) c fs f a k :
  top_is tid c fs f -> m (thread_stack c tid) = Ok (a, k) -> stack tid m c = Ok (a, at_thread tid k c).
Proof. intros [Hc Ht _] Hm. rewrite stack_run by done. by rewrite Hm. Qed.

Lemma topFrame_step {A} debug (m : st StackFrame A) k fs f a f' :
  m_frames k = fs ++ [f] -> m f = Ok (a, f') ->
  topFrame debug m k = Ok (a, with_frames (fs ++ [f']) k).
Proof. intros Hk Hm. unfold topFrame. rewrite Hk, last_snoc, Hm. by rewrite take_init. Qed.

Lemma top_step {A} debug tid (m : st StackFrame A) c fs f a f' :
  top_is tid c fs f -> m f = Ok (a, f') -> top_frame debug tid m c = Ok (a, set_top tid fs f' c).
Proof. intros H Hm. apply (stack_step _ _ _ fs f); [done|]. apply topFrame_step with f; [apply H|done]. Qed.

(** ** Instructions on concrete operands

    The flags a frame stands for: the evaluation stack from the bottom to the
    top, the arguments, the locals. *)

Record flags := mkFlags { fl_stack : list bool; fl_args : list bool; fl_locs : list bool }.

Record frame_flags (cap : Z) (f : StackFrame) (a : flags) : Prop := {
  ff_rep : frame_rep f (fl_stack a);
  ff_cap : m_capacity f = cap;
  ff_args : m_args f = fl_args a;
  ff_locs : m_locals f = fl_locs a
}.

Inductive instr :=
| ILdarg (idx : Z) | ILdloc (idx : Z) | IStarg (idx : Z) | IStloc (idx : Z)
| ILdc | IDup | IPop | IBrTrue | ISwitch | IUnOp | IConv | ILdlen | IBinOp | IStfld | IBox.

Definition flags_push (cap : Z) (b : bool) (a : flags) : option flags :=
  if Z.of_nat (length (fl_stack a)) <? cap
  then Some (mkFlags (fl_stack a ++ [b]) (fl_args a) (fl_locs a)) else None.
Definition flags_pop (a : flags) : option (bool * flags) :=
  b ← last (fl_stack a);
  Some (b, mkFlags (take (length (fl_stack a) - 1) (fl_stack a)) (fl_args a) (fl_locs a)).
Definition pop_concrete (a : flags) : option flags :=
  '(b, a) ← flags_pop a; if (b : bool) then Some a else None.
Definition concrete_at (l : list bool) (idx : Z) : option unit :=
  if (0 <=? idx) && (idx <? 2 ^ 15)
  then match l !! Z.to_nat idx with Some true => Some tt | _ => None end else None.
Definition in_range (l : list bool) (idx : Z) : option unit :=
  if (0 <=? idx) && (idx <? 2 ^ 15) && (idx <? Z.of_nat (length l)) then Some tt else None.

(** The step on the flags; [None] when a needed flag is symbolic, or the
    instruction does not fit the method. *)
Definition flags_step (cap : Z) (i : instr) (a : flags) : option flags :=
  match i with
  | ILdarg idx => concrete_at (fl_args a) idx ≫= fun _ => flags_push cap true a
  | ILdloc idx => concrete_at (fl_locs a) idx ≫= fun _ => flags_push cap true a
  | IStarg idx => in_range (fl_args a) idx ≫= fun _ =>
      a ← pop_concrete a; Some (mkFlags (fl_stack a) (<[Z.to_nat idx := true]> (fl_args a)) (fl_locs a))
  | IStloc idx => in_range (fl_locs a) idx ≫= fun _ =>
      a ← pop_concrete a; Some (mkFlags (fl_stack a) (fl_args a) (<[Z.to_nat idx := true]> (fl_locs a)))
  | ILdc => flags_push cap true a
  | IDup => a' ← pop_concrete a; flags_push cap true a
  | IPop | ISwitch => snd <$> flags_pop a
  | IBrTrue => pop_concrete a
  | IUnOp | IConv | ILdlen => a ← pop_concrete a; flags_push cap true a
  | IBinOp => a ← pop_concrete a; a ← pop_concrete a; flags_push cap true a
  | IStfld => a ← pop_concrete a; pop_concrete a
  | IBox => '(_, a) ← flags_pop a; flags_push cap true a
  end.

Section frame_flags.
Context (debug : bool) (cap : Z).

Lemma push_flags b f a a' :
  frame_flags cap f a -> flags_push cap b a = Some a' ->
  exists f', push1 debug b f = Ok (tt, f') /\ frame_flags cap f' a'.
Proof.
  intros [Hr Hc Ha Hl] H. unfold flags_push in H. destruct (Z.ltb_spec (Z.of_nat (length (fl_stack a))) cap) as [Hlt|]; [|done].
  injection H as <-. destruct (push1_run debug f _ b Hr) as (cells & R & Hr'); [lia|].
  eexists. split; [exact R|]. by split.
Qed.

Lemma flags_pop_split a b a' :
  flags_pop a = Some (b, a') -> fl_stack a = fl_stack a' ++ [b] /\ fl_args a' = fl_args a /\ fl_locs a' = fl_locs a.
Proof.
  unfold flags_pop. destruct (last (fl_stack a)) as [b'|] eqn:E; [|done]. cbn [mbind option_bind].
  intros [= -> <-]. split; [|done]. by apply last_split.
Qed.

Lemma flags_below f a a' bs popped :
  frame_flags cap f a -> fl_stack a = fl_stack a' ++ bs -> fl_args a' = fl_args a -> fl_locs a' = fl_locs a ->
  frame_flags cap (with_popped popped (with_cells (m_concreteness f) (Z.of_nat (length (fl_stack a')))
    (symb (fl_stack a')) f)) a'.
Proof.
  intros [Hr Hc Ha Hl] E E1 E2. split; simpl; try congruence. apply (frame_rep_below _ _ bs). by rewrite <- E.
Qed.

Lemma pop_flags b f a a' :
  frame_flags cap f a -> flags_pop a = Some (b, a') ->
  exists f', pop1 debug f = Ok (b, f') /\ frame_flags cap f' a'.
Proof.
  intros Hf (E & E1 & E2)%flags_pop_split. eexists. split.
  - apply pop1_run. rewrite <- E. apply Hf.
  - by apply (flags_below f a a' [b]).
Qed.

Lemma pop_concrete_inv a a' : pop_concrete a = Some a' <-> flags_pop a = Some (true, a').
Proof. unfold pop_concrete. destruct (flags_pop a) as [[[] b]|]; simpl; split; congruence. Qed.

Lemma pop2_flags f a a1 a2 :
  frame_flags cap f a -> pop_concrete a = Some a1 -> pop_concrete a1 = Some a2 ->
  exists f', pop debug 2 f = Ok (true, f') /\ frame_flags cap f' a2.
Proof.
  intros Hf (E & E1 & E2)%pop_concrete_inv%flags_pop_split (E' & E1' & E2')%pop_concrete_inv%flags_pop_split.
  assert (fl_stack a = fl_stack a2 ++ [true; true]) as Es by (rewrite E, E', <- app_assoc; done).
  eexists. split; [|apply (flags_below f a a2 [true; true]); try done; congruence].
  apply (pop_run debug f (fl_stack a2) [true; true]). rewrite <- Es. apply Hf.
Qed.

Lemma pop0_flags f a : frame_flags cap f a -> frame_flags cap (with_popped [] f) a.
Proof. intros [[] ? ? ?]. by repeat split. Qed.

Lemma sent_flags f a last min : frame_flags cap f a -> frame_flags cap (with_sent last min f) a.
Proof. intros [[] ? ? ?]. by repeat split. Qed.

Lemma slot_concrete l idx : concrete_at l idx = Some tt -> slot l (wrap 32 (sint 16 idx)) = Some true.
Proof.
  unfold concrete_at. destruct (_ && _) eqn:E; [|done]. destruct (l !! Z.to_nat idx) as [[]|] eqn:El; try done. intros _.
  rewrite sint_uint, wrap_small by (unfold is_uint; lia). unfold slot. destruct (Z.leb_spec 0 idx); [done|lia].
Qed.

Lemma slot_in_range l idx :
  in_range l idx = Some tt -> wrap 32 (sint 16 idx) = idx /\ is_Some (slot l idx).
Proof.
  unfold in_range. destruct (_ && _ && _) eqn:E; [|done]. intros _.
  rewrite sint_uint, wrap_small by (unfold is_uint; lia). split; [done|]. unfold slot.
  destruct (Z.leb_spec 0 idx); [|lia]. apply lookup_lt_is_Some. lia.
Qed.
End frame_flags.

Section quiet.
Context (debug : bool) (tid junk : Z) (fuel : nat) (to_float : Z -> Z).

(** The probe of an instruction; operands and offsets do not matter. *)
Definition probe_of (i : instr) (ptr value offset : Z) : st concolic unit :=
  match i with
  | ILdarg idx => Track_Ldarg debug tid junk fuel to_float idx offset
  | ILdloc idx => Track_Ldloc debug tid junk fuel to_float idx offset
  | IStarg idx => Track_Starg debug tid junk fuel to_float idx offset
  | IStloc idx => Track_Stloc debug tid junk fuel to_float idx offset
  | ILdc => Track_Ldc debug tid
  | IDup => Track_Dup debug tid junk fuel to_float offset
  | IPop => Track_Pop debug tid
  | IBrTrue => BrTrue debug tid junk fuel to_float offset
  | ISwitch => Switch debug tid offset
  | IUnOp => Track_UnOp debug tid junk fuel to_float value offset
  | IConv => Track_Conv debug tid junk fuel to_float offset
  | ILdlen => Track_Ldlen debug tid junk fuel to_float ptr offset
  | IBinOp => ignore (Track_BinOp debug tid)
  | IStfld => Track_Stfld_4 debug tid junk fuel to_float 0 ptr value offset
  | IBox => Track_Box debug tid ptr offset
  end.

Context (cap : Z).

(** Opens a successful step on the flags. *)
Local Ltac open_step H x Hx := apply bind_Some in H as (x & Hx & H).

Lemma load_flags (get : st StackFrame bool) f a a' :
  get (with_popped [] f) = Ok (true, with_popped [] f) ->
  frame_flags cap f a -> flags_push cap true a = Some a' ->
  exists f', (pop0;; concreteness ← get;
       (if (concreteness : bool) then push1Concrete debug else mret tt);; mret concreteness) f = Ok (true, f') /\
    frame_flags cap f' a'.
Proof.
  intros Hg Hf Hp. destruct (push_flags debug cap true (with_popped [] f) a a' (pop0_flags _ _ _ Hf) Hp) as (f' & R & Hf').
  exists f'. split; [|done]. unfold pop0. rewrite st_modify_bind. run_step Hg. unfold push1Concrete. by run_step R.
Qed.

Lemma quiet_load m (snd_ : Z -> st concolic bool) offset c fs f f' :
  top_is tid c fs f -> m f = Ok (true, f') ->
  (c0 ← top_frame debug tid m; unless c0 (snd_ offset)) c = Ok (tt, set_top tid fs f' c).
Proof. intros Ht R. by run_step (top_step debug tid m c fs f _ _ Ht R). Qed.

Lemma store_flags (is_arg : bool) idx f a a1 :
  frame_flags cap f a -> in_range (if is_arg then fl_args a else fl_locs a) idx = Some tt ->
  flags_pop a = Some (true, a1) ->
  exists f', (concreteness ← pop1 debug;
      (if is_arg then setArg else setLoc) (wrap 32 (sint 16 idx)) concreteness;; mret concreteness) f = Ok (true, f') /\
    frame_flags cap f' (if is_arg then mkFlags (fl_stack a1) (<[Z.to_nat idx := true]> (fl_args a1)) (fl_locs a1)
                        else mkFlags (fl_stack a1) (fl_args a1) (<[Z.to_nat idx := true]> (fl_locs a1))).
Proof.
  intros Hf Hi Hp. pose proof (flags_pop_split _ _ _ Hp) as (_ & Ea & El).
  destruct (pop_flags debug cap true f a a1 Hf Hp) as (g & R & [Hr Hc Hga Hgl]).
  apply slot_in_range in Hi as [Ei [b Hs]]. rewrite Ei. run_step R.
  destruct is_arg; unfold setArg, setLoc, arg, loc, st_read; rewrite st_bind_assoc.
  - rewrite (st_bind_run _ _ g b g) by (rewrite Hga, Ea, Hs; done). eexists. split; [done|].
    destruct Hr. split; simpl; [by split|done|by rewrite Hga|done].
  - rewrite (st_bind_run _ _ g b g) by (rewrite Hgl, El, Hs; done). eexists. split; [done|].
    destruct Hr. split; simpl; [by split|done|done|by rewrite Hgl].
Qed.

(** One operand popped and one result pushed. *)
Lemma quiet_replace (snd_ : st concolic unit) c fs f a a1 a' :
  top_is tid c fs f -> frame_flags cap f a -> flags_pop a = Some (true, a1) -> flags_push cap true a1 = Some a' ->
  exists f', (b ← top_frame debug tid (pop1 debug);
      if (b : bool) then top_frame debug tid (push1Concrete debug) else snd_) c = Ok (tt, set_top tid fs f' c) /\
    frame_flags cap f' a'.
Proof.
  intros Ht Hf Hp Hq. destruct (pop_flags debug cap true f a a1 Hf Hp) as (g & R & Hg).
  destruct (push_flags debug cap true g a1 a' Hg Hq) as (h & R' & Hh). exists h. split; [|done].
  run_step (top_step debug tid _ c fs f _ _ Ht R). unfold push1Concrete.
  rewrite (top_step debug tid _ _ fs g _ _ (set_top_is _ _ _ _ _ _ Ht) R'). by rewrite set_top_set_top.
Qed.

Lemma quiet_dup offset c fs f a a1 a' :
  top_is tid c fs f -> frame_flags cap f a -> flags_pop a = Some (true, a1) -> flags_push cap true a = Some a' ->
  exists f', Track_Dup debug tid junk fuel to_float offset c = Ok (tt, set_top tid fs f' c) /\ frame_flags cap f' a'.
Proof.
  intros Ht Hf Hp Hq. pose proof (flags_pop_split _ _ _ Hp) as (E & Ea & El).
  destruct (pop_flags debug cap true f a a1 Hf Hp) as (g & R & Hg).
  assert (flags_push cap true a1 = Some a) as H1.
  { unfold flags_push in *. rewrite E, length_app in Hq. simpl in Hq.
    destruct (Z.ltb_spec (Z.of_nat (length (fl_stack a1) + 1)) cap); [|done].
    destruct (Z.ltb_spec (Z.of_nat (length (fl_stack a1))) cap); [|lia]. f_equal. rewrite <- E, Ea, El. by destruct a. }
  destruct (push_flags debug cap true g a1 a Hg H1) as (h & R1 & Hh).
  destruct (push_flags debug cap true h a a' Hh Hq) as (f' & R2 & Hf'). exists f'. split; [|done].
  unfold Track_Dup. rewrite (st_bind_run _ _ c true (set_top tid fs f' c)); [done|].
  apply (top_step debug tid _ c fs f _ _ Ht). unfold dup. run_step R. run_step R1. by run_step R2.
Qed.

Lemma quiet_step i ptr value offset c fs f a a' :
  top_is tid c fs f -> frame_flags cap f a -> flags_step cap i a = Some a' ->
  exists f', probe_of i ptr value offset c = Ok (tt, set_top tid fs f' c) /\ frame_flags cap f' a'.
Proof.
  intros Ht Hf Hs. destruct i; cbn [flags_step] in Hs.
  - open_step Hs u Hi. destruct u. destruct (load_flags (arg (wrap 32 (sint 16 idx))) f a a') as (f' & R & Hf'); [|done..|].
    { unfold arg, st_read. simpl. rewrite (ff_args _ _ _ Hf). by rewrite (slot_concrete _ _ Hi). }
    exists f'. split; [|done]. by apply quiet_load with f.
  - open_step Hs u Hi. destruct u. destruct (load_flags (loc (wrap 32 (sint 16 idx))) f a a') as (f' & R & Hf'); [|done..|].
    { unfold loc, st_read. simpl. rewrite (ff_locs _ _ _ Hf). by rewrite (slot_concrete _ _ Hi). }
    exists f'. split; [|done]. by apply quiet_load with f.
  - open_step Hs u Hi. destruct u. open_step Hs a1 Hp. injection Hs as <-. apply pop_concrete_inv in Hp.
    destruct (store_flags true idx f a a1 Hf Hi Hp) as (f' & R & Hf'). exists f'. split; [|done]. by apply quiet_load with f.
  - open_step Hs u Hi. destruct u. open_step Hs a1 Hp. injection Hs as <-. apply pop_concrete_inv in Hp.
    destruct (store_flags false idx f a a1 Hf Hi Hp) as (f' & R & Hf'). exists f'. split; [|done]. by apply quiet_load with f.
  - destruct (push_flags debug cap true f a a' Hf Hs) as (f' & R & Hf'). exists f'. split; [|done].
    by apply (top_step debug tid _ c fs f).
  - open_step Hs a1 Hp. apply pop_concrete_inv in Hp. by apply quiet_dup with f a a1.
  - apply fmap_Some in Hs as ([b a1] & Hp & ->). destruct (pop_flags debug cap b f a a1 Hf Hp) as (f' & R & Hf').
    eexists. split; [|apply sent_flags, Hf'].
    apply (top_step debug tid _ c fs f _ _ Ht). unfold pop1Async. by run_step R.
  - apply pop_concrete_inv in Hs. destruct (pop_flags debug cap true f a a' Hf Hs) as (f' & R & Hf'). exists f'. split; [|done].
    unfold probe_of, BrTrue, ignore, branch. rewrite st_bind_assoc. by run_step (top_step debug tid _ c fs f _ _ Ht R).
  - apply fmap_Some in Hs as ([b a1] & Hp & ->). destruct (pop_flags debug cap b f a a1 Hf Hp) as (f' & R & Hf').
    exists f'. split; [|done]. unfold probe_of, Switch, ignore. by run_step (top_step debug tid _ c fs f _ _ Ht R).
  - open_step Hs a1 Hp. apply pop_concrete_inv in Hp. by apply quiet_replace with f a a1.
  - open_step Hs a1 Hp. apply pop_concrete_inv in Hp. by apply quiet_replace with f a a1.
  - open_step Hs a1 Hp. apply pop_concrete_inv in Hp. by apply quiet_replace with f a a1.
  - open_step Hs a1 Hp. open_step Hs a2 Hq. destruct (pop2_flags debug cap f a a1 a2 Hf Hp Hq) as (g & R & Hg).
    destruct (push_flags debug cap true g a2 a' Hg Hs) as (f' & R' & Hf'). exists f'. split; [|done].
    unfold probe_of, ignore, Track_BinOp.
    rewrite (st_bind_run _ _ c true (set_top tid fs f' c)); [done|]. apply (top_step debug tid _ c fs f _ _ Ht).
    run_step R. unfold push1Concrete. by run_step R'.
  - open_step Hs a1 Hp. destruct (pop2_flags debug cap f a a1 a' Hf Hp Hs) as (f' & R & Hf'). exists f'. split; [|done].
    unfold probe_of, Track_Stfld_4, stfld. by run_step (top_step debug tid _ c fs f _ _ Ht R).
  - apply bind_Some in Hs as ([b a1] & Hp & Hs). destruct (pop_flags debug cap b f a a1 Hf Hp) as (g & R & Hg).
    destruct (push_flags debug cap true g a1 a' Hg Hs) as (f' & R' & Hf'). exists f'. split; [|done].
    apply (top_step debug tid _ c fs f _ _ Ht). by run_step R.
Qed.

(** Probes of consecutive instructions with their run-time arguments. *)
Definition run_probes (prog : list (instr * (Z * Z * Z))) : st concolic unit :=
  st_fold (fun '(i, (ptr, value, offset)) _ => probe_of i ptr value offset) prog tt.

Fixpoint flags_steps (prog : list instr) (a : flags) : option flags :=
  match prog with
  | [] => Some a
  | i :: prog => a ← flags_step cap i a; flags_steps prog a
  end.
End quiet.

(** Only the stack of thread [tid] differs. *)
Record only_stack (tid : Z) (c c' : concolic) : Prop := {
  os_heap : heap c' = heap c;
  os_buffer : buffer c' = buffer c;
  os_chan : chan c' = chan c;
  os_main : main_entered c' = main_entered c;
  os_threads t : t <> tid -> thread_stack c' t = thread_stack c t
}.

Lemma only_stack_refl tid c : only_stack tid c c.
Proof. by split. Qed.

Lemma only_stack_at tid c c' k : only_stack tid c c' -> only_stack tid c (at_thread tid k c').
Proof.
  intros [H1 H2 H3 H4 H5]. split; try done. intros t Ht. rewrite <- H5 by done. unfold thread_stack. simpl.
  by rewrite lookup_insert_ne by done.
Qed.

Lemma set_top_sent tid fs f c k : thread_stack c tid = k ->
  m_lastSentTop (thread_stack (set_top tid fs f c) tid) = m_lastSentTop k /\
  m_minTopSinceLastSent (thread_stack (set_top tid fs f c) tid) = m_minTopSinceLastSent k.
Proof. intros <-. unfold set_top. by rewrite at_thread_stack. Qed.


(** A method with one argument and one local: [loc = arg + 1]. *)
Definition add_frame : StackFrame := mkStackFrame [0; 0; 0] 3 0 0 0 0 [true] [true] 7 7 true false [].
Definition add_state : concolic :=
  mkConcolic 5 (Some 5) {[5 := mkStack [add_frame] 1 1]} new_Heap mem_init (mkSocket [] [] []) true.

Lemma add_state_top : top_is 5 add_state [] add_frame.
Proof. split; [right; split; [done|by eexists]|done|done]. Qed.

Lemma add_frame_flags : frame_flags 3 add_frame (mkFlags [] [true] [true]).
Proof. by repeat split. Qed.


(** ** Calls and returns *)

Lemma write_at_1 {A} (l : list A) i x :
  (i < length l)%nat -> write_at l (Z.of_nat i) [x] = Some (<[i := x]> l).
Proof.
  intros Hi. unfold write_at. destruct (_ && _) eqn:E; [|exfalso; simpl in E; lia].
  rewrite Nat2Z.id, insert_take_drop by done. simpl. by rewrite Nat.add_1_r.
Qed.

(** The loop over the popped symbolic operands. *)
Lemma clear_flags_run n (popped : list (Z * Z)) flags (k : Stack) :
  length flags = n -> Z.of_nat n < 2 ^ 32 -> Forall (fun p => 0 <= snd p < Z.of_nat n) popped ->
  exists flags', st_fold (fun pair flags =>
      let idx := wrap 32 (wrap 32 (Z.of_nat n - snd pair) - 1) in
      match write_at flags idx [false] with Some l => mret l | None => st_fail Undefined end) popped flags k = Ok (flags', k) /\
    length flags' = n /\
    (forall p, p ∈ popped -> flags' !! Z.to_nat (Z.of_nat n - 1 - snd p) = Some false) /\
    (forall i, (forall p, p ∈ popped -> i <> Z.to_nat (Z.of_nat n - 1 - snd p)) -> flags' !! i = flags !! i).
Proof.
  intros Hl Hn HF. revert flags Hl. induction HF as [|p popped Hp HF IH]; intros flags Hl.
  - exists flags. split; [done|]. split; [done|]. split; [|done]. intros p H. by apply not_elem_of_nil in H.
  - set (j := Z.to_nat (Z.of_nat n - 1 - snd p)). assert (Z.of_nat j = Z.of_nat n - 1 - snd p) as Hj by lia.
    destruct (IH (<[j := false]> flags)) as (flags' & R & Hl' & Hin & Hout); [by rewrite length_insert|].
    exists flags'. split; [|split; [done|split]].
    + cbn [st_fold]. rewrite (st_bind_run _ _ k (<[j := false]> flags) k); [exact R|].
      rewrite (wrap_small 32 (Z.of_nat n - snd p)), wrap_small by (unfold is_uint; lia).
      replace (Z.of_nat n - snd p - 1) with (Z.of_nat j) by lia. by rewrite write_at_1 by lia.
    + intros q [->|Hq]%elem_of_cons; [|by apply Hin]. fold j.
      destruct (decide (Exists (fun q => j = Z.to_nat (Z.of_nat n - 1 - snd q)) popped)) as [H|Hno].
      * apply Exists_exists in H as (q & Hq & ->). by apply Hin.
      * rewrite Hout; [apply list_lookup_insert_eq; lia|]. intros q Hq E. apply Hno, Exists_exists. by exists q.
    + intros i Hi. rewrite Hout by (intros; apply Hi; by right). apply list_lookup_insert_ne.
      intros <-. by apply (Hi p); [left|].
Qed.

Lemma set_true_all n flags : length flags = n -> set_true 0 (Z.of_nat n) flags = Ok (replicate n true).
Proof.
  intros Hl. unfold set_true, write_at. rewrite Nat2Z.id, length_replicate.
  destruct (_ && _) eqn:E; [|exfalso; lia]. simpl. by rewrite drop_ge, app_nil_r by lia.
Qed.

(** The array of flags [PushFrame] builds is the flags of the popped cells. *)
Lemma args_flags_run junk n cs (k : Stack) :
  Z.of_nat (length cs) < 2 ^ 32 ->
  argsConcreteness junk false (Z.of_nat (length cs)) (popped_of n 0 cs) k = Ok (cs, k).
Proof.
  intros Hn. unfold argsConcreteness.
  rewrite (st_bind_run _ _ k (replicate (length cs) true) k)
    by (unfold st_lift; rewrite set_true_all; [done|rewrite length_replicate; lia]).
  destruct (clear_flags_run (length cs) (popped_of n 0 cs) (replicate (length cs) true) k)
    as (flags' & R & Hl & Hin & Hout); [by rewrite length_replicate|done| |].
  { apply Forall_forall. intros [num d] H. apply popped_of_elem in H as (i & Hi & _ & ->).
    apply lookup_lt_Some in Hi. simpl. lia. }
  etransitivity; [exact R|]. do 2 f_equal. apply list_eq_same_length with (length cs); [done|done|].
  intros i x y Hi Hx Hy. destruct y.
  - rewrite Hout, lookup_replicate_2 in Hx by (done || intros [num d] H E; apply popped_of_elem in H as (i' & Hi' & _ & ->);
      pose proof (lookup_lt_Some _ _ _ Hi'); simpl in E; replace (Z.to_nat _) with i' in E by lia; congruence). congruence.
  - specialize (Hin (n + symb (take i cs) + 1, Z.of_nat (length cs) - 1 - Z.of_nat i)).
    simpl in Hin. replace (Z.to_nat _) with i in Hin by lia. rewrite Hin in Hx; [congruence|].
    apply popped_of_elem. exists i. split; [done|]. lia.
Qed.

Section calls.
Context (debug : bool) (tid junk : Z) (destroyed : bool -> bool).

Lemma Track_Call_run c fs f bs cs :
  top_is tid c fs f -> frame_rep f (bs ++ cs) ->
  exists f', Track_Call debug tid (Z.of_nat (length cs)) c = Ok (forallb id cs, set_top tid fs f' c) /\
    frame_rep f' bs /\ m_lastPoppedSymbolics f' = popped_of (symb bs) 0 cs /\ m_capacity f' = m_capacity f /\
    m_args f' = m_args f /\ m_locals f' = m_locals f.
Proof.
  intros Ht Hr. eexists. split; [apply (top_step debug tid _ c fs f _ _ Ht), pop_run, Hr|].
  split; [by eapply frame_rep_below|done].
Qed.

Definition fresh_frame (r u : Z) (args : list bool) : StackFrame :=
  mkStackFrame [] 0 0 0 0 0 args [] r u false false [].

Lemma pushFrame_step r u args k :
  pushFrame r u args (Z.of_nat (length args)) k = Ok (tt, with_frames (m_frames k ++ [fresh_frame r u args]) k).
Proof. unfold pushFrame, new_StackFrame, st_lift. by rewrite Nat2Z.id, read_all. Qed.

Lemma PushFrame_run u r offset c fs f n cs :
  top_is tid c fs f -> m_lastPoppedSymbolics f = popped_of n 0 cs -> Z.of_nat (length cs) < 2 ^ 32 ->
  PushFrame debug tid junk u r false (Z.of_nat (length cs)) offset c = Ok (tt, set_top tid (fs ++ [f]) (fresh_frame r u cs) c).
Proof.
  intros Ht Hp Hn. apply (stack_step _ _ _ fs f); [done|]. run_step (topFrame_get debug _ _ _ (ti_frames _ _ _ _ Ht)).
  cbv zeta. rewrite Hp. run_step (args_flags_run junk n cs (thread_stack c tid) Hn). rewrite pushFrame_step.
  by rewrite (ti_frames _ _ _ _ Ht).
Qed.

(** The frame after its method has been entered. *)
Definition entered_frame (maxStack localsCount : Z) (spontaneous : bool) (f : StackFrame) : StackFrame :=
  mkStackFrame (replicate (Z.to_nat maxStack) junk) maxStack (m_concretenessTop f) (m_symbolsCount f)
    (m_lastSentSymbolsCount f) (m_minSymbsCountSinceLastSent f) (m_args f) (replicate (Z.to_nat localsCount) true)
    (m_resolvedToken f) (m_unresolvedToken f) true spontaneous (m_lastPoppedSymbolics f).

Lemma Track_Enter_run token maxStack argsCount localsCount c fs f :
  top_is tid c fs f -> m_resolvedToken f = 0 \/ m_resolvedToken f = token ->
  Track_Enter debug tid junk token maxStack argsCount localsCount c =
    Ok (tt, set_top tid fs (entered_frame maxStack localsCount false f) c).
Proof.
  intros Ht Hr. apply (stack_step _ _ _ fs f); [done|]. pose proof (ti_frames _ _ _ _ Ht) as Hk.
  set (k := thread_stack c tid) in *.
  run_step (topFrame_step debug (f0 ← st_get; mret (m_resolvedToken f0)) k fs f _ f Hk eq_refl).
  destruct (_ || _) eqn:E; [|exfalso; lia].
  rewrite (st_bind_run _ _ _ tt (with_frames (fs ++ [with_marks (m_enteredMarker f) false f]) k)).
  - etransitivity; [by eapply (topFrame_step debug _ _ fs (with_marks (m_enteredMarker f) false f))|done].
  - etransitivity; [by eapply (topFrame_step debug _ _ fs f)|done].
Qed.
End calls.


Lemma popFrame_step debug k fs g :
  m_frames k = fs ++ [g] -> m_concretenessTop g = 0 ->
  exists k', popFrame debug k = Ok (tt, k') /\ m_frames k' = fs.
Proof.
  intros Hk Hg. unfold popFrame, popFrameUntracked.
  rewrite (st_bind_run _ _ k tt (with_frames fs k)).
  - eexists. split; [done|]. by destruct (_ <? _).
  - rewrite Hk, last_snoc. unfold isEmpty. rewrite Hg, Z.eqb_refl, andb_false_r. by rewrite take_init.
Qed.

Lemma at_thread_top tid c k fs f :
  tid <> 0 -> m_frames k = fs ++ [f] -> top_is tid (at_thread tid k c) fs f.
Proof. intros Ht Hk. split; [apply at_thread_ok|done|by rewrite at_thread_stack]. Qed.

(** The flags a method leaves behind: none, or that of its result. *)
Definition result_flags (result : option bool) : list bool := match result with Some b => [b] | None => [] end.

Lemma leave_frame_run debug destroyed k fs f g a cap result :
  (forall b, destroyed b = b) ->
  m_frames k = (fs ++ [f]) ++ [g] -> frame_flags cap f a -> frame_rep g (result_flags result) ->
  Z.of_nat (length (fl_stack a)) < cap ->
  exists k' f', leave_frame debug destroyed (Z.of_nat (length (result_flags result))) k = Ok (tt, k') /\
    m_frames k' = fs ++ [f'] /\
    frame_flags cap f' (mkFlags (fl_stack a ++ if m_spontaneous g then [] else result_flags result) (fl_args a) (fl_locs a)).
Proof.
  intros Hd Hk Hf Hg Hlt. unfold leave_frame.
  run_step (topFrame_get debug k _ _ Hk). rewrite (fr_top _ _ Hg), Z.eqb_refl, andb_false_r. cbv iota.
  destruct result as [b|]; cbn [result_flags length] in *.
  - change (Z.of_nat 1 =? 0) with false. cbv iota.
    run_step (topFrame_step debug _ k _ _ _ _ Hk (pop1_run debug g [] b Hg)).
    match goal with |- context [with_frames (_ ++ [?g']) k] =>
      destruct (popFrame_step debug (with_frames ((fs ++ [f]) ++ [g']) k) (fs ++ [f]) g' eq_refl eq_refl) as (k1 & R1 & Hk1) end.
    run_step R1. rewrite st_get_bind. unfold Stack_isEmpty. rewrite Hk1.
    destruct (fs ++ [f]) as [|f0 fs0] eqn:E; [by destruct fs|]. rewrite <- E in *. rewrite Hd.
    destruct (m_spontaneous g).
    + exists k1, f. rewrite app_nil_r. by destruct a.
    + destruct (push_flags debug cap b f a (mkFlags (fl_stack a ++ [b]) (fl_args a) (fl_locs a)) Hf) as (f' & R & Hf').
      { unfold flags_push. destruct (Z.ltb_spec (Z.of_nat (length (fl_stack a))) cap); [done|lia]. }
      eexists _, f'. split; [by apply (topFrame_step debug _ k1 fs f)|]. done.
  - change (Z.of_nat 0 =? 0) with true. cbv iota.
    destruct (popFrame_step debug k _ _ Hk (fr_top _ _ Hg)) as (k1 & R1 & Hk1).
    exists k1, f. split; [done|]. split; [done|]. destruct (m_spontaneous g); rewrite app_nil_r; by destruct a.
Qed.

(** a return hands the flag of the result back: [Track_Leave] removes the
    top frame and pushes the flag on the caller's stack, unless the frame was
    entered from unmanaged code; the caller keeps the rest of its stack, its
    arguments and its locals.  Reading the removed frame's mark is taken to give
    what it held. *)
Theorem return_passes_flag debug tid destroyed c fs f g a cap result offset :
  (forall b, destroyed b = b) ->
  top_is tid c (fs ++ [f]) g -> frame_flags cap f a -> frame_rep g (result_flags result) ->
  Z.of_nat (length (fl_stack a)) < cap ->
  exists c' f', Track_Leave debug tid destroyed (Z.of_nat (length (result_flags result))) offset c = Ok (tt, c') /\
    top_is tid c' fs f' /\
    frame_flags cap f' (mkFlags (fl_stack a ++ if m_spontaneous g then [] else result_flags result) (fl_args a) (fl_locs a)) /\
    only_stack tid c c'.
Proof.
  intros Hd Ht Hf Hg Hlt.
  destruct (leave_frame_run debug destroyed _ fs f g a cap result Hd (ti_frames _ _ _ _ Ht) Hf Hg Hlt) as (k' & f' & R & Hk' & Hf').
  eexists _, f'. split; [by apply (stack_step tid _ c _ _ _ _ Ht R)|].
  split; [by apply at_thread_top; [apply Ht|]|]. split; [done|]. by apply only_stack_at, only_stack_refl.
Qed.

(** A caller with a concrete and a symbolic argument on its stack. *)
Definition caller_frame : StackFrame := mkStackFrame [CONCRETE; CONCRETE; 1; 0] 4 3 1 0 0 [] [] 7 7 true false [].
Definition caller_state : concolic :=
  mkConcolic 5 (Some 5) {[5 := mkStack [caller_frame] 1 1]} new_Heap mem_init (mkSocket [] [] []) true.

Lemma caller_top : top_is 5 caller_state [] caller_frame.
Proof. split; [right; split; [done|by eexists]|done|done]. Qed.


(** A method about to return a symbolic result. *)
Definition callee_frame : StackFrame := mkStackFrame [1; 0] 2 1 1 0 0 [true] [] 8 9 true false [].
Definition callee_state : concolic :=
  mkConcolic 5 (Some 5) {[5 := mkStack [add_frame; callee_frame] 1 1]} new_Heap mem_init (mkSocket [] [] []) true.

Lemma return_passes_flag_witness :
  exists c' f', Track_Leave true 5 id 1 40 callee_state = Ok (tt, c') /\ top_is 5 c' [] f' /\
    frame_flags 3 f' (mkFlags [false] [true] [true]).
Proof.
  destruct (return_passes_flag true 5 id callee_state [] add_frame callee_frame (mkFlags [] [true] [true]) 3 (Some false) 40)
    as (c' & f' & R & Ht & Hf & _).
  - reflexivity.
  - split; [right; split; [reflexivity|eexists; reflexivity]|discriminate|reflexivity].
  - exact add_frame_flags.
  - constructor; reflexivity.
  - reflexivity.
  - exists c', f'. split; [exact R|]. split; [exact Ht|exact Hf].
Defined.

(** for a constructor call [PushFrame] allocates one flag more than the
    arguments and then sets one more behind the first, past the end of the
    array. *)
Theorem PushFrame_newobj_overruns debug tid junk u r argsCount offset c fs f :
  top_is tid c fs f -> 0 <= argsCount < 2 ^ 16 - 1 ->
  PushFrame debug tid junk u r true argsCount offset c = Err Undefined.
Proof.
  intros [Hc Ht Hk] Hn. unfold PushFrame. rewrite stack_run by done.
  run_step (topFrame_get debug _ _ _ Hk). cbv zeta. rewrite wrap_small by (unfold is_uint; lia).
  rewrite (st_bind_err _ _ _ Undefined); [done|]. unfold argsConcreteness. apply st_bind_err.
  unfold st_lift. set (flags := replicate _ _).
  destruct (set_true 0 1 flags) as [l|e] eqn:E1; [|unfold set_true in E1; by destruct (write_at _ _ _); simplify_eq/=].
  cbn [mbind result_bind]. unfold set_true in *. destruct (write_at flags 0 _) as [l'|] eqn:E2; [|done].
  injection E1 as ->. apply write_at_length in E2. unfold flags in E2. rewrite length_replicate in E2.
  unfold write_at. rewrite length_replicate. destruct (_ && _) eqn:E; [exfalso; lia|done].
Qed.

Lemma PushFrame_newobj_overruns_witness : PushFrame true 5 0 9 8 true 2 30 caller_state = Err Undefined.
Proof. apply (PushFrame_newobj_overruns true 5 0 9 8 2 30 caller_state [] caller_frame caller_top). lia. Defined.

(** ** Flags in the heap *)

Definition with_heap (h : Heap) (c : concolic) : concolic :=
  mkConcolic (lastThreadID c) (currentStack c) (stacks c) h (buffer c) (chan c) (main_entered c).

Lemma on_heap_run {A} (m : st Heap A) c a h : m (heap c) = Ok (a, h) -> on_heap m c = Ok (a, with_heap h c).
Proof. intros H. unfold on_heap. by rewrite H. Qed.

Lemma with_heap_top tid h c fs f : top_is tid c fs f -> top_is tid (with_heap h c) fs f.
Proof. by intros [? ? ?]. Qed.

Lemma peek_run f bs b cs n :
  frame_rep f (bs ++ b :: cs) -> Z.of_nat (length cs) = n ->
  cell_at (wrap 32 (m_concretenessTop f - (n + 1))) f = Ok (if b then CONCRETE else symb bs + 1, f) /\
  ((if b then CONCRETE else symb bs + 1) =? CONCRETE) = b.
Proof.
  intros Hr Hn. pose proof (frame_rep_bound _ _ Hr) as Hb. destruct Hr as [Ht Hc Hs Hcap Hlt].
  rewrite length_app in Ht, Hb. simpl in Ht, Hb. pose proof (symb_range bs).
  rewrite wrap_small by (unfold is_uint; lia).
  replace (m_concretenessTop f - (n + 1)) with (Z.of_nat (length bs)) by lia.
  split; [by apply encoded_cell with cs|]. apply cell_concrete; lia.
Qed.

Lemma peek01_run f bs (a v : bool) :
  frame_rep f (bs ++ [a; v]) -> peek0 f = Ok (v, f) /\ peek1 f = Ok (a, f).
Proof.
  intros Hr. split.
  - assert (frame_rep f ((bs ++ [a]) ++ [v])) as Hr' by (by rewrite <- app_assoc).
    destruct (peek_run f (bs ++ [a]) v [] 0 Hr' eq_refl) as [R E]. unfold peek0. rewrite st_get_bind.
    run_step R. unfold mret, st_ret. by rewrite E.
  - destruct (peek_run f bs a [v] 1 Hr eq_refl) as [R E]. unfold peek1. rewrite st_get_bind.
    run_step R. unfold mret, st_ret. by rewrite E.
Qed.

Lemma Stind_run debug tid c fs f bs v ptr n h :
  top_is tid c fs f -> frame_rep f (bs ++ [true; v]) -> is_uint 64 ptr -> is_uint 64 n ->
  Heap_write ptr n v (heap c) = Ok (tt, h) ->
  exists c' f', Track_Stind debug tid ptr n c = Ok (v, c') /\ top_is tid c' fs f' /\ frame_rep f' bs /\
    m_capacity f' = m_capacity f /\ heap c' = h /\ chan c' = chan c.
Proof.
  intros Ht Hr Hp Hn Rw. destruct (peek01_run f bs true v Hr) as [R0 R1].
  pose proof (pop_run debug f bs [true; v] Hr) as Rp. change (Z.of_nat (length [true; v])) with 2 in Rp.
  set (f1 := with_popped _ _) in Rp.
  unfold Track_Stind. run_step (top_step debug tid _ c fs f _ _ Ht R0).
  assert (top_is tid (set_top tid fs f c) fs f) as Ht1 by (by eapply set_top_is).
  run_step (top_step debug tid _ _ fs f _ _ Ht1 R1). rewrite set_top_set_top. cbv iota.
  rewrite !(wrap_small 64) by done. run_step (on_heap_run _ (set_top tid fs f c) _ _ Rw).
  assert (top_is tid (with_heap h (set_top tid fs f c)) fs f) as Ht2 by (by apply with_heap_top).
  rewrite (top_step debug tid _ _ fs f _ _ Ht2 Rp). do 2 eexists. split; [by simpl; rewrite andb_true_r|].
  split; [by eapply set_top_is|]. split; [by apply (frame_rep_below f bs [true; v])|done].
Qed.

Lemma ldfld_run debug tid c fs f bs ptr n b :
  top_is tid c fs f -> frame_rep f (bs ++ [true]) -> is_uint 64 ptr -> is_uint 64 n ->
  Heap_read ptr n (heap c) = Ok (b, heap c) ->
  exists c' f', ldfld debug tid ptr n c = Ok (b, c') /\ top_is tid c' fs f' /\ frame_rep f' bs /\ chan c' = chan c.
Proof.
  intros Ht Hr Hp Hn Rr. unfold ldfld. run_step (top_step debug tid _ c fs f _ _ Ht (pop1_run debug f bs true Hr)).
  cbv iota. rewrite !(wrap_small 64) by done. set (f' := with_popped _ _).
  rewrite (on_heap_run _ (set_top tid fs f' c) b (heap c) Rr).
  do 2 eexists. split; [done|]. split; [by eapply with_heap_top, set_top_is|]. split; [|done].
  by apply (frame_rep_below f bs [true]).
Qed.

(** the flag of a stored value is the flag of the value loaded later: a
    store through a concrete address puts the value's flag on the bytes of the
    heap it writes, on no others, and reports whether the value was concrete;
    a field load of the same bytes through a concrete address then finds
    them concrete exactly when the stored value was. *)
Theorem store_then_load debug tid c fs f bs v ptr n id o :
  top_is tid c fs f -> frame_rep f (bs ++ [true; v]) ->
  heap_wf (heap c) -> is_uint 64 ptr -> n < 2 ^ 31 -> in_object (heap c) ptr n id o ->
  exists c1 c2 f1 f2, Track_Stind debug tid ptr n c = Ok (v, c1) /\ top_is tid c1 fs f1 /\ frame_rep f1 bs /\
    (forall q, addr_concrete (heap c1) q = if (ptr <=? q) && (q <? ptr + n) then Some v else addr_concrete (heap c) q) /\
    (Track_Ldc debug tid;; ldfld debug tid ptr n) c1 = Ok (v, c2) /\ top_is tid c2 fs f2 /\ frame_rep f2 bs /\
    chan c2 = chan c.
Proof.
  intros Ht Hr Hwf Hp Hn Ho. pose proof (io_pos _ _ _ _ _ Ho) as Hpos.
  assert (is_uint 64 n) as Hn64 by (unfold is_uint; lia).
  destruct (Heap_write_run (heap c) id o ptr n v Hwf Ho) as (h1 & Rw & Hwf1 & Htr & Hpl & Hq).
  destruct (access_fits_places _ h1 (ARead ptr n) Htr Hpl) as (id' & o' & Ho'); [by exists id, o|].
  destruct (Heap_read_run h1 id' o' ptr n Hwf1 Ho') as (b & Rr & Hb).
  destruct (Stind_run debug tid c fs f bs v ptr n h1 Ht Hr Hp Hn64 Rw) as (c1 & f1 & R1 & Ht1 & Hf1 & Hc1 & Hh1 & Hch1).
  pose proof (frame_rep_bound _ _ Hr) as Hcap. rewrite length_app in Hcap. simpl in Hcap.
  destruct (push1_run debug f1 bs true Hf1) as (cells & R2 & Hf2); [lia|]. set (f2 := with_cells cells _ _ _) in *.
  assert (top_is tid (set_top tid fs f2 c1) fs f2) as Ht2 by (by eapply set_top_is).
  destruct (ldfld_run debug tid (set_top tid fs f2 c1) fs f2 bs ptr n b Ht2 Hf2 Hp Hn64) as (c2 & f3 & R3 & Ht3 & Hf3 & Hch2).
  { simpl. by rewrite Hh1. }
  exists c1, c2, f1, f3. split_and!; try done; [by rewrite Hh1| |by rewrite Hch2].
  run_step (top_step debug tid _ c1 fs f1 _ _ Ht1 R2). rewrite R3. replace v with b; [done|].
  apply eq_true_iff_eq. rewrite Hb. split.
  - intros H. specialize (H ptr ltac:(lia)). rewrite Hq in H. destruct (_ && _) eqn:E; [|exfalso; lia]. congruence.
  - intros -> q Hpq. rewrite Hq. destruct (_ && _) eqn:E; [done|exfalso; lia].
Qed.

(** A store of a symbolic value at [0x1008]. *)
Definition store_frame : StackFrame := mkStackFrame [CONCRETE; 1; 0] 3 2 1 0 0 [] [] 7 7 true false [].
Definition store_state : concolic :=
  mkConcolic 5 (Some 5) {[5 := mkStack [store_frame] 1 1]} sample_heap mem_init (mkSocket [] [] []) true.

Lemma store_then_load_witness :
  exists c1 c2, Track_Stind true 5 0x1008 8 store_state = Ok (false, c1) /\
    (Track_Ldc true 5;; ldfld true 5 0x1008 8) c1 = Ok (false, c2).
Proof.
  destruct (store_then_load true 5 store_state [] store_frame [] false 0x1008 8 1 (new_Object 0x1000 24))
    as (c1 & c2 & f1 & f2 & R1 & _ & _ & _ & R2 & _).
  - split; [right; split; [reflexivity|eexists; reflexivity]|discriminate|reflexivity].
  - constructor; reflexivity.
  - exact sample_heap_wf.
  - vm_compute. split; [discriminate|reflexivity].
  - reflexivity.
  - constructor; [vm_compute; repeat constructor|vm_compute; reflexivity|vm_compute; discriminate|lia|vm_compute; discriminate|left; vm_compute; reflexivity].
  - exists c1, c2. split; [exact R1|exact R2].
Defined.

(** ** An exchange with the engine *)

(** The engine's answer that the instruction was executed: how many frames it
    has, and the flag of the value it pushed, if any. *)
Definition push_code (push : option bool) : Z :=
  match push with None => 0 | Some false => 1 | Some true => 2 end.
Definition answer (framesCount : Z) (push : option bool) : list Z :=
  le_bytes 4 framesCount ++ [push_code push] ++ le_bytes 4 (-1) ++ [0].
Lemma length_answer framesCount push : length (answer framesCount push) = 10%nat.
Proof. unfold answer. by rewrite !length_app, !length_le_bytes. Qed.

Lemma with_chan_top tid s c fs f : top_is tid c fs f -> top_is tid (with_chan s c) fs f.
Proof. by intros [? ? ?]. Qed.

Lemma get_bytes_app {S} n l rest (s : S) : length l = n -> get_bytes n (l ++ rest) s = Ok ((l, rest), s).
Proof. intros Hl. unfold get_bytes, st_read. by rewrite take_bytes_app. Qed.

Lemma acceptExecResult_all junk fuel bytes rest out c :
  (0 < length bytes <= fuel)%nat -> Z.of_nat (length bytes) < 2 ^ 31 -> chan c = mkSocket (message bytes ++ rest) out [] ->
  exists s, on_chan (acceptExecResult junk fuel) c = Ok (bytes, with_chan s c) /\
    inbox s = rest /\ outbox s = out ++ confirmations 2.
Proof.
  intros Hl Hb Hc. destruct (readBuffer_run junk fuel bytes rest out [] Hl Hb) as (cs & R & _); [done|].
  eexists. split; [apply on_chan_run; rewrite Hc; unfold message, acceptExecResult; rewrite <- app_assoc; by run_step R|done].
Qed.

Section exchange.
Context (debug : bool) (tid junk : Z) (fuel : nat) (to_float : Z -> Z).

(** What an operation of the top frame does not touch. *)
Record same_world (c c' : concolic) : Prop := {
  sw_heap : heap c' = heap c;
  sw_buffer : buffer c' = buffer c;
  sw_main : main_entered c' = main_entered c;
  sw_threads t : t <> tid -> thread_stack c' t = thread_stack c t;
  sw_sent : m_lastSentTop (thread_stack c' tid) = m_lastSentTop (thread_stack c tid);
  sw_min : m_minTopSinceLastSent (thread_stack c' tid) = m_minTopSinceLastSent (thread_stack c tid)
}.

Lemma same_world_trans c1 c2 c3 : same_world c1 c2 -> same_world c2 c3 -> same_world c1 c3.
Proof. intros [? ? ? H1 ? ?] [? ? ? H2 ? ?]. split; try congruence. intros t Ht. by rewrite H2, H1. Qed.

Lemma same_world_chan s c : same_world c (with_chan s c).
Proof. by split. Qed.

Lemma same_world_top fs f c : same_world c (set_top tid fs f c).
Proof.
  split; try done; unfold set_top; rewrite ?at_thread_stack; try done.
  intros t Ht. unfold thread_stack. simpl. by rewrite lookup_insert_ne.
Qed.

Lemma push_answer_run c fs f bs push :
  top_is tid c fs f -> frame_rep f bs -> Z.of_nat (length (bs ++ result_flags push)) <= m_capacity f ->
  exists c' f', (if 0 <? push_code push then top_frame debug tid (push1 debug (push_code push =? 2)) else mret tt) c = Ok (tt, c') /\
    top_is tid c' fs f' /\ frame_rep f' (bs ++ result_flags push) /\
    m_lastPoppedSymbolics f' = m_lastPoppedSymbolics f /\ chan c' = chan c /\ same_world c c'.
Proof.
  intros Ht Hr Hcap. rewrite length_app in Hcap. destruct push as [b|].
  - destruct (push1_run debug f bs b Hr) as (cells & R & Hr'); [simpl in Hcap; lia|].
    exists (set_top tid fs (with_cells cells (Z.of_nat (length (bs ++ [b]))) (symb (bs ++ [b])) f) c). eexists.
    split; [by destruct b; apply (top_step debug tid _ c fs f _ _ Ht)|].
    split; [by eapply set_top_is|]. split; [done|]. split; [done|]. split; [done|apply same_world_top].
  - exists c, f. simpl. rewrite app_nil_r. by split_and!.
Qed.

Lemma readExecResponse_run c fs f bs framesCount push rest out ops result :
  top_is tid c fs f -> frame_rep f bs -> Z.of_nat (length (bs ++ result_flags push)) <= m_capacity f ->
  (10 <= fuel)%nat -> is_sint 32 framesCount -> chan c = mkSocket (message (answer framesCount push) ++ rest) out [] ->
  exists c' f', readExecResponse debug tid junk fuel ops result c =
      Ok ((false, ops, wrap 32 (-1), framesCount, result), c') /\
    top_is tid c' fs f' /\ frame_rep f' (bs ++ result_flags push) /\ m_lastPoppedSymbolics f' = m_lastPoppedSymbolics f /\
    inbox (chan c') = rest /\ outbox (chan c') = out ++ confirmations 2 /\ same_world c c'.
Proof.
  intros Ht Hr Hcap Hfuel Hfc Hch.
  destruct (acceptExecResult_all junk fuel (answer framesCount push) rest out c) as (s & R & Hin & Hout);
    [rewrite length_answer; lia|rewrite length_answer; lia|done|].
  unfold readExecResponse. run_step R. unfold answer.
  rewrite (st_bind_run _ _ _ _ _ (get_bytes_app 4 (le_bytes 4 framesCount) _ _ (length_le_bytes _ _))). cbv beta iota zeta.
  rewrite (st_bind_run _ _ _ _ _ (get_bytes_app 1 [push_code push] _ _ eq_refl)). cbv beta iota zeta.
  rewrite (st_bind_run _ _ _ _ _ (get_bytes_app 4 (le_bytes 4 (-1)) _ _ (length_le_bytes _ _))). cbv beta iota zeta.
  change [0] with ([0] ++ []).
  rewrite (st_bind_run _ _ _ _ _ (get_bytes_app 1 [0] [] _ eq_refl)). cbv beta iota zeta.
  assert (sint 8 (le_Z [push_code push]) = push_code push) as -> by (by destruct push as [[]|]).
  destruct (push_answer_run (with_chan s c) fs f bs push) as (c' & f' & R' & Ht' & Hr' & Hp' & Hc' & Hw');
    [by apply with_chan_top|done|done|].
  run_step R'. change (sint 32 (le_Z (le_bytes 4 (-1)))) with (-1). change (-1 <? -1) with false. cbv iota. rewrite st_ret_bind. cbv beta iota zeta.
  change (0 <? sint 8 (le_Z [0])) with false. cbv iota. rewrite st_ret_bind.
  exists c', f'. split; [|split_and!; try done; try (by rewrite Hc'); by eapply same_world_trans; [apply same_world_chan|]].
  unfold mret, st_ret. do 3 f_equal. rewrite le_Z_bytes. change (8 * Z.of_nat 4) with 32.
  by rewrite sint_wrap, sint_small by (done || lia).
Qed.
End exchange.

Lemma resetPops_run framesCount k fs f :
  m_frames k = fs ++ [f] ->
  Stack_resetPopsTracking framesCount k =
    Ok (tt, mkStack (fs ++ [with_sent (m_symbolsCount f) (m_symbolsCount f) f]) (wrap 32 framesCount) (wrap 32 (frames_size k))).
Proof.
  intros Hk. unfold Stack_resetPopsTracking. cbn [m_frames]. rewrite Hk, last_snoc.
  unfold with_frames. cbn [m_lastSentTop m_minTopSinceLastSent]. by rewrite take_init.
Qed.

(** C20: an instruction with symbolic operands is one exchange with the engine:
    exactly the command byte and the bytes of the command are sent, an answer
    without returned operands that arrives uncut is read whole and confirmed, the
    flag of the value the engine pushed is pushed on the top frame, and the
    counters of pops start anew from what the engine now has; other frames and
    threads, the heap and the operand buffer stay as the command left them. *)
Theorem sendCommand_exchange debug tid junk fuel to_float offset ops cmd bytes c c1 fs f bs framesCount push rest out :
  initCommand debug tid offset false (Z.of_nat (length ops)) ops c = Ok (cmd, c1) -> serialize junk cmd = Ok bytes ->
  top_is tid c1 fs f -> frame_rep f bs -> Z.of_nat (length (bs ++ result_flags push)) <= m_capacity f ->
  (10 <= fuel)%nat -> is_sint 32 framesCount ->
  chan c1 = mkSocket (confirmations 4 ++ message (answer framesCount push) ++ rest) out [] ->
  exists c' f', sendCommand debug tid junk fuel to_float offset (Z.of_nat (length ops)) ops c = Ok (false, c') /\
    outbox (chan c') = out ++ message [ExecuteCommand] ++ message bytes ++ confirmations 2 /\ inbox (chan c') = rest /\
    top_is tid c' fs f' /\ frame_rep f' (bs ++ result_flags push) /\
    evaluationStackPops f' = 0 /\ m_lastSentSymbolsCount f' = m_symbolsCount f' /\
    m_lastSentTop (thread_stack c' tid) = wrap 32 framesCount /\
    minTopSinceLastSent (thread_stack c' tid) = wrap 32 (Z.of_nat (length fs + 1)) /\
    heap c' = heap c1 /\ buffer c' = buffer c1 /\ (forall t, t <> tid -> thread_stack c' t = thread_stack c1 t).
Proof.
  intros Ri Rs Ht Hr Hcap Hfuel Hfc Hch. unfold sendCommand. run_step Ri.
  rewrite (st_bind_run _ _ c1 bytes c1) by (unfold st_lift; by rewrite Rs).
  pose proof (sendSerializable_all junk ExecuteCommand bytes (message (answer framesCount push) ++ rest) out) as Rw.
  rewrite <- Hch in Rw. run_step (on_chan_run _ c1 _ _ Rw).
  set (c2 := with_chan _ c1).
  destruct (readExecResponse_run debug tid junk fuel c2 fs f bs framesCount push rest (out ++ message [ExecuteCommand] ++ message bytes)
    (evaluationStackPushes cmd) (mkOperand OpSymbolic 0 0)) as (c3 & g & R3 & Ht3 & Hr3 & _ & Hin & Hout & Hw); try done.
  { by apply with_chan_top. }
  run_step R3. cbv beta iota zeta. cbn [andb]. rewrite st_ret_bind. change (typ (mkOperand OpSymbolic 0 0) =? OpSymbolic) with true.
  cbv iota. rewrite st_ret_bind.
  run_step (stack_step tid _ c3 fs g _ _ Ht3 (resetPops_run framesCount _ fs g (ti_frames _ _ _ _ Ht3))).
  eexists _, (with_sent (m_symbolsCount g) (m_symbolsCount g) g). split; [done|].
  rewrite at_thread_stack. cbn [chan at_thread heap buffer m_lastSentTop minTopSinceLastSent m_minTopSinceLastSent].
  destruct Hw as [Hh Hb Hm Hth _ _]. split_and!; try done.
  - rewrite Hout. by rewrite <- !app_assoc.
  - apply at_thread_top; [apply Ht|done].
  - by apply frame_rep_sent.
  - unfold evaluationStackPops. simpl. by rewrite Z.sub_diag.
  - unfold frames_size. rewrite (ti_frames _ _ _ _ Ht3), length_app. done.
  - intros t Hne. etransitivity; [|exact (Hth t Hne)]. unfold thread_stack. simpl. by rewrite lookup_insert_ne.
Qed.

(** A binary operation on a symbolic and a concrete operand. *)
Definition exchange_ops : list EvalStackOperand := [mkOperand OpI4 10 0; mkOperand OpI4 20 0].
Definition exchange_state : concolic :=
  mkConcolic 5 (Some 5) {[5 := mkStack [Commands.sample_frame] 0 0]} (mkHeap ∅ 2 [] {[1 := ([7; 0], 2)]} []) mem_init
    (mkSocket (confirmations 4 ++ message (answer 1 (Some false)) ++ []) [] []) true.
Definition exchange_start : ExecCommand * concolic := Eval vm_compute in
  match initCommand true 5 3 false 2 exchange_ops exchange_state with Ok r => r | Err _ => (sample_command, exchange_state) end.
Definition exchange_bytes : list Z := Eval vm_compute in
  match serialize 0 (fst exchange_start) with Ok b => b | Err _ => [] end.

Lemma sendCommand_exchange_witness :
  exists c', sendCommand true 5 0 20 id 3 2 exchange_ops exchange_state = Ok (false, c') /\
    outbox (chan c') = message [ExecuteCommand] ++ message exchange_bytes ++ confirmations 2 /\ inbox (chan c') = [].
Proof.
  destruct (sendCommand_exchange true 5 0 20 id 3 exchange_ops (fst exchange_start) exchange_bytes exchange_state (snd exchange_start)
    [] Commands.sample_frame [true] 1 (Some false) [] []) as (c' & f' & R & Ho & Hi & _).
  - vm_compute. reflexivity.
  - vm_compute. reflexivity.
  - split; [right; split; [reflexivity|eexists; reflexivity]|discriminate|reflexivity].
  - constructor; reflexivity.
  - vm_compute. discriminate.
  - lia.
  - vm_compute. split; [discriminate|reflexivity].
  - vm_compute. reflexivity.
  - exists c'. split; [exact R|]. split; [exact Ho|exact Hi].
Defined.
