(* ===== verification/ConcInstrument.v ===== *)
(** * The concolic instrumenter

    [VSharp.ClrInteraction/instrumenter.cpp]: which methods get probes, and when.
    Methods compiled before the main method are only remembered and compiled
    again once main is reached; from then on every method is sent to the engine,
    which answers with an instrumented body.  After main has been left the
    instrumented methods are compiled once more with their original bodies.

    The state joins the [Instrumenter] object, the state shared by the probes
    (Commands.v) with the connection, the strings pool of the debug build, and what
    the runtime has been asked to do.  [debug] says whether [_DEBUG] is defined
    and [assert] checks; that tokens are those of methods, which the runtime
    guarantees, is not checked. *)

From stdpp Require Import sorting.
From S2P Require Import Prelude CorHdr ILImport Runtime ILExport ILRoundTrip ILDecoder ConcStack MemBuffer Protocol Commands.
Local Open Scope Z_scope.

(** ** Data *)

Record MethodInfo := mkMethodInfo {
  mi_token : Z;
  mi_bytecode : list Z;
  mi_codeLength : Z;
  mi_maxStackSize : Z;
  mi_ehs : list Z;
  mi_ehsLength : Z
}.

(** The fields [importIL] fills; [m_pEH] is the memory of the clauses, [None] a
    null pointer. *)
Record Imported := mkImported {
  m_tkLocalVarSig : Z;
  m_maxStack : Z;
  m_flags : Z;
  m_nEH : Z;
  m_pEH : option (list Z);
  m_code : list Z;
  m_codeSize : Z
}.

(** [m_signatureTokensLength] has no value before the first [initTokens]: the
    tokens and their length are [None] then. *)
Record Instrumenter := mkInstrumenter {
  m_mainModuleName : list Z;
  m_mainModuleSize : Z;
  m_mainMethod : Z;
  m_mainReached : bool;
  m_jittedToken : Z;
  m_moduleId : Z;
  m_signatureTokens : option (list Z);
  imported : Imported;
  instrumentedFunctions : gmap (Z * Z) MethodInfo;
  skippedBeforeMain : gset (Z * Z);
  m_reJitInstrumentedStarted : bool
}.

(** The constructor leaves [m_jittedToken] and the imported fields unset; they
    are written before they are read. *)
Definition new_Instrumenter : Instrumenter :=
  mkInstrumenter [] 0 0 false 0 0 None (mkImported 0 0 0 0 None [] 0) ∅ ∅ false.

(** Bodies the runtime has accepted, with module and token, and the lists of
    methods it was asked to compile again. *)
Record session := mkSession {
  instr : Instrumenter;
  shared : concolic;
  pool : strings_pool;
  new_bodies : list (Z * Z * list Z);
  rejits : list (list (Z * Z))
}.

Definition with_instr (i : Instrumenter) (s : session) : session := mkSession i (shared s) (pool s) (new_bodies s) (rejits s).
Definition on_instr (f : Instrumenter -> Instrumenter) : st session unit := st_modify (fun s => with_instr (f (instr s)) s).
Definition on_shared {A} (m : st concolic A) : st session A := fun s =>
  match m (shared s) with
  | Ok (a, c) => Ok (a, mkSession (instr s) c (pool s) (new_bodies s) (rejits s))
  | Err e => Err e
  end.
Definition on_pool {A} (m : st strings_pool A) : st session A := fun s =>
  match m (pool s) with
  | Ok (a, p) => Ok (a, mkSession (instr s) (shared s) p (new_bodies s) (rejits s))
  | Err e => Err e
  end.
Definition on_protocol {A} (m : st socket A) : st session A := on_shared (on_chan m).

Definition with_imported (m : Imported) (i : Instrumenter) : Instrumenter :=
  mkInstrumenter (m_mainModuleName i) (m_mainModuleSize i) (m_mainMethod i) (m_mainReached i) (m_jittedToken i) (m_moduleId i)
    (m_signatureTokens i) m (instrumentedFunctions i) (skippedBeforeMain i) (m_reJitInstrumentedStarted i).
Definition with_current (module token : Z) (i : Instrumenter) : Instrumenter :=
  mkInstrumenter (m_mainModuleName i) (m_mainModuleSize i) (m_mainMethod i) (m_mainReached i) token module
    (m_signatureTokens i) (imported i) (instrumentedFunctions i) (skippedBeforeMain i) (m_reJitInstrumentedStarted i).
Definition with_tokens (t : list Z) (i : Instrumenter) : Instrumenter :=
  mkInstrumenter (m_mainModuleName i) (m_mainModuleSize i) (m_mainMethod i) (m_mainReached i) (m_jittedToken i) (m_moduleId i)
    (Some t) (imported i) (instrumentedFunctions i) (skippedBeforeMain i) (m_reJitInstrumentedStarted i).
Definition with_functions (f : gmap (Z * Z) MethodInfo) (i : Instrumenter) : Instrumenter :=
  mkInstrumenter (m_mainModuleName i) (m_mainModuleSize i) (m_mainMethod i) (m_mainReached i) (m_jittedToken i) (m_moduleId i)
    (m_signatureTokens i) (imported i) f (skippedBeforeMain i) (m_reJitInstrumentedStarted i).
Definition with_flags (reached started : bool) (skipped : gset (Z * Z)) (i : Instrumenter) : Instrumenter :=
  mkInstrumenter (m_mainModuleName i) (m_mainModuleSize i) (m_mainMethod i) reached (m_jittedToken i) (m_moduleId i)
    (m_signatureTokens i) (imported i) (instrumentedFunctions i) skipped started.

(** ** MethodBodyInfo *)

Record MethodBodyInfo := mkMethodBodyInfo {
  mbi_token : Z;
  mbi_codeLength : Z;
  mbi_assemblyNameLength : Z;
  mbi_moduleNameLength : Z;
  mbi_maxStackSize : Z;
  mbi_ehsLength : Z;
  mbi_signatureTokensLength : Z;
  mbi_signatureTokens : list Z;
  mbi_assemblyName : list Z;
  mbi_moduleName : list Z;
  mbi_bytecode : list Z;
  mbi_ehs : list Z
}.

(** The arrays are given as their bytes. *)
Definition info_serialize (junk : Z) (i : MethodBodyInfo) : result (list Z) :=
  let count := wrap 32 (mbi_codeLength i + 6 * 4 + mbi_ehsLength i + mbi_assemblyNameLength i + mbi_moduleNameLength i
                        + mbi_signatureTokensLength i) in
  let write : writer unit :=
    put (le_bytes 4 (mbi_token i));;
    put (le_bytes 4 (mbi_codeLength i));;
    put (le_bytes 4 (mbi_assemblyNameLength i));;
    put (le_bytes 4 (mbi_moduleNameLength i));;
    put (le_bytes 4 (mbi_maxStackSize i));;
    put (le_bytes 4 (mbi_signatureTokensLength i));;
    tokens ← elements (mbi_signatureTokensLength i) (mbi_signatureTokens i);
    put tokens;;
    assemblyName ← elements (mbi_assemblyNameLength i) (mbi_assemblyName i);
    put assemblyName;;
    moduleName ← elements (mbi_moduleNameLength i) (mbi_moduleName i);
    put moduleName;;
    bytecode ← elements (mbi_codeLength i) (mbi_bytecode i);
    put bytecode;;
    ehs ← elements (mbi_ehsLength i) (mbi_ehs i);
    put ehs in
  match write (replicate (Z.to_nat count) junk, 0) with
  | Ok (_, (bytes, _)) => Ok bytes
  | Err e => Err e
  end.

(** ** Signatures *)

(** The signatures of the probes, in the order of their [SIG_DEF]s. *)
Definition signature_table : list (list Z) :=
  let VOID := ELEMENT_TYPE_VOID in let BOOLEAN := ELEMENT_TYPE_BOOLEAN in let I1 := ELEMENT_TYPE_I1 in let U1 := ELEMENT_TYPE_U1 in
  let I2 := ELEMENT_TYPE_I2 in let U2 := ELEMENT_TYPE_U2 in let I4 := ELEMENT_TYPE_I4 in let U4 := ELEMENT_TYPE_U4 in
  let I8 := ELEMENT_TYPE_I8 in let R4 := ELEMENT_TYPE_R4 in let R8 := ELEMENT_TYPE_R8 in let I := ELEMENT_TYPE_I in
  let COND := I in let TOKEN := U4 in let OFFSET := I4 in
  let SIG_DEF args := IMAGE_CEE_CS_CALLCONV_STDCALL :: args in
  SIG_DEF <$> [
    [0; VOID]; [0; COND];
    [1; VOID; U1]; [1; VOID; U4];
    [1; VOID; I]; [1; COND; I];
    [1; COND; U2]; [1; I1; I1];
    [1; I2; I1]; [1; I4; I1];
    [1; I8; I1]; [1; R4; I1];
    [1; R8; I1]; [1; I; I1];
    [2; VOID; I; I1]; [2; VOID; I; I2];
    [2; VOID; I; U2]; [2; VOID; I; I4];
    [2; VOID; I; I8]; [2; VOID; I; R4];
    [2; VOID; I; R8]; [2; VOID; I; I];
    [2; VOID; I4; I4]; [2; VOID; I4; I];
    [2; VOID; I8; I4]; [2; VOID; I8; I8];
    [2; VOID; R4; R4]; [2; VOID; R8; R8];
    [2; COND; I; I4]; [2; COND; I; I];
    [3; VOID; I; I; I]; [3; VOID; I; I; I1];
    [3; VOID; I; I; I2]; [3; VOID; I; I; I4];
    [3; VOID; I; I; I8]; [3; VOID; I; I; R4];
    [3; VOID; I; I; R8]; [3; VOID; I; I1; I];
    [3; VOID; I1; I1; I1]; [3; VOID; I2; I1; I1];
    [3; VOID; I4; I1; I1]; [3; VOID; I8; I1; I1];
    [3; VOID; R4; I1; I1]; [3; VOID; R8; I1; I1];
    [3; VOID; I; I1; I1]; [5; VOID; TOKEN; U2; BOOLEAN; U4; U4];
    [1; VOID; OFFSET]; [2; VOID; U1; OFFSET];
    [2; VOID; U2; OFFSET]; [2; VOID; I4; OFFSET];
    [2; VOID; I8; OFFSET]; [2; VOID; R4; OFFSET];
    [2; VOID; R8; OFFSET]; [2; VOID; I; OFFSET];
    [2; VOID; TOKEN; OFFSET]; [3; VOID; I; I1; OFFSET];
    [3; VOID; I; I2; OFFSET]; [3; VOID; I; I4; OFFSET];
    [3; VOID; I; I8; OFFSET]; [3; VOID; I; R4; OFFSET];
    [3; VOID; I; R8; OFFSET]; [3; VOID; I; I; OFFSET];
    [3; VOID; I; TOKEN; OFFSET]; [4; VOID; I; I4; I4; OFFSET];
    [4; VOID; U2; I4; I4; OFFSET]; [4; VOID; U2; I4; I; OFFSET];
    [4; VOID; U2; I8; I4; OFFSET]; [4; VOID; U2; I8; I8; OFFSET];
    [4; VOID; U2; R4; R4; OFFSET]; [4; VOID; U2; R8; R8; OFFSET];
    [4; VOID; U2; I; I; OFFSET]; [4; VOID; U2; I; I4; OFFSET];
    [4; VOID; I; I; I; OFFSET]; [4; VOID; I; I; I1; OFFSET];
    [4; VOID; I; I; I2; OFFSET]; [4; VOID; I; I; I4; OFFSET];
    [4; VOID; I; I; I8; OFFSET]; [4; VOID; I; I; R4; OFFSET];
    [4; VOID; I; I; R8; OFFSET]; [4; VOID; I; I1; I; OFFSET];
    [4; VOID; TOKEN; U4; U4; U4]; [4; VOID; TOKEN; I; I; OFFSET];
    [4; VOID; TOKEN; I; I4; OFFSET]; [4; VOID; TOKEN; I; I8; OFFSET];
    [4; VOID; TOKEN; I; R4; OFFSET]; [4; VOID; TOKEN; I; R8; OFFSET];
    [5; VOID; TOKEN; TOKEN; BOOLEAN; U2; OFFSET]].

(** The order of [std::map] and [std::set] on pairs. *)
Definition key_before (a b : Z * Z) : Prop := fst a < fst b \/ fst a = fst b /\ snd a <= snd b.
#[export] Instance key_before_dec a b : Decision (key_before a b).
Proof. unfold key_before. apply _. Defined.
Definition sorted_keys (l : list (Z * Z)) : list (Z * Z) := merge_sort key_before l.

(** The body in the block [pBody]: the fat header, the code, and at the next
    multiple of four the exception section, whose clauses are copied. *)
Definition fat_image (flags maxStack tkLocalVarSig nEH codeLength : Z) (bytecode ehs pBody : list Z) : option (list Z) :=
  let alignedCodeSize := Z.land (wrap 32 (codeLength + 3)) (wrap 32 (Z.lnot 3)) in
  pBody ← write_at pBody 0 (fat_header
    (Z.lor (Z.lor flags (if nEH =? 0 then 0 else CorILMethod_MoreSects)) CorILMethod_FatFormat) maxStack codeLength tkLocalVarSig);
  code ← read_at bytecode 0 (Z.to_nat codeLength);
  pBody ← write_at pBody 12 code;
  if nEH =? 0 then Some pBody else
  pBody ← write_at pBody (12 + alignedCodeSize)
    (sect_fat (Z.lor CorILMethod_Sect_EHTable CorILMethod_Sect_FatFormat) (wrap 32 (4 + 24 * nEH)));
  clauses ← read_at ehs 0 (Z.to_nat (24 * nEH));
  write_at pBody (12 + alignedCodeSize + 4) clauses.

(** What [GetILFunctionBody] answers when bodies were set before: the last one of
    the method, in a block that is aligned to four bytes, or the module's. *)
Definition body_set (bodies : list (Z * Z * list Z)) (module token : Z) : option (list Z) :=
  last (omap (fun '(m, t, body) => if bool_decide (m = module /\ t = token) then Some body else None) bodies).
Definition current_body (rt : Runtime) (bodies : list (Z * Z * list Z)) (module token : Z) : result (Z + ILMethod) :=
  match body_set bodies module token with
  | None => Ok (GetILFunctionBody rt module token)
  | Some body => decoder ← decode_method 0 body; Ok (inr decoder)
  end.

Section instrumenter.
Context (rt : Runtime) (debug : bool) (tid : Z) (fuel : nat).

Definition assert (b : bool) : st session unit := if debug && negb b then st_fail (Thrown "Assertion failed") else mret tt.

(** The tokens obtained until the first failure; the [HRESULT] is not used. *)
Fixpoint initTokens (module : Z) (sigs : list (list Z)) : list Z :=
  match sigs with
  | [] => []
  | sig :: sigs => match GetTokenFromSig rt module sig with inl _ => [] | inr t => t :: initTokens module sigs end
  end.

(** [WCHAR]s in memory. *)
Fixpoint wchars (bytes : list Z) : list Z :=
  match bytes with
  | b0 :: b1 :: bytes => le_Z [b0; b1] :: wchars bytes
  | _ => []
  end.

Definition configureEntryPoint : st session unit :=
  bytes ← on_protocol (acceptEntryPoint (junk rt) fuel);
  size ← st_read (fun _ => read_at bytes 0 4);
  let m_mainModuleSize := sint 32 (le_Z size) in
  method ← st_read (fun _ => read_at bytes 4 4);
  (if m_mainModuleSize <? 0 then st_fail (Thrown "bad_array_new_length") else mret tt);;
  name ← st_read (fun _ => read_at bytes 8 (Z.to_nat (2 * m_mainModuleSize)));
  on_instr (fun i => mkInstrumenter (wchars name) m_mainModuleSize (le_Z method) (m_mainReached i) (m_jittedToken i) (m_moduleId i)
    (m_signatureTokens i) (imported i) (instrumentedFunctions i) (skippedBeforeMain i) (m_reJitInstrumentedStarted i));;
  assert (8 + 2 * m_mainModuleSize =? Z.of_nat (length bytes)).

(** When the loop runs both names hold [m_mainModuleSize] characters. *)
Definition currentMethodIsMain (i : Instrumenter) (moduleName : list Z) (moduleSize method : Z) : bool :=
  if negb (m_mainModuleSize i =? moduleSize - 1) || negb (m_mainMethod i =? method) then false
  else bool_decide (take (Z.to_nat (m_mainModuleSize i)) (m_mainModuleName i) = take (Z.to_nat (m_mainModuleSize i)) moduleName).

(** [importIL] with [importEH]. *)
Definition importIL : st session (Z + unit) :=
  s ← st_get;
  r ← st_lift (current_body rt (new_bodies s) (m_moduleId (instr s)) (m_jittedToken (instr s)));
  match (r : Z + ILMethod) with
  | inl hr => mret (inl hr)
  | inr decoder =>
      let old := m_pEH (imported (instr s)) in
      let nEH := Z.of_nat (length (il_EH decoder)) in
      assert (bool_decide (old = None));;
      on_instr (with_imported (mkImported (il_LocalVarSigTok decoder) (il_MaxStack decoder)
        (Z.land (il_Flags decoder) CorILMethod_InitLocals) nEH
        (if nEH =? 0 then old else Some (il_EH decoder ≫= clause_fat)) (il_Code decoder) (Z.of_nat (length (il_Code decoder)))));;
      mret (inr tt)
  end.

Definition exportIL (bytecode : list Z) (codeLength maxStackSize : Z) (ehs : list Z) (ehsLength : Z) : st session (Z + unit) :=
  let nEH := ehsLength / 24 in
  on_instr (fun i => let m := imported i in
    with_imported (mkImported (m_tkLocalVarSig m) maxStackSize (m_flags m) nEH (m_pEH m) (m_code m) (m_codeSize m)) i);;
  let alignedCodeSize := Z.land (wrap 32 (codeLength + 3)) (wrap 32 (Z.lnot 3)) in
  let totalSize := wrap 32 (12 + alignedCodeSize + (if nEH =? 0 then 0 else 4 + 24 * nEH)) in
  match Alloc rt totalSize with
  | None => mret (inl E_OUTOFMEMORY)
  | Some pBody =>
      s ← st_get;
      let i := instr s in
      body ← st_read (fun _ => fat_image (m_flags (imported i)) maxStackSize (m_tkLocalVarSig (imported i)) nEH codeLength bytecode ehs pBody);
      match SetBody rt (m_moduleId i) (m_jittedToken i) body with
      | Some hr => mret (inl hr)
      | None =>
          st_modify (fun s => mkSession (instr s) (shared s) (pool s) (new_bodies s ++ [(m_moduleId i, m_jittedToken i, body)]) (rejits s));;
          on_instr (fun i => let m := imported i in
            with_imported (mkImported (m_tkLocalVarSig m) (m_maxStack m) (m_flags m) (m_nEH m) None (m_code m) (m_codeSize m)) i);;
          mret (inr tt)
      end
  end.

Definition requestReJIT (l : list (Z * Z)) : st session (Z + unit) :=
  st_modify (fun s => mkSession (instr s) (shared s) (pool s) (new_bodies s) (rejits s ++ [l]));; mret (RequestReJIT rt l).
Definition startReJitInstrumented : st session (Z + unit) :=
  on_instr (fun i => with_flags (m_mainReached i) true (skippedBeforeMain i) i);;
  s ← st_get;
  requestReJIT (sorted_keys (fst <$> map_to_list (instrumentedFunctions (instr s)))).
Definition startReJitSkipped : st session (Z + unit) :=
  s ← st_get; requestReJIT (sorted_keys (base.elements (skippedBeforeMain (instr s)))).

(** The loop of the debug build that serves the engine's requests for strings. *)
Fixpoint serve_strings (n : nat) : st session bool :=
  match n with
  | O => st_fail OutOfFuel
  | S n =>
      command ← on_protocol (acceptCommand (junk rt) fuel);
      match command with
      | None => mret false
      | Some command =>
          served ← (if command =? ReadString then
              string ← on_protocol (acceptString (junk rt) fuel);
              match string with
              | None => mret false
              | Some string =>
                  index ← on_pool (allocateString string);
                  on_protocol (sendStringsPoolIndex (junk rt) index)
              end
            else mret true);
          if negb served then mret false
          else if command =? ReadMethodBody then mret true else serve_strings n
      end
  end.

(** [return false] is a successful [HRESULT]. *)
Definition doInstrumentation (oldModuleId : Z) (assemblyName moduleName : list Z) : st session Z :=
  s ← st_get;
  let module := m_moduleId (instr s) in
  let token := m_jittedToken (instr s) in
  IfFailRet (GetModuleMetaData rt module) (fun _ =>
  if bool_decide (is_Some (instrumentedFunctions (instr s) !! (module, token))) then mret S_OK else
  left ← on_shared (mainLeft tid);
  if (left : bool) then
    if m_reJitInstrumentedStarted (instr s) then mret S_OK
    else r ← startReJitInstrumented; IfFailRet r (fun _ => mret S_OK)
  else
  (if oldModuleId =? module then mret tt
   else on_instr (with_tokens (flat_map (le_bytes 4) (initTokens module signature_table))));;
  r ← importIL;
  IfFailRet r (fun _ =>
  s ← st_get;
  let m := imported (instr s) in
  let ehCount := 24 * m_nEH m in
  ehs ← st_read (fun _ => if ehCount =? 0 then Some [] else m_pEH m);
  on_instr (fun i => with_functions (<[(module, token) :=
    mkMethodInfo token (m_code m) (m_codeSize m) (m_maxStack m) ehs ehCount]> (instrumentedFunctions i)) i);;
  tokens ← st_read (fun s => m_signatureTokens (instr s));
  let info := mkMethodBodyInfo token (m_codeSize m)
    (wrap 32 (wrap 32 (Z.of_nat (length assemblyName) - 1) * 2)) (wrap 32 (wrap 32 (Z.of_nat (length moduleName) - 1) * 2))
    (m_maxStack m) ehCount (Z.of_nat (length tokens)) tokens
    (flat_map (le_bytes 2) assemblyName) (flat_map (le_bytes 2) moduleName) (m_code m) ehs in
  bytes ← st_lift (info_serialize (junk rt) info);
  sent ← on_protocol (sendSerializable (junk rt) InstrumentCommand bytes);
  if negb sent then mret 0 else
  served ← (if debug then serve_strings fuel else mret true);
  if negb served then mret 0 else
  body ← on_protocol (acceptMethodBody (junk rt) fuel);
  match body with
  | None => mret 0
  | Some b =>
      r ← exportIL (mb_code b) (mb_codeLength b) (mb_maxStackSize b) (mb_ehs b) (mb_ehsLength b);
      IfFailRet r (fun _ => mret S_OK)
  end)).

(** The [HRESULT] of [doInstrumentation] is dropped. *)
Definition instrument (functionId : Z) : st session Z :=
  s ← st_get;
  let oldModuleId := m_moduleId (instr s) in
  IfFailRet (GetFunctionInfo rt functionId) (fun '(module, token) =>
  on_instr (with_current module token);;
  IfFailRet (GetModuleInfo rt module) (fun '(moduleName, assembly) =>
  IfFailRet (GetAssemblyInfo rt assembly) (fun assemblyName =>
  s ← st_get;
  let i := instr s in
  r ← (if negb (m_mainReached i) && currentMethodIsMain i moduleName (Z.of_nat (length moduleName)) token
       then on_instr (fun i => with_flags true (m_reJitInstrumentedStarted i) (skippedBeforeMain i) i);; startReJitSkipped
       else mret (inr tt));
  IfFailRet r (fun _ =>
  s ← st_get;
  (if m_mainReached (instr s)
   then doInstrumentation oldModuleId assemblyName moduleName;; mret tt
   else on_instr (fun i => with_flags (m_mainReached i) (m_reJitInstrumentedStarted i) ({[(module, token)]} ∪ skippedBeforeMain i) i));;
  mret S_OK)))).

Definition undoInstrumentation (functionId : Z) : st session Z :=
  IfFailRet (GetFunctionInfo rt functionId) (fun '(module, token) =>
  on_instr (with_current module token);;
  s ← st_get;
  match instrumentedFunctions (instr s) !! (module, token) with
  | None => mret S_OK
  | Some mi =>
      r ← exportIL (mi_bytecode mi) (mi_codeLength mi) (mi_maxStackSize mi) (mi_ehs mi) (mi_ehsLength mi);
      IfFailRet r (fun _ =>
      on_instr (fun i => with_functions (delete (module, token) (instrumentedFunctions i)) i);;
      mret S_OK)
  end).

Definition reInstrument (functionId : Z) : st session Z :=
  left ← on_shared (mainLeft tid);
  if (left : bool) then undoInstrumentation functionId else instrument functionId.
End instrumenter.

(** ** Method bodies *)

(** The image of a method with a fat header; [ehs] are the bytes of its clauses
    and [pad] what the alignment leaves. *)
Definition body_bytes (flags maxStack sig : Z) (code pad ehs : list Z) : list Z :=
  fat_header (Z.lor (Z.lor flags (if ehs is [] then 0 else CorILMethod_MoreSects)) CorILMethod_FatFormat)
    maxStack (Z.of_nat (length code)) sig ++ code ++ pad ++
  (if ehs is [] then [] else
   sect_fat (Z.lor CorILMethod_Sect_EHTable CorILMethod_Sect_FatFormat) (wrap 32 (4 + Z.of_nat (length ehs))) ++ ehs).

(** The original body of a method in this form. *)
Lemma body_bytes_fat flags maxStack sig code pad cs :
  body_bytes flags maxStack sig code pad (cs ≫= clause_fat) = fat_body flags maxStack sig code pad cs.
Proof.
  unfold body_bytes, fat_body, eh_section. destruct cs as [|c cs]; [done|].
  pose proof (length_clauses (c :: cs)) as Hl.
  destruct ((c :: cs) ≫= clause_fat) as [|b bs] eqn:E; [simpl in Hl; lia|]. rewrite Hl. do 6 f_equal. lia.
Qed.

Lemma write_at_mid {A} (a b b' c : list A) :
  length b' = length b -> write_at (a ++ b ++ c) (Z.of_nat (length a)) b' = Some (a ++ b' ++ c).
Proof.
  intros Hl. unfold write_at. rewrite !length_app. destruct (_ && _) eqn:E; [|exfalso; lia].
  rewrite Nat2Z.id, take_app_length. do 3 f_equal. rewrite app_assoc, drop_app_ge by (rewrite length_app; lia).
  rewrite length_app. replace (length a + length b' - (length a + length b))%nat with 0%nat by lia. done.
Qed.

Lemma split_at {A} (l : list A) (n : nat) : (n <= length l)%nat -> exists a b, l = a ++ b /\ length a = n.
Proof. intros H. exists (take n l), (drop n l). rewrite take_drop, length_take. split; [done|lia]. Qed.

(** The size [exportIL] asks for. *)
Definition body_size (codeLength nEH : Z) : Z := 12 + aligned codeLength + (if nEH =? 0 then 0 else 4 + 24 * nEH).

Lemma fat_image_run flags maxStack sig nEH code ehs block :
  Z.of_nat (length code) < 2 ^ 31 -> Z.of_nat (length ehs) = 24 * nEH ->
  Z.of_nat (length block) = body_size (Z.of_nat (length code)) nEH ->
  exists pad, fat_image flags maxStack sig nEH (Z.of_nat (length code)) code ehs block =
      Some (body_bytes flags maxStack sig code pad ehs) /\
    Z.of_nat (length pad) = aligned (Z.of_nat (length code)) - Z.of_nat (length code).
Proof.
  intros Hc He Hb. pose proof (aligned_bounds (Z.of_nat (length code)) ltac:(lia)) as [Ha _].
  unfold body_size in Hb. set (eh := if nEH =? 0 then 0 else 4 + 24 * nEH) in Hb.
  assert (0 <= eh) as Heh by (subst eh; destruct (nEH =? 0); lia). unfold fat_image. fold (aligned (Z.of_nat (length code))). cbv zeta.
  destruct (split_at block 12) as (h & b1 & -> & Hh); [lia|]. rewrite length_app in Hb.
  destruct (split_at b1 (length code)) as (c & b2 & -> & Hlc); [lia|]. rewrite length_app in Hb.
  destruct (split_at b2 (Z.to_nat (aligned (Z.of_nat (length code)) - Z.of_nat (length code)))) as (pad & b3 & -> & Hp); [lia|].
  rewrite length_app in Hb. exists pad. split; [|lia]. set (hdr := fat_header _ _ _ _).
  pose proof (write_at_mid [] h hdr (c ++ pad ++ b3) ltac:(rewrite Hh; done)) as E. cbn [app length] in E.
  change (Z.of_nat 0) with 0 in E. rewrite E. cbn [mbind option_bind]. clear E.
  rewrite Nat2Z.id, read_all. cbn [mbind option_bind].
  rewrite (write_at_mid hdr c code (pad ++ b3) ltac:(lia) : write_at _ 12 _ = _). cbn [mbind option_bind].
  subst eh. destruct (Z.eqb_spec nEH 0) as [->|Hne].
  { destruct ehs; [|simpl in He; lia]. destruct b3; [|simpl in *; lia]. unfold body_bytes. by rewrite !app_nil_r. }
  destruct (split_at b3 4) as (s0 & b4 & -> & Hs); [lia|]. rewrite length_app in Hb.
  set (sect := sect_fat _ _). replace (12 + aligned (Z.of_nat (length code))) with (Z.of_nat (length (hdr ++ code ++ pad)))
    by (rewrite !length_app; change (length hdr) with 12%nat; lia).
  replace (hdr ++ code ++ pad ++ s0 ++ b4) with ((hdr ++ code ++ pad) ++ s0 ++ b4) by (by rewrite <- !app_assoc).
  rewrite (write_at_mid _ s0 sect b4) by (rewrite Hs; done). cbn [mbind option_bind].
  replace (Z.to_nat (24 * nEH)) with (length ehs) by lia. rewrite read_all. cbn [mbind option_bind].
  replace (Z.of_nat (length (hdr ++ code ++ pad)) + 4) with (Z.of_nat (length ((hdr ++ code ++ pad) ++ sect)))
    by (rewrite (length_app _ sect); change (length sect) with 4%nat; lia).
  rewrite app_assoc, <- (app_nil_r b4), (write_at_mid _ b4 ehs []) by lia. f_equal. unfold body_bytes.
  destruct ehs as [|e ehs]; [simpl in He; lia|]. subst hdr sect. rewrite He, app_nil_r, <- !app_assoc. done.
Qed.

(** ** What the engine is sent *)

Definition info_bytes (i : MethodBodyInfo) : list Z :=
  le_bytes 4 (mbi_token i) ++ le_bytes 4 (mbi_codeLength i) ++ le_bytes 4 (mbi_assemblyNameLength i)
    ++ le_bytes 4 (mbi_moduleNameLength i) ++ le_bytes 4 (mbi_maxStackSize i) ++ le_bytes 4 (mbi_signatureTokensLength i)
    ++ mbi_signatureTokens i ++ take (Z.to_nat (mbi_assemblyNameLength i)) (mbi_assemblyName i)
    ++ take (Z.to_nat (mbi_moduleNameLength i)) (mbi_moduleName i) ++ mbi_bytecode i ++ mbi_ehs i.

(** The lengths are those of the arrays; the names may have more characters. *)
Record info_wf (i : MethodBodyInfo) : Prop := {
  iw_code : mbi_codeLength i = Z.of_nat (length (mbi_bytecode i));
  iw_tokens : mbi_signatureTokensLength i = Z.of_nat (length (mbi_signatureTokens i));
  iw_ehs : mbi_ehsLength i = Z.of_nat (length (mbi_ehs i));
  iw_assembly : 0 <= mbi_assemblyNameLength i <= Z.of_nat (length (mbi_assemblyName i));
  iw_module : 0 <= mbi_moduleNameLength i <= Z.of_nat (length (mbi_moduleName i));
  iw_size : Z.of_nat (length (info_bytes i)) < 2 ^ 31
}.

Lemma read_prefix {A} (l : list A) n : 0 <= n <= Z.of_nat (length l) -> read_at l 0 (Z.to_nat n) = Some (take (Z.to_nat n) l).
Proof. intros H. unfold read_at. destruct (_ && _) eqn:E; [|exfalso; lia]. by rewrite drop_0. Qed.

Lemma writes_prefix {A B} junk (l : list A) n (f : list A -> writer B) b cs :
  0 <= n <= Z.of_nat (length l) ->
  writes junk (f (take (Z.to_nat n) l)) b cs -> writes junk (Commands.elements n l ≫= f) b cs.
Proof.
  intros Hl Hf pre k Hk.
  rewrite (st_bind_run _ _ _ (take (Z.to_nat n) l) (pre ++ replicate k junk, Z.of_nat (length pre))); [by apply Hf|].
  unfold Commands.elements, st_read. by rewrite read_prefix.
Qed.

Lemma info_serialize_run junk i : info_wf i -> info_serialize junk i = Ok (info_bytes i).
Proof.
  intros [W1 W2 W3 W4 W5 W6]. unfold info_serialize.
  assert (length (info_bytes i) = 24 + length (mbi_signatureTokens i) + Z.to_nat (mbi_assemblyNameLength i) +
    Z.to_nat (mbi_moduleNameLength i) + length (mbi_bytecode i) + length (mbi_ehs i))%nat as Hlen.
  { unfold info_bytes. rewrite !length_app, !length_le_bytes, !length_take. lia. }
  rewrite wrap_small by (unfold is_uint; lia). cbv zeta.
  replace (Z.to_nat _) with (length (info_bytes i)) by lia.
  match goal with |- context [match ?w (replicate _ junk, 0) with _ => _ end] => assert (writes junk w tt (info_bytes i)) as Hw end.
  { unfold info_bytes. do 6 apply writes_put_bind. rewrite W2. apply writes_elements, writes_put_bind.
    apply writes_prefix; [done|]. apply writes_put_bind, writes_prefix; [done|]. apply writes_put_bind.
    rewrite W1. apply writes_elements, writes_put_bind. rewrite W3. apply writes_elements, writes_put. }
  specialize (Hw [] (length (info_bytes i)) (le_n _)). rewrite Nat.sub_diag, !app_nil_l, app_nil_r in Hw.
  change (Z.of_nat (length [])) with 0 in Hw. by rewrite Hw.
Qed.

(** ** Handing a body to the runtime *)

Section runs.
Context (rt : Runtime) (debug : bool) (tid : Z) (fuel : nat).
Context (Halloc : alloc_spec (Alloc rt)) (Haccept : forall module token body, SetBody rt module token body = None).

Lemma on_instr_bind {B} f (k : unit -> st session B) s : (on_instr f ≫= k) s = k tt (with_instr (f (instr s)) s).
Proof. done. Qed.

(** The state after a body was exported. *)
Definition exported (maxStackSize nEH : Z) (body : list Z) (s : session) : session :=
  let i := instr s in let m := imported i in
  mkSession (with_imported (mkImported (m_tkLocalVarSig m) maxStackSize (m_flags m) nEH None (m_code m) (m_codeSize m)) i)
    (shared s) (pool s) (new_bodies s ++ [(m_moduleId i, m_jittedToken i, body)]) (rejits s).

(** [exportIL] makes a body of the bytes it is given; the runtime takes it or not. *)
Lemma exportIL_cases s code maxStackSize ehs n :
  Z.of_nat (length ehs) = 24 * n -> Z.of_nat (length code) + Z.of_nat (length ehs) < 2 ^ 31 ->
  exists pad s', let m := imported (instr s) in let body := body_bytes (m_flags m) maxStackSize (m_tkLocalVarSig m) code pad ehs in
    exportIL rt code (Z.of_nat (length code)) maxStackSize ehs (Z.of_nat (length ehs)) s =
      match SetBody rt (m_moduleId (instr s)) (m_jittedToken (instr s)) body with
      | Some hr => Ok (inl hr, s')
      | None => Ok (inr tt, exported maxStackSize n body s)
      end /\
    Z.of_nat (length pad) = aligned (Z.of_nat (length code)) - Z.of_nat (length code).
Proof using Halloc.
  intros He Hs. unfold exportIL. rewrite He. rewrite (Z.mul_comm 24 n), Z.div_mul by lia. cbv zeta.
  rewrite on_instr_bind. fold (aligned (Z.of_nat (length code))).
  pose proof (aligned_bounds (Z.of_nat (length code)) ltac:(lia)) as [Ha _].
  fold (body_size (Z.of_nat (length code)) n).
  assert (0 <= body_size (Z.of_nat (length code)) n < 2 ^ 32) as Hbs by (unfold body_size; destruct (Z.eqb_spec n 0); lia).
  rewrite wrap_small by done. destruct (Halloc (body_size (Z.of_nat (length code)) n) ltac:(lia)) as (block & -> & Hb).
  rewrite st_get_bind. cbn [instr with_instr imported with_imported m_flags m_tkLocalVarSig].
  destruct (fat_image_run (m_flags (imported (instr s))) maxStackSize (m_tkLocalVarSig (imported (instr s))) n code ehs block
    ltac:(lia) He Hb) as (pad & Hf & Hp).
  exists pad. eexists. split; [|done]. erewrite st_bind_run by (unfold st_read; rewrite Hf; reflexivity).
  cbv zeta. by destruct (SetBody _ _ _ _).
Qed.

Lemma exportIL_run s code maxStackSize ehs n :
  Z.of_nat (length ehs) = 24 * n -> Z.of_nat (length code) + Z.of_nat (length ehs) < 2 ^ 31 ->
  exists pad, exportIL rt code (Z.of_nat (length code)) maxStackSize ehs (Z.of_nat (length ehs)) s =
      Ok (inr tt, exported maxStackSize n (body_bytes (m_flags (imported (instr s))) maxStackSize
        (m_tkLocalVarSig (imported (instr s))) code pad ehs) s) /\
    Z.of_nat (length pad) = aligned (Z.of_nat (length code)) - Z.of_nat (length code).
Proof using Halloc Haccept.
  intros He Hs. destruct (exportIL_cases s code maxStackSize ehs n He Hs) as (pad & s' & R & Hp).
  exists pad. split; [|done]. by rewrite R, Haccept.
Qed.

(** What is remembered of a method with its original body. *)
Definition original (token : Z) (d : ILMethod) : MethodInfo :=
  mkMethodInfo token (il_Code d) (Z.of_nat (length (il_Code d))) (il_MaxStack d) (il_EH d ≫= clause_fat)
    (24 * Z.of_nat (length (il_EH d))).
Definition imported_of (old : option (list Z)) (d : ILMethod) : Imported :=
  let nEH := Z.of_nat (length (il_EH d)) in
  mkImported (il_LocalVarSigTok d) (il_MaxStack d) (Z.land (il_Flags d) CorILMethod_InitLocals) nEH
    (if nEH =? 0 then old else Some (il_EH d ≫= clause_fat)) (il_Code d) (Z.of_nat (length (il_Code d))).
(** The message about it. *)
Definition sent_info (token : Z) (d : ILMethod) (assemblyName moduleName tokens : list Z) : MethodBodyInfo :=
  mkMethodBodyInfo token (Z.of_nat (length (il_Code d)))
    (wrap 32 (wrap 32 (Z.of_nat (length assemblyName) - 1) * 2)) (wrap 32 (wrap 32 (Z.of_nat (length moduleName) - 1) * 2))
    (il_MaxStack d) (24 * Z.of_nat (length (il_EH d))) (Z.of_nat (length tokens)) tokens
    (flat_map (le_bytes 2) assemblyName) (flat_map (le_bytes 2) moduleName) (il_Code d) (il_EH d ≫= clause_fat).

Lemma importIL_run s d :
  current_body rt (new_bodies s) (m_moduleId (instr s)) (m_jittedToken (instr s)) = Ok (inr d) ->
  (debug = true -> m_pEH (imported (instr s)) = None) ->
  importIL rt debug s = Ok (inr tt, with_instr (with_imported (imported_of (m_pEH (imported (instr s))) d) (instr s)) s).
Proof.
  intros Hd Hp. unfold importIL. rewrite st_get_bind, (st_bind_run _ _ s (inr d) s) by (unfold st_lift; by rewrite Hd). cbv zeta iota beta.
  rewrite (st_bind_run _ _ s tt s); [done|]. unfold assert. destruct debug; [|done]. by rewrite Hp.
Qed.

Lemma clauses_read p d :
  (if 24 * m_nEH (imported_of p d) =? 0 then Some [] else m_pEH (imported_of p d)) = Some (il_EH d ≫= clause_fat).
Proof.
  unfold imported_of. cbn [m_nEH m_pEH]. destruct (il_EH d) as [|e l] eqn:E; [done|]. rewrite <- E.
  destruct (Z.eqb_spec (24 * Z.of_nat (length (il_EH d))) 0) as [H|H]; [rewrite E in H; simpl in H; lia|].
  destruct (Z.eqb_spec (Z.of_nat (length (il_EH d))) 0); [lia|done].
Qed.

(** The state in which the method is sent: tokens are those of its module. *)
Definition prepared (old : Z) (d : ILMethod) (c : concolic) (s : session) : session :=
  let i := instr s in let k := (m_moduleId i, m_jittedToken i) in
  let tokens := if old =? m_moduleId i then m_signatureTokens i
                else Some (flat_map (le_bytes 4) (initTokens rt (m_moduleId i) signature_table)) in
  mkSession (mkInstrumenter (m_mainModuleName i) (m_mainModuleSize i) (m_mainMethod i) (m_mainReached i) (m_jittedToken i) (m_moduleId i)
    tokens (imported_of (m_pEH (imported i)) d) (<[k := original (m_jittedToken i) d]> (instrumentedFunctions i))
    (skippedBeforeMain i) (m_reJitInstrumentedStarted i)) c (pool s) (new_bodies s) (rejits s).

(** [doInstrumentation] from the serialization on. *)
Definition exchange (info : MethodBodyInfo) : st session Z :=
  bytes ← st_lift (info_serialize (junk rt) info);
  sent ← on_protocol (sendSerializable (junk rt) InstrumentCommand bytes);
  if negb sent then mret 0 else
  served ← (if debug then serve_strings rt fuel fuel else mret true);
  if negb served then mret 0 else
  body ← on_protocol (acceptMethodBody (junk rt) fuel);
  match body with
  | None => mret 0
  | Some b =>
      r ← exportIL rt (mb_code b) (mb_codeLength b) (mb_maxStackSize b) (mb_ehs b) (mb_ehsLength b);
      IfFailRet r (fun _ => mret S_OK)
  end.

(** Up to the message. *)
Lemma prepare_run s old assemblyName moduleName d c :
  GetModuleMetaData rt (m_moduleId (instr s)) = inr tt ->
  current_body rt (new_bodies s) (m_moduleId (instr s)) (m_jittedToken (instr s)) = Ok (inr d) ->
  instrumentedFunctions (instr s) !! (m_moduleId (instr s), m_jittedToken (instr s)) = None ->
  mainLeft tid (shared s) = Ok (false, c) -> (debug = true -> m_pEH (imported (instr s)) = None) ->
  doInstrumentation rt debug tid fuel old assemblyName moduleName s =
    (tokens ← st_read (fun s => m_signatureTokens (instr s));
     exchange (sent_info (m_jittedToken (instr s)) d assemblyName moduleName tokens)) (prepared old d c s).
Proof.
  intros Hm Hd Hn Hl Hp. unfold doInstrumentation. rewrite st_get_bind. cbv zeta. rewrite Hm. cbn [IfFailRet].
  rewrite Hn, bool_decide_false by (intros [? ?]; done).
  set (s1 := mkSession (instr s) c (pool s) (new_bodies s) (rejits s)).
  rewrite (st_bind_run _ _ s false s1) by (unfold on_shared; by rewrite Hl).
  set (i2 := if old =? m_moduleId (instr s) then instr s
             else with_tokens (flat_map (le_bytes 4) (initTokens rt (m_moduleId (instr s)) signature_table)) (instr s)).
  rewrite (st_bind_run _ _ s1 tt (with_instr i2 s1)) by (subst i2; by destruct (old =? m_moduleId (instr s))).
  assert (m_moduleId i2 = m_moduleId (instr s) /\ m_jittedToken i2 = m_jittedToken (instr s) /\ imported i2 = imported (instr s))
    as (E1 & E2 & E3) by (subst i2; by destruct (old =? m_moduleId (instr s))).
  rewrite (st_bind_run _ _ _ _ _ (importIL_run (with_instr i2 s1) d ltac:(simpl; by rewrite E1, E2) ltac:(simpl; by rewrite E3))).
  cbn [IfFailRet]. rewrite st_get_bind. cbn [instr with_instr imported with_imported]. rewrite E3.
  erewrite st_bind_run; [|unfold st_read; rewrite clauses_read; reflexivity].
  rewrite on_instr_bind. subst i2 s1. unfold prepared, original, sent_info, imported_of.
  by destruct (old =? m_moduleId (instr s)).
Qed.

Definition with_sock (k : socket) (s : session) : session :=
  mkSession (instr s) (with_chan k (shared s)) (pool s) (new_bodies s) (rejits s).

Lemma on_protocol_run {A} (m : st socket A) s a k :
  m (chan (shared s)) = Ok (a, k) -> on_protocol m s = Ok (a, with_sock k s).
Proof. intros H. unfold on_protocol, on_shared. by rewrite (on_chan_run _ _ _ _ H). Qed.

(** What the engine sends before the body in the debug build, and what it is
    sent for it. *)
Definition debug_command : list Z := if debug then message [ReadMethodBody] else [].
Definition debug_confirmation : list Z := if debug then confirmations 2 else [].

Lemma serve_run s rest out :
  (0 < fuel)%nat -> chan (shared s) = mkSocket (debug_command ++ rest) out [] ->
  (if debug then serve_strings rt fuel fuel else mret true) s =
    Ok (true, with_sock (mkSocket rest (out ++ debug_confirmation) []) s).
Proof.
  intros Hf Hc. unfold debug_command, debug_confirmation in *. destruct debug.
  - destruct fuel as [|n] eqn:En; [lia|]. cbn [serve_strings].
    assert (acceptCommand (junk rt) (S n) (chan (shared s)) =
      Ok (Some ReadMethodBody, mkSocket rest (out ++ confirmations 2) [])) as R.
    { rewrite Hc. unfold acceptCommand.
      run_step (readBuffer_all (junk rt) (S n) [ReadMethodBody] rest out ltac:(simpl; lia) ltac:(lia) ltac:(simpl; lia)). done. }
    by run_step (on_protocol_run _ s _ _ R).
  - rewrite app_nil_r. cbn [app] in Hc. rewrite <- Hc. unfold with_sock, with_chan. by destruct s as [? [] ? ? ?].
Qed.

Lemma exchange_run s info code maxStack ehs n rest out :
  info_wf info -> (0 < fuel)%nat -> is_uint 32 maxStack -> Z.of_nat (length ehs) = 24 * n ->
  Z.of_nat (length (body_message code maxStack ehs)) < 2 ^ 31 ->
  chan (shared s) = mkSocket (confirmations 4 ++ debug_command ++ message (body_message code maxStack ehs) ++ rest) out [] ->
  exists pad, exchange info s = Ok (S_OK, exported maxStack n (body_bytes (m_flags (imported (instr s))) maxStack
        (m_tkLocalVarSig (imported (instr s))) code pad ehs)
      (with_sock (mkSocket rest (out ++ message [InstrumentCommand] ++ message (info_bytes info) ++ debug_confirmation ++ confirmations 2) []) s)) /\
    Z.of_nat (length pad) = aligned (Z.of_nat (length code)) - Z.of_nat (length code).
Proof using Halloc Haccept.
  intros Hw Hf Hm He Hs Hc. pose proof (length_body_message code maxStack ehs) as Hlen. unfold exchange.
  rewrite (st_bind_run _ _ s (info_bytes info) s) by (unfold st_lift; by rewrite info_serialize_run).
  pose proof (sendSerializable_all (junk rt) InstrumentCommand (info_bytes info)
    (debug_command ++ message (body_message code maxStack ehs) ++ rest) out) as R1. rewrite <- Hc in R1.
  run_step (on_protocol_run _ s _ _ R1). cbn [negb]. set (s1 := with_sock _ s).
  run_step (serve_run s1 (message (body_message code maxStack ehs) ++ rest) _ Hf eq_refl). cbn [negb].
  set (s2 := with_sock _ s1).
  assert (acceptMethodBody (junk rt) fuel (chan (shared s2)) = Ok (Some (mkMethodBody code (Z.of_nat (length code)) maxStack ehs (Z.of_nat (length ehs))),
    mkSocket rest (((out ++ message [InstrumentCommand] ++ message (info_bytes info)) ++ debug_confirmation) ++ confirmations 2) [])) as R3.
  { apply acceptMethodBody_run; [done|done|]. apply readBuffer_all; [rewrite length_body_message; lia|lia|done]. }
  run_step (on_protocol_run _ s2 _ _ R3). cbn [mb_code mb_codeLength mb_maxStackSize mb_ehs mb_ehsLength].
  set (s3 := with_sock _ s2). destruct (exportIL_run s3 code maxStack ehs n He ltac:(lia)) as (pad & R4 & Hp).
  exists pad. split; [|done]. run_step R4. cbn [IfFailRet]. subst s3 s2 s1. by rewrite <- !app_assoc.
Qed.

(** ** An instrumented method *)

(** What the runtime knows of a function. *)
Record function_known (f module token : Z) (moduleName assemblyName : list Z) : Prop := {
  fk_function : GetFunctionInfo rt f = inr (module, token);
  fk_module : exists assembly, GetModuleInfo rt module = inr (moduleName ++ [0], assembly) /\
    GetAssemblyInfo rt assembly = inr (assemblyName ++ [0]);
  fk_metadata : GetModuleMetaData rt module = inr tt
}.

Lemma name_bytes (name : list Z) :
  2 * Z.of_nat (length name) < 2 ^ 31 ->
  wrap 32 (wrap 32 (Z.of_nat (length (name ++ [0])) - 1) * 2) = Z.of_nat (length (flat_map (le_bytes 2) name)) /\
  flat_map (le_bytes 2) (name ++ [0]) = flat_map (le_bytes 2) name ++ [0; 0].
Proof.
  intros H. rewrite length_app, flat_map_app, length_flat_map_le. change (length [0]) with 1%nat. split; [|done].
  rewrite (wrap_small 32 (Z.of_nat (length name + 1) - 1)) by (unfold is_uint; lia). rewrite wrap_small; [|unfold is_uint]; lia.
Qed.

Lemma sent_info_wf token d assemblyName moduleName tokens :
  2 * Z.of_nat (length assemblyName) < 2 ^ 31 -> 2 * Z.of_nat (length moduleName) < 2 ^ 31 ->
  Z.of_nat (length (info_bytes (sent_info token d (assemblyName ++ [0]) (moduleName ++ [0]) tokens))) < 2 ^ 31 ->
  info_wf (sent_info token d (assemblyName ++ [0]) (moduleName ++ [0]) tokens).
Proof.
  intros Ha Hm Hs. destruct (name_bytes _ Ha) as [A1 A2]. destruct (name_bytes _ Hm) as [M1 M2].
  split; try done; unfold sent_info; cbn [mbi_ehsLength mbi_ehs mbi_assemblyNameLength mbi_assemblyName mbi_moduleNameLength mbi_moduleName].
  - rewrite length_clauses. lia.
  - rewrite A1, A2, length_app. lia.
  - rewrite M1, M2, length_app. lia.
Qed.

(** The tokens sent with a method: those of the last module they were made for
    when the module is the one of the last compilation. *)
Definition tokens_for (s : session) (module : Z) : option (list Z) :=
  if m_moduleId (instr s) =? module then m_signatureTokens (instr s)
  else Some (flat_map (le_bytes 4) (initTokens rt module signature_table)).
End runs.


(** ** What the runtime reads of a body *)

(** The bytes of the engine spell clauses. *)
Lemma bytes_clauses n : forall ehs,
  Forall is_byte ehs -> length ehs = (24 * n)%nat ->
  exists cs, cs ≫= clause_fat = ehs /\ length cs = n /\ Forall clause_u32 cs.
Proof.
  induction n as [|n IH]; intros ehs Hb Hl; [destruct ehs; [|done]; by exists []|].
  destruct (IH (drop 24 ehs)) as (cs & Hcs & Hn & Hu); [by apply Forall_drop|rewrite length_drop; lia|].
  assert (forall k, (k + 4 <= 24)%nat -> exists w, le_bytes 4 w = take 4 (drop k ehs) /\ is_uint 32 w) as Hw.
  { intros k Hk. exists (le_Z (take 4 (drop k ehs))).
    assert (Forall is_byte (take 4 (drop k ehs))) as Hbk by (by apply Forall_take, Forall_drop).
    assert (length (take 4 (drop k ehs)) = 4%nat) as H4 by (rewrite length_take, length_drop; lia).
    pose proof (le_bytes_Z _ Hbk) as E. pose proof (le_Z_range _ Hbk) as R. rewrite H4 in E, R. by split. }
  destruct (Hw 0%nat) as (w0 & E0 & U0); [lia|]. destruct (Hw 4%nat) as (w1 & E1 & U1); [lia|].
  destruct (Hw 8%nat) as (w2 & E2 & U2); [lia|]. destruct (Hw 12%nat) as (w3 & E3 & U3); [lia|].
  destruct (Hw 16%nat) as (w4 & E4 & U4); [lia|]. destruct (Hw 20%nat) as (w5 & E5 & U5); [lia|].
  exists (mkEHClauseFat w0 w1 w2 w3 w4 w5 :: cs). split; [|split; [simpl; lia|]].
  2: { constructor; [|done]. repeat (apply Forall_cons_2; [done|]). apply Forall_nil_2. }
  change (clause_fat (mkEHClauseFat w0 w1 w2 w3 w4 w5) ++ (cs ≫= clause_fat) = ehs). rewrite Hcs. unfold clause_fat.
  cbn [eh_Flags eh_TryOffset eh_TryLength eh_HandlerOffset eh_HandlerLength eh_ClassTokenOrFilterOffset].
  rewrite E0, E1, E2, E3, E4, E5, <- !app_assoc. clear.
  assert (forall k, take 4 (drop k ehs) ++ drop (k + 4) ehs = drop k ehs) as Hk by (intros k; rewrite <- drop_drop; apply take_drop).
  rewrite (Hk 20%nat : _ ++ drop 24 ehs = _), (Hk 16%nat : _ ++ drop 20 ehs = _), (Hk 12%nat : _ ++ drop 16 ehs = _),
    (Hk 8%nat : _ ++ drop 12 ehs = _), (Hk 4%nat : _ ++ drop 8 ehs = _). exact (Hk 0%nat).
Qed.

(** C9: [exportIL] hands the runtime a body from which the decoder reads the
    engine's code and exactly the clauses that the engine's bytes spell, with the
    local signature and the flag of the imported method and the stack size cut to
    16 bits. *)
Theorem exportIL_decodes rt code maxStack ehs n flags s base :
  alloc_spec (Alloc rt) -> (forall module token body, SetBody rt module token body = None) ->
  Forall is_byte ehs -> Z.of_nat (length ehs) = 24 * n -> 4 + 24 * n < 2 ^ 24 -> Z.of_nat (length code) < 2 ^ 30 ->
  m_flags (imported (instr s)) = Z.land flags CorILMethod_InitLocals -> is_uint 32 (m_tkLocalVarSig (imported (instr s))) ->
  base mod 4 = 0 ->
  exists body cs s', exportIL rt code (Z.of_nat (length code)) maxStack ehs (Z.of_nat (length ehs)) s = Ok (inr tt, s') /\
    new_bodies s' = new_bodies s ++ [(m_moduleId (instr s), m_jittedToken (instr s), body)] /\
    cs ≫= clause_fat = ehs /\
    decode_method base body = Ok (mkILMethod (m_tkLocalVarSig (imported (instr s))) (wrap 16 maxStack)
      (fat_flags (Z.land flags CorILMethod_InitLocals) cs) code cs).
Proof.
  intros Hal Hac Hb He Hn Hc Hf Hs Hbase.
  destruct (bytes_clauses (Z.to_nat n) ehs Hb) as (cs & Hcs & Hlen & Hu); [lia|].
  destruct (exportIL_run rt Hal Hac s code maxStack ehs n He ltac:(lia)) as (pad & R & Hp).
  eexists _, cs, _. split; [exact R|]. split; [done|]. split; [done|].
  rewrite <- Hcs, body_bytes_fat, Hf. apply decode_fat_body; try done; lia.
Qed.

(** ** After main *)

(** The last method [importIL] has read. *)
Definition last_imported (s : session) (d : ILMethod) : Prop :=
  m_flags (imported (instr s)) = Z.land (il_Flags d) CorILMethod_InitLocals /\
  m_tkLocalVarSig (imported (instr s)) = il_LocalVarSigTok d.

(** undoing the instrumentation of a method hands the runtime its original
    code, stack size and clauses and forgets the method, but the local signature
    and the initialisation flag of the body are those of the method that was
    imported last, which need not be the same method. *)
Theorem undo_uses_last_locals rt f module token d last s :
  alloc_spec (Alloc rt) -> (forall module token body, SetBody rt module token body = None) ->
  GetFunctionInfo rt f = inr (module, token) ->
  instrumentedFunctions (instr s) !! (module, token) = Some (original token d) -> last_imported s last ->
  Z.of_nat (length (il_Code d)) + 24 * Z.of_nat (length (il_EH d)) < 2 ^ 31 ->
  exists pad s', undoInstrumentation rt f s = Ok (S_OK, s') /\
    new_bodies s' = new_bodies s ++ [(module, token,
      fat_body (Z.land (il_Flags last) CorILMethod_InitLocals) (il_MaxStack d) (il_LocalVarSigTok last) (il_Code d) pad (il_EH d))] /\
    instrumentedFunctions (instr s') = delete (module, token) (instrumentedFunctions (instr s)).
Proof.
  intros Hal Hac Hf Hk [L1 L2] Hs. unfold undoInstrumentation. rewrite Hf. cbn [IfFailRet].
  rewrite on_instr_bind, st_get_bind. set (s1 := with_instr _ s).
  change (instrumentedFunctions (instr s1)) with (instrumentedFunctions (instr s)). rewrite Hk.
  pose proof (length_clauses (il_EH d)) as Lc.
  destruct (exportIL_run rt Hal Hac s1 (il_Code d) (il_MaxStack d) (il_EH d ≫= clause_fat) (Z.of_nat (length (il_EH d))))
    as (pad & R & _); [lia|lia|].
  exists pad. eexists. split.
  - unfold original. cbn [mi_bytecode mi_codeLength mi_maxStackSize mi_ehs mi_ehsLength].
    replace (24 * Z.of_nat (length (il_EH d))) with (Z.of_nat (length (il_EH d ≫= clause_fat))) by lia.
    run_step R. cbn [IfFailRet]. rewrite on_instr_bind. reflexivity.
  - split; [|done]. by rewrite <- L1, <- L2, <- body_bytes_fat.
Qed.

(** ** Only originals are remembered *)

(** The method being compiled, and what an import leaves for the export. *)
Definition current (s : session) : Z * Z := (m_moduleId (instr s), m_jittedToken (instr s)).
Definition core (s : session) := (instrumentedFunctions (instr s), m_mainReached (instr s), current s,
  m_flags (imported (instr s)), m_tkLocalVarSig (imported (instr s))).

(** What most operations do: bodies are set for the current method only. *)
Definition sets_current (s s' : session) : Prop :=
  core s' = core s /\ exists l, new_bodies s' = new_bodies s ++ l /\ Forall (fun e => fst e = current s) l.
Definition keeps {A} (m : st session A) : Prop := forall s a s', m s = Ok (a, s') -> sets_current s s'.

Create HintDb keeps.

Lemma sets_none s s' : core s' = core s -> new_bodies s' = new_bodies s -> sets_current s s'.
Proof. intros H E. split; [done|]. exists []. by rewrite app_nil_r. Qed.

Lemma sets_trans s1 s2 s3 : sets_current s1 s2 -> sets_current s2 s3 -> sets_current s1 s3.
Proof.
  intros [C1 (l1 & E1 & F1)] [C2 (l2 & E2 & F2)]. split; [congruence|]. exists (l1 ++ l2). rewrite E2, E1, <- app_assoc.
  split; [done|]. apply Forall_app. split; [done|]. assert (current s2 = current s1) as <- by (unfold core in C1; congruence). done.
Qed.

Lemma keeps_bind {A B} (m : st session A) (f : A -> st session B) : keeps m -> (forall a, keeps (f a)) -> keeps (m ≫= f).
Proof. intros Hm Hf s b s' H. apply st_bind_ok in H as (a & s1 & H1 & H2). eapply sets_trans; [by eapply Hm|by eapply Hf]. Qed.
Lemma keeps_ret {A} (a : A) : keeps (mret a).
Proof. intros s a' s' [= _ <-]. by apply sets_none. Qed.
Lemma keeps_fail {A} e : keeps (st_fail e : st session A).
Proof. by intros s a s'. Qed.
Lemma keeps_get : keeps st_get.
Proof. intros s a s' [= _ <-]. by apply sets_none. Qed.
Lemma keeps_read {A} (f : session -> option A) : keeps (st_read f).
Proof. intros s a s'. unfold st_read. destruct (f s); [|done]. intros [= _ <-]. by apply sets_none. Qed.
Lemma keeps_lift {A} (r : result A) : keeps (st_lift r).
Proof. intros s a s'. unfold st_lift. destruct r; [|done]. intros [= _ <-]. by apply sets_none. Qed.
Lemma keeps_modify f : (forall s, core (f s) = core s /\ new_bodies (f s) = new_bodies s) -> keeps (st_modify f).
Proof. intros H s a s' [= _ <-]. by apply sets_none; apply H. Qed.
Lemma keeps_instr f : (forall s, core (with_instr (f (instr s)) s) = core s) -> keeps (on_instr f).
Proof. intros H. apply keeps_modify. intros s. by split. Qed.
Lemma keeps_shared {A} (m : st concolic A) : keeps (on_shared m).
Proof. intros s a s'. unfold on_shared. destruct (m _) as [[? ?]|]; [|done]. intros [= _ <-]. by apply sets_none. Qed.
Lemma keeps_pool {A} (m : st strings_pool A) : keeps (on_pool m).
Proof. intros s a s'. unfold on_pool. destruct (m _) as [[? ?]|]; [|done]. intros [= _ <-]. by apply sets_none. Qed.
Lemma keeps_IfFailRet {A} (r : Z + A) k : (forall a, keeps (k a)) -> keeps (IfFailRet r k).
Proof. destruct r; [intros _; apply keeps_ret|intros H; apply H]. Qed.
#[local] Hint Resolve keeps_ret keeps_fail keeps_get keeps_read keeps_lift keeps_shared keeps_pool : keeps.

(** Goes through the binds and branches of an operation. *)
Ltac keep :=
  repeat first
    [ solve [eauto with keeps] | apply keeps_bind | apply keeps_IfFailRet | (apply keeps_instr; done)
    | (apply keeps_modify; done)
    | match goal with |- keeps (match ?x with _ => _ end) => destruct x end
    | progress cbv zeta | intros ? ].

Lemma keeps_assert debug b : keeps (assert debug b).
Proof. unfold assert. keep. Qed.
#[local] Hint Resolve keeps_assert : keeps.
Lemma keeps_exportIL rt code n m ehs k : keeps (exportIL rt code n m ehs k).
Proof.
  unfold exportIL. cbv zeta. apply keeps_bind; [by apply keeps_instr|]. intros []. destruct (Alloc _ _) as [block|]; [|keep].
  intros s a s' H. rewrite st_get_bind in H. apply st_bind_ok in H as (body & s1 & H1 & H). pose proof (keeps_read _ _ _ _ H1) as K1.
  assert (s1 = s) as -> by (unfold st_read in H1; destruct (fat_image _ _ _ _ _ _ _ _); [by injection H1 as _ <-|done]).
  destruct (SetBody _ _ _ _); [by injection H as _ <-|]. rewrite st_modify_bind, on_instr_bind in H. injection H as _ <-.
  split; [done|]. eexists. split; [done|]. by apply Forall_singleton.
Qed.
Lemma keeps_serve rt fuel n : keeps (serve_strings rt fuel n).
Proof. induction n; cbn [serve_strings]; unfold on_protocol; keep. Qed.
Lemma keeps_skipped rt : keeps (startReJitSkipped rt).
Proof. unfold startReJitSkipped, requestReJIT. keep. Qed.
Lemma keeps_rejit rt : keeps (startReJitInstrumented rt).
Proof. unfold startReJitInstrumented, requestReJIT. keep. Qed.
#[local] Hint Resolve keeps_exportIL keeps_serve keeps_skipped keeps_rejit : keeps.
Lemma keeps_exchange rt debug fuel info : keeps (exchange rt debug fuel info).
Proof. unfold exchange, on_protocol. keep. Qed.

Lemma importIL_inv rt debug s r s' :
  importIL rt debug s = Ok (r, s') ->
  (exists h, r = inl h /\ s' = s) \/
  exists d, r = inr tt /\ current_body rt (new_bodies s) (m_moduleId (instr s)) (m_jittedToken (instr s)) = Ok (inr d) /\
    s' = with_instr (with_imported (imported_of (m_pEH (imported (instr s))) d) (instr s)) s.
Proof.
  unfold importIL. rewrite st_get_bind. unfold st_lift. destruct (current_body _ _ _ _) as [[hr|d]|e]; [| |done].
  - intros [= <- <-]. left. by exists hr.
  - intros H. right. exists d. apply st_bind_ok in H as (x & s0 & [= <- <-] & H). cbv zeta in H.
    apply st_bind_ok in H as (u & s1 & H1 & H).
    assert (s1 = s) as -> by (unfold assert in H1; destruct (debug && _); [done|by injection H1 as _ <-]).
    rewrite on_instr_bind in H. by injection H as <- <-.
Qed.

(** A callback of the runtime on thread [tid]: the compilation of a function, or
    its recompilation. *)
Inductive callback := Jit (tid f : Z) | ReJit (tid f : Z).
Definition run_callback (rt : Runtime) (debug : bool) (fuel : nat) (e : callback) : st session Z :=
  match e with
  | Jit tid f => instrument rt debug tid fuel f
  | ReJit tid f => reInstrument rt debug tid fuel f
  end.
Definition run_callbacks (rt : Runtime) (debug : bool) (fuel : nat) (l : list callback) : st session unit :=
  st_fold (fun e _ => run_callback rt debug fuel e;; mret tt) l tt.

(** A body that fits a fat header. *)
Definition method_valid (d : ILMethod) : Prop :=
  is_uint 16 (il_MaxStack d) /\ is_uint 32 (il_LocalVarSigTok d) /\ Forall clause_u32 (il_EH d) /\
  4 + 24 * Z.of_nat (length (il_EH d)) < 2 ^ 24 /\ Z.of_nat (length (il_Code d)) < 2 ^ 30.

(** The remembered bodies are those of the modules; a method that is not
    remembered has that body, if perhaps other locals. *)
Record kept (rt : Runtime) (s : session) : Prop := {
  k_original module token mi : instrumentedFunctions (instr s) !! (module, token) = Some mi ->
    exists d, GetILFunctionBody rt module token = inr d /\ mi = original token d;
  k_restored module token body : instrumentedFunctions (instr s) !! (module, token) = None ->
    body_set (new_bodies s) module token = Some body ->
    exists d d', GetILFunctionBody rt module token = inr d /\ decode_method 0 body = Ok d' /\
      original token d' = original token d /\ is_uint 32 (il_LocalVarSigTok d');
  k_imported : (exists flags, m_flags (imported (instr s)) = Z.land flags CorILMethod_InitLocals) /\
    is_uint 32 (m_tkLocalVarSig (imported (instr s)));
  k_before_main : m_mainReached (instr s) = false -> instrumentedFunctions (instr s) = ∅ /\ new_bodies s = []
}.

Lemma body_set_snoc bodies module token body : body_set (bodies ++ [(module, token, body)]) module token = Some body.
Proof. unfold body_set. rewrite omap_app. simpl. rewrite bool_decide_eq_true_2 by done. apply last_snoc. Qed.

Lemma body_set_other bodies l k module token : Forall (fun e => fst e = k) l -> (module, token) <> k ->
  body_set (bodies ++ l) module token = body_set bodies module token.
Proof.
  intros Hl Hne. unfold body_set. rewrite omap_app. replace (omap _ l) with (@nil (list Z)); [by rewrite app_nil_r|].
  induction Hl as [|[[m t] b] l He Hl IH]; [done|]. simpl in *. rewrite bool_decide_eq_false_2; [exact IH|]. by intros [-> ->].
Qed.

Section kept.
Context (rt : Runtime) (debug : bool) (tid : Z) (fuel : nat).
Context (Halloc : alloc_spec (Alloc rt)) (Hvalid : forall module token d, GetILFunctionBody rt module token = inr d -> method_valid d).

(** What [kept] is about. *)
Definition kept_view (s : session) := (instrumentedFunctions (instr s), m_mainReached (instr s), new_bodies s,
  m_flags (imported (instr s)), m_tkLocalVarSig (imported (instr s))).

Lemma kept_same s s' : kept rt s -> kept_view s' = kept_view s -> kept rt s'.
Proof. unfold kept_view. intros [K1 K2 K3 K4] [= E1 E2 E3 E4 E5]. split; rewrite ?E1, ?E2, ?E3, ?E4, ?E5; done. Qed.

(** Bodies are set for a method that is remembered, or not at all. *)
Lemma kept_sets s s' : kept rt s -> sets_current s s' ->
  new_bodies s' = new_bodies s \/ is_Some (instrumentedFunctions (instr s) !! current s) -> kept rt s'.
Proof.
  intros K [C (l & E & Hl)] H. unfold core in C. injection C as C1 C2 C3 C4 C5 C6. pose proof K as [K1 K2 K3 K4].
  destruct H as [Hb|[mi Hk]]; [apply (kept_same s); [done|unfold kept_view; congruence]|].
  split; rewrite ?C1, ?C2, ?C5, ?C6; [done| |done|].
  - intros module token body Hn. rewrite E, (body_set_other _ _ (current s)); [by apply K2|done|]. intros Hc. by rewrite Hc, Hk in Hn.
  - intros Hr. destruct (K4 Hr) as [F _]. by rewrite F, lookup_empty in Hk.
Qed.

(** What an import reads of a method that is not remembered. *)
Lemma kept_body s module token d' : kept rt s -> instrumentedFunctions (instr s) !! (module, token) = None ->
  current_body rt (new_bodies s) module token = Ok (inr d') ->
  exists d, GetILFunctionBody rt module token = inr d /\ original token d' = original token d /\ is_uint 32 (il_LocalVarSigTok d').
Proof using Hvalid.
  intros K Hn. unfold current_body. destruct (body_set _ _ _) as [body|] eqn:Eb.
  - destruct (k_restored _ _ K _ _ _ Hn Eb) as (d & d1 & Hd & -> & Ho & Hu). cbn [mbind result_bind]. intros [= <-]. by exists d.
  - intros [= Hd]. exists d'. split; [done|]. split; [done|]. apply (Hvalid _ _ _ Hd).
Qed.

Lemma skipped_bodies s r s' : startReJitSkipped rt s = Ok (r, s') -> new_bodies s' = new_bodies s.
Proof. unfold startReJitSkipped, requestReJIT. rewrite st_get_bind, st_modify_bind. by intros [= _ <-]. Qed.
Lemma rejit_bodies s r s' : startReJitInstrumented rt s = Ok (r, s') -> new_bodies s' = new_bodies s.
Proof. unfold startReJitInstrumented, requestReJIT. rewrite on_instr_bind, st_get_bind, st_modify_bind. by intros [= _ <-]. Qed.
Lemma shared_same {A} (m : st concolic A) s a s' : on_shared m s = Ok (a, s') -> instr s' = instr s /\ new_bodies s' = new_bodies s.
Proof. unfold on_shared. destruct (m _) as [[? ?]|]; [|done]. by intros [= _ <-]. Qed.

Lemma kept_main s hr s' old an mn : kept rt s -> m_mainReached (instr s) = true ->
  doInstrumentation rt debug tid fuel old an mn s = Ok (hr, s') -> kept rt s'.
Proof using Hvalid.
  intros K Hr H. unfold doInstrumentation in H. rewrite st_get_bind in H. cbv zeta in H. unfold IfFailRet at 1 in H.
  destruct (GetModuleMetaData _ _) as [h|_]; [by injection H as _ <-|]. case_bool_decide as Hn; [by injection H as _ <-|].
  apply eq_None_not_Some in Hn. apply st_bind_ok in H as (left & s1 & H1 & H). apply shared_same in H1 as [I1 B1].
  assert (kept rt s1) as K1 by (apply (kept_same s); [done|unfold kept_view; by rewrite I1, B1]).
  destruct left; cbv iota in H.
  { destruct (m_reJitInstrumentedStarted _); [by injection H as _ <-|]. apply st_bind_ok in H as (r & s2 & H2 & H).
    assert (s' = s2) as -> by (destruct r; by injection H as _ <-).
    eapply kept_sets; [exact K1|by apply (keeps_rejit _ _ _ _ H2)|]. left. by eapply rejit_bodies. }
  apply st_bind_ok in H as (u & s2 & H2 & H).
  assert (kept_view s2 = kept_view s1 /\ current s2 = current s1) as [V2 T2] by (destruct (old =? _); by injection H2 as _ <-).
  assert (kept rt s2) as K2 by (by apply (kept_same s1)). apply st_bind_ok in H as (r & s3 & H3 & H).
  destruct (importIL_inv _ _ _ _ _ H3) as [(h & -> & ->)|(d' & -> & Hd & ->)]; [by injection H as _ <-|].
  assert (current s2 = (m_moduleId (instr s), m_jittedToken (instr s))) as Ec by (rewrite T2; unfold current; by rewrite I1).
  unfold current in Ec. injection Ec as Em Et. rewrite Em, Et in Hd.
  assert (instrumentedFunctions (instr s2) = instrumentedFunctions (instr s)) as F2.
  { unfold kept_view in V2. injection V2 as -> _ _ _ _. by rewrite I1. }
  destruct (kept_body s2 _ _ d' K2 ltac:(by rewrite F2) Hd) as (d & Hd0 & Ho & Hu).
  cbn [IfFailRet] in H. rewrite st_get_bind in H. cbv zeta in H. cbn [instr with_instr imported with_imported] in H.
  erewrite st_bind_run in H by (unfold st_read; rewrite clauses_read; reflexivity). rewrite on_instr_bind in H.
  apply st_bind_ok in H as (tokens & s4 & H4 & H). set (s5 := with_instr _ _) in H4.
  assert (s4 = s5) as -> by (unfold st_read in H4; destruct (m_signatureTokens _); [by injection H4 as _ <-|done]).
  assert (instrumentedFunctions (instr s5) = <[(m_moduleId (instr s), m_jittedToken (instr s)) := original (m_jittedToken (instr s)) d]>
    (instrumentedFunctions (instr s))) as F5 by (rewrite <- F2, <- Ho; reflexivity).
  eapply (kept_sets s5); [|by apply (keeps_exchange rt debug fuel _ _ _ _ H)|right; unfold current; subst s5;
    cbn [instr with_instr with_functions with_imported m_moduleId m_jittedToken]; rewrite Em, Et; setoid_rewrite F5; rewrite lookup_insert_eq; by eexists].
  split; rewrite ?F5.
  - intros module token mi. destruct (decide ((module, token) = (m_moduleId (instr s), m_jittedToken (instr s)))) as [[= -> ->]|Hne].
    + rewrite lookup_insert_eq. intros [= <-]. by exists d.
    + rewrite lookup_insert_ne by done. rewrite <- F2. apply (k_original _ _ K2).
  - intros module token body [Hn' _]%lookup_insert_None. rewrite <- F2 in Hn'. by apply (k_restored _ _ K2).
  - split; [by exists (il_Flags d')|done].
  - subst s5. cbn. unfold kept_view in V2. injection V2 as _ -> _ _ _. rewrite I1. congruence.
Qed.
Lemma kept_instrument s f hr s' : kept rt s -> instrument rt debug tid fuel f s = Ok (hr, s') -> kept rt s'.
Proof using Hvalid.
  intros K. unfold instrument. rewrite st_get_bind. cbv zeta. unfold IfFailRet at 1.
  destruct (GetFunctionInfo rt f) as [h|[module token]]; [by intros [= _ <-]|]. rewrite on_instr_bind.
  set (s1 := with_instr _ s). assert (kept rt s1) as K1 by (by apply (kept_same s)). clearbody s1. unfold IfFailRet at 1.
  destruct (GetModuleInfo rt module) as [h|[mn a]]; [by intros [= _ <-]|]. unfold IfFailRet at 1.
  destruct (GetAssemblyInfo rt a) as [h|an]; [by intros [= _ <-]|]. rewrite st_get_bind. intros H.
  apply st_bind_ok in H as (r & s2 & H2 & H).
  assert (kept rt s2) as K2.
  { destruct (negb _ && _) eqn:E; [|by injection H2 as _ <-]. rewrite on_instr_bind in H2. set (s3 := with_instr _ s1) in H2.
    assert (kept rt s3) as K3 by (destruct K1 as [Ka Kb Kc Kd]; split; [exact Ka|exact Kb|exact Kc|done]).
    eapply kept_sets; [exact K3|by apply (keeps_skipped _ _ _ _ H2)|]. left. by eapply skipped_bodies. }
  destruct r as [h|[]]; [by injection H as _ <-|]. cbn [IfFailRet] in H. rewrite st_get_bind in H.
  apply st_bind_ok in H as (u & s3 & H3 & [= _ <-]). destruct (m_mainReached (instr s2)) eqn:Hr.
  - apply st_bind_ok in H3 as (h & s4 & H4 & [= _ <-]). by eapply kept_main.
  - injection H3 as _ <-. by apply (kept_same s2).
Qed.

(** The body that undoing sets is the original one but for its locals. *)
Lemma kept_undo s f hr s' : kept rt s -> undoInstrumentation rt f s = Ok (hr, s') -> kept rt s'.
Proof using Halloc Hvalid.
  intros K. unfold undoInstrumentation, IfFailRet at 1. destruct (GetFunctionInfo rt f) as [h|[module token]]; [by intros [= _ <-]|].
  rewrite on_instr_bind, st_get_bind. set (s1 := with_instr _ s). assert (kept rt s1) as K1 by (by apply (kept_same s)).
  assert (m_moduleId (instr s1) = module /\ m_jittedToken (instr s1) = token) as [Em Et] by done. clearbody s1.
  destruct (instrumentedFunctions (instr s1) !! (module, token)) as [mi|] eqn:Hk; [|by intros [= _ <-]]. intros H.
  pose proof K1 as [Ka Kb [[flags Kf] Ku] Kd]. destruct (Ka _ _ _ Hk) as (d & Hd & ->).
  destruct (Hvalid _ _ _ Hd) as (V1 & V2 & V3 & V4 & V5). pose proof (length_clauses (il_EH d)) as Lc.
  destruct (exportIL_cases rt Halloc s1 (il_Code d) (il_MaxStack d) (il_EH d ≫= clause_fat) (Z.of_nat (length (il_EH d))))
    as (pad & s2 & R & Hp); [lia|lia|]. cbv zeta in R. apply st_bind_ok in H as (r & s3 & H3 & H). unfold original in H3.
  cbn [mi_bytecode mi_codeLength mi_maxStackSize mi_ehs mi_ehsLength] in H3.
  replace (24 * Z.of_nat (length (il_EH d))) with (Z.of_nat (length (il_EH d ≫= clause_fat))) in H3 by lia.
  pose proof (keeps_exportIL _ _ _ _ _ _ _ _ _ H3) as S3. rewrite R in H3. clear R.
  destruct (SetBody _ _ _ _) as [h|]; injection H3 as <- <-.
  { injection H as _ <-. eapply kept_sets; [exact K1|exact S3|]. right. unfold current. by rewrite Em, Et, Hk. }
  cbn [IfFailRet] in H. rewrite on_instr_bind in H. injection H as _ <-. set (body := body_bytes _ _ _ _ _ _).
  assert (decode_method 0 body = Ok (mkILMethod (m_tkLocalVarSig (imported (instr s1))) (wrap 16 (il_MaxStack d))
    (fat_flags (Z.land flags CorILMethod_InitLocals) (il_EH d)) (il_Code d) (il_EH d))) as Hdec.
  { subst body. rewrite body_bytes_fat, Kf. apply decode_fat_body; done || lia. }
  split; cbn [instr with_instr with_functions instrumentedFunctions new_bodies exported imported with_imported m_flags m_tkLocalVarSig m_mainReached].
  - intros m t mi [_ Hl]%lookup_delete_Some. by apply Ka.
  - rewrite Em, Et. fold body. intros m t b.
    destruct (decide ((m, t) = (module, token))) as [[= -> ->]|Hne].
    + intros _. rewrite body_set_snoc. intros [= <-]. exists d. eexists. split; [done|]. split; [exact Hdec|]. split; [|done].
      unfold original. cbn [il_Code il_EH il_MaxStack]. by rewrite wrap_small.
    + rewrite lookup_delete_ne by done. rewrite (body_set_other _ _ (module, token)); [apply Kb|by apply Forall_singleton|done].
  - split; [by exists flags|done].
  - intros Hr. destruct (Kd Hr) as [F _]. by rewrite F, lookup_empty in Hk.
Qed.
End kept.

(** C37: Whatever is compiled and recompiled in whatever order, on any threads and
    with any answers of the engine, the instrumenter remembers of every
    instrumented method exactly the body that its module has, although the
    runtime answers later imports with the bodies that were set; a method whose
    instrumentation was undone has its code, stack size and clauses again; and
    before main is reached no method is instrumented at all. *)
Theorem originals_kept rt debug fuel l s s' :
  alloc_spec (Alloc rt) -> (forall module token d, GetILFunctionBody rt module token = inr d -> method_valid d) ->
  kept rt s -> run_callbacks rt debug fuel l s = Ok (tt, s') -> kept rt s'.
Proof.
  intros Hal Hv K H. pose proof (st_fold_inv (fun e _ => run_callback rt debug fuel e;; mret tt) (fun _ _ s => kept rt s)) as Inv.
  apply (fun Hs => Inv Hs l [] tt s tt s' K H). clear - Hal Hv. intros e don [] s0 [] s1 K0 H0.
  apply st_bind_ok in H0 as (hr & s2 & H0 & [= <-]). destruct e as [tid f|tid f]; cbn [run_callback] in H0;
    [exact (kept_instrument rt debug tid fuel Hv s0 f hr s2 K0 H0)|]. unfold reInstrument in H0. apply st_bind_ok in H0 as (left & s3 & H3 & H0).
  apply shared_same in H3 as [I3 B3]. assert (kept rt s3) as K3 by (apply (kept_same rt s0); [done|unfold kept_view; by rewrite I3, B3]).
  destruct left; [exact (kept_undo rt Hal Hv s3 f hr s2 K3 H0)|exact (kept_instrument rt debug tid fuel Hv s3 f hr s2 K3 H0)].
Qed.

(** ** The signature tokens of the main module *)

Lemma skip_run rt debug tid fuel f module token mn an s :
  function_known rt f module token mn an -> m_mainReached (instr s) = false ->
  currentMethodIsMain (instr s) (mn ++ [0]) (Z.of_nat (length (mn ++ [0]))) token = false ->
  instrument rt debug tid fuel f s = Ok (S_OK, with_instr
    (with_flags false (m_reJitInstrumentedStarted (instr s)) ({[(module, token)]} ∪ skippedBeforeMain (instr s))
      (with_current module token (instr s))) s).
Proof.
  intros [K1 (a & K2 & K3) K4] Hr Hn. unfold instrument. rewrite st_get_bind, K1. cbn [IfFailRet]. rewrite on_instr_bind, K2.
  cbn [IfFailRet]. rewrite K3. cbn [IfFailRet]. rewrite st_get_bind. cbv zeta. set (s1 := with_instr _ s).
  change (currentMethodIsMain (instr s1)) with (currentMethodIsMain (instr s)). rewrite Hn, andb_false_r, st_ret_bind. cbn [IfFailRet].
  rewrite st_get_bind. change (m_mainReached (instr s1)) with (m_mainReached (instr s)). rewrite Hr.
  unfold on_instr, st_modify, mret, st_ret, mbind, st_bind. subst s1. cbn. by rewrite Hr.
Qed.

(** when the method compiled last before main belongs to main's module, main is
    sent with signature tokens that were never made: they are made only when
    the module differs from that of the last compilation, and skipped methods
    count as compiled. *)
Theorem main_after_skip_undefined rt debug tid fuel s f1 f2 module t1 t2 mn an d c :
  function_known rt f1 module t1 mn an -> function_known rt f2 module t2 mn an -> current_body rt (new_bodies s) module t2 = Ok (inr d) ->
  (forall l, RequestReJIT rt l = inr tt) ->
  m_mainReached (instr s) = false -> m_signatureTokens (instr s) = None ->
  instrumentedFunctions (instr s) = ∅ -> m_pEH (imported (instr s)) = None ->
  currentMethodIsMain (instr s) (mn ++ [0]) (Z.of_nat (length (mn ++ [0]))) t1 = false ->
  currentMethodIsMain (instr s) (mn ++ [0]) (Z.of_nat (length (mn ++ [0]))) t2 = true ->
  mainLeft tid (shared s) = Ok (false, c) ->
  run_callbacks rt debug fuel [Jit tid f1; Jit tid f2] s = Err Undefined.
Proof.
  intros F1 [K1 (a & K2 & K3) K4] K5 Hj Hr Ht Hf Hp M1 M2 Hl. unfold run_callbacks. cbn [st_fold run_callback].
  rewrite st_bind_assoc. run_step (skip_run rt debug tid fuel f1 module t1 mn an s F1 Hr M1). rewrite st_ret_bind.
  set (s1 := with_instr _ s). apply st_bind_err, st_bind_err. unfold instrument. rewrite st_get_bind, K1. cbn [IfFailRet].
  rewrite on_instr_bind, K2. cbn [IfFailRet]. rewrite K3. cbn [IfFailRet]. rewrite st_get_bind. cbv zeta. set (s2 := with_instr _ s1).
  change (m_mainReached (instr s2)) with false. change (currentMethodIsMain (instr s2)) with (currentMethodIsMain (instr s)).
  rewrite M2. cbn [negb andb]. rewrite st_bind_assoc, on_instr_bind. unfold startReJitSkipped. rewrite st_bind_assoc, st_get_bind.
  unfold requestReJIT. rewrite st_bind_assoc, st_modify_bind, st_ret_bind, Hj. cbn [IfFailRet]. rewrite st_get_bind.
  set (s3 := mkSession _ _ _ _ _). change (m_mainReached (instr s3)) with true. cbv iota. rewrite st_bind_assoc. apply st_bind_err.
  rewrite (prepare_run rt debug tid fuel s3 (m_moduleId (instr s1)) _ _ d c K4 K5); [|by simpl; rewrite Hf|done|done].
  apply st_bind_err. unfold st_read, prepared. cbn [instr m_signatureTokens].
  change (m_moduleId (instr s1)) with (m_moduleId (instr s3)). rewrite Z.eqb_refl. simpl. by rewrite Ht.
Qed.

(** ** The theorems at a program *)

(** Module 7 of assembly 9 with main (function 500) and a method with other
    locals (function 501). *)
Definition sample_main : ILMethod := mkILMethod 0x11000001 8 0x13 [0x16; 0x26; 0x2A] [mkEHClauseFat 2 0 2 2 1 0].
Definition sample_other : ILMethod := mkILMethod 0x11000002 8 0x3 [0x2A] [].
Definition conc_runtime : Runtime :=
  mkRuntime (fun f => inr (7, if f =? 500 then 0x06000001 else 0x06000002)) (fun m => inr ([77] ++ [0], 9)) (fun a => inr ([65] ++ [0]))
    (fun m => inr tt) (fun m sig => inr 0x11000010) (fun m t => inr (if t =? 0x06000001 then sample_main else sample_other))
    (fun n => Some (replicate (Z.to_nat n) 0)) (fun m t b => None) (fun l => inr tt) 0xCC.
Definition conc_instrumenter (reached : bool) : Instrumenter :=
  mkInstrumenter [77] 1 0x06000001 reached 0 0 None (mkImported 0 0 0 0 None [] 0) ∅ ∅ false.
Definition conc_session (reached : bool) (inbox : list Z) : session :=
  mkSession (conc_instrumenter reached) (concolic_init (mkSocket inbox [] [])) (mkPool ∅ 0) [] [].

Lemma conc_alloc : alloc_spec (Alloc conc_runtime).
Proof. intros n Hn. eexists. split; [reflexivity|]. rewrite length_replicate. lia. Qed.

Lemma main_known : function_known conc_runtime 500 7 0x06000001 [77] [65].
Proof. split; try reflexivity. by exists 9. Qed.
Lemma other_known : function_known conc_runtime 501 7 0x06000002 [77] [65].
Proof. split; try reflexivity. by exists 9. Qed.

Definition conc_inbox : list Z :=
  confirmations 4 ++ debug_command true ++ message (body_message [0x17; 0x26; 0x2A] 9 []) ++ [].
Definition conc_tokens : list Z := flat_map (le_bytes 4) (initTokens conc_runtime 7 signature_table).


(** Main is instrumented, another method was imported after it. *)
Definition undo_session : session :=
  mkSession (with_imported (imported_of None sample_other)
    (with_functions {[(7, 0x06000001) := original 0x06000001 sample_main]} (conc_instrumenter true)))
    (concolic_init (mkSocket [] [] [])) (mkPool ∅ 0) [] [].

(** The restored main has the locals and the flag of the other method. *)
Lemma undo_uses_last_locals_witness :
  exists pad s', undoInstrumentation conc_runtime 500 undo_session = Ok (S_OK, s') /\
    new_bodies s' = [(7, 0x06000001, fat_body 0 8 0x11000002 (il_Code sample_main) pad (il_EH sample_main))].
Proof.
  destruct (undo_uses_last_locals conc_runtime 500 7 0x06000001 sample_main sample_other undo_session) as (pad & s' & R & B & _).
  - exact conc_alloc.
  - reflexivity.
  - reflexivity.
  - reflexivity.
  - split; reflexivity.
  - vm_compute. reflexivity.
  - exists pad, s'. split; [exact R|exact B].
Defined.

(** The engine's code with one clause; main was imported last. *)
Definition engine_ehs : list Z := Eval vm_compute in clause_fat (mkEHClauseFat 0 0 1 1 1 0x01000002).

Lemma exportIL_decodes_witness :
  let s := mkSession (with_imported (imported_of None sample_main) (conc_instrumenter true)) (concolic_init (mkSocket [] [] []))
    (mkPool ∅ 0) [] [] in
  exists body cs s', exportIL conc_runtime [0x17; 0x26; 0x2A] 3 9 engine_ehs 24 s = Ok (inr tt, s') /\
    new_bodies s' = [(0, 0, body)] /\ cs ≫= clause_fat = engine_ehs /\
    decode_method 0x7F1000 body = Ok (mkILMethod 0x11000001 9 (fat_flags 0x10 cs) [0x17; 0x26; 0x2A] cs).
Proof.
  intros s.
  destruct (exportIL_decodes conc_runtime [0x17; 0x26; 0x2A] 9 engine_ehs 1 0x13 s 0x7F1000 conc_alloc) as (body & cs & s' & R1 & R2 & R3 & R4).
  - reflexivity.
  - apply (bool_decide_eq_true_1 (Forall is_byte engine_ehs)). vm_compute. reflexivity.
  - reflexivity.
  - reflexivity.
  - reflexivity.
  - reflexivity.
  - vm_compute. split; [discriminate|reflexivity].
  - reflexivity.
  - exists body, cs, s'. split; [exact R1|]. split; [exact R2|]. split; [exact R3|exact R4].
Defined.

Lemma conc_valid module token d : GetILFunctionBody conc_runtime module token = inr d -> method_valid d.
Proof.
  cbn [GetILFunctionBody conc_runtime]. intros [= <-].
  destruct (token =? 0x06000001); (split_and!; [simpl; unfold is_uint; lia|simpl; unfold is_uint; lia| |simpl; lia|simpl; lia]).
  - apply (bool_decide_eq_true_1 (Forall clause_u32 (il_EH sample_main))). reflexivity.
  - constructor.
Qed.

Lemma conc_kept reached inbox : kept conc_runtime (conc_session reached inbox).
Proof. split; [done|done| |done]. split; [by exists 0|]. unfold is_uint. simpl. lia. Qed.

(** Main is instrumented and compiled once more. *)
Lemma originals_kept_witness :
  exists s', run_callbacks conc_runtime true 3 [Jit 5 500; Jit 6 500] (conc_session true conc_inbox) = Ok (tt, s') /\
    instrumentedFunctions (instr s') !! (7, 0x06000001) = Some (original 0x06000001 sample_main) /\
    body_set (new_bodies s') 7 0x06000001 <> None /\ kept conc_runtime s'.
Proof.
  destruct (run_callbacks conc_runtime true 3 [Jit 5 500; Jit 6 500] (conc_session true conc_inbox)) as [[[] s']|] eqn:R; [|vm_compute in R; discriminate R].
  exists s'. split; [reflexivity|].
  assert (kept conc_runtime s') as K.
  { apply (originals_kept conc_runtime true 3 [Jit 5 500; Jit 6 500] (conc_session true conc_inbox) s' conc_alloc conc_valid); [apply conc_kept|exact R]. }
  split; [|split; [|exact K]].
  - vm_compute in R. injection R as <-. vm_compute. reflexivity.
  - vm_compute in R. injection R as <-. vm_compute. discriminate.
Defined.

Lemma main_after_skip_undefined_witness :
  run_callbacks conc_runtime true 3 [Jit 5 501; Jit 5 500] (conc_session false []) = Err Undefined.
Proof.
  apply (main_after_skip_undefined conc_runtime true 5 3 (conc_session false []) 501 500 7 0x06000002 0x06000001 [77] [65]
    sample_main (shared (conc_session false [])) other_known main_known); reflexivity.
Defined.
