(* ===== verification/CovTracker.v ===== *)
(** * The coverage tracker

    The run-time half of [VSharp.CoverageInstrumenter/profiler]: the storage of
    one value per thread ([threadStorage.h]), the tracker of threads
    ([threadTracker.cpp]), the histories of coverage and their report
    ([coverageTracker.cpp], [serialization.h]), the probes that the instrumented
    code calls ([probes.cpp]), the callbacks of the runtime about exceptions
    ([corProfiler.cpp]) and the functions exported to the managed side
    ([api.cpp]).

    Every operation of [ThreadStorage] holds its mutex, so operations are
    atomic; the functions are run by the thread [tid].  [debug] says whether
    [_PROFILER_DEBUG] is defined, which turns [profiler_assert] on.  Messages to
    the log are left out. *)

From S2P Require Import Prelude.
Local Open Scope Z_scope.

(** ** ThreadStorage *)

Definition profiler_assert {S} (debug e : bool) : st S unit :=
  if debug && negb e then st_fail (Thrown "Assertion failed!") else mret tt.

Section ThreadStorage.
(** [dflt] is the value-initialised [T()] that [operator[]] inserts. *)
Context {T : Type} (dflt : T) (debug : bool) (thread : Z).

Definition exist (m : gmap Z T) : bool := match m !! thread with Some _ => true | None => false end.
Definition store (data : T) : st (gmap Z T) unit :=
  m ← st_get; profiler_assert debug (negb (exist m));; st_modify <[thread := data]>.
Definition storeOrUpdate (data : T) : st (gmap Z T) unit := st_modify <[thread := data]>.
(** [innerStorage[thread]]. *)
Definition cell : st (gmap Z T) T := fun m =>
  match m !! thread with Some v => Ok (v, m) | None => Ok (dflt, <[thread := dflt]> m) end.
Definition load : st (gmap Z T) T := m ← st_get; profiler_assert debug (exist m);; cell.
Definition update (f : T -> result T) : st (gmap Z T) T :=
  m ← st_get; profiler_assert debug (exist m);;
  v ← cell; result ← st_lift (f v); st_modify <[thread := result]>;; mret result.
Definition remove : st (gmap Z T) unit :=
  m ← st_get; profiler_assert debug (exist m);; st_modify (delete thread).
End ThreadStorage.
Definition size {T} (m : gmap Z T) : Z := Z.of_nat (base.size m).
Definition clear {T} : st (gmap Z T) unit := st_modify (fun _ => ∅).
Definition items {T} (m : gmap Z T) : list (Z * T) := map_items m.

(** ** Data *)

Inductive CoverageEvent :=
| EnterMain | Enter | LeaveMain | Leave | BranchHit | Call | Tailcall | TrackCoverage | StsfldHit.
Definition event_code (e : CoverageEvent) : Z :=
  match e with
  | EnterMain => 0 | Enter => 1 | LeaveMain => 2 | Leave => 3 | BranchHit => 4
  | Call => 5 | Tailcall => 6 | TrackCoverage => 7 | StsfldHit => 8
  end.
#[export] Instance CoverageEvent_eq_dec : EqDecision CoverageEvent.
Proof. solve_decision. Defined.

(** Names are arrays of 16-bit characters. *)
Record MethodInfo := mkMethodInfo {
  token : Z;
  assemblyNameLength : Z;
  assemblyName : list Z;
  moduleNameLength : Z;
  moduleName : list Z
}.

Record CoverageRecord := mkRecord {
  offset : Z;
  event : CoverageEvent;
  thread : Z;
  methodId : Z
}.

Record CoverageHistory := mkHistory {
  records : list CoverageRecord;
  visitedMethods : gset Z
}.

Record ThreadTracker := mkThreadTracker {
  threadIdMapping : gmap Z Z;
  stackBalances : gmap Z Z;
  unwindFunctionIds : gmap Z Z;
  inFilterMapping : gmap Z Z
}.
Definition new_ThreadTracker : ThreadTracker := mkThreadTracker ∅ ∅ ∅ ∅.

(** [None] in [trackedCoverage] is a null pointer. *)
Record CoverageTracker := mkCoverageTracker {
  isCollectMainOnly : bool;
  collectedMethods : list MethodInfo;
  allVisitedMethods : gset Z;
  trackedCoverage : gmap Z (option CoverageHistory);
  serializedCoverage : list (list Z);
  serializedCoverageThreadIds : list Z
}.
Definition new_CoverageTracker (collectMainOnly : bool) : CoverageTracker :=
  mkCoverageTracker collectMainOnly [] ∅ ∅ [] [].

Record ProfilerState := mkProfilerState {
  threadTracker : ThreadTracker;
  coverageTracker : CoverageTracker;
  isPassiveRun : bool;
  collectMainOnly : bool;
  isFinished : bool;
  mainMethodInfo : option MethodInfo;
  mainFunctionId : Z
}.

(** The constructor: [isPassive] and [mainOnly] say whether the environment
    variables are set; the method of a passive run comes from the environment
    too.  [collectMainOnly] starts as [true]. *)
Definition new_ProfilerState (isPassive : option MethodInfo) (mainOnly : bool) : ProfilerState :=
  let collectMainOnly := true in
  let collectMainOnly := match isPassive with Some _ => true | None => collectMainOnly end in
  let collectMainOnly := if mainOnly then true else collectMainOnly in
  mkProfilerState new_ThreadTracker (new_CoverageTracker collectMainOnly)
    (match isPassive with Some _ => true | None => false end) collectMainOnly false isPassive (2 ^ 64 - 1).

(** ** Access to the parts *)

Definition with_tt (t : ThreadTracker) (s : ProfilerState) : ProfilerState :=
  mkProfilerState t (coverageTracker s) (isPassiveRun s) (collectMainOnly s) (isFinished s) (mainMethodInfo s) (mainFunctionId s).
Definition with_ct (c : CoverageTracker) (s : ProfilerState) : ProfilerState :=
  mkProfilerState (threadTracker s) c (isPassiveRun s) (collectMainOnly s) (isFinished s) (mainMethodInfo s) (mainFunctionId s).

(** An operation on a part of the state. *)
Definition on_part {S P A} (get : S -> P) (set : P -> S -> S) (m : st P A) : st S A := fun s =>
  match m (get s) with Ok (a, p) => Ok (a, set p s) | Err e => Err e end.

Definition on_mapping {A} : st (gmap Z Z) A -> st ProfilerState A :=
  on_part (fun s => threadIdMapping (threadTracker s)) (fun m s => let t := threadTracker s in
    with_tt (mkThreadTracker m (stackBalances t) (unwindFunctionIds t) (inFilterMapping t)) s).
Definition on_balances {A} : st (gmap Z Z) A -> st ProfilerState A :=
  on_part (fun s => stackBalances (threadTracker s)) (fun m s => let t := threadTracker s in
    with_tt (mkThreadTracker (threadIdMapping t) m (unwindFunctionIds t) (inFilterMapping t)) s).
Definition on_unwind {A} : st (gmap Z Z) A -> st ProfilerState A :=
  on_part (fun s => unwindFunctionIds (threadTracker s)) (fun m s => let t := threadTracker s in
    with_tt (mkThreadTracker (threadIdMapping t) (stackBalances t) m (inFilterMapping t)) s).
Definition on_filter {A} : st (gmap Z Z) A -> st ProfilerState A :=
  on_part (fun s => inFilterMapping (threadTracker s)) (fun m s => let t := threadTracker s in
    with_tt (mkThreadTracker (threadIdMapping t) (stackBalances t) (unwindFunctionIds t) m) s).
Definition with_tracked (m : gmap Z (option CoverageHistory)) (s : ProfilerState) : ProfilerState :=
  let c := coverageTracker s in
  with_ct (mkCoverageTracker (isCollectMainOnly c) (collectedMethods c) (allVisitedMethods c) m
             (serializedCoverage c) (serializedCoverageThreadIds c)) s.
Definition on_tracked {A} : st (gmap Z (option CoverageHistory)) A -> st ProfilerState A :=
  on_part (fun s => trackedCoverage (coverageTracker s)) with_tracked.

(** [value + 1] and [value - 1] of an [int]. *)
Definition int_add (d v : Z) : result Z :=
  if (- 2 ^ 31 <=? v + d) && (v + d <? 2 ^ 31) then Ok (v + d) else Err Undefined.

(** ** Serialization *)

Definition serializePrimitive (n : nat) (obj : Z) (v : list Z) : list Z := v ++ le_bytes n obj.
(** [memcpy] reads [len] elements of [n] bytes. *)
Definition serializePrimitiveArray (n : nat) (obj : list Z) (len : Z) (v : list Z) : result (list Z) :=
  match read_at obj 0 (Z.to_nat len) with
  | Some l => Ok (v ++ flat_map (le_bytes n) l)
  | None => Err Undefined
  end.

Definition MethodInfo_serialize (i : MethodInfo) (buffer : list Z) : result (list Z) :=
  let buffer := serializePrimitive 4 (token i) buffer in
  let buffer := serializePrimitive 4 (assemblyNameLength i) buffer in
  buffer ← serializePrimitiveArray 2 (assemblyName i) (assemblyNameLength i) buffer;
  let buffer := serializePrimitive 4 (moduleNameLength i) buffer in
  serializePrimitiveArray 2 (moduleName i) (moduleNameLength i) buffer.

Definition CoverageRecord_serialize (r : CoverageRecord) (buffer : list Z) : list Z :=
  let buffer := serializePrimitive 4 (offset r) buffer in
  let buffer := serializePrimitive 4 (event_code (event r)) buffer in
  let buffer := serializePrimitive 4 (methodId r) buffer in
  serializePrimitive 8 (thread r) buffer.

Definition CoverageHistory_serialize (h : CoverageHistory) (buffer : list Z) : list Z :=
  let buffer := serializePrimitive 4 (Z.of_nat (length (records h))) buffer in
  foldl (fun buffer r => CoverageRecord_serialize r buffer) buffer (records h).

Section tracker.
Context (debug : bool) (tid : Z).

(** ** CoverageHistory *)

Definition new_CoverageHistory (offset methodId : Z) : CoverageHistory :=
  mkHistory [mkRecord offset EnterMain tid methodId] {[methodId]}.
Definition CoverageHistory_addCoverage (offset : Z) (event : CoverageEvent) (methodId : Z) (h : CoverageHistory) : CoverageHistory :=
  mkHistory (records h ++ [mkRecord offset event tid methodId]) ({[methodId]} ∪ visitedMethods h).

(** ** ThreadTracker and CoverageTracker *)

Definition isCurrentThreadTracked : st ProfilerState bool :=
  s ← st_get; mret (exist tid (stackBalances (threadTracker s))).
Definition assert_tracked : st ProfilerState unit := t ← isCurrentThreadTracked; profiler_assert debug t.

Definition hasMapping : st ProfilerState bool := s ← st_get; mret (exist tid (threadIdMapping (threadTracker s))).
Definition getCurrentThreadMappedId : st ProfilerState Z := on_mapping (load 0 debug tid).
Definition mapCurrentThread (mapId : Z) : st ProfilerState unit := on_mapping (store debug tid mapId).
Definition getMapping (s : ProfilerState) : list (Z * Z) := items (threadIdMapping (threadTracker s)).

Definition trackCurrentThread : st ProfilerState unit :=
  on_balances (store debug tid 0);; on_filter (store debug tid 0).
Definition stackBalanceUp : st ProfilerState unit :=
  assert_tracked;; on_balances (update 0 debug tid (int_add 1));; mret tt.
Definition stackBalance : st ProfilerState Z :=
  assert_tracked;; balance ← on_balances (load 0 debug tid); profiler_assert debug (0 <=? balance);; mret balance.
Definition stackBalanceDown : st ProfilerState bool :=
  assert_tracked;; newBalance ← on_balances (update 0 debug tid (int_add (-1)));
  profiler_assert debug (0 <=? newBalance);; mret (negb (newBalance =? 0)).
Definition filterEnter : st ProfilerState unit :=
  assert_tracked;; on_filter (update 0 debug tid (int_add 1));; mret tt.
Definition filterLeave : st ProfilerState unit :=
  assert_tracked;; on_filter (update 0 debug tid (int_add (-1)));; mret tt.
Definition isInFilter : st ProfilerState bool :=
  assert_tracked;; v ← on_filter (load 0 debug tid); mret (0 <? v).
Definition isPossibleStackOverflow : bool := false.
Definition tt_clear : st ProfilerState unit :=
  on_mapping clear;; on_balances clear;; on_unwind clear;; on_filter clear.

(** [trackedCoverage->load()->addCoverage(...)] changes the history the loaded
    pointer refers to. *)
Definition addCoverage (offset : Z) (event : CoverageEvent) (methodId : Z) : st ProfilerState unit :=
  assert_tracked;;
  s ← st_get;
  let mainOnly := isCollectMainOnly (coverageTracker s) in
  if ((bool_decide (event = EnterMain) && mainOnly) || negb mainOnly) && negb (exist tid (trackedCoverage (coverageTracker s)))
  then on_tracked (store debug tid (Some (new_CoverageHistory offset methodId)))
  else
    h ← on_tracked (load None debug tid);
    match h with
    | None => st_fail Undefined
    | Some h => on_tracked (storeOrUpdate tid (Some (CoverageHistory_addCoverage offset event methodId h)))
    end.

(** [coverage->visitedMethods] is read before [coverage] is compared with null. *)
Definition invocationFinished : st ProfilerState unit :=
  coverage ← on_tracked (load None debug tid);
  mapped ← hasMapping;
  threadId ← (if (mapped : bool) then getCurrentThreadMappedId else mret 0);
  h ← st_read (fun _ => coverage);
  st_modify (fun s => let c := coverageTracker s in
    with_ct (mkCoverageTracker (isCollectMainOnly c) (collectedMethods c) (visitedMethods h ∪ allVisitedMethods c)
               (trackedCoverage c) (serializedCoverage c) (serializedCoverageThreadIds c)) s);;
  let buffer := serializePrimitive 4 threadId [] in
  let buffer := match coverage with
    | None => serializePrimitive 4 1 buffer
    | Some h => CoverageHistory_serialize h (serializePrimitive 4 0 buffer)
    end in
  on_tracked (remove debug tid);;
  st_modify (fun s => let c := coverageTracker s in
    with_ct (mkCoverageTracker (isCollectMainOnly c) (collectedMethods c) (allVisitedMethods c) (trackedCoverage c)
               (serializedCoverage c ++ [buffer]) (serializedCoverageThreadIds c ++ [threadId])) s).

Definition invocationAborted : st ProfilerState unit :=
  on_tracked (update None debug tid (fun _ => Ok None));; mret tt.

Definition onCurrentThreadFinished : st ProfilerState unit :=
  invocationFinished;;
  on_balances (remove debug tid);;
  on_filter (remove debug tid);;
  s ← st_get;
  if isPassiveRun s then mret tt else on_mapping (remove debug tid).

Definition loseCurrentThread : st ProfilerState unit :=
  assert_tracked;;
  s ← st_get;
  profiler_assert debug (bool_decide (stackBalances (threadTracker s) !! tid = Some 0));;
  profiler_assert debug (bool_decide (inFilterMapping (threadTracker s) !! tid = Some 0));;
  onCurrentThreadFinished.
Definition abortCurrentThread : st ProfilerState unit := onCurrentThreadFinished.

Definition isCorrectFunctionId (id : Z) : bool := negb (0 =? id).
Definition unwindFunctionEnter (functionId : Z) : st ProfilerState unit :=
  assert_tracked;; profiler_assert debug (isCorrectFunctionId functionId);;
  on_unwind (storeOrUpdate tid functionId).
Definition unwindFunctionLeave : st ProfilerState unit :=
  assert_tracked;;
  functionId ← on_unwind (load 0 debug tid);
  on_unwind (remove debug tid);;
  s ← st_get;
  if collectMainOnly s && negb (mainFunctionId s =? functionId) then mret tt else
  inFilter ← isInFilter;
  go ← (if (inFilter : bool) then b ← stackBalance; mret (1 <? b) else mret true);
  if (go : bool) then
    rest ← stackBalanceDown;
    if (rest : bool) then mret tt else loseCurrentThread
  else mret tt.

Definition collectMethod (info : MethodInfo) : st ProfilerState Z :=
  s ← st_get; let c := coverageTracker s in
  st_modify (with_ct (mkCoverageTracker (isCollectMainOnly c) (collectedMethods c ++ [info]) (allVisitedMethods c)
    (trackedCoverage c) (serializedCoverage c) (serializedCoverageThreadIds c)));;
  mret (Z.of_nat (length (collectedMethods c))).

Definition ct_clear : st ProfilerState unit := on_tracked clear.

(** ** Probes *)

(** The first line of a probe: threads that are not tracked are left alone. *)
Definition when_tracked (m : st ProfilerState unit) : st ProfilerState unit :=
  t ← isCurrentThreadTracked; if (t : bool) then m else mret tt.

Definition Track_Coverage (offset methodId : Z) : st ProfilerState unit :=
  when_tracked (addCoverage offset TrackCoverage methodId).
Definition Track_Stsfld (offset methodId : Z) : st ProfilerState unit :=
  when_tracked (addCoverage offset StsfldHit methodId).
Definition Branch (offset methodId : Z) : st ProfilerState unit :=
  when_tracked (addCoverage offset BranchHit methodId).
Definition Track_Call (offset methodId : Z) : st ProfilerState unit :=
  when_tracked (addCoverage offset Call methodId).
Definition Track_Tailcall (offset methodId : Z) : st ProfilerState unit :=
  when_tracked (stackBalanceDown;; addCoverage offset Tailcall methodId).
Definition Track_Enter (offset methodId isSpontaneous : Z) : st ProfilerState unit :=
  when_tracked (
    s ← st_get;
    (if isCollectMainOnly (coverageTracker s) then mret tt else addCoverage offset Enter methodId);;
    stackBalanceUp).
Definition Track_EnterMain (offset methodId isSpontaneous : Z) : st ProfilerState unit :=
  t ← isCurrentThreadTracked;
  if (t : bool) then stackBalanceUp
  else trackCurrentThread;; stackBalanceUp;; addCoverage offset EnterMain methodId.
Definition Track_Leave (offset methodId : Z) : st ProfilerState unit :=
  when_tracked (
    s ← st_get;
    (if isCollectMainOnly (coverageTracker s) then mret tt else addCoverage offset Leave methodId);;
    stackBalanceDown;; mret tt).
Definition Track_LeaveMain (offset methodId : Z) : st ProfilerState unit :=
  when_tracked (
    addCoverage offset LeaveMain methodId;;
    rest ← stackBalanceDown;
    if (rest : bool) then mret tt else loseCurrentThread).
Definition Track_Throw (offset methodId : Z) : st ProfilerState unit :=
  when_tracked (addCoverage offset Leave methodId).
Definition Finalize_Call (offset : Z) : st ProfilerState unit := when_tracked (mret tt).

(** ** Callbacks of the runtime about exceptions *)

(** [isThreadAbort]: the type of the thrown object is
    [System.Threading.ThreadAbortException]. *)
Definition ExceptionThrown (isThreadAbort : bool) : st ProfilerState unit :=
  when_tracked (if isThreadAbort then invocationAborted;; abortCurrentThread else mret tt).
Definition unless_finished (m : st ProfilerState unit) : st ProfilerState unit :=
  s ← st_get; if isFinished s then mret tt else m.
Definition ExceptionSearchFilterEnter : st ProfilerState unit := unless_finished (when_tracked filterEnter).
Definition ExceptionSearchFilterLeave : st ProfilerState unit := unless_finished (when_tracked filterLeave).
Definition ExceptionUnwindFunctionEnter (functionId : Z) : st ProfilerState unit :=
  when_tracked (unwindFunctionEnter functionId).
Definition ExceptionUnwindFunctionLeave : st ProfilerState unit := unless_finished (when_tracked unwindFunctionLeave).
End tracker.

(** ** The report *)

(** The visited ones of the collected methods, with their numbers. *)
Definition methodsToSerialize (c : CoverageTracker) : list (Z * MethodInfo) :=
  filter (fun e => fst e ∈ allVisitedMethods c) (imap (fun i m => (Z.of_nat i, m)) (collectedMethods c)).

Fixpoint serialize_methods (l : list (Z * MethodInfo)) (buffer : list Z) : result (list Z) :=
  match l with
  | [] => Ok buffer
  | (i, m) :: l => buffer ← MethodInfo_serialize m (serializePrimitive 4 i buffer); serialize_methods l buffer
  end.

(** Empty coverage for the mapped threads that have not entered main. *)
Definition empty_coverage (mapping : list (Z * Z)) (c : CoverageTracker) : CoverageTracker :=
  foldl (fun c '(_, threadId) =>
    if bool_decide (threadId ∈ serializedCoverageThreadIds c) then c
    else mkCoverageTracker (isCollectMainOnly c) (collectedMethods c) (allVisitedMethods c) (trackedCoverage c)
           (serializedCoverage c ++ [serializePrimitive 4 1 (serializePrimitive 4 threadId [])])
           (serializedCoverageThreadIds c ++ [threadId])) c mapping.

Definition serializeCoverageReport : st ProfilerState (list Z) :=
  s ← st_get;
  let methods := methodsToSerialize (coverageTracker s) in
  buffer ← st_lift (serialize_methods methods (serializePrimitive 4 (Z.of_nat (length methods)) []));
  let c := empty_coverage (getMapping s) (coverageTracker s) in
  let buffer := serializePrimitive 4 (Z.of_nat (length (serializedCoverage c))) buffer in
  let buffer := foldl (fun buffer cov => buffer ++ cov) buffer (serializedCoverage c) in
  st_modify (with_ct (mkCoverageTracker (isCollectMainOnly c) (collectedMethods c) (allVisitedMethods c) ∅ []
               (serializedCoverageThreadIds c)));;
  mret buffer.

(** ** The exported functions *)

(** The names are copied: [length] characters of two bytes. *)
Definition copy_name (name : list Z) (length : Z) : result (list Z) :=
  match read_at name 0 (Z.to_nat length) with Some l => Ok l | None => Err Undefined end.
Definition SetEntryMain (assemblyName : list Z) (assemblyNameLength : Z) (moduleName : list Z) (moduleNameLength methodToken : Z)
    : st ProfilerState unit :=
  a ← st_lift (copy_name assemblyName assemblyNameLength);
  m ← st_lift (copy_name moduleName moduleNameLength);
  st_modify (fun s => mkProfilerState (threadTracker s) (coverageTracker s) (isPassiveRun s) (collectMainOnly s) (isFinished s)
    (Some (mkMethodInfo (wrap 32 methodToken) (wrap 32 assemblyNameLength) a (wrap 32 moduleNameLength) m)) (mainFunctionId s)).

Definition GetHistory : st ProfilerState (list Z) :=
  bytes ← serializeCoverageReport; ct_clear;; tt_clear;; mret bytes.

Definition SetCurrentThreadId (debug : bool) (tid mapId : Z) : st ProfilerState unit := mapCurrentThread debug tid mapId.

(** [CorProfiler::Shutdown]: the report of a passive run goes to a file. *)
Definition Shutdown : st ProfilerState (option (list Z)) :=
  st_modify (fun s => mkProfilerState (threadTracker s) (coverageTracker s) (isPassiveRun s) (collectMainOnly s) true
    (mainMethodInfo s) (mainFunctionId s));;
  s ← st_get;
  if isPassiveRun s then bytes ← serializeCoverageReport; mret (Some bytes) else mret None.
