(* ===== verification/CovSpec.v ===== *)
(** * What the coverage tracker collects

    Theorems about [CovTracker.v].  An abstract machine says what each thread
    contributes: the events between its first entry of the main method and the
    return of that activation, by a return or by an exception.  The tracker is
    shown to follow the machine for every interleaving of the threads. *)

From S2P Require Import Prelude CovTracker.
Local Open Scope Z_scope.

(** ** Events of a thread *)

Inductive pevent :=
| PMap (mapId : Z)
| PCoverage (o m : Z) | PStsfld (o m : Z) | PBranch (o m : Z) | PCall (o m : Z) | PTailcall (o m : Z)
| PEnter (o m : Z) | PEnterMain (o m : Z) | PLeave (o m : Z) | PLeaveMain (o m : Z) | PThrow (o m : Z)
| PFinalize (o : Z)
| PFilterEnter | PFilterLeave | PUnwindEnter (f : Z) | PUnwindLeave
(** an exception is thrown; is it the thread's abortion? *)
| PExceptionThrown (isThreadAbort : bool).

Definition run_event (debug : bool) (t : Z) (e : pevent) : st ProfilerState unit :=
  match e with
  | PMap mapId => SetCurrentThreadId debug t mapId
  | PCoverage o m => Track_Coverage debug t o m
  | PStsfld o m => Track_Stsfld debug t o m
  | PBranch o m => Branch debug t o m
  | PCall o m => Track_Call debug t o m
  | PTailcall o m => Track_Tailcall debug t o m
  | PEnter o m => Track_Enter debug t o m 0
  | PEnterMain o m => Track_EnterMain debug t o m 0
  | PLeave o m => Track_Leave debug t o m
  | PLeaveMain o m => Track_LeaveMain debug t o m
  | PThrow o m => Track_Throw debug t o m
  | PFinalize o => Finalize_Call t o
  | PFilterEnter => ExceptionSearchFilterEnter debug t
  | PFilterLeave => ExceptionSearchFilterLeave debug t
  | PUnwindEnter f => ExceptionUnwindFunctionEnter debug t f
  | PUnwindLeave => ExceptionUnwindFunctionLeave debug t
  | PExceptionThrown isThreadAbort => ExceptionThrown debug t isThreadAbort
  end.

(** ** The machine of one thread *)

(** A thread inside main: open activations, open exception filters, and the
    events so far. *)
Record tracked := mkTracked { bal : Z; filt : Z; hist : list CoverageRecord }.
Record athread := mkAThread { at_map : option Z; at_run : option tracked; at_unw : option Z }.
Definition report := (Z * list CoverageRecord)%type.

Section machine.
(** The thread, the two flags that restrict the collection to main, passive
    mode, and the function that is main. *)
Context (t : Z) (mo cmo passive : bool) (mainFn : Z).

Definition with_run (k : tracked) (a : athread) : athread := mkAThread (at_map a) (Some k) (at_unw a).
Definition add (o : Z) (e : CoverageEvent) (m : Z) (k : tracked) : tracked :=
  mkTracked (bal k) (filt k) (hist k ++ [mkRecord o e t m]).
Definition add_if (b : bool) (o : Z) (e : CoverageEvent) (m : Z) (k : tracked) : tracked :=
  if b then add o e m k else k.
Definition up (k : tracked) : option tracked :=
  if bal k + 1 <? 2 ^ 31 then Some (mkTracked (bal k + 1) (filt k) (hist k)) else None.
Definition down (k : tracked) : option tracked :=
  if 1 <=? bal k then Some (mkTracked (bal k - 1) (filt k) (hist k)) else None.
Definition plain (a : athread) : option (athread * list report) := Some (a, []).

(** The last activation of main is left. *)
Definition finish (k : tracked) (a : athread) : option (athread * list report) :=
  if (filt k =? 0) && (passive || bool_decide (is_Some (at_map a)))
  then Some (mkAThread (if passive then at_map a else None) None (at_unw a), [(default 0 (at_map a), hist k)])
  else None.
Definition leave (k : tracked) (a : athread) : option (athread * list report) :=
  k ← down k; if bal k =? 0 then finish k a else plain (with_run k a).

Definition astep (e : pevent) (a : athread) : option (athread * list report) :=
  match e, at_run a with
  | PMap mapId, _ => match at_map a with None => plain (mkAThread (Some mapId) (at_run a) (at_unw a)) | Some _ => None end
  | PEnterMain o m, None => plain (with_run (mkTracked 1 0 [mkRecord o EnterMain t m]) a)
  | _, None => plain a
  | PEnterMain o m, Some k => k ← up k; plain (with_run k a)
  | PCoverage o m, Some k => plain (with_run (add o TrackCoverage m k) a)
  | PStsfld o m, Some k => plain (with_run (add o StsfldHit m k) a)
  | PBranch o m, Some k => plain (with_run (add o BranchHit m k) a)
  | PCall o m, Some k => plain (with_run (add o Call m k) a)
  | PThrow o m, Some k => plain (with_run (add o Leave m k) a)
  | PFinalize o, Some k => plain a
  | PTailcall o m, Some k => k ← down k; plain (with_run (add o Tailcall m k) a)
  | PEnter o m, Some k => k ← up (add_if (negb mo) o Enter m k); plain (with_run k a)
  | PLeave o m, Some k => k ← down (add_if (negb mo) o Leave m k); plain (with_run k a)
  | PLeaveMain o m, Some k => leave (add o LeaveMain m k) a
  | PFilterEnter, Some k =>
      if filt k + 1 <? 2 ^ 31 then plain (with_run (mkTracked (bal k) (filt k + 1) (hist k)) a) else None
  | PFilterLeave, Some k =>
      if 1 <=? filt k then plain (with_run (mkTracked (bal k) (filt k - 1) (hist k)) a) else None
  | PUnwindEnter f, Some k => if f =? 0 then None else plain (mkAThread (at_map a) (at_run a) (Some f))
  | PUnwindLeave, Some k =>
      f ← at_unw a;
      let a := mkAThread (at_map a) (at_run a) None in
      if cmo && negb (mainFn =? f) then plain a
      else if (0 <? filt k) && (bal k <=? 1) then plain a
      else leave k a
  | PExceptionThrown isThreadAbort, Some k => if isThreadAbort then None else plain a
  end.
End machine.

(** ** The tracker's view of a thread *)

Definition history_of (l : list CoverageRecord) : CoverageHistory := mkHistory l (list_to_set (methodId <$> l)).

Record view (t : Z) (s : ProfilerState) (a : athread) : Prop := {
  v_map : threadIdMapping (threadTracker s) !! t = at_map a;
  v_bal : stackBalances (threadTracker s) !! t = bal <$> at_run a;
  v_filt : inFilterMapping (threadTracker s) !! t = filt <$> at_run a;
  v_unw : unwindFunctionIds (threadTracker s) !! t = at_unw a;
  v_hist : trackedCoverage (coverageTracker s) !! t = (fun k => Some (history_of (hist k))) <$> at_run a;
  v_range k : at_run a = Some k -> 0 <= bal k < 2 ^ 31 /\ 0 <= filt k < 2 ^ 31
}.

(** The bytes of a report. *)
Definition record_bytes (r : CoverageRecord) : list Z :=
  le_bytes 4 (offset r) ++ le_bytes 4 (event_code (event r)) ++ le_bytes 4 (methodId r) ++ le_bytes 8 (thread r).
Definition report_bytes (r : report) : list Z :=
  le_bytes 4 (fst r) ++ le_bytes 4 0 ++ le_bytes 4 (Z.of_nat (length (snd r))) ++ flat_map record_bytes (snd r).
Definition report_methods (r : report) : gset Z := list_to_set (methodId <$> snd r).

(** What the probes do not change. *)
Definition config (s : ProfilerState) :=
  (isCollectMainOnly (coverageTracker s), collectedMethods (coverageTracker s), isPassiveRun s, collectMainOnly s,
   isFinished s, mainMethodInfo s, mainFunctionId s).

(** One step of thread [t] that leads to [a] and emits [out]. *)
Record stepped (t : Z) (s s' : ProfilerState) (a : athread) (out : list report) : Prop := {
  sd_view : view t s' a;
  sd_frame t' a' : t' <> t -> view t' s a' -> view t' s' a';
  sd_config : config s' = config s;
  sd_coverage : serializedCoverage (coverageTracker s') = serializedCoverage (coverageTracker s) ++ (report_bytes <$> out);
  sd_ids : serializedCoverageThreadIds (coverageTracker s') = serializedCoverageThreadIds (coverageTracker s) ++ (fst <$> out);
  sd_visited : allVisitedMethods (coverageTracker s') = ⋃ (report_methods <$> out) ∪ allVisitedMethods (coverageTracker s)
}.

(** ** The operations on a tracked thread *)

Section operations.
Context (debug : bool) (t : Z).

Definition set_bal (b : Z) (s : ProfilerState) : ProfilerState := let k := threadTracker s in
  with_tt (mkThreadTracker (threadIdMapping k) (<[t := b]> (stackBalances k)) (unwindFunctionIds k) (inFilterMapping k)) s.
Definition set_filt (b : Z) (s : ProfilerState) : ProfilerState := let k := threadTracker s in
  with_tt (mkThreadTracker (threadIdMapping k) (stackBalances k) (unwindFunctionIds k) (<[t := b]> (inFilterMapping k))) s.
Definition set_hist (h : CoverageHistory) (s : ProfilerState) : ProfilerState :=
  with_tracked (<[t := Some h]> (trackedCoverage (coverageTracker s))) s.

Lemma ts_load_run {T} (dflt : T) m v : m !! t = Some v -> load dflt debug t m = Ok (v, m).
Proof.
  intros H. unfold load, exist, profiler_assert, cell. rewrite st_get_bind, H, andb_false_r, st_ret_bind. by rewrite H.
Qed.

Lemma update_run {T} (dflt : T) f m v v' :
  m !! t = Some v -> f v = Ok v' -> update dflt debug t f m = Ok (v', <[t := v']> m).
Proof.
  intros H Hf. unfold update, exist, profiler_assert. rewrite st_get_bind, H, andb_false_r, st_ret_bind.
  rewrite (st_bind_run _ _ m v m) by (unfold cell; by rewrite H). rewrite Hf. done.
Qed.

Lemma ts_store_run {T} (m : gmap Z T) v : m !! t = None -> store debug t v m = Ok (tt, <[t := v]> m).
Proof. intros H. unfold store, exist, profiler_assert. rewrite st_get_bind, H, andb_false_r. done. Qed.

Lemma remove_run {T} (m : gmap Z T) v : m !! t = Some v -> remove debug t m = Ok (tt, delete t m).
Proof. intros H. unfold remove, exist, profiler_assert. rewrite st_get_bind, H, andb_false_r. done. Qed.

Lemma tracked_run s : isCurrentThreadTracked t s = Ok (exist t (stackBalances (threadTracker s)), s).
Proof. done. Qed.

Lemma when_tracked_run m s b :
  stackBalances (threadTracker s) !! t = Some b -> when_tracked t m s = m s.
Proof. intros H. unfold when_tracked. rewrite (st_bind_run _ _ s true s); [done|]. unfold isCurrentThreadTracked, exist.
  rewrite st_get_bind, H. done. Qed.

Lemma when_untracked m s : stackBalances (threadTracker s) !! t = None -> when_tracked t m s = Ok (tt, s).
Proof. intros H. unfold when_tracked. rewrite (st_bind_run _ _ s false s); [done|]. unfold isCurrentThreadTracked, exist.
  rewrite st_get_bind, H. done. Qed.

Lemma assert_run s b : stackBalances (threadTracker s) !! t = Some b -> assert_tracked debug t s = Ok (tt, s).
Proof.
  intros H. unfold assert_tracked. rewrite (st_bind_run _ _ s true s).
  - unfold profiler_assert. by rewrite andb_false_r.
  - unfold isCurrentThreadTracked, exist. rewrite st_get_bind, H. done.
Qed.

Lemma int_add_run d v : - 2 ^ 31 <= v + d < 2 ^ 31 -> int_add d v = Ok (v + d).
Proof. intros H. unfold int_add. destruct (_ && _) eqn:E; [done|exfalso; lia]. Qed.

Lemma up_run s b :
  stackBalances (threadTracker s) !! t = Some b -> 0 <= b -> b + 1 < 2 ^ 31 ->
  stackBalanceUp debug t s = Ok (tt, set_bal (b + 1) s).
Proof.
  intros H Hb Hlt. unfold stackBalanceUp. run_step (assert_run s b H).
  rewrite (st_bind_run _ _ s (b + 1) (set_bal (b + 1) s)); [done|]. unfold on_balances, on_part.
  rewrite (update_run 0 (int_add 1) _ b (b + 1) H); [done|]. apply int_add_run. lia.
Qed.

Lemma down_run s b :
  stackBalances (threadTracker s) !! t = Some b -> 1 <= b < 2 ^ 31 ->
  stackBalanceDown debug t s = Ok (negb (b - 1 =? 0), set_bal (b - 1) s).
Proof.
  intros H Hb. unfold stackBalanceDown. run_step (assert_run s b H).
  rewrite (st_bind_run _ _ s (b - 1) (set_bal (b - 1) s)).
  - unfold profiler_assert. destruct (debug && _) eqn:E; [exfalso; lia|]. done.
  - unfold on_balances, on_part. rewrite (update_run 0 (int_add (-1)) _ b (b - 1) H); [done|]. apply int_add_run. lia.
Qed.

Lemma balance_run s b :
  stackBalances (threadTracker s) !! t = Some b -> 0 <= b -> stackBalance debug t s = Ok (b, s).
Proof.
  intros H Hb. unfold stackBalance. run_step (assert_run s b H). rewrite (st_bind_run _ _ s b s).
  - unfold profiler_assert. destruct (debug && _) eqn:E; [exfalso; lia|done].
  - unfold on_balances, on_part. rewrite (ts_load_run 0 _ b H). unfold with_tt. by destruct s as [[] ? ? ? ? ? ?].
Qed.

Lemma filter_run s f d :
  inFilterMapping (threadTracker s) !! t = Some f -> - 2 ^ 31 <= f + d < 2 ^ 31 ->
  on_filter (update 0 debug t (int_add d)) s = Ok (f + d, set_filt (f + d) s).
Proof.
  intros H Hb. unfold on_filter, on_part. rewrite (update_run 0 (int_add d) _ f (f + d) H); [done|]. by apply int_add_run.
Qed.

Lemma add_run s b h o e m :
  stackBalances (threadTracker s) !! t = Some b -> trackedCoverage (coverageTracker s) !! t = Some (Some h) ->
  addCoverage debug t o e m s = Ok (tt, set_hist (CoverageHistory_addCoverage t o e m h) s).
Proof.
  intros Hb Hh. unfold addCoverage. run_step (assert_run s b Hb). rewrite st_get_bind. cbv zeta.
  unfold exist. rewrite Hh, andb_false_r.
  rewrite (st_bind_run _ _ s (Some h) s); [done|]. unfold on_tracked, on_part. rewrite (ts_load_run None _ (Some h) Hh).
  unfold with_tracked, with_ct. by destruct s as [? [] ? ? ? ? ?].
Qed.

Lemma history_snoc o e m l :
  CoverageHistory_addCoverage t o e m (history_of l) = history_of (l ++ [mkRecord o e t m]).
Proof.
  unfold CoverageHistory_addCoverage, history_of. simpl. f_equal. rewrite fmap_app, list_to_set_app_L. simpl. set_solver.
Qed.

(** ** The end of a thread's coverage *)

Definition finished (k : tracked) (a : athread) (s : ProfilerState) : ProfilerState :=
  let c := coverageTracker s in let d := threadTracker s in
  mkProfilerState
    (mkThreadTracker (if isPassiveRun s then threadIdMapping d else delete t (threadIdMapping d))
       (delete t (stackBalances d)) (unwindFunctionIds d) (delete t (inFilterMapping d)))
    (mkCoverageTracker (isCollectMainOnly c) (collectedMethods c) (list_to_set (methodId <$> hist k) ∪ allVisitedMethods c)
       (delete t (trackedCoverage c)) (serializedCoverage c ++ [report_bytes (default 0 (at_map a), hist k)])
       (serializedCoverageThreadIds c ++ [default 0 (at_map a)]))
    (isPassiveRun s) (collectMainOnly s) (isFinished s) (mainMethodInfo s) (mainFunctionId s).

Lemma serialize_records l buffer :
  foldl (fun buffer r => CoverageRecord_serialize r buffer) buffer l = buffer ++ flat_map record_bytes l.
Proof.
  revert buffer. induction l as [|r l IH]; intros buffer; simpl; [by rewrite app_nil_r|].
  rewrite IH. unfold CoverageRecord_serialize, serializePrimitive, record_bytes. by rewrite <- !app_assoc.
Qed.

(** The state after the history has been serialized. *)
Definition covered (k : tracked) (a : athread) (s : ProfilerState) : ProfilerState := let c := coverageTracker s in
  with_ct (mkCoverageTracker (isCollectMainOnly c) (collectedMethods c) (list_to_set (methodId <$> hist k) ∪ allVisitedMethods c)
       (delete t (trackedCoverage c)) (serializedCoverage c ++ [report_bytes (default 0 (at_map a), hist k)])
       (serializedCoverageThreadIds c ++ [default 0 (at_map a)])) s.

Lemma on_part_run {S P A} (get : S -> P) set (m : st P A) s a p :
  m (get s) = Ok (a, p) -> on_part get set m s = Ok (a, set p s).
Proof. intros H. unfold on_part. by rewrite H. Qed.

(** Runs the next operation on a part of the state with the lemma [L]. *)
Local Ltac part_step L :=
  match goal with |- (on_part ?g ?set ?m ≫= ?f) ?s1 = _ =>
    rewrite (st_bind_run (on_part g set m) f s1 _ _ (on_part_run g set m s1 _ _ L)) end.

Lemma loaded_tracked s h :
  trackedCoverage (coverageTracker s) !! t = Some h -> on_tracked (load None debug t) s = Ok (h, s).
Proof.
  intros H. unfold on_tracked. rewrite (on_part_run _ _ _ s h _ (ts_load_run None _ _ H)).
  unfold with_tracked, with_ct. by destruct s as [? [] ? ? ? ? ?].
Qed.

Lemma mapped_run s a :
  threadIdMapping (threadTracker s) !! t = at_map a ->
  (if exist t (threadIdMapping (threadTracker s)) then getCurrentThreadMappedId debug t else mret 0) s = Ok (default 0 (at_map a), s).
Proof.
  intros Hm. unfold exist. rewrite Hm. destruct (at_map a) as [id|]; [|done].
  unfold getCurrentThreadMappedId, on_mapping. rewrite (on_part_run _ _ _ s id _ (ts_load_run 0 _ _ Hm)).
  unfold with_tt. by destruct s as [[] ? ? ? ? ? ?].
Qed.

Lemma invocationFinished_run s a k :
  view t s a -> at_run a = Some k -> invocationFinished debug t s = Ok (tt, covered k a s).
Proof.
  intros [Hm _ _ _ Hh _] Hk. rewrite Hk in Hh. simpl in Hh. unfold invocationFinished.
  run_step (loaded_tracked s _ Hh).
  rewrite (st_bind_run _ _ s (exist t (threadIdMapping (threadTracker s))) s) by done.
  run_step (mapped_run s a Hm). rewrite (st_bind_run _ _ s (history_of (hist k)) s) by done.
  rewrite st_modify_bind. cbv zeta. unfold on_tracked.
  part_step (remove_run _ _ Hh).
  unfold st_modify, covered, with_ct, with_tracked. cbn [coverageTracker serializedCoverage serializedCoverageThreadIds
    isCollectMainOnly collectedMethods allVisitedMethods trackedCoverage]. do 4 f_equal.
  unfold CoverageHistory_serialize, serializePrimitive, report_bytes. cbn [records history_of fst snd].
  rewrite serialize_records, <- !app_assoc. done.
Qed.

Lemma finish_run s a k :
  view t s a -> at_run a = Some k -> isPassiveRun s || bool_decide (is_Some (at_map a)) = true ->
  onCurrentThreadFinished debug t s = Ok (tt, finished k a s).
Proof.
  intros Hv Hk Hp. pose proof Hv as [Hm Hb Hf _ _ _]. rewrite Hk in Hb, Hf. simpl in Hb, Hf.
  unfold onCurrentThreadFinished. run_step (invocationFinished_run s a k Hv Hk). unfold on_balances, on_filter, on_mapping.
  part_step (remove_run _ _ Hb). part_step (remove_run _ _ Hf).
  rewrite st_get_bind. unfold finished, covered, with_ct, with_tt.
  cbn [isPassiveRun threadTracker coverageTracker threadIdMapping stackBalances inFilterMapping unwindFunctionIds].
  destruct (isPassiveRun s); [done|]. simpl in Hp. apply bool_decide_eq_true in Hp as [id Hid]. rewrite Hid in Hm.
  match goal with |- on_part ?g ?st0 _ ?s1 = _ =>
    rewrite (on_part_run g st0 _ s1 _ _ (remove_run (threadIdMapping (threadTracker s)) _ Hm)) end. done.
Qed.

(** ** Steps *)

Lemma stepped_refl s a : view t s a -> stepped t s s a [].
Proof. intros Hv. split; try done; rewrite ?fmap_nil, ?app_nil_r; [done..|]. set_solver. Qed.

Lemma stepped_trans s s1 s2 a1 a2 out1 out2 :
  stepped t s s1 a1 out1 -> stepped t s1 s2 a2 out2 -> stepped t s s2 a2 (out1 ++ out2).
Proof.
  intros [V1 F1 C1 S1 I1 M1] [V2 F2 C2 S2 I2 M2]. split; [done| |congruence| | |].
  - intros t' a' Hne Hv. by apply F2, F1.
  - by rewrite S2, S1, fmap_app, app_assoc.
  - by rewrite I2, I1, fmap_app, app_assoc.
  - rewrite M2, M1, fmap_app, union_list_app_L. set_solver.
Qed.

(** A change of the maps at [t] alone, with nothing emitted. *)
Lemma quiet_stepped s s' a :
  view t s' a -> config s' = config s ->
  (forall t', t' <> t -> threadIdMapping (threadTracker s') !! t' = threadIdMapping (threadTracker s) !! t' /\
     stackBalances (threadTracker s') !! t' = stackBalances (threadTracker s) !! t' /\
     inFilterMapping (threadTracker s') !! t' = inFilterMapping (threadTracker s) !! t' /\
     unwindFunctionIds (threadTracker s') !! t' = unwindFunctionIds (threadTracker s) !! t' /\
     trackedCoverage (coverageTracker s') !! t' = trackedCoverage (coverageTracker s) !! t') ->
  serializedCoverage (coverageTracker s') = serializedCoverage (coverageTracker s) ->
  serializedCoverageThreadIds (coverageTracker s') = serializedCoverageThreadIds (coverageTracker s) ->
  allVisitedMethods (coverageTracker s') = allVisitedMethods (coverageTracker s) ->
  stepped t s s' a [].
Proof.
  intros Hv Hc Hf H1 H2 H3. split; try done; rewrite ?fmap_nil, ?app_nil_r; try done; [|rewrite H3; set_solver].
  intros t' a' Hne [? ? ? ? ? ?]. destruct (Hf t' Hne) as (E1 & E2 & E3 & E4 & E5).
  split; [congruence..|done].
Qed.

Lemma set_bal_stepped s a k b :
  view t s a -> at_run a = Some k -> 0 <= b < 2 ^ 31 ->
  stepped t s (set_bal b s) (with_run (mkTracked b (filt k) (hist k)) a) [].
Proof.
  intros [Hm Hb Hf Hu Hh Hr] Hk Hb'. rewrite Hk in *. apply quiet_stepped; try done.
  - split; simpl; try done; [by rewrite lookup_insert_eq|]. intros k' [= <-]. destruct (Hr k eq_refl). done.
  - intros t' Hne. simpl. by rewrite lookup_insert_ne.
Qed.

Lemma set_filt_stepped s a k b :
  view t s a -> at_run a = Some k -> 0 <= b < 2 ^ 31 ->
  stepped t s (set_filt b s) (with_run (mkTracked (bal k) b (hist k)) a) [].
Proof.
  intros [Hm Hb Hf Hu Hh Hr] Hk Hb'. rewrite Hk in *. apply quiet_stepped; try done.
  - split; simpl; try done; [by rewrite lookup_insert_eq|]. intros k' [= <-]. destruct (Hr k eq_refl). done.
  - intros t' Hne. simpl. by rewrite lookup_insert_ne.
Qed.

Lemma set_hist_stepped s a k l :
  view t s a -> at_run a = Some k ->
  stepped t s (set_hist (history_of l) s) (with_run (mkTracked (bal k) (filt k) l) a) [].
Proof.
  intros [Hm Hb Hf Hu Hh Hr] Hk. rewrite Hk in *. apply quiet_stepped; try done.
  - split; simpl; try done; [by rewrite lookup_insert_eq|]. intros k' [= <-]. by destruct (Hr k eq_refl).
  - intros t' Hne. simpl. by rewrite lookup_insert_ne.
Qed.

Lemma finished_stepped s a k :
  view t s a -> at_run a = Some k ->
  stepped t s (finished k a s) (mkAThread (if isPassiveRun s then at_map a else None) None (at_unw a))
    [(default 0 (at_map a), hist k)].
Proof.
  intros [Hm Hb Hf Hu Hh Hr] Hk. split; try done.
  - split; simpl; rewrite ?lookup_delete_eq; try done. destruct (isPassiveRun s); [done|by rewrite lookup_delete_eq].
  - intros t' a' Hne [? ? ? ? ? ?]. split; simpl; rewrite ?lookup_delete_ne by done; try done.
    destruct (isPassiveRun s); [done|by rewrite lookup_delete_ne].
  - simpl. unfold report_methods. simpl. set_solver.
Qed.

Lemma add_stepped s a k o e m :
  view t s a -> at_run a = Some k ->
  exists s', addCoverage debug t o e m s = Ok (tt, s') /\ stepped t s s' (with_run (add t o e m k) a) [].
Proof.
  intros Hv Hk. pose proof Hv as [Hm Hb Hf Hu Hh Hr]. rewrite Hk in *.
  rewrite (add_run s (bal k) (history_of (hist k)) o e m Hb Hh), history_snoc. eexists. split; [done|].
  by apply set_hist_stepped.
Qed.

Lemma up_stepped s a k k' :
  view t s a -> at_run a = Some k -> up k = Some k' ->
  exists s', stackBalanceUp debug t s = Ok (tt, s') /\ stepped t s s' (with_run k' a) [].
Proof.
  intros Hv Hk Hu. pose proof Hv as [Hm Hb Hf _ Hh Hr]. rewrite Hk in *. destruct (Hr k eq_refl) as [Hr1 Hr2].
  unfold up in Hu. destruct (Z.ltb_spec (bal k + 1) (2 ^ 31)); [|done]. injection Hu as <-.
  rewrite (up_run s (bal k) Hb) by lia. eexists. split; [done|]. apply set_bal_stepped; [done|done|lia].
Qed.

Lemma down_stepped s a k k' :
  view t s a -> at_run a = Some k -> down k = Some k' ->
  exists s', stackBalanceDown debug t s = Ok (negb (bal k' =? 0), s') /\ stepped t s s' (with_run k' a) [].
Proof.
  intros Hv Hk Hu. pose proof Hv as [Hm Hb Hf _ Hh Hr]. rewrite Hk in *. destruct (Hr k eq_refl) as [Hr1 Hr2].
  unfold down in Hu. destruct (Z.leb_spec 1 (bal k)); [|done]. injection Hu as <-.
  rewrite (down_run s (bal k) Hb) by lia. eexists. split; [done|]. apply set_bal_stepped; [done|done|lia].
Qed.

Lemma lose_stepped s a k a' out :
  view t s a -> at_run a = Some k -> bal k = 0 -> finish (isPassiveRun s) k a = Some (a', out) ->
  exists s', loseCurrentThread debug t s = Ok (tt, s') /\ stepped t s s' a' out.
Proof.
  intros Hv Hk Hb0 Hfin. pose proof Hv as [Hm Hb Hf _ Hh Hr]. rewrite Hk in Hb, Hf, Hh. simpl in Hb, Hf.
  unfold finish in Hfin. destruct (_ && _) eqn:E; [|done]. injection Hfin as <- <-. apply andb_true_iff in E as [E1 E2].
  apply Z.eqb_eq in E1. unfold loseCurrentThread. run_step (assert_run s (bal k) Hb). rewrite st_get_bind.
  unfold profiler_assert. rewrite Hb, Hf, Hb0, E1, !bool_decide_eq_true_2, andb_false_r by done.
  rewrite !st_ret_bind, (finish_run s a k Hv Hk E2). eexists. split; [done|]. by apply finished_stepped.
Qed.

Lemma leave_stepped s a k a' out :
  view t s a -> at_run a = Some k -> leave (isPassiveRun s) k a = Some (a', out) ->
  exists s', (rest ← stackBalanceDown debug t; if (rest : bool) then mret tt else loseCurrentThread debug t) s = Ok (tt, s') /\
    stepped t s s' a' out.
Proof.
  intros Hv Hk Hl. unfold leave in Hl. apply bind_Some in Hl as (k' & Hd & Hl).
  destruct (down_stepped s a k k' Hv Hk Hd) as (s1 & R & S1). run_step R.
  destruct (Z.eqb_spec (bal k') 0) as [H0|H0]; cbn [negb].
  - assert (isPassiveRun s1 = isPassiveRun s) as Hp by (pose proof (sd_config _ _ _ _ _ S1) as C; unfold config in C; congruence).
    destruct (lose_stepped s1 (with_run k' a) k' a' out (sd_view _ _ _ _ _ S1) eq_refl H0) as (s2 & R2 & S2).
    { rewrite Hp. exact Hl. }
    exists s2. split; [done|]. by apply (stepped_trans s s1 s2 (with_run k' a) a' [] out).
  - injection Hl as <- <-. by exists s1.
Qed.
End operations.

Section step.
Context (debug : bool) (t : Z).

Lemma config_eq s s' a out : stepped t s s' a out ->
  isCollectMainOnly (coverageTracker s') = isCollectMainOnly (coverageTracker s) /\ isPassiveRun s' = isPassiveRun s.
Proof. intros H. pose proof (sd_config _ _ _ _ _ H) as C. unfold config in C. split; congruence. Qed.

(** Two steps, the second of which emits. *)
Lemma then_stepped {B} (m : st ProfilerState B) (f : B -> st ProfilerState unit) s b s1 a1 a2 out :
  m s = Ok (b, s1) -> stepped t s s1 a1 [] ->
  (exists s2, f b s1 = Ok (tt, s2) /\ stepped t s1 s2 a2 out) ->
  exists s2, (m ≫= f) s = Ok (tt, s2) /\ stepped t s s2 a2 out.
Proof.
  intros R S1 (s2 & R2 & S2). exists s2. split; [by run_step R|]. by apply (stepped_trans t s s1 s2 a1 a2 [] out).
Qed.

Lemma untracked_step s a e :
  view t s a -> at_run a = None -> (forall i, e <> PMap i) -> (forall o m, e <> PEnterMain o m) -> isFinished s = false ->
  run_event debug t e s = Ok (tt, s).
Proof.
  intros [_ Hb _ _ _ _] Hn H1 H2 Hfin. rewrite Hn in Hb. simpl in Hb.
  destruct e; try (by destruct (H1 mapId)); try (by destruct (H2 o m)); simpl; try (by apply when_untracked);
    unfold ExceptionSearchFilterEnter, ExceptionSearchFilterLeave, ExceptionUnwindFunctionLeave, unless_finished;
    rewrite st_get_bind, Hfin; by apply when_untracked.
Qed.

Lemma enter_main_new s a o m :
  view t s a -> at_run a = None ->
  exists s', Track_EnterMain debug t o m 0 s = Ok (tt, s') /\
    stepped t s s' (with_run (mkTracked 1 0 [mkRecord o EnterMain t m]) a) [].
Proof.
  intros Hv Hn. pose proof Hv as [Hm Hb Hf Hu Hh _]. rewrite Hn in Hb, Hf, Hh. simpl in Hb, Hf, Hh.
  unfold Track_EnterMain. rewrite (st_bind_run _ _ s false s) by (unfold isCurrentThreadTracked, exist; rewrite st_get_bind, Hb; done).
  set (s1 := set_filt t 0 (set_bal t 0 s)).
  assert (trackCurrentThread debug t s = Ok (tt, s1)) as R1.
  { unfold trackCurrentThread, on_balances, on_filter.
    rewrite (st_bind_run _ _ s _ _ (on_part_run _ _ _ s _ _ (ts_store_run debug t (stackBalances (threadTracker s)) 0 Hb))).
    match goal with |- on_part ?g ?set _ ?s0 = _ =>
      rewrite (on_part_run g set _ s0 _ _ (ts_store_run debug t (inFilterMapping (threadTracker s)) 0 Hf)) end. done. }
  run_step R1. run_step (up_run debug t s1 0 ltac:(simpl; by rewrite lookup_insert_eq) ltac:(lia) ltac:(lia)).
  eexists. split.
  - assert (stackBalances (threadTracker (set_bal t (0 + 1) s1)) !! t = Some 1) as Hb1 by (simpl; by rewrite lookup_insert_eq).
    unfold addCoverage. run_step (assert_run debug t _ 1 Hb1).
    rewrite st_get_bind. cbv zeta. rewrite bool_decide_eq_true_2 by done.
    assert (exist t (trackedCoverage (coverageTracker (set_bal t (0 + 1) s1))) = false) as -> by (unfold exist; simpl; by rewrite Hh).
    destruct (isCollectMainOnly _); simpl; unfold on_tracked;
      match goal with |- on_part ?g ?set _ ?s0 = _ => rewrite (on_part_run g set _ s0 _ _ (ts_store_run debug t (trackedCoverage (coverageTracker s)) _ Hh)) end; done.
  - apply quiet_stepped; try done.
    + split; simpl; rewrite ?lookup_insert_eq; try done; [|intros k [= <-]; done].
      do 3 f_equal. unfold new_CoverageHistory, history_of. simpl. f_equal. set_solver.
    + intros t' Hne. simpl. by rewrite !lookup_insert_ne.
Qed.

(** [Track_Enter] and [Track_Leave] record an event unless only main is covered. *)
Lemma add_if_stepped s a k o e m :
  view t s a -> at_run a = Some k ->
  exists s', (if isCollectMainOnly (coverageTracker s) then mret tt else addCoverage debug t o e m) s = Ok (tt, s') /\
    stepped t s s' (with_run (add_if t (negb (isCollectMainOnly (coverageTracker s))) o e m k) a) [].
Proof.
  intros Hv Hk. destruct (isCollectMainOnly (coverageTracker s)); simpl.
  - exists s. split; [done|]. apply stepped_refl. unfold with_run. rewrite <- Hk. by destruct a.
  - by apply add_stepped.
Qed.

Lemma unwind_stepped s a k a' out :
  view t s a -> at_run a = Some k ->
  astep t (isCollectMainOnly (coverageTracker s)) (collectMainOnly s) (isPassiveRun s) (mainFunctionId s) PUnwindLeave a = Some (a', out) ->
  exists s', unwindFunctionLeave debug t s = Ok (tt, s') /\ stepped t s s' a' out.
Proof.
  intros Hv Hk Hs. cbn [astep] in Hs. rewrite Hk in Hs. apply bind_Some in Hs as (f & Hf & Hs). cbv zeta in Hs.
  pose proof Hv as [Vm Vb Vf Vu Vh Vr]. rewrite Hk in Vb, Vf, Vh, Vr. simpl in Vb, Vf. rewrite Hf in Vu.
  unfold unwindFunctionLeave. run_step (assert_run debug t s (bal k) Vb).
  assert (on_unwind (load 0 debug t) s = Ok (f, s)) as R1.
  { unfold on_unwind. rewrite (on_part_run _ _ _ s f _ (ts_load_run debug t 0 _ _ Vu)). unfold with_tt. by destruct s as [[] ? ? ? ? ? ?]. }
  run_step R1. set (a1 := mkAThread (at_map a) (Some k) None) in *.
  unfold on_unwind. eapply (then_stepped _ _ s tt _ a1 a' out).
  { apply (on_part_run _ _ _ s _ _ (remove_run debug t _ _ Vu)). }
  { apply quiet_stepped; try done.
    - split; simpl; rewrite ?Hk; rewrite ?lookup_delete_eq; done.
    - intros t' Hne. simpl. by rewrite lookup_delete_ne. }
  match goal with |- context [stepped t ?x _ _ _] => set (s1 := x) end. rewrite st_get_bind.
  assert (view t s1 a1) as V1 by (split; simpl; rewrite ?Hk; rewrite ?lookup_delete_eq; done).
  change (collectMainOnly s1) with (collectMainOnly s). change (mainFunctionId s1) with (mainFunctionId s).
  destruct (collectMainOnly s && negb (mainFunctionId s =? f)).
  { injection Hs as <- <-. exists s1. split; [done|]. exact (stepped_refl t s1 a1 V1). }
  assert (isInFilter debug t s1 = Ok (0 <? filt k, s1)) as R2.
  { unfold isInFilter. run_step (assert_run debug t s1 (bal k) Vb). unfold on_filter.
    rewrite (st_bind_run _ _ s1 (filt k) s1); [done|]. rewrite (on_part_run _ _ _ s1 (filt k) _ (ts_load_run debug t 0 _ _ Vf)). done. }
  run_step R2.
  assert ((if 0 <? filt k then b ← stackBalance debug t; mret (1 <? b) else mret true) s1 =
    Ok (negb ((0 <? filt k) && (bal k <=? 1)), s1)) as R3.
  { destruct (0 <? filt k); [|done]. destruct (Vr k eq_refl). run_step (balance_run debug t s1 (bal k) Vb ltac:(lia)).
    unfold mret, st_ret. do 2 f_equal. simpl. lia. }
  run_step R3. destruct ((0 <? filt k) && (bal k <=? 1)); cbn [negb].
  { injection Hs as <- <-. exists s1. split; [done|]. exact (stepped_refl t s1 a1 V1). }
  by apply (leave_stepped debug t s1 a1 k).
Qed.

(** The abstract step of an event in state [s]. *)
Local Notation step_of s e a :=
  (astep t (isCollectMainOnly (coverageTracker s)) (collectMainOnly s) (isPassiveRun s) (mainFunctionId s) e a).

Lemma map_stepped s a i a' out :
  view t s a -> step_of s (PMap i) a = Some (a', out) ->
  exists s', run_event debug t (PMap i) s = Ok (tt, s') /\ stepped t s s' a' out.
Proof.
  intros [Vm Vb Vf Vu Vh Vr] Hs. cbn [astep] in Hs. destruct (at_map a) eqn:Em; [done|]. injection Hs as <- <-.
  eexists. split; [apply (on_part_run _ _ _ s _ _ (ts_store_run debug t _ i Vm))|].
  apply quiet_stepped; try done; [by split; simpl; rewrite ?lookup_insert_eq|]. intros t' Hne. simpl. by rewrite lookup_insert_ne.
Qed.

Lemma idle_stepped s a e a' out :
  view t s a -> at_run a = None -> isFinished s = false -> step_of s e a = Some (a', out) ->
  exists s', run_event debug t e s = Ok (tt, s') /\ stepped t s s' a' out.
Proof.
  intros Hv Hk Hfin Hs.
  assert (plain a = Some (a', out) -> (forall i, e <> PMap i) -> (forall o m, e <> PEnterMain o m) ->
    exists s', run_event debug t e s = Ok (tt, s') /\ stepped t s s' a' out) as Hun.
  { intros [= <- <-] H1 H2. exists s. split; [by eapply untracked_step|]. by apply stepped_refl. }
  destruct e; try (by apply (map_stepped s a)); cbn [astep] in Hs; rewrite ?Hk in Hs; try (by apply Hun).
  injection Hs as <- <-. by apply enter_main_new.
Qed.

Lemma step_run s a e a' out :
  view t s a -> isFinished s = false ->
  step_of s e a = Some (a', out) ->
  exists s', run_event debug t e s = Ok (tt, s') /\ stepped t s s' a' out.
Proof.
  intros Hv Hfin Hs. pose proof Hv as [Vm Vb Vf Vu Vh Vr].
  destruct (at_run a) as [k|] eqn:Hk; [|by apply (idle_stepped s a)].
  simpl in Vb, Vf. pose proof (when_tracked_run t) as Hw.
  destruct e; try (by apply (map_stepped s a)); cbn [astep] in Hs; rewrite ?Hk in Hs; cbn [run_event].
  1-4: injection Hs as <- <-; unfold Track_Coverage, Track_Stsfld, Branch, Track_Call; rewrite (Hw _ s _ Vb); by apply add_stepped.
  - unfold Track_Tailcall. rewrite (Hw _ s _ Vb). apply bind_Some in Hs as (k' & Hd & [= <- <-]).
    destruct (down_stepped debug t s a k k' Hv Hk Hd) as (s1 & R & S1). eapply then_stepped; [exact R|exact S1|].
    by apply (add_stepped debug t s1 (with_run k' a) k'); [apply S1|].
  - unfold Track_Enter. rewrite (Hw _ s _ Vb), st_get_bind. apply bind_Some in Hs as (k' & Hd & [= <- <-]).
    destruct (add_if_stepped s a k o Enter m Hv Hk) as (s1 & R & S1). eapply then_stepped; [exact R|exact S1|].
    by apply (up_stepped debug t s1 _ _ k' (sd_view _ _ _ _ _ S1) eq_refl).
  - unfold Track_EnterMain. rewrite (st_bind_run _ _ s true s) by (unfold isCurrentThreadTracked, exist; rewrite st_get_bind, Vb; done).
    apply bind_Some in Hs as (k' & Hd & [= <- <-]). by apply (up_stepped debug t s a k k').
  - unfold Track_Leave. rewrite (Hw _ s _ Vb), st_get_bind. apply bind_Some in Hs as (k' & Hd & [= <- <-]).
    destruct (add_if_stepped s a k o Leave m Hv Hk) as (s1 & R & S1). eapply then_stepped; [exact R|exact S1|].
    destruct (down_stepped debug t s1 _ _ k' (sd_view _ _ _ _ _ S1) eq_refl Hd) as (s2 & R2 & S2).
    exists s2. split; [by run_step R2|done].
  - unfold Track_LeaveMain. rewrite (Hw _ s _ Vb).
    destruct (add_stepped debug t s a k o LeaveMain m Hv Hk) as (s1 & R & S1). eapply then_stepped; [exact R|exact S1|].
    apply (leave_stepped debug t s1 (with_run (add t o LeaveMain m k) a) _ a' out (sd_view _ _ _ _ _ S1) eq_refl).
    destruct (config_eq _ _ _ _ S1) as [_ ->]. unfold leave in *. destruct (down _) as [k'|]; [|done]. cbn [mbind option_bind] in *.
    destruct (bal k' =? 0); [|done]. done.
  - injection Hs as <- <-. unfold Track_Throw. rewrite (Hw _ s _ Vb). by apply add_stepped.
  - injection Hs as <- <-. unfold Finalize_Call. rewrite (Hw _ s _ Vb). exists s. split; [done|]. by apply stepped_refl.
  - unfold ExceptionSearchFilterEnter, unless_finished. rewrite st_get_bind, Hfin, (Hw _ s _ Vb).
    destruct (Z.ltb_spec (filt k + 1) (2 ^ 31)); [|done]. injection Hs as <- <-. destruct (Vr k eq_refl).
    unfold filterEnter. run_step (assert_run debug t s (bal k) Vb). run_step (filter_run debug t s (filt k) 1 Vf ltac:(lia)).
    eexists. split; [done|]. apply set_filt_stepped; [done|done|lia].
  - unfold ExceptionSearchFilterLeave, unless_finished. rewrite st_get_bind, Hfin, (Hw _ s _ Vb).
    destruct (Z.leb_spec 1 (filt k)); [|done]. injection Hs as <- <-. destruct (Vr k eq_refl).
    unfold filterLeave. run_step (assert_run debug t s (bal k) Vb). run_step (filter_run debug t s (filt k) (-1) Vf ltac:(lia)).
    eexists. split; [done|]. apply set_filt_stepped; [done|done|lia].
  - unfold ExceptionUnwindFunctionEnter. rewrite (Hw _ s _ Vb). destruct (Z.eqb_spec f 0) as [|Hf0]; [done|]. injection Hs as <- <-.
    unfold unwindFunctionEnter. run_step (assert_run debug t s (bal k) Vb). unfold profiler_assert, isCorrectFunctionId.
    destruct (Z.eqb_spec 0 f); [congruence|]. rewrite andb_false_r, st_ret_bind. eexists. split; [by apply on_part_run|].
    apply quiet_stepped; try done; [by split; simpl; rewrite ?lookup_insert_eq, ?Hk|]. intros t' Hne. simpl. by rewrite lookup_insert_ne.
  - unfold ExceptionUnwindFunctionLeave, unless_finished. rewrite st_get_bind, Hfin, (Hw _ s _ Vb).
    apply (unwind_stepped s a k); [done|done|]. cbn [astep]. by rewrite Hk.
  - destruct isThreadAbort; [done|]. injection Hs as <- <-. unfold ExceptionThrown. rewrite (Hw _ s _ Vb). exists s.
    split; [done|]. by apply stepped_refl.
Qed.
End step.

(** ** All threads together *)

Definition put_thread (t : Z) (a : athread) (A : Z -> athread) : Z -> athread := fun t' => if t' =? t then a else A t'.

Section all_threads.
Context (mo cmo passive : bool) (mainFn : Z).

Fixpoint arun (evs : list (Z * pevent)) (A : Z -> athread) : option ((Z -> athread) * list report) :=
  match evs with
  | [] => Some (A, [])
  | (t, e) :: evs =>
      '(a, out) ← astep t mo cmo passive mainFn e (A t);
      '(A, outs) ← arun evs (put_thread t a A);
      Some (A, out ++ outs)
  end.
End all_threads.

Definition run_events (debug : bool) (evs : list (Z * pevent)) : st ProfilerState unit :=
  st_fold (fun '(t, e) _ => run_event debug t e) evs tt.

Definition represents (s : ProfilerState) (A : Z -> athread) : Prop := forall t, view t s (A t).

(** C23: coverage is collected per thread, whatever the order in which the
    probes and the exception callbacks of the threads arrive: on the events that
    the machine has steps for (balances and filters that stay in range, and no
    thread aborted inside main, [thread_abort_undefined]) the tracker
    runs without an assertion failing and stands for the machine's state; each
    thread that leaves its outermost activation of main, by a return or by an
    exception, adds exactly one report, with the thread's mapped number and all
    its events in order, and the methods of the reported events become visited
    ones. *)
Theorem coverage_refines_machine debug evs s A A' outs :
  represents s A -> isFinished s = false ->
  arun (isCollectMainOnly (coverageTracker s)) (collectMainOnly s) (isPassiveRun s) (mainFunctionId s) evs A = Some (A', outs) ->
  exists s', run_events debug evs s = Ok (tt, s') /\ represents s' A' /\ config s' = config s /\
    serializedCoverage (coverageTracker s') = serializedCoverage (coverageTracker s) ++ (report_bytes <$> outs) /\
    serializedCoverageThreadIds (coverageTracker s') = serializedCoverageThreadIds (coverageTracker s) ++ (fst <$> outs) /\
    allVisitedMethods (coverageTracker s') = ⋃ (report_methods <$> outs) ∪ allVisitedMethods (coverageTracker s).
Proof.
  revert s A outs. induction evs as [|[t e] evs IH]; intros s A outs Hr Hfin H.
  - injection H as <- <-. exists s. rewrite fmap_nil, !app_nil_r. split_and!; try done. set_solver.
  - cbn [arun] in H. apply bind_Some in H as ([a out] & Ha & H). apply bind_Some in H as ([A1 outs1] & H1 & [= <- <-]).
    destruct (step_run debug t s (A t) e a out (Hr t) Hfin Ha) as (s1 & R & [V F C S I M]).
    pose proof C as C'. unfold config in C'. injection C' as C1 C2 C3 C4 C5 C6 C7.
    destruct (IH s1 (put_thread t a A) outs1) as (s2 & R2 & Hr2 & Cf & S2 & I2 & M2).
    + intros t'. unfold put_thread. destruct (Z.eqb_spec t' t) as [->|Hne]; [done|]. by apply F.
    + congruence.
    + by rewrite C1, C3, C4, C7.
    + exists s2. split; [unfold run_events; cbn [st_fold]; by run_step R|]. split; [done|]. split; [congruence|].
      rewrite S2, S, I2, I, M2, M, !fmap_app, <- !app_assoc, union_list_app_L. split_and!; try done. set_solver.
Qed.

(** Two threads that cover a method twice, one of them left by an exception. *)
Definition idle : athread := mkAThread None None None.
Definition sample_events : list (Z * pevent) :=
  [(11, PMap 1); (12, PMap 2); (11, PEnterMain 0 0); (12, PEnterMain 0 0); (11, PBranch 5 0); (12, PEnterMain 0 0);
   (12, PLeaveMain 9 0); (11, PLeaveMain 9 0); (12, PThrow 7 0);
   (12, PExceptionThrown false); (13, PExceptionThrown true); (12, PUnwindEnter 77); (12, PUnwindLeave)].
Definition sample_state : ProfilerState :=
  mkProfilerState new_ThreadTracker (new_CoverageTracker true) false true false None 77.
Definition sample_run : (Z -> athread) * list report :=
  default ((fun _ => idle), []) (arun true true false 77 sample_events (fun _ => idle)).

Lemma sample_represents : represents sample_state (fun _ => idle).
Proof. intros t. by split. Qed.

Lemma coverage_refines_machine_witness :
  exists s', run_events true sample_events sample_state = Ok (tt, s') /\
    serializedCoverage (coverageTracker s') = report_bytes <$>
      [(1, [mkRecord 0 EnterMain 11 0; mkRecord 5 BranchHit 11 0; mkRecord 9 LeaveMain 11 0]);
       (2, [mkRecord 0 EnterMain 12 0; mkRecord 9 LeaveMain 12 0; mkRecord 7 Leave 12 0])].
Proof.
  destruct (coverage_refines_machine true sample_events sample_state (fun _ => idle) (fst sample_run) (snd sample_run)
    sample_represents eq_refl) as (s' & R & _ & _ & S & _).
  - vm_compute. reflexivity.
  - exists s'. split; [exact R|]. rewrite S. vm_compute. reflexivity.
Defined.

(** aborting a covered thread is undefined: [invocationAborted] replaces the
    history by a null pointer, and [invocationFinished] reads the history's
    methods before it compares the pointer with null, although it has a case
    for aborted threads. *)
Theorem thread_abort_undefined debug t s a k :
  view t s a -> at_run a = Some k -> ExceptionThrown debug t true s = Err Undefined.
Proof.
  intros [Hm Hb _ _ Hh _] Hk. rewrite Hk in Hb, Hh. simpl in Hb, Hh. unfold ExceptionThrown. rewrite (when_tracked_run t _ s _ Hb).
  unfold invocationAborted, on_tracked. rewrite st_bind_assoc.
  rewrite (st_bind_run _ _ s _ _ (on_part_run _ _ _ s _ _ (update_run debug t None (fun _ => Ok None) _ _ None Hh eq_refl))).
  rewrite st_ret_bind. unfold abortCurrentThread, onCurrentThreadFinished. apply st_bind_err. unfold invocationFinished.
  set (s1 := with_tracked _ s).
  assert (trackedCoverage (coverageTracker s1) !! t = Some None) as Hh1 by (simpl; by rewrite lookup_insert_eq).
  run_step (loaded_tracked debug t s1 None Hh1).
  rewrite (st_bind_run _ _ s1 (exist t (threadIdMapping (threadTracker s1))) s1) by done.
  run_step (mapped_run debug t s1 a Hm). done.
Qed.

(** A thread that has entered main. *)
Definition running : tracked := mkTracked 1 0 [mkRecord 0 EnterMain 11 0].
Definition running_state : ProfilerState :=
  mkProfilerState (mkThreadTracker {[11 := 1]} {[11 := 1]} ∅ {[11 := 0]})
    (mkCoverageTracker true [] ∅ {[11 := Some (history_of (hist running))]} [] []) false true false None 77.

Lemma running_view : view 11 running_state (mkAThread (Some 1) (Some running) None).
Proof. split; try reflexivity. intros k [= <-]. simpl. lia. Qed.

Lemma thread_abort_undefined_witness : ExceptionThrown true 11 true running_state = Err Undefined.
Proof. apply (thread_abort_undefined true 11 running_state _ running running_view). reflexivity. Defined.
