(* ===== verification/CovReport.v ===== *)
(** * The coverage report and its reader

    [CoverageTracker::serializeCoverageReport] writes the report that the
    managed side reads with [VSharp.Utils/CoverageDeserializer.fs].  The reader
    is modelled here from its F# source, and reading what the tracker wrote is
    shown to give back the methods and the histories.

    The reader keeps an offset into its array; here its state is the rest of the
    array, and an exception is an error of the monad.  A .NET string is the list
    of its UTF-16 units. *)

From S2P Require Import Prelude CovTracker CovSpec.
Local Open Scope Z_scope.

(** ** CoverageDeserializer *)

Definition reader (A : Type) : Type := st (list Z) A.
(** The next [n] bytes; [BitConverter], [Array.sub] and [Slice] throw when there
    are fewer. *)
Definition next_bytes (n : nat) : reader (list Z) := fun data =>
  match take_bytes n data with Some (b, rest) => Ok (b, rest) | None => Err (Thrown "out of range") end.

Definition readInt32 : reader Z := b ← next_bytes 4; mret (sint 32 (le_Z b)).
Definition readUInt32 : reader Z := b ← next_bytes 4; mret (le_Z b).
Definition readUInt64 : reader Z := b ← next_bytes 8; mret (le_Z b).

(** [Encoding.Unicode.GetString]. *)
Fixpoint GetString (bytes : list Z) : list Z :=
  match bytes with
  | b0 :: b1 :: bytes => le_Z [b0; b1] :: GetString bytes
  | _ => []
  end.

(** The last character is counted but is not part of the string. *)
Definition readString : reader (list Z) :=
  size ← readUInt32;
  let count := sint 32 (2 * sint 32 size - 2) in
  if count <? 0 then st_fail (Thrown "count") else
  result ← next_bytes (Z.to_nat count);
  st_modify (drop 2);;
  mret (GetString result).

Record RawMethodInfo := mkRawMethod {
  methodToken : Z;
  raw_moduleName : list Z;
  raw_assemblyName : list Z
}.
Record RawCoverageLocation := mkRawLocation {
  raw_offset : Z;
  raw_event : Z;
  raw_methodId : Z;
  raw_threadId : Z
}.
Record RawCoverageReport := mkRawReport {
  threadId : Z;
  rawCoverageLocations : list RawCoverageLocation
}.
Record RawCoverageReports := mkRawReports {
  methods : gmap Z RawMethodInfo;
  reports : list RawCoverageReport
}.

Definition deserializeMethodData : reader RawMethodInfo :=
  methodToken ← readUInt32;
  assemblyName ← readString;
  moduleName ← readString;
  mret (mkRawMethod methodToken moduleName assemblyName).

Fixpoint read_elements {A} (n : nat) (elementDeserializer : reader A) : reader (list A) :=
  match n with
  | O => mret []
  | S n => a ← elementDeserializer; l ← read_elements n elementDeserializer; mret (a :: l)
  end.

(** [Array.init] throws on a negative size. *)
Definition deserializeArray {A} (elementDeserializer : reader A) : reader (list A) :=
  arraySize ← readInt32;
  if arraySize <? 0 then st_fail (Thrown "count") else read_elements (Z.to_nat arraySize) elementDeserializer.

(** [Dictionary.Add] throws when the key is present. *)
Fixpoint read_entries {A} (n : nat) (keyDeserializer : reader Z) (elementDeserializer : reader A)
    (dictionary : gmap Z A) : reader (gmap Z A) :=
  match n with
  | O => mret dictionary
  | S n =>
      index ← keyDeserializer;
      element ← elementDeserializer;
      match dictionary !! index with
      | Some _ => st_fail (Thrown "An item with the same key has already been added")
      | None => read_entries n keyDeserializer elementDeserializer (<[index := element]> dictionary)
      end
  end.
Definition deserializeDictionary {A} (keyDeserializer : reader Z) (elementDeserializer : reader A) : reader (gmap Z A) :=
  dictionarySize ← readInt32;
  read_entries (Z.to_nat dictionarySize) keyDeserializer elementDeserializer ∅.

(** The fields of a location at their offsets in its 20 bytes. *)
Definition cast_location (b : list Z) : RawCoverageLocation :=
  mkRawLocation (le_Z (take 4 b)) (sint 32 (le_Z (take 4 (drop 4 b)))) (sint 32 (le_Z (take 4 (drop 8 b))))
    (le_Z (take 8 (drop 12 b))).
Fixpoint cast_locations (n : nat) (b : list Z) : list RawCoverageLocation :=
  match n with
  | O => []
  | S n => cast_location (take 20 b) :: cast_locations n (drop 20 b)
  end.
Definition deserializeCoverageInfoFast : reader (list RawCoverageLocation) :=
  count ← readInt32;
  let bytesCount := sint 32 (20 * count) in
  if bytesCount <? 0 then st_fail (Thrown "count") else
  b ← next_bytes (Z.to_nat bytesCount);
  mret (cast_locations (Z.to_nat (bytesCount / 20)) b).

Definition deserializeRawReport : reader RawCoverageReport :=
  threadId ← readInt32;
  threadAborted ← readInt32;
  if threadAborted =? 1 then mret (mkRawReport threadId [])
  else l ← deserializeCoverageInfoFast; mret (mkRawReport threadId l).

Definition deserializeRawReports : reader RawCoverageReports :=
  methods ← deserializeDictionary readInt32 deserializeMethodData;
  reports ← deserializeArray deserializeRawReport;
  mret (mkRawReports methods reports).

Definition getRawReports (bytes : list Z) : result RawCoverageReports :=
  match deserializeRawReports bytes with
  | Ok (r, _) => Ok r
  | Err _ => Err (Thrown "CoverageDeserialization failed!")
  end.

Record CoverageLocation := mkLocation {
  cl_assemblyName : list Z;
  cl_moduleName : list Z;
  cl_methodToken : Z;
  cl_offset : Z
}.
Record CoverageReport := mkReport {
  cr_threadId : Z;
  coverageLocations : list CoverageLocation
}.

(** [rawReports.methods[x.methodId]] throws when the key is missing: [None]. *)
Definition toLocation (rawReports : RawCoverageReports) (x : RawCoverageLocation) : option CoverageLocation :=
  method ← methods rawReports !! raw_methodId x;
  Some (mkLocation (raw_assemblyName method) (raw_moduleName method) (sint 32 (methodToken method)) (sint 32 (raw_offset x))).
Definition toReport (rawReports : RawCoverageReports) (x : RawCoverageReport) : option CoverageReport :=
  l ← mapM (toLocation rawReports) (rawCoverageLocations x);
  Some (mkReport (threadId x) l).
Definition reportsFromRawReports (rawReports : RawCoverageReports) : option (list CoverageReport) :=
  mapM (toReport rawReports) (reports rawReports).

(** ** Reading what was written *)

(** [m] reads [a] from the bytes [b], whatever follows. *)
Definition reads {A} (m : reader A) (b : list Z) (a : A) : Prop := forall rest, m (b ++ rest) = Ok (a, rest).

Lemma reads_bind {A B} (m : reader A) (f : A -> reader B) b1 b2 a c :
  reads m b1 a -> reads (f a) b2 c -> reads (m ≫= f) (b1 ++ b2) c.
Proof. intros H1 H2 rest. rewrite <- app_assoc. run_step (H1 (b2 ++ rest)). apply H2. Qed.

Lemma reads_ret {A B} (m : reader A) (f : A -> B) b a :
  reads m b a -> reads (a ← m; mret (f a)) b (f a).
Proof. intros H rest. by run_step (H rest). Qed.

Lemma reads_next n b : length b = n -> reads (next_bytes n) b b.
Proof. intros <- rest. unfold next_bytes. by rewrite take_bytes_app. Qed.

Lemma reads_uint32 z : is_uint 32 z -> reads readUInt32 (le_bytes 4 z) z.
Proof.
  intros H rest. unfold readUInt32. run_step (reads_next 4 (le_bytes 4 z) (length_le_bytes 4 z) rest).
  rewrite le_Z_bytes, wrap_small by done. done.
Qed.

Lemma reads_int32 z : is_sint 32 z -> reads readInt32 (le_bytes 4 z) z.
Proof.
  intros H rest. unfold readInt32. run_step (reads_next 4 (le_bytes 4 z) (length_le_bytes 4 z) rest).
  rewrite le_Z_bytes, sint_wrap, sint_small by done. done.
Qed.

(** *** Strings *)

Lemma GetString_chars l : Forall (is_uint 16) l -> GetString (flat_map (le_bytes 2) l) = l.
Proof.
  induction 1 as [|c l Hc Hl IH]; [done|].
  change (le_Z (le_bytes 2 c) :: GetString (flat_map (le_bytes 2) l) = c :: l).
  rewrite IH, le_Z_bytes. f_equal. by apply wrap_small.
Qed.

Lemma length_chars l : length (flat_map (le_bytes 2) l) = (2 * length l)%nat.
Proof. induction l as [|c l IH]; [done|]. cbn [flat_map length]. rewrite length_app, length_le_bytes, IH. lia. Qed.

(** A name: characters, and the zero that ends them. *)
Definition is_name (name : list Z) (len : Z) : Prop :=
  Z.of_nat (length name) = len /\ 1 <= len < 2 ^ 30 /\ Forall (is_uint 16) name.

Lemma reads_string name len :
  is_name name len -> reads readString (le_bytes 4 len ++ flat_map (le_bytes 2) name) (removelast name).
Proof.
  intros (Hl & Hr & Hc). assert (name <> []) as Hne by (intros ->; simpl in Hl; lia).
  destruct (exists_last Hne) as (l & z & ->). rewrite removelast_last. apply Forall_app in Hc as [Hc _].
  rewrite length_app in Hl. simpl in Hl.
  apply reads_bind with len; [apply reads_uint32; unfold is_uint; lia|]. intros rest.
  rewrite (sint_uint 32 len), (sint_uint 32 (2 * len - 2)) by lia. cbv zeta.
  destruct (Z.ltb_spec (2 * len - 2) 0); [lia|]. rewrite flat_map_app, <- app_assoc.
  run_step (reads_next (Z.to_nat (2 * len - 2)) (flat_map (le_bytes 2) l) ltac:(rewrite length_chars; lia)
              (flat_map (le_bytes 2) [z] ++ rest)).
  cbv beta. rewrite st_modify_bind, GetString_chars by done. done.
Qed.

(** *** Methods *)

Definition info_ok (m : MethodInfo) : Prop :=
  is_uint 32 (token m) /\ is_name (assemblyName m) (assemblyNameLength m) /\ is_name (moduleName m) (moduleNameLength m).
Definition info_bytes (m : MethodInfo) : list Z :=
  le_bytes 4 (token m) ++ (le_bytes 4 (assemblyNameLength m) ++ flat_map (le_bytes 2) (assemblyName m)) ++
  (le_bytes 4 (moduleNameLength m) ++ flat_map (le_bytes 2) (moduleName m)).
Definition raw_info (m : MethodInfo) : RawMethodInfo :=
  mkRawMethod (token m) (removelast (moduleName m)) (removelast (assemblyName m)).

Lemma serialize_array name len v :
  is_name name len -> serializePrimitiveArray 2 name len v = Ok (v ++ flat_map (le_bytes 2) name).
Proof.
  intros (Hl & Hr & _). unfold serializePrimitiveArray, read_at.
  destruct (_ && _) eqn:E; [|exfalso; lia]. by rewrite <- Hl, Nat2Z.id, drop_0, firstn_all.
Qed.

Lemma serialize_info m v : info_ok m -> MethodInfo_serialize m v = Ok (v ++ info_bytes m).
Proof.
  intros (_ & Ha & Hm). unfold MethodInfo_serialize. rewrite serialize_array by done.
  cbn [mbind result_bind]. rewrite serialize_array by done. unfold serializePrimitive, info_bytes. by rewrite <- !app_assoc.
Qed.

Lemma reads_info m : info_ok m -> reads deserializeMethodData (info_bytes m) (raw_info m).
Proof.
  intros (Ht & Ha & Hm). apply reads_bind with (token m); [by apply reads_uint32|].
  apply reads_bind with (removelast (assemblyName m)); [by apply reads_string|].
  by apply (reads_ret readString (fun n => mkRawMethod (token m) n _)), reads_string.
Qed.

Definition entry_bytes (e : Z * MethodInfo) : list Z := le_bytes 4 (fst e) ++ info_bytes (snd e).
Definition entry_ok (e : Z * MethodInfo) : Prop := is_sint 32 (fst e) /\ info_ok (snd e).

Lemma serialize_entries l v :
  Forall entry_ok l -> serialize_methods l v = Ok (v ++ flat_map entry_bytes l).
Proof.
  intros H. revert v. induction H as [|[i m] l [_ Hm] Hl IH]; intros v; cbn [serialize_methods]; [by rewrite app_nil_r|].
  rewrite serialize_info by done. cbn [mbind result_bind]. rewrite IH. unfold serializePrimitive. cbn [flat_map].
  unfold entry_bytes at 2. by rewrite <- !app_assoc.
Qed.

Lemma reads_entries l d :
  Forall entry_ok l -> NoDup (fst <$> l) -> (forall i, i ∈ fst <$> l -> d !! i = None) ->
  reads (read_entries (length l) readInt32 deserializeMethodData d) (flat_map entry_bytes l)
    (list_to_map (prod_map id raw_info <$> l) ∪ d).
Proof.
  intros H. revert d. induction H as [|[i m] l [Hi Hm] Hl IH]; intros d Hnd Hd rest; cbn [length read_entries flat_map].
  { unfold mret, st_ret. do 2 f_equal. simpl. by rewrite (left_id_L ∅ (∪)). }
  cbn [fmap list_fmap fst] in Hnd. apply NoDup_cons in Hnd as [Hni Hnd]. unfold entry_bytes at 1. cbn [fst snd].
  rewrite <- !app_assoc. run_step (reads_int32 i Hi (info_bytes m ++ flat_map entry_bytes l ++ rest)).
  run_step (reads_info m Hm (flat_map entry_bytes l ++ rest)).
  rewrite (Hd i) by (simpl; set_solver). rewrite IH; [|done|].
  - do 2 f_equal. cbn [fmap list_fmap prod_map list_to_map foldr fst snd]. unfold id.
    rewrite <- insert_union_r, insert_union_l; [done|]. apply not_elem_of_list_to_map_1.
    by rewrite <- list_fmap_compose.
  - intros j Hj. rewrite lookup_insert_ne by (intros ->; done). apply Hd. set_solver.
Qed.

(** *** Histories *)

Definition record_ok (r : CoverageRecord) : Prop :=
  is_uint 32 (offset r) /\ is_sint 32 (methodId r) /\ is_uint 64 (thread r).
Definition raw_record (r : CoverageRecord) : RawCoverageLocation :=
  mkRawLocation (offset r) (event_code (event r)) (methodId r) (thread r).
Definition report_ok (r : report) : Prop :=
  is_sint 32 (fst r) /\ 20 * Z.of_nat (length (snd r)) < 2 ^ 31 /\ Forall record_ok (snd r).
Definition raw_report (r : report) : RawCoverageReport := mkRawReport (fst r) (raw_record <$> snd r).
Definition empty_report (id : Z) : RawCoverageReport := mkRawReport id [].

Lemma length_record_bytes r : length (record_bytes r) = 20%nat.
Proof. unfold record_bytes. by rewrite !length_app, !length_le_bytes. Qed.

Lemma length_records l : length (flat_map record_bytes l) = (20 * length l)%nat.
Proof. induction l as [|r l IH]; [done|]. cbn [flat_map length]. rewrite length_app, length_record_bytes, IH. lia. Qed.

Lemma event_code_int e : is_sint 32 (event_code e).
Proof. unfold is_sint. destruct e; simpl; lia. Qed.

Lemma take_le_bytes n m z b : take n (drop (length m) (m ++ le_bytes n z ++ b)) = le_bytes n z.
Proof. rewrite drop_app_length, take_app_le by (rewrite length_le_bytes; lia). rewrite take_ge; [done|]. rewrite length_le_bytes. lia. Qed.

Lemma cast_record r : record_ok r -> cast_location (record_bytes r) = raw_record r.
Proof.
  intros (Ho & Hm & Ht). unfold cast_location, record_bytes.
  set (b1 := le_bytes 4 (offset r)). set (b2 := le_bytes 4 (event_code (event r))). set (b3 := le_bytes 4 (methodId r)).
  assert (length b1 = 4 /\ length (b1 ++ b2) = 8 /\ length (b1 ++ b2 ++ b3) = 12)%nat as (L1 & L2 & L3)
    by (subst b1 b2 b3; rewrite !length_app, !length_le_bytes; done).
  pose proof (take_le_bytes 4 [] (offset r) (b2 ++ b3 ++ le_bytes 8 (thread r))) as E1.
  pose proof (take_le_bytes 4 b1 (event_code (event r)) (b3 ++ le_bytes 8 (thread r))) as E2.
  pose proof (take_le_bytes 4 (b1 ++ b2) (methodId r) (le_bytes 8 (thread r))) as E3.
  pose proof (take_le_bytes 8 (b1 ++ b2 ++ b3) (thread r) []) as E4.
  rewrite L1 in E2. rewrite L2 in E3. rewrite L3 in E4. cbn [length app] in E1. rewrite drop_0 in E1. rewrite app_nil_r in E4.
  rewrite <- app_assoc in E3. rewrite <- !app_assoc in E4. subst b1 b2 b3. rewrite E1, E2, E3, E4, !le_Z_bytes. unfold raw_record.
  rewrite !sint_wrap, !sint_small by (done || apply event_code_int). by rewrite !wrap_small.
Qed.

Lemma cast_records l b : Forall record_ok l -> cast_locations (length l) (flat_map record_bytes l ++ b) = raw_record <$> l.
Proof.
  induction 1 as [|r l Hr Hl IH]; [done|]. cbn [length cast_locations flat_map fmap list_fmap]. rewrite <- app_assoc.
  rewrite (take_app_le (record_bytes r)), take_ge, drop_app_ge by (rewrite length_record_bytes; lia).
  rewrite length_record_bytes. by rewrite cast_record, drop_0, IH.
Qed.

Lemma reads_records l :
  Forall record_ok l -> 20 * Z.of_nat (length l) < 2 ^ 31 ->
  reads deserializeCoverageInfoFast (le_bytes 4 (Z.of_nat (length l)) ++ flat_map record_bytes l) (raw_record <$> l).
Proof.
  intros Hl Hn. apply reads_bind with (Z.of_nat (length l)); [apply reads_int32; unfold is_sint; lia|].
  intros rest. rewrite (sint_uint 32) by lia. cbv zeta. destruct (Z.ltb_spec (20 * Z.of_nat (length l)) 0); [lia|].
  run_step (reads_next (Z.to_nat (20 * Z.of_nat (length l))) (flat_map record_bytes l) ltac:(rewrite length_records; lia) rest).
  rewrite (Z.mul_comm 20), Z.div_mul, Nat2Z.id by lia. unfold mret, st_ret.
  by rewrite <- (app_nil_r (flat_map record_bytes l)), cast_records.
Qed.

Lemma reads_report r : report_ok r -> reads deserializeRawReport (report_bytes r) (raw_report r).
Proof.
  intros (Hi & Hn & Hl). apply reads_bind with (fst r); [by apply reads_int32|].
  apply reads_bind with 0; [by apply reads_int32|].
  by apply (reads_ret deserializeCoverageInfoFast (mkRawReport (fst r))), reads_records.
Qed.

Definition empty_bytes (id : Z) : list Z := le_bytes 4 id ++ le_bytes 4 1.

Lemma reads_empty id : is_sint 32 id -> reads deserializeRawReport (empty_bytes id) (empty_report id).
Proof.
  intros Hi. apply reads_bind with id; [by apply reads_int32|]. rewrite <- (app_nil_r (le_bytes 4 1)).
  by apply reads_bind with 1; [apply reads_int32|].
Qed.

Lemma reads_elements {A} (m : reader A) bs l :
  Forall2 (reads m) bs l -> reads (read_elements (length l) m) (concat bs) l.
Proof.
  induction 1 as [|b a bs l Hb Hl IH]; [by intros rest|]. cbn [length read_elements concat].
  apply reads_bind with a; [done|]. by apply (reads_ret _ (cons a)).
Qed.

(** ** The report *)

(** Threads that are mapped but have no report get an empty one. *)
Fixpoint unreported (seen ids : list Z) : list Z :=
  match ids with
  | [] => []
  | id :: ids => if bool_decide (id ∈ seen) then unreported seen ids else id :: unreported (seen ++ [id]) ids
  end.

Lemma elem_of_unreported seen ids id : id ∈ unreported seen ids <-> id ∈ ids /\ id ∉ seen.
Proof.
  revert seen. induction ids as [|i ids IH]; intros seen; simpl; [set_solver|]. case_bool_decide.
  - rewrite IH. set_solver.
  - rewrite elem_of_cons, IH. destruct (decide (id = i)); set_solver.
Qed.

Lemma NoDup_unreported seen ids : NoDup (unreported seen ids).
Proof.
  revert seen. induction ids as [|i ids IH]; intros seen; simpl; [constructor|]. case_bool_decide; [done|].
  constructor; [|done]. rewrite elem_of_unreported. set_solver.
Qed.

Definition with_empty (ids : list Z) (c : CoverageTracker) : CoverageTracker :=
  mkCoverageTracker (isCollectMainOnly c) (collectedMethods c) (allVisitedMethods c) (trackedCoverage c)
    (serializedCoverage c ++ (empty_bytes <$> ids)) (serializedCoverageThreadIds c ++ ids).

Lemma empty_coverage_spec mapping c :
  empty_coverage mapping c = with_empty (unreported (serializedCoverageThreadIds c) (snd <$> mapping)) c.
Proof.
  revert c. induction mapping as [|[t id] mapping IH]; intros c; [destruct c; unfold with_empty; simpl; by rewrite !app_nil_r|].
  cbn [empty_coverage foldl fmap list_fmap unreported snd]. fold (empty_coverage mapping).
  case_bool_decide; [apply IH|]. etrans; [apply IH|]. unfold with_empty. cbn [isCollectMainOnly collectedMethods allVisitedMethods
    trackedCoverage serializedCoverage serializedCoverageThreadIds]. by rewrite <- !app_assoc.
Qed.

Lemma append_all (bs : list (list Z)) buffer : foldl (fun buffer cov => buffer ++ cov) buffer bs = buffer ++ concat bs.
Proof. revert buffer. induction bs as [|b bs IH]; intros buffer; simpl; [by rewrite app_nil_r|]. by rewrite IH, app_assoc. Qed.

(** What the report of [s] is about. *)
Record report_wf (s : ProfilerState) (reps : list report) : Prop := {
  rw_coverage : serializedCoverage (coverageTracker s) = report_bytes <$> reps;
  rw_reports : Forall report_ok reps;
  rw_methods : Forall info_ok (collectedMethods (coverageTracker s));
  rw_mapped : Forall (fun e => is_sint 32 (snd e)) (getMapping s);
  rw_number : Z.of_nat (length (collectedMethods (coverageTracker s))) < 2 ^ 31;
  rw_count : Z.of_nat (length reps + length (getMapping s)) < 2 ^ 31
}.

Definition missing (s : ProfilerState) : list Z :=
  unreported (serializedCoverageThreadIds (coverageTracker s)) (snd <$> getMapping s).
Definition raw_of (s : ProfilerState) (reps : list report) : RawCoverageReports :=
  mkRawReports (list_to_map (prod_map id raw_info <$> methodsToSerialize (coverageTracker s)))
    ((raw_report <$> reps) ++ (empty_report <$> missing s)).

Lemma unreported_length seen ids : (length (unreported seen ids) <= length ids)%nat.
Proof.
  revert seen. induction ids as [|i ids IH]; intros seen; simpl; [lia|]. case_bool_decide; simpl.
  - specialize (IH seen). lia.
  - specialize (IH (seen ++ [i])). lia.
Qed.

Lemma elem_of_methodsToSerialize c i m :
  (i, m) ∈ methodsToSerialize c <->
  i ∈ allVisitedMethods c /\ 0 <= i /\ collectedMethods c !! Z.to_nat i = Some m.
Proof.
  unfold methodsToSerialize. rewrite list_elem_of_filter. simpl. split.
  - intros [Hv (j & y & [= -> ->] & Hj)%elem_of_lookup_imap]. rewrite Nat2Z.id. split_and!; [done|lia|done].
  - intros (Hv & H0 & Hm). split; [done|]. apply elem_of_lookup_imap. exists (Z.to_nat i), m.
    split; [|done]. f_equal. lia.
Qed.

Lemma NoDup_methodsToSerialize c : NoDup (fst <$> methodsToSerialize c).
Proof.
  unfold methodsToSerialize. set (l := imap _ _).
  assert (NoDup (fst <$> l)) as Hl.
  { subst l. rewrite fmap_imap. apply NoDup_alt. intros i j x Hi Hj.
    rewrite list_lookup_imap in Hi, Hj. apply fmap_Some in Hi as (? & _ & ->). apply fmap_Some in Hj as (? & _ & E).
    simpl in E. lia. }
  clearbody l. induction l as [|[i m] l IH]; [done|]. simpl in Hl. apply NoDup_cons in Hl as [Hi Hl].
  rewrite filter_cons. case_decide; [|by apply IH]. simpl. constructor; [|by apply IH].
  intros Hin. apply Hi. apply list_elem_of_fmap in Hin as (e & -> & He). apply list_elem_of_fmap. exists e. split; [done|].
  by apply list_elem_of_filter in He as [_ He].
Qed.

Lemma entries_ok s reps : report_wf s reps -> Forall entry_ok (methodsToSerialize (coverageTracker s)).
Proof.
  intros W. apply Forall_forall. intros [i m] (_ & H0 & Hm)%elem_of_methodsToSerialize. split; simpl.
  - pose proof (lookup_lt_Some _ _ _ Hm). pose proof (rw_number _ _ W). unfold is_sint. lia.
  - apply (Forall_lookup_1 _ _ _ _ (rw_methods _ _ W) Hm).
Qed.

Lemma methodsToSerialize_length c : (length (methodsToSerialize c) <= length (collectedMethods c))%nat.
Proof. unfold methodsToSerialize. rewrite length_filter. rewrite length_imap. done. Qed.

(** The state after a report: the histories are gone, the numbers of the
    reported threads stay. *)
Definition after_report (s : ProfilerState) : ProfilerState := let c := coverageTracker s in
  with_ct (mkCoverageTracker (isCollectMainOnly c) (collectedMethods c) (allVisitedMethods c) ∅ []
    (serializedCoverageThreadIds c ++ missing s)) s.

Lemma reads_dictionary l :
  Forall entry_ok l -> NoDup (fst <$> l) -> Z.of_nat (length l) < 2 ^ 31 ->
  reads (deserializeDictionary readInt32 deserializeMethodData) (le_bytes 4 (Z.of_nat (length l)) ++ flat_map entry_bytes l)
    (list_to_map (prod_map id raw_info <$> l)).
Proof.
  intros Hl Hnd Hn. apply reads_bind with (Z.of_nat (length l)); [apply reads_int32; unfold is_sint; lia|].
  rewrite Nat2Z.id, <- (right_id_L ∅ (∪) (list_to_map _)). by apply reads_entries.
Qed.

Lemma reads_array {A} (m : reader A) bs l :
  Forall2 (reads m) bs l -> Z.of_nat (length l) < 2 ^ 31 ->
  reads (deserializeArray m) (le_bytes 4 (Z.of_nat (length l)) ++ concat bs) l.
Proof.
  intros H Hn. apply reads_bind with (Z.of_nat (length l)); [apply reads_int32; unfold is_sint; lia|].
  destruct (Z.ltb_spec (Z.of_nat (length l)) 0); [lia|]. rewrite Nat2Z.id. by apply reads_elements.
Qed.

Lemma reads_reports s reps :
  report_wf s reps ->
  Forall2 (reads deserializeRawReport) ((report_bytes <$> reps) ++ (empty_bytes <$> missing s)) (reports (raw_of s reps)).
Proof.
  intros W. apply Forall2_app; rewrite Forall2_fmap; apply Forall_Forall2_diag.
  - exact (Forall_impl _ _ _ (rw_reports _ _ W) reads_report).
  - apply Forall_forall. intros id [Hid _]%elem_of_unreported. apply reads_empty.
    apply list_elem_of_fmap in Hid as (e & -> & Hin). by apply (proj1 (Forall_forall _ _) (rw_mapped _ _ W)).
Qed.

Lemma report_read s reps :
  report_wf s reps ->
  exists bytes, serializeCoverageReport s = Ok (bytes, after_report s) /\ getRawReports bytes = Ok (raw_of s reps).
Proof.
  intros W. pose proof (reads_reports s reps W) as Hrs. pose proof (Forall2_length _ _ _ Hrs) as Hlen.
  assert (Z.of_nat (length (reports (raw_of s reps))) < 2 ^ 31) as Hn.
  { pose proof (rw_count _ _ W) as Hc. pose proof (unreported_length (serializedCoverageThreadIds (coverageTracker s)) (snd <$> getMapping s)) as Hu.
    simpl. unfold missing. rewrite length_app, !length_fmap. rewrite length_fmap in Hu. lia. }
  pose proof (reads_array _ _ _ Hrs Hn []) as Ra. rewrite app_nil_r in Ra.
  unfold serializeCoverageReport. rewrite st_get_bind. cbv zeta.
  rewrite (st_bind_run _ _ s _ s) by (unfold st_lift; rewrite serialize_entries by exact (entries_ok s reps W); reflexivity).
  rewrite empty_coverage_spec, append_all. unfold with_empty. cbn [isCollectMainOnly collectedMethods allVisitedMethods
    trackedCoverage serializedCoverage serializedCoverageThreadIds]. fold (missing s).
  rewrite st_modify_bind. eexists. split; [reflexivity|].
  pose proof (methodsToSerialize_length (coverageTracker s)) as Lm. pose proof (rw_number _ _ W) as Hm.
  pose proof (reads_dictionary _ (entries_ok s reps W) (NoDup_methodsToSerialize _) ltac:(lia)) as Rd.
  unfold getRawReports, deserializeRawReports, serializePrimitive. rewrite (rw_coverage _ _ W), Hlen. cbn [app].
  rewrite <- (app_assoc _ (le_bytes 4 (Z.of_nat (length (reports _))))).
  unfold mbind at 1, st_bind at 1. rewrite Rd. unfold mbind at 1, st_bind at 1. by rewrite Ra.
Qed.

(** ** From the probes to the engine *)

(** The location a record stands for: the names of its method, without the
    final zeros, and its offset. *)
Definition location_of (ms : list MethodInfo) (r : CoverageRecord) : option CoverageLocation :=
  m ← ms !! Z.to_nat (methodId r);
  Some (mkLocation (removelast (assemblyName m)) (removelast (moduleName m)) (sint 32 (token m)) (sint 32 (offset r))).
Definition locations_of (ms : list MethodInfo) (r : report) : option CoverageReport :=
  mkReport (fst r) <$> mapM (location_of ms) (snd r).

Lemma raw_method s reps i m :
  i ∈ allVisitedMethods (coverageTracker s) -> 0 <= i -> collectedMethods (coverageTracker s) !! Z.to_nat i = Some m ->
  methods (raw_of s reps) !! i = Some (raw_info m).
Proof.
  intros Hv H0 Hm. simpl. apply elem_of_list_to_map_1.
  - rewrite <- list_fmap_compose. apply NoDup_methodsToSerialize.
  - apply list_elem_of_fmap. exists (i, m). split; [done|]. by apply elem_of_methodsToSerialize.
Qed.

Lemma raw_methods s reps i :
  methods (raw_of s reps) !! i =
  if bool_decide (i ∈ allVisitedMethods (coverageTracker s) /\ 0 <= i)
  then raw_info <$> collectedMethods (coverageTracker s) !! Z.to_nat i else None.
Proof.
  destruct (methods (raw_of s reps) !! i) as [x|] eqn:E.
  - apply elem_of_list_to_map_2, list_elem_of_fmap in E as ([j m] & [= -> ->] & (Hv & H0 & Hm)%elem_of_methodsToSerialize).
    rewrite bool_decide_true by done. by rewrite Hm.
  - case_bool_decide as Hb; [|done]. destruct (collectedMethods _ !! _) as [m|] eqn:Em; [|done].
    rewrite (raw_method s reps i m) in E by tauto. done.
Qed.

(** Every reported event is in a visited method with a number. *)
Definition methods_known (s : ProfilerState) (r : report) : Prop :=
  report_methods r ⊆ allVisitedMethods (coverageTracker s) /\
  Forall (fun e => 0 <= methodId e < Z.of_nat (length (collectedMethods (coverageTracker s)))) (snd r).

Lemma known_locations s reps r :
  methods_known s r ->
  exists l, locations_of (collectedMethods (coverageTracker s)) r = Some l /\ toReport (raw_of s reps) (raw_report r) = Some l.
Proof.
  intros [Hv Hk]. assert (exists l, mapM (location_of (collectedMethods (coverageTracker s))) (snd r) = Some l /\
    mapM (toLocation (raw_of s reps)) (raw_record <$> snd r) = Some l) as (l & E1 & E2).
  - unfold report_methods in Hv. induction Hk as [|e l He Hl IH]; [by exists []|].
    destruct IH as (ls & E1 & E2); [set_solver|].
    destruct (lookup_lt_is_Some_2 (collectedMethods (coverageTracker s)) (Z.to_nat (methodId e)) ltac:(lia)) as [m Hm].
    set (x := mkLocation (removelast (assemblyName m)) (removelast (moduleName m)) (sint 32 (token m)) (sint 32 (offset e))).
    assert (location_of (collectedMethods (coverageTracker s)) e = Some x) as X1 by (unfold location_of; by rewrite Hm).
    assert (toLocation (raw_of s reps) (raw_record e) = Some x) as X2.
    { unfold toLocation. cbn [raw_record raw_methodId]. rewrite (raw_method s reps (methodId e) m); [done|set_solver|lia|done]. }
    exists (x :: ls). cbn [fmap list_fmap mapM]. rewrite X1, X2. cbn [mbind option_bind]. by rewrite E1, E2.
  - exists (mkReport (fst r) l). unfold locations_of, toReport, raw_report. cbn [rawCoverageLocations threadId].
    by rewrite E1, E2.
Qed.

Lemma known_reports s reps reps' :
  Forall (methods_known s) reps ->
  exists l, mapM (locations_of (collectedMethods (coverageTracker s))) reps = Some l /\
    mapM (toReport (raw_of s reps')) (raw_report <$> reps) = Some l.
Proof.
  induction 1 as [|r reps Hr _ (l & E1 & E2)]; [by exists []|]. destruct (known_locations s reps' r Hr) as (x & X1 & X2).
  exists (x :: l). cbn [fmap list_fmap mapM]. rewrite X1, X2. cbn [mbind option_bind]. by rewrite E1, E2.
Qed.

Lemma mapM_Some_app {A B} (f : A -> option B) l1 l2 k1 k2 :
  mapM f l1 = Some k1 -> mapM f l2 = Some k2 -> mapM f (l1 ++ l2) = Some (k1 ++ k2).
Proof. rewrite !mapM_Some. apply Forall2_app. Qed.

Lemma empty_locations s reps ids :
  mapM (toReport (raw_of s reps)) (empty_report <$> ids) = Some ((fun id => mkReport id []) <$> ids).
Proof. induction ids as [|id ids IH]; [done|]. cbn [fmap list_fmap mapM]. cbn [mbind option_bind toReport]. by rewrite IH. Qed.

(** C24: what the engine reads is what the tracker collected: the report of any
    state whose stored histories are those of [reps] is written without an
    error, the histories are gone afterwards, and the engine reads from it the
    visited methods, one report per history with the names, the token and the
    offset of every event in order, and then an empty report for each mapped
    thread that has none, once. *)
Theorem report_roundtrip s reps :
  report_wf s reps -> Forall (methods_known s) reps ->
  exists bytes s' raw covered ids,
    serializeCoverageReport s = Ok (bytes, s') /\ serializedCoverage (coverageTracker s') = [] /\
    getRawReports bytes = Ok raw /\
    (forall i, methods raw !! i =
       if bool_decide (i ∈ allVisitedMethods (coverageTracker s) /\ 0 <= i)
       then raw_info <$> collectedMethods (coverageTracker s) !! Z.to_nat i else None) /\
    mapM (locations_of (collectedMethods (coverageTracker s))) reps = Some covered /\
    reportsFromRawReports raw = Some (covered ++ ((fun id => mkReport id []) <$> ids)) /\
    NoDup ids /\
    (forall id, id ∈ ids <-> (exists t, threadIdMapping (threadTracker s) !! t = Some id) /\
       id ∉ serializedCoverageThreadIds (coverageTracker s)).
Proof.
  intros W Hk. destruct (report_read s reps W) as (bytes & Hs & Hr). destruct (known_reports s reps reps Hk) as (l & L1 & L2).
  exists bytes, (after_report s), (raw_of s reps), l, (missing s). split; [done|]. split; [done|]. split; [done|].
  split; [|split; [done|]]; [|split; [|split; [apply NoDup_unreported|]]].
  - apply raw_methods.
  - unfold reportsFromRawReports. cbn [reports raw_of]. by apply mapM_Some_app; [|apply empty_locations].
  - intros id. unfold missing. rewrite elem_of_unreported, list_elem_of_fmap. f_equiv. split.
    + intros ([t i] & -> & Hin). exists t. unfold getMapping, items in Hin. rewrite map_items_perm in Hin.
      by apply elem_of_map_to_list in Hin.
    + intros (t & Ht). exists (t, id). split; [done|]. unfold getMapping, items. rewrite map_items_perm.
      by apply elem_of_map_to_list.
Qed.

(** A report of thread 1, and thread 2 mapped but never in main. *)
Definition sample_info : MethodInfo := mkMethodInfo 100663297 2 [65; 0] 3 [77; 78; 0].
Definition sample_history : report := (1, [mkRecord 0 EnterMain 11 0; mkRecord 9 LeaveMain 11 0]).
Definition reporting_state : ProfilerState :=
  mkProfilerState (mkThreadTracker {[12 := 2]} ∅ ∅ ∅)
    (mkCoverageTracker true [sample_info] {[0]} ∅ [report_bytes sample_history] [1]) false true false None 77.

Lemma reporting_wf : report_wf reporting_state [sample_history].
Proof.
  split; try done.
  - repeat constructor; simpl; unfold is_uint; lia.
  - repeat constructor; simpl; unfold is_uint; lia.
  - repeat constructor; simpl; unfold is_sint; lia.
Qed.

Lemma reporting_known : Forall (methods_known reporting_state) [sample_history].
Proof.
  apply Forall_singleton. split; [unfold report_methods; simpl; set_solver|]. repeat constructor; simpl; lia.
Qed.

Lemma report_roundtrip_witness :
  exists bytes s' raw, serializeCoverageReport reporting_state = Ok (bytes, s') /\ getRawReports bytes = Ok raw /\
    exists ids, reportsFromRawReports raw = Some ([mkReport 1 [mkLocation [65] [77; 78] 100663297 0; mkLocation [65] [77; 78] 100663297 9]] ++
      ((fun id => mkReport id []) <$> ids)) /\ 2 ∈ ids.
Proof.
  destruct (report_roundtrip reporting_state [sample_history] reporting_wf reporting_known)
    as (bytes & s' & raw & covered & ids & Hs & _ & Hr & _ & Hc & Hl & _ & Hi).
  exists bytes, s', raw. split; [exact Hs|]. split; [exact Hr|]. exists ids. split.
  - rewrite Hl. injection Hc as <-. reflexivity.
  - apply Hi. split; [exists 12; reflexivity|]. vm_compute. intros H. inversion H as [|? ? ? H']; inversion H'.
Defined.

(** ** The second report *)

Lemma history_run s reps :
  report_wf s reps ->
  exists bytes, GetHistory s = Ok (bytes, mkProfilerState new_ThreadTracker (coverageTracker (after_report s))
    (isPassiveRun s) (collectMainOnly s) (isFinished s) (mainMethodInfo s) (mainFunctionId s)) /\
    getRawReports bytes = Ok (raw_of s reps).
Proof.
  intros W. destruct (report_read s reps W) as (bytes & Hs & Hr). exists bytes. split; [|done].
  unfold GetHistory. by run_step Hs.
Qed.

(** the numbers of the reported threads survive a report, so a thread that
    is mapped to one of them afterwards and does not enter main is missing from
    the next report, although the report is meant to hold empty coverage for
    such threads. *)
Theorem second_report_misses_thread debug s reps t id :
  report_wf s reps -> id ∈ serializedCoverageThreadIds (coverageTracker s) -> is_sint 32 id ->
  exists bytes s1 s2 bytes' s3 raw,
    GetHistory s = Ok (bytes, s1) /\ SetCurrentThreadId debug t id s1 = Ok (tt, s2) /\
    GetHistory s2 = Ok (bytes', s3) /\ getRawReports bytes' = Ok raw /\ reports raw = [].
Proof.
  intros W Hid Hint. destruct (history_run s reps W) as (bytes & H1 & _).
  set (s1 := mkProfilerState _ _ _ _ _ _ _) in H1.
  set (s2 := with_tt (mkThreadTracker {[t := id]} ∅ ∅ ∅) s1).
  assert (getMapping s2 = [(t, id)]) as Hmap.
  { unfold getMapping, items. simpl. apply Permutation_singleton_r. rewrite map_items_perm. by rewrite map_to_list_singleton. }
  destruct (history_run s2 []) as (bytes' & H2 & Hr).
  { split; try done; [apply (rw_methods _ _ W)| |apply (rw_number _ _ W)|]; rewrite Hmap; [by apply Forall_singleton|done]. }
  eexists bytes, s1, s2, bytes', _, _. split; [done|]. split; [|split; [exact H2|split; [exact Hr|]]].
  - unfold SetCurrentThreadId, mapCurrentThread, on_mapping. rewrite (on_part_run _ _ _ s1 _ _ (ts_store_run debug t ∅ id (lookup_empty t))). done.
  - simpl. unfold missing. rewrite Hmap. simpl. rewrite bool_decide_true; [done|]. set_solver.
Qed.

Lemma second_report_misses_thread_witness :
  exists bytes s1 s2 bytes' s3 raw,
    GetHistory reporting_state = Ok (bytes, s1) /\ SetCurrentThreadId true 13 1 s1 = Ok (tt, s2) /\
    GetHistory s2 = Ok (bytes', s3) /\ getRawReports bytes' = Ok raw /\ reports raw = [].
Proof.
  apply (second_report_misses_thread true reporting_state [sample_history] 13 1 reporting_wf).
  - vm_compute. constructor.
  - unfold is_sint. lia.
Defined.
