(* ===== verification/CovInstrument.v ===== *)
(** * Which methods are instrumented

    [VSharp.CoverageInstrumenter/profiler/instrumenter.cpp], the registration of
    the probes ([probes.cpp]) and the callback [JITCompilationStarted] of
    [corProfiler.cpp], on top of [RewriteIL] (ILProbes.v) and the coverage
    tracker (CovTracker.v).

    The runtime is a parameter, a record of Runtime.v. *)

From S2P Require Import Prelude CorHdr ILList ILCode ILImport Runtime ILProbes CovTracker.
Local Open Scope Z_scope.

(** ** Probes and their signatures *)

(** The fields of [CoverageProbes]. *)
Inductive probe_field :=
| F_Coverage | F_Stsfld | F_Branch | F_Enter | F_EnterMain | F_Leave | F_LeaveMain | F_Finalize_Call | F_Call | F_Tailcall | F_Throw.
#[export] Instance probe_field_eq_dec : EqDecision probe_field.
Proof. solve_decision. Defined.

(** [ProbeCall]: an address and the signature token of each thread. *)
Record ProbeObject := mkProbeObject { po_addr : Z; threadMapping : gmap Z Z }.
Definition probe_table : Type := probe_field -> ProbeObject.

(** The functions of [probes.cpp], whose addresses the linker fixes. *)
Inductive probe_function :=
| fn_Track_Coverage | fn_Track_Stsfld | fn_Branch | fn_Track_Enter | fn_Track_EnterMain | fn_Track_Leave | fn_Track_LeaveMain
| fn_Finalize_Call | fn_Track_Call | fn_Track_Tailcall | fn_Track_Throw.

Definition InitializeProbes (address : probe_function -> Z) : probe_table := fun f =>
  let new_ProbeCall fn := mkProbeObject (address fn) ∅ in
  match f with
  | F_Coverage => new_ProbeCall fn_Track_Coverage
  | F_Branch => new_ProbeCall fn_Branch
  | F_Enter => new_ProbeCall fn_Track_Enter
  | F_EnterMain => new_ProbeCall fn_Track_EnterMain
  | F_Leave => new_ProbeCall fn_Track_Leave
  | F_LeaveMain => new_ProbeCall fn_Track_LeaveMain
  | F_Finalize_Call => new_ProbeCall fn_Finalize_Call
  | F_Call => new_ProbeCall fn_Track_Call
  | F_Tailcall => new_ProbeCall fn_Track_Tailcall
  | F_Stsfld => new_ProbeCall fn_Track_Stsfld
  | F_Throw => new_ProbeCall fn_Track_Throw
  end.

Definition getSig (tid : Z) (p : ProbeObject) : Z := default 0 (threadMapping p !! tid).
Definition setSig (tid sig : Z) (f : probe_field) (t : probe_table) : probe_table := fun g =>
  if decide (g = f) then mkProbeObject (po_addr (t g)) (<[tid := sig]> (threadMapping (t g))) else t g.

(** The probes as [RewriteIL] sees them on thread [tid]. *)
Definition probes_of (tid : Z) (t : probe_table) : CoverageProbes :=
  let p f := mkProbeCall (po_addr (t f)) (getSig tid (t f)) in
  mkCoverageProbes (p F_Coverage) (p F_Stsfld) (p F_Branch) (p F_Enter) (p F_EnterMain) (p F_Leave) (p F_LeaveMain)
    (p F_Finalize_Call) (p F_Call) (p F_Tailcall) (p F_Throw).

(** ** State *)

(** A body the runtime has accepted: the number, token and module of the method. *)
Record NewBody := mkNewBody { nb_methodId : Z; nb_token : Z; nb_module : Z; nb_body : list Z }.

Record InstState := mkInstState {
  profilerState : ProfilerState;
  instrumentedMethods : gset (Z * Z);
  coverageProbes : probe_table;
  shutdownBlockingRequestsCount : Z;
  bodies : list NewBody
}.

Definition on_profiler {A} : st ProfilerState A -> st InstState A :=
  on_part profilerState (fun p s => mkInstState p (instrumentedMethods s) (coverageProbes s) (shutdownBlockingRequestsCount s) (bodies s)).
Definition with_probes (t : probe_table) (s : InstState) : InstState :=
  mkInstState (profilerState s) (instrumentedMethods s) t (shutdownBlockingRequestsCount s) (bodies s).
Definition insert_method (k : Z * Z) (s : InstState) : InstState :=
  mkInstState (profilerState s) ({[k]} ∪ instrumentedMethods s) (coverageProbes s) (shutdownBlockingRequestsCount s) (bodies s).
Definition count_request (d : Z) (s : InstState) : InstState :=
  mkInstState (profilerState s) (instrumentedMethods s) (coverageProbes s) (shutdownBlockingRequestsCount s + d) (bodies s).
Definition add_body (b : NewBody) (s : InstState) : InstState :=
  mkInstState (profilerState s) (instrumentedMethods s) (coverageProbes s) (shutdownBlockingRequestsCount s) (bodies s ++ [b]).
Definition with_mainFunctionId (f : Z) (s : ProfilerState) : ProfilerState :=
  mkProfilerState (threadTracker s) (coverageTracker s) (isPassiveRun s) (collectMainOnly s) (isFinished s) (mainMethodInfo s) f.

(** ** Main *)

(** Both names hold at least [moduleNameLength] characters when the loop runs. *)
Definition IsMain (s : ProfilerState) (moduleName : list Z) (moduleSize method : Z) : bool :=
  match mainMethodInfo s with
  | None => false
  | Some main =>
      if negb (moduleNameLength main =? wrap 32 (moduleSize - 1)) || negb (token main =? method) then false
      else bool_decide (take (Z.to_nat (moduleNameLength main)) (CovTracker.moduleName main) =
                        take (Z.to_nat (moduleNameLength main)) moduleName)
  end.
Definition InstrumentationIsNeeded (s : ProfilerState) (moduleName : list Z) (moduleSize method : Z) : bool :=
  IsMain s moduleName moduleSize method || negb (collectMainOnly s).

(** ** Instrumenter *)

Section instrumenter.
Context (rt : Runtime) (tid : Z).

(** [SIG_DEF] and the [setSig] calls after it. *)
Definition sig_def (module : Z) (sig : list Z) (fs : list probe_field) (k : st InstState Z) : st InstState Z :=
  IfFailRet (GetTokenFromSig rt module (IMAGE_CEE_CS_CALLCONV_STDCALL :: sig)) (fun signatureToken =>
    st_modify (fun s => with_probes (foldl (fun t f => setSig tid signatureToken f t) (coverageProbes s) fs) s);; k).
Definition initTokens (module : Z) : st InstState Z :=
  sig_def module [1; ELEMENT_TYPE_VOID; ELEMENT_TYPE_I4] [F_Finalize_Call] (
  sig_def module [2; ELEMENT_TYPE_VOID; ELEMENT_TYPE_I4; ELEMENT_TYPE_I4]
    [F_Branch; F_Call; F_Leave; F_Throw; F_Stsfld; F_Coverage; F_Tailcall; F_LeaveMain] (
  sig_def module [3; ELEMENT_TYPE_VOID; ELEMENT_TYPE_I4; ELEMENT_TYPE_I4; ELEMENT_TYPE_I4] [F_EnterMain; F_Enter] (
  mret S_OK))).

(** The [HRESULT]s of [initTokens] and of [RewriteIL] are dropped; an exception
    of [RewriteIL] is not caught.  The body is the one in the module: that is what
    the runtime answers for a method of which none was set before, and callbacks
    in sequence rewrite each method once ([instrument_once]). *)
Definition rewrite_method (module jittedToken methodId : Z) (isMain : bool) : st InstState unit := fun s =>
  match GetILFunctionBody rt module jittedToken with
  | inl _ => Ok (tt, s)
  | inr decoder =>
      match RewriteIL (Alloc rt) (SetBody rt module jittedToken) (junk rt) decoder (probes_of tid (coverageProbes s))
              (sint 32 methodId) isMain new_ILRewriter with
      | Ok (body, _) => Ok (tt, add_body (mkNewBody methodId jittedToken module body) s)
      | Err (HResult _) => Ok (tt, s)
      | Err e => Err e
      end
  end.
Definition doInstrumentation (oldModuleId m_moduleId m_jittedToken methodId : Z) (moduleName : list Z) : st InstState Z :=
  IfFailRet (GetModuleMetaData rt m_moduleId) (fun _ =>
    (if oldModuleId =? m_moduleId then mret S_OK else initTokens m_moduleId);;
    s ← st_get;
    rewrite_method m_moduleId m_jittedToken methodId
      (IsMain (profilerState s) moduleName (Z.of_nat (length moduleName)) m_jittedToken);;
    mret S_OK).

(** [m_moduleId] is the module of the object's last method. *)
Definition instrument (m_moduleId functionId : Z) : st InstState Z :=
  IfFailRet (GetFunctionInfo rt functionId) (fun '(newModuleId, m_jittedToken) =>
  IfFailRet (GetModuleInfo rt newModuleId) (fun '(moduleName, assembly) =>
  IfFailRet (GetAssemblyInfo rt assembly) (fun assemblyName =>
    s ← st_get;
    let moduleNameLength := Z.of_nat (length moduleName) in
    if negb (InstrumentationIsNeeded (profilerState s) moduleName moduleNameLength m_jittedToken) then mret S_OK else
    (if collectMainOnly (profilerState s) then on_profiler (st_modify (with_mainFunctionId functionId)) else mret tt);;
    if bool_decide ((m_jittedToken, newModuleId) ∈ instrumentedMethods s) then mret S_OK else
    currentMethodId ← on_profiler (collectMethod
      (mkMethodInfo m_jittedToken (Z.of_nat (length assemblyName)) assemblyName moduleNameLength moduleName));
    st_modify (insert_method (m_jittedToken, newModuleId));;
    doInstrumentation m_moduleId newModuleId m_jittedToken currentMethodId moduleName))).

(** A new [Instrumenter] has module 0. *)
Definition JITCompilationStarted (functionId : Z) : st InstState Z :=
  s ← st_get;
  if isFinished (profilerState s) then mret S_OK else
  st_modify (count_request 1);;
  hr ← instrument 0 functionId;
  st_modify (count_request (-1));;
  mret hr.
End instrumenter.

(** The callbacks of a run, one after the other. *)
Fixpoint run_jits (rt : Runtime) (calls : list (Z * Z)) : st InstState (list Z) :=
  match calls with
  | [] => mret []
  | (tid, functionId) :: calls =>
      hr ← JITCompilationStarted rt tid functionId;
      hrs ← run_jits rt calls;
      mret (hr :: hrs)
  end.

(** ** Every method once *)

(** What the report says about the method with a token in a module. *)
Definition key_info (rt : Runtime) (k : Z * Z) : option MethodInfo :=
  match GetModuleInfo rt (snd k) with
  | inl _ => None
  | inr (moduleName, assembly) =>
      match GetAssemblyInfo rt assembly with
      | inl _ => None
      | inr assemblyName => Some (mkMethodInfo (fst k) (Z.of_nat (length assemblyName)) assemblyName (Z.of_nat (length moduleName)) moduleName)
      end
  end.
Definition key_is_main (rt : Runtime) (s : ProfilerState) (k : Z * Z) : bool :=
  match GetModuleInfo rt (snd k) with
  | inl _ => false
  | inr (moduleName, _) => IsMain s moduleName (Z.of_nat (length moduleName)) (fst k)
  end.
(** The method that the compilation of a function makes the profiler rewrite. *)
Definition function_key (rt : Runtime) (s : ProfilerState) (functionId : Z) : option (Z * Z) :=
  match GetFunctionInfo rt functionId with
  | inl _ => None
  | inr (module, token) =>
      match key_info rt (token, module) with
      | None => None
      | Some _ => if key_is_main rt s (token, module) || negb (collectMainOnly s) then Some (token, module) else None
      end
  end.

(** A body handed to the runtime: the rewriting of the method whose number its
    probes carry. *)
Definition body_ok (rt : Runtime) (s : ProfilerState) (keys : list (Z * Z)) (b : NewBody) : Prop :=
  0 <= nb_methodId b /\ keys !! Z.to_nat (nb_methodId b) = Some (nb_token b, nb_module b) /\
  exists decoder probes r, GetILFunctionBody rt (nb_module b) (nb_token b) = inr decoder /\
    RewriteIL (Alloc rt) (SetBody rt (nb_module b) (nb_token b)) (junk rt) decoder probes (sint 32 (nb_methodId b))
      (key_is_main rt s (nb_token b, nb_module b)) new_ILRewriter = Ok (nb_body b, r).

(** [keys] are the instrumented methods in the order of their numbers.  Of the
    bodies it says what those are that were handed over; a numbered method has
    none when the runtime or [RewriteIL] refused it. *)
Record inst_inv (rt : Runtime) (s : InstState) (keys : list (Z * Z)) : Prop := {
  iv_once : NoDup keys;
  iv_set k : k ∈ instrumentedMethods s <-> k ∈ keys;
  iv_infos : key_info rt <$> keys = Some <$> collectedMethods (coverageTracker (profilerState s));
  iv_bodies : Forall (body_ok rt (profilerState s) keys) (bodies s);
  iv_ids : NoDup (nb_methodId <$> bodies s)
}.

(** No method makes [RewriteIL] throw or read a bad pointer. *)
Definition rewrites_defined (rt : Runtime) : Prop :=
  forall module token decoder probes methodId isMain e, GetILFunctionBody rt module token = inr decoder ->
    RewriteIL (Alloc rt) (SetBody rt module token) (junk rt) decoder probes methodId isMain new_ILRewriter = Err e ->
    exists hr, e = HResult hr.

(** What the callbacks leave as it is. *)
Definition settings (s : InstState) :=
  (mainMethodInfo (profilerState s), collectMainOnly (profilerState s), isFinished (profilerState s), shutdownBlockingRequestsCount s).

Lemma settings_main rt s s' k :
  settings s' = settings s -> key_is_main rt (profilerState s') k = key_is_main rt (profilerState s) k.
Proof. unfold settings. intros [= E1 E2 E3 E4]. unfold key_is_main, IsMain. by rewrite E1. Qed.

Lemma settings_key rt s s' f :
  settings s' = settings s -> function_key rt (profilerState s') f = function_key rt (profilerState s) f.
Proof.
  intros E. pose proof E as E'. unfold settings in E'. injection E' as E1 E2 E3 E4. unfold function_key.
  destruct (GetFunctionInfo rt f) as [|[m t]]; [done|]. by rewrite (settings_main rt s s' _ E), E2.
Qed.

Lemma body_ok_settings rt s s' keys new b :
  settings s' = settings s -> body_ok rt (profilerState s) keys b -> body_ok rt (profilerState s') (keys ++ new) b.
Proof.
  intros E (H0 & Hk & d & p & r & Hd & Hr). split; [done|]. split; [by apply lookup_app_l_Some|].
  exists d, p, r. split; [done|]. by rewrite (settings_main rt s s' _ E).
Qed.

(** The same methods and bodies, other probes or another main function. *)
Lemma inv_same rt s s' keys :
  inst_inv rt s keys -> settings s' = settings s -> instrumentedMethods s' = instrumentedMethods s ->
  collectedMethods (coverageTracker (profilerState s')) = collectedMethods (coverageTracker (profilerState s)) ->
  bodies s' = bodies s -> inst_inv rt s' keys.
Proof.
  intros [I1 I2 I3 I4 I5] E Hi Hc Hb. split; [done|intros k; by rewrite Hi|by rewrite Hc| |by rewrite Hb].
  rewrite Hb. eapply Forall_impl; [exact I4|]. intros b Hok. rewrite <- (app_nil_r keys). by apply (body_ok_settings rt s).
Qed.

(** A method gets the next number. *)
Lemma inv_collect rt s s' keys k info :
  inst_inv rt s keys -> settings s' = settings s -> k ∉ keys -> key_info rt k = Some info ->
  instrumentedMethods s' = {[k]} ∪ instrumentedMethods s ->
  collectedMethods (coverageTracker (profilerState s')) = collectedMethods (coverageTracker (profilerState s)) ++ [info] ->
  bodies s' = bodies s -> inst_inv rt s' (keys ++ [k]).
Proof.
  intros [I1 I2 I3 I4 I5] E Hk Hinfo Hi Hc Hb. split.
  - apply NoDup_app. split_and!; [done| |apply NoDup_singleton]. set_solver.
  - intros k'. rewrite Hi, elem_of_union, elem_of_app, I2. set_solver.
  - rewrite Hc, !fmap_app, I3. simpl. by rewrite Hinfo.
  - rewrite Hb. eapply Forall_impl; [exact I4|]. intros b Hok. by apply (body_ok_settings rt s).
  - by rewrite Hb.
Qed.

Lemma inv_length rt s keys :
  inst_inv rt s keys -> length keys = length (collectedMethods (coverageTracker (profilerState s))).
Proof. intros I. pose proof (f_equal length (iv_infos _ _ _ I)) as L. by rewrite !length_fmap in L. Qed.

(** The body of the method with the last number. *)
Lemma inv_body rt s keys k decoder probes r body :
  inst_inv rt s (keys ++ [k]) -> (forall b, b ∈ bodies s -> nb_methodId b < Z.of_nat (length keys)) ->
  GetILFunctionBody rt (snd k) (fst k) = inr decoder ->
  RewriteIL (Alloc rt) (SetBody rt (snd k) (fst k)) (junk rt) decoder probes (sint 32 (Z.of_nat (length keys)))
    (key_is_main rt (profilerState s) k) new_ILRewriter = Ok (body, r) ->
  inst_inv rt (add_body (mkNewBody (Z.of_nat (length keys)) (fst k) (snd k) body) s) (keys ++ [k]).
Proof.
  intros [I1 I2 I3 I4 I5] Hlt Hd Hr. split; [done..| |].
  - apply Forall_app. split; [done|]. apply Forall_singleton. destruct k as [t m]. split; [simpl; lia|]. cbn [nb_methodId nb_token nb_module nb_body].
    split; [|by exists decoder, probes, r]. rewrite Nat2Z.id. apply list_lookup_middle. done.
  - cbn [bodies add_body]. rewrite fmap_app. apply NoDup_app. split_and!; [done| |apply NoDup_singleton].
    intros i (b & -> & Hb)%list_elem_of_fmap Hi. apply Hlt in Hb. simpl in Hi. apply list_elem_of_singleton in Hi. lia.
Qed.

Section steps.
Context (rt : Runtime) (tid : Z) (Hdef : rewrites_defined rt).

Lemma sig_def_run m sig fs k s :
  (forall t, exists hr t', k (with_probes t s) = Ok (hr, with_probes t' s)) ->
  forall t, exists hr t', sig_def rt tid m sig fs k (with_probes t s) = Ok (hr, with_probes t' s).
Proof.
  intros Hk t. unfold sig_def, IfFailRet. destruct (GetTokenFromSig _ _ _) as [hr|sg]; [by exists hr, t|].
  rewrite st_modify_bind. apply Hk.
Qed.

Lemma initTokens_run m s : exists hr t, initTokens rt tid m s = Ok (hr, with_probes t s).
Proof.
  assert (forall t, exists hr t', initTokens rt tid m (with_probes t s) = Ok (hr, with_probes t' s)) as H.
  { do 3 apply sig_def_run. intros t. by exists S_OK, t. }
  specialize (H (coverageProbes s)). by destruct s.
Qed.

Lemma bodies_below s keys b : inst_inv rt s keys -> b ∈ bodies s -> nb_methodId b < Z.of_nat (length keys).
Proof.
  intros I Hb. apply (proj1 (Forall_forall _ _) (iv_bodies _ _ _ I)) in Hb as (H0 & Hk & _). apply lookup_lt_Some in Hk. lia.
Qed.

Lemma rewrite_run s keys k :
  inst_inv rt s (keys ++ [k]) -> (forall b, b ∈ bodies s -> nb_methodId b < Z.of_nat (length keys)) ->
  exists s', rewrite_method rt tid (snd k) (fst k) (Z.of_nat (length keys)) (key_is_main rt (profilerState s) k) s = Ok (tt, s') /\
    inst_inv rt s' (keys ++ [k]) /\ settings s' = settings s.
Proof using Hdef.
  intros I Hlt. unfold rewrite_method. destruct (GetILFunctionBody rt (snd k) (fst k)) as [hr|d] eqn:Hd; [by exists s|].
  destruct (RewriteIL _ _ _ _ _ _ _ _) as [[body r]|e] eqn:Hr.
  - eexists. split; [reflexivity|]. split; [|done]. by eapply inv_body.
  - destruct (Hdef _ _ _ _ _ _ _ Hd Hr) as [hr ->]. by exists s.
Qed.

Lemma doInstrumentation_run old s keys t m name assembly :
  inst_inv rt s (keys ++ [(t, m)]) -> (forall b, b ∈ bodies s -> nb_methodId b < Z.of_nat (length keys)) ->
  GetModuleInfo rt m = inr (name, assembly) ->
  exists hr s', doInstrumentation rt tid old m t (Z.of_nat (length keys)) name s = Ok (hr, s') /\
    inst_inv rt s' (keys ++ [(t, m)]) /\ settings s' = settings s.
Proof using Hdef.
  intros I Hlt Hm. unfold doInstrumentation, IfFailRet. destruct (GetModuleMetaData rt m) as [hr|_]; [by exists hr, s|].
  assert (exists hr tb, (if old =? m then mret S_OK else initTokens rt tid m) s = Ok (hr, with_probes tb s)) as (hr & tb & R).
  { destruct (old =? m); [|apply initTokens_run]. exists S_OK, (coverageProbes s). by destruct s. }
  run_step R. rewrite st_get_bind. set (s1 := with_probes tb s).
  assert (inst_inv rt s1 (keys ++ [(t, m)])) as I1 by (by apply (inv_same rt s)).
  destruct (rewrite_run s1 keys (t, m) I1 Hlt) as (s2 & R2 & I2 & E2).
  unfold key_is_main in R2. cbn [fst snd] in R2. rewrite Hm in R2. exists S_OK, s2. by run_step R2.
Qed.

Definition collected_state (s : InstState) (info : MethodInfo) : InstState :=
  let p := profilerState s in let c := coverageTracker p in
  mkInstState (with_ct (mkCoverageTracker (isCollectMainOnly c) (collectedMethods c ++ [info]) (allVisitedMethods c)
    (trackedCoverage c) (serializedCoverage c) (serializedCoverageThreadIds c)) p)
    (instrumentedMethods s) (coverageProbes s) (shutdownBlockingRequestsCount s) (bodies s).

Lemma collect_run s info :
  on_profiler (collectMethod info) s =
  Ok (Z.of_nat (length (collectedMethods (coverageTracker (profilerState s)))), collected_state s info).
Proof. done. Qed.

(** The methods a compilation adds. *)
Definition added (s : InstState) (keys : list (Z * Z)) (functionId : Z) : list (Z * Z) :=
  match function_key rt (profilerState s) functionId with
  | Some k => if bool_decide (k ∈ keys) then [] else [k]
  | None => []
  end.

Lemma instrument_run old s keys f :
  inst_inv rt s keys ->
  exists hr s', instrument rt tid old f s = Ok (hr, s') /\ inst_inv rt s' (keys ++ added s keys f) /\ settings s' = settings s.
Proof using Hdef.
  intros I. unfold instrument, added, function_key, IfFailRet, key_is_main.
  destruct (GetFunctionInfo rt f) as [hr|[m t]]; [exists hr, s; by rewrite app_nil_r|].
  pose proof (eq_refl (key_info rt (t, m))) as Hinfo. unfold key_info at 2 in Hinfo. cbn [fst snd] in *.
  destruct (GetModuleInfo rt m) as [hr|[name assembly]] eqn:Hm; [exists hr, s; rewrite Hinfo; by rewrite app_nil_r|].
  destruct (GetAssemblyInfo rt assembly) as [hr|aname]; [exists hr, s; rewrite Hinfo; by rewrite app_nil_r|].
  rewrite Hinfo, st_get_bind. cbv zeta. unfold InstrumentationIsNeeded.
  destruct (IsMain _ _ _ _ || negb _); cbn [negb]; [|exists S_OK, s; by rewrite app_nil_r].
  set (p1 := if collectMainOnly (profilerState s) then with_mainFunctionId f (profilerState s) else profilerState s).
  set (s1 := mkInstState p1 (instrumentedMethods s) (coverageProbes s) (shutdownBlockingRequestsCount s) (bodies s)).
  assert ((if collectMainOnly (profilerState s) then on_profiler (st_modify (with_mainFunctionId f)) else mret tt) s = Ok (tt, s1)) as R1.
  { subst s1 p1. destruct (collectMainOnly (profilerState s)); [done|]. by destruct s. }
  run_step R1. assert (settings s1 = settings s) as E1 by (subst s1 p1; by destruct (collectMainOnly (profilerState s))).
  assert (inst_inv rt s1 keys) as I1.
  { apply (inv_same rt s); try done. subst s1 p1. by destruct (collectMainOnly (profilerState s)). }
  rewrite (bool_decide_ext _ _ (iv_set _ _ _ I (t, m))). case_bool_decide as Hin; [exists S_OK, s1; by rewrite app_nil_r|].
  clearbody s1. clear p1 R1. set (info := mkMethodInfo _ _ _ _ _) in *. run_step (collect_run s1 info).
  rewrite st_modify_bind, <- (inv_length rt s1 keys I1). rewrite <- E1.
  apply (doInstrumentation_run old (insert_method (t, m) (collected_state s1 info)) keys t m name assembly);
    [|intros b; by apply (bodies_below s1)|done].
  by eapply (inv_collect rt s1).
Qed.

Lemma jit_run s keys f :
  inst_inv rt s keys -> isFinished (profilerState s) = false ->
  exists hr s', JITCompilationStarted rt tid f s = Ok (hr, s') /\ inst_inv rt s' (keys ++ added s keys f) /\ settings s' = settings s.
Proof using Hdef.
  intros I Hf. unfold JITCompilationStarted. rewrite st_get_bind, Hf, st_modify_bind.
  assert (inst_inv rt (count_request 1 s) keys) as I1 by (destruct I; by split).
  destruct (instrument_run 0 (count_request 1 s) keys f I1) as (hr & s1 & R & I2 & E). run_step R. rewrite st_modify_bind.
  exists hr, (count_request (-1) s1). split; [done|]. split; [destruct I2; by split|].
  unfold settings in *. cbn [profilerState count_request shutdownBlockingRequestsCount] in *. injection E as -> -> -> ->.
  f_equal. lia.
Qed.
End steps.

(** C25: over any sequence of compilations every method is given a number, put
    in the report's table and rewritten at most once, whatever threads and
    however many instances of a generic method are compiled: the numbered
    methods are exactly those of compiled functions that are main (or all of
    them when the collection is not restricted to main), each at the index
    that the probes in its new body carry; a callback never fails otherwise than
    with the runtime's own error, and the count that delays the shutdown is
    restored. *)
Theorem instrument_once rt calls s keys :
  rewrites_defined rt -> inst_inv rt s keys -> isFinished (profilerState s) = false ->
  exists hrs s' new, run_jits rt calls s = Ok (hrs, s') /\ inst_inv rt s' (keys ++ new) /\ settings s' = settings s /\
    (forall k, k ∈ keys ++ new <-> k ∈ keys \/ exists tid f, (tid, f) ∈ calls /\ function_key rt (profilerState s) f = Some k).
Proof.
  intros Hdef. revert s keys. induction calls as [|[tid f] calls IH]; intros s keys I Hf.
  { exists [], s, []. rewrite app_nil_r. split_and!; try done. set_solver. }
  destruct (jit_run rt tid Hdef s keys f I Hf) as (hr & s1 & R & I1 & E1).
  destruct (IH s1 _ I1) as (hrs & s2 & new & R2 & I2 & E2 & Hk); [unfold settings in E1; congruence|].
  exists (hr :: hrs), s2, (added rt s keys f ++ new). rewrite app_assoc. cbn [run_jits]. run_step R. run_step R2.
  split; [done|]. split; [done|]. split; [congruence|]. intros k. rewrite Hk, elem_of_app. setoid_rewrite elem_of_cons.
  setoid_rewrite (settings_key rt s s1); [|done..]. unfold added.
  destruct (function_key rt (profilerState s) f) as [k0|] eqn:Ek.
  - case_bool_decide; set_solver.
  - set_solver.
Qed.

(** Module 7 with main (functions 500 and 501, two instances) and another method
    (function 502), both with the body [ret]. *)
Definition sample_runtime : Runtime :=
  mkRuntime (fun f => if f =? 503 then inl (-1) else inr (7, if f =? 502 then 0x06000002 else 0x06000001))
    (fun m => inr ([77; 0], 9)) (fun a => inr [65; 0]) (fun m => inr tt) (fun m sig => inr 0x11000001)
    (fun m t => inr (mkILMethod 0 8 3 [0x2A] [])) (fun n => Some (replicate (Z.to_nat n) 0)) (fun m t b => None) (fun l => inr tt) 0xCC.
Definition sample_profiler : ProfilerState :=
  mkProfilerState new_ThreadTracker (new_CoverageTracker true) false true false (Some (mkMethodInfo 0x06000001 1 [65] 1 [77])) 0.
Definition fresh_state : InstState := mkInstState sample_profiler ∅ (InitializeProbes (fun _ => 0x1000)) 0 [].

Definition returns {A} (r : result A) : bool := match r with Ok _ => true | Err _ => false end.

Lemma sample_defined : rewrites_defined sample_runtime.
Proof.
  intros m t d probes id isMain e [= <-] H.
  assert (returns (RewriteIL (Alloc sample_runtime) (SetBody sample_runtime m t) (junk sample_runtime)
    (mkILMethod 0 8 3 [0x2A] []) probes id isMain new_ILRewriter) = true) as E
    by (destruct probes as [[] [] [] [] [] [] [] [] [] [] []], isMain; vm_compute; reflexivity).
  by rewrite H in E.
Qed.

Lemma fresh_inv : inst_inv sample_runtime fresh_state [].
Proof. split; try (by constructor). set_solver. Qed.

Lemma instrument_once_witness :
  exists hrs s' new, run_jits sample_runtime [(1, 500); (2, 501); (1, 502); (2, 503)] fresh_state = Ok (hrs, s') /\
    inst_inv sample_runtime s' new /\ (0x06000001, 7) ∈ new.
Proof.
  destruct (instrument_once sample_runtime [(1, 500); (2, 501); (1, 502); (2, 503)] fresh_state [] sample_defined fresh_inv eq_refl)
    as (hrs & s' & new & R & I & _ & Hk).
  exists hrs, s', new. split; [exact R|]. split; [exact I|]. apply (Hk (0x06000001, 7)). right. exists 1, 500.
  split; [constructor|]. vm_compute. reflexivity.
Defined.
