(* ===== verification/CovSystem.v ===== *)
(** * The coverage tool from compilation to report

    The parts of [VSharp.CoverageInstrumenter] put together: compilations
    (CovInstrument.v), probes and exception callbacks (CovTracker.v) and fetches of
    the report with [GetHistory] happen in any order, and the engine reads what
    it fetches (CovReport.v).  A specification over methods, threads and pending
    reports says what the engine is to read; the tool is shown to refine it. *)

From S2P Require Import Prelude ILImport Runtime CovTracker CovSpec CovReport CovInstrument.
Local Open Scope Z_scope.

(** ** What happens to the tool *)

Inductive act :=
| Compile (tid functionId : Z)
| Happen (tid : Z) (e : pevent)
| Fetch.

(** The bytes [GetHistory] returns, for a fetch. *)
Definition run_act (rt : Runtime) (debug : bool) (x : act) : st InstState (list (list Z)) :=
  match x with
  | Compile tid functionId => JITCompilationStarted rt tid functionId;; mret []
  | Happen tid e => on_profiler (run_event debug tid e);; mret []
  | Fetch => bytes ← on_profiler GetHistory; mret [bytes]
  end.

Fixpoint run_acts (rt : Runtime) (debug : bool) (l : list act) : st InstState (list (list Z)) :=
  match l with
  | [] => mret []
  | x :: l => b ← run_act rt debug x; bs ← run_acts rt debug l; mret (b ++ bs)
  end.

(** The engine's side of a fetch. *)
Definition engine_reads (bytes : list Z) : option (list CoverageReport) :=
  match getRawReports bytes with Ok raw => reportsFromRawReports raw | Err _ => None end.

(** ** What the engine is to read *)

(** The numbered methods as token and module, the threads, the function that is
    main, the finished invocations of main, and the thread numbers already
    reported. *)
Record sys := mkSys {
  sys_keys : list (Z * Z);
  sys_threads : gmap Z athread;
  sys_main : Z;
  sys_pending : list report;
  sys_reported : list Z
}.

Definition thread_of (y : sys) (t : Z) : athread := default idle (sys_threads y !! t).

(** The number of the method an event reports. *)
Definition event_point (e : pevent) : option (Z * Z) :=
  match e with
  | PCoverage o m | PStsfld o m | PBranch o m | PCall o m | PTailcall o m | PEnter o m | PEnterMain o m
  | PLeave o m | PLeaveMain o m | PThrow o m => Some (o, m)
  | _ => None
  end.

(** Only code that was handed to the runtime reports events: their methods have
    been numbered.  Offsets, thread identifiers and mapped numbers have the width
    of their types. *)
Definition event_ok (t : Z) (keys : list (Z * Z)) (e : pevent) : Prop :=
  is_uint 64 t /\
  match event_point e with Some (o, m) => is_uint 32 o /\ 0 <= m < Z.of_nat (length keys) | None => True end /\
  match e with PMap i => is_sint 32 i | _ => True end.
#[export] Instance event_ok_dec t keys e : Decision (event_ok t keys e).
Proof. unfold event_ok. destruct (event_point e) as [[]|], e; apply _. Defined.

Section spec.
(** The runtime and the settings the tool starts with. *)
Context (rt : Runtime) (p0 : ProfilerState).

(** Where a recorded event happened: assembly, module and token of the compiled
    method, and the offset. *)
Definition sys_location (keys : list (Z * Z)) (r : CoverageRecord) : option CoverageLocation :=
  k ← keys !! Z.to_nat (methodId r);
  m ← key_info rt k;
  Some (mkLocation (removelast (assemblyName m)) (removelast (moduleName m)) (sint 32 (fst k)) (sint 32 (offset r))).
Definition sys_report (keys : list (Z * Z)) (r : report) : option CoverageReport :=
  mkReport (fst r) <$> mapM (sys_location keys) (snd r).

(** The numbers of mapped threads without a report, in the order of the threads. *)
Definition silent (y : sys) : list Z :=
  unreported (sys_reported y) (snd <$> map_items (omap at_map (sys_threads y))).

Definition sys_step (x : act) (y : sys) : option (list (list CoverageReport) * sys) :=
  match x with
  | Compile _ f =>
      match function_key rt p0 f with
      | None => Some ([], y)
      | Some k => Some ([], mkSys (if bool_decide (k ∈ sys_keys y) then sys_keys y else sys_keys y ++ [k]) (sys_threads y)
                              (if collectMainOnly p0 then f else sys_main y) (sys_pending y) (sys_reported y))
      end
  | Happen t e =>
      if bool_decide (event_ok t (sys_keys y) e) then
        '(a, out) ← astep t (isCollectMainOnly (coverageTracker p0)) (collectMainOnly p0) (isPassiveRun p0) (sys_main y) e (thread_of y t);
        Some ([], mkSys (sys_keys y) (<[t := a]> (sys_threads y)) (sys_main y) (sys_pending y ++ out) (sys_reported y ++ (fst <$> out)))
      else None
  | Fetch =>
      covered ← mapM (sys_report (sys_keys y)) (sys_pending y);
      Some ([covered ++ ((fun id => mkReport id []) <$> silent y)],
            mkSys (sys_keys y) ∅ (sys_main y) [] (sys_reported y ++ silent y))
  end.

Fixpoint sys_run (l : list act) (y : sys) : option (list (list CoverageReport) * sys) :=
  match l with
  | [] => Some ([], y)
  | x :: l =>
      '(out, y) ← sys_step x y;
      '(outs, y) ← sys_run l y;
      Some (out ++ outs, y)
  end.
End spec.

(** ** What a compilation leaves alone *)

Definition coverage_view (s : InstState) := let p := profilerState s in let c := coverageTracker p in
  (threadTracker p, isCollectMainOnly c, allVisitedMethods c, trackedCoverage c, serializedCoverage c,
   serializedCoverageThreadIds c, isPassiveRun p).
Definition compile_view (s : InstState) := (coverage_view s, mainFunctionId (profilerState s)).

Lemma initTokens_preserves rt tid m : preserves compile_view (initTokens rt tid m).
Proof.
  unfold initTokens. assert (forall sig fs k, preserves compile_view k -> preserves compile_view (sig_def rt tid m sig fs k)) as H.
  { intros sig fs k Hk. unfold sig_def, IfFailRet. case_match; [apply preserves_ret|]. apply preserves_bind; [|done].
    by apply preserves_modify. }
  do 3 apply H. apply preserves_ret.
Qed.

Lemma doInstrumentation_preserves rt tid old m t i name : preserves compile_view (doInstrumentation rt tid old m t i name).
Proof.
  unfold doInstrumentation, IfFailRet. case_match; [apply preserves_ret|]. apply preserves_bind.
  - case_match; [apply preserves_ret|apply initTokens_preserves].
  - intros _. apply preserves_bind; [apply preserves_get|]. intros s. apply preserves_bind; [|intros; apply preserves_ret].
    intros s1 [] s2. unfold rewrite_method. repeat case_match; try done; by intros [= <-].
Qed.

Lemma compile_frame rt tid f s hr s' :
  JITCompilationStarted rt tid f s = Ok (hr, s') -> isFinished (profilerState s) = false ->
  coverage_view s' = coverage_view s /\
  mainFunctionId (profilerState s') =
    match function_key rt (profilerState s) f with
    | Some _ => if collectMainOnly (profilerState s) then f else mainFunctionId (profilerState s)
    | None => mainFunctionId (profilerState s)
    end.
Proof.
  intros H Hf. unfold JITCompilationStarted in H. rewrite st_get_bind, Hf, st_modify_bind in H.
  set (s0 := count_request 1 s) in *. apply st_bind_ok in H as (hr1 & s1 & H & H2). rewrite st_modify_bind in H2. injection H2 as _ <-.
  change (coverage_view (count_request (-1) s1)) with (coverage_view s1). change (profilerState (count_request (-1) s1)) with (profilerState s1).
  change (coverage_view s) with (coverage_view s0). change (profilerState s) with (profilerState s0). clearbody s0.
  unfold instrument, IfFailRet in H. unfold function_key.
  destruct (GetFunctionInfo rt f) as [|[m t]]; [by injection H as _ <-|].
  unfold key_info, key_is_main. cbn [fst snd]. destruct (GetModuleInfo rt m) as [|[name assembly]]; [by injection H as _ <-|].
  destruct (GetAssemblyInfo rt assembly) as [|aname]; [by injection H as _ <-|]. rewrite st_get_bind in H. cbv zeta in H.
  unfold InstrumentationIsNeeded in H. destruct (IsMain _ _ _ _ || negb _); cbn [negb] in H; [|by injection H as _ <-].
  apply st_bind_ok in H as ([] & s2 & H2 & H).
  assert (coverage_view s2 = coverage_view s0 /\
    mainFunctionId (profilerState s2) = if collectMainOnly (profilerState s0) then f else mainFunctionId (profilerState s0)) as [E1 E2].
  { destruct (collectMainOnly (profilerState s0)); by injection H2 as <-. }
  rewrite <- E1, <- E2. clear E1 E2 H2. assert (compile_view s1 = compile_view s2) as E; [|exact (conj (f_equal fst E) (f_equal snd E))].
  case_bool_decide; [by injection H as _ <-|]. revert H. generalize s1 hr1. clear. intros s1 hr1 H.
  apply st_bind_ok in H as (i & s3 & H3 & H). rewrite st_modify_bind in H. apply doInstrumentation_preserves in H.
  transitivity (compile_view s3); [exact H|]. rewrite collect_run in H3. by injection H3 as _ <-.
Qed.

(** ** Bounds on what is collected *)

Definition record_good (keys : list (Z * Z)) (r : CoverageRecord) : Prop :=
  is_uint 32 (offset r) /\ is_uint 64 (thread r) /\ 0 <= methodId r < Z.of_nat (length keys).
Definition hist_good (n : Z) (keys : list (Z * Z)) (l : list CoverageRecord) : Prop :=
  Z.of_nat (length l) <= n /\ Forall (record_good keys) l.
Definition report_good (n : Z) (keys : list (Z * Z)) (r : report) : Prop := is_sint 32 (fst r) /\ hist_good n keys (snd r).
Definition thread_good (n : Z) (keys : list (Z * Z)) (a : athread) : Prop :=
  (forall i, at_map a = Some i -> is_sint 32 i) /\ (forall k, at_run a = Some k -> hist_good n keys (hist k)).

Lemma hist_good_mono n n' keys new l : n <= n' -> hist_good n keys l -> hist_good n' (keys ++ new) l.
Proof.
  intros Hn [Hl Hg]. split; [lia|]. eapply Forall_impl; [exact Hg|]. intros r (H1 & H2 & H3).
  split; [done|]. split; [done|]. rewrite length_app. lia.
Qed.
Lemma hist_good_keep n keys l : hist_good n keys l -> hist_good (n + 1) keys l.
Proof. intros H. rewrite <- (app_nil_r keys). apply (hist_good_mono n); [lia|done]. Qed.
Lemma hist_good_snoc n keys l r : hist_good n keys l -> record_good keys r -> hist_good (n + 1) keys (l ++ [r]).
Proof. intros [Hl Hg] Hr. split; [rewrite length_app; simpl; lia|]. apply Forall_app. split; [done|by apply Forall_singleton]. Qed.
Lemma event_record t keys e o m ev :
  event_ok t keys e -> event_point e = Some (o, m) -> record_good keys (mkRecord o ev t m).
Proof. intros (Ht & Hp & _) E. rewrite E in Hp. by destruct Hp. Qed.

(** A thread goes on with the history [h], or is done with it. *)
Definition goes_on (a a' : athread) (out : list report) (h : list CoverageRecord) : Prop :=
  (out = [] /\ at_map a' = at_map a /\ exists k', at_run a' = Some k' /\ hist k' = h) \/
  (out = [(default 0 (at_map a), h)] /\ (at_map a' = at_map a \/ at_map a' = None) /\ at_run a' = None).

Lemma leave_goes_on passive k b a a' out :
  at_map b = at_map a -> leave passive k b = Some (a', out) -> goes_on a a' out (hist k).
Proof.
  intros Eb H. unfold leave, down, finish, plain, with_run in H.
  destruct (1 <=? bal k); [|done]. cbn [mbind option_bind bal] in H. destruct (bal k - 1 =? 0).
  - destruct (_ && _); [|done]. injection H as <- <-. right. rewrite Eb. split; [done|]. cbn [at_map at_run]. split; [|done].
    destruct passive; auto.
  - injection H as <- <-. left. split; [done|]. split; [done|]. by eexists.
Qed.

(** Every step appends at most the event it stands for to the history. *)
Definition effect (t : Z) (e : pevent) (a a' : athread) (out : list report) : Prop :=
  (out = [] /\ at_run a' = at_run a /\ (at_map a' = at_map a \/ exists i, e = PMap i /\ at_map a' = Some i)) \/
  exists h, goes_on a a' out h /\
    ((exists k, at_run a = Some k /\ h = hist k) \/
     exists o m ev, event_point e = Some (o, m) /\ h = from_option hist [] (at_run a) ++ [mkRecord o ev t m]).

Lemma effect_plain t e a : effect t e a a [].
Proof. left. auto. Qed.

Lemma effect_keep t e a a' k k' :
  at_run a = Some k -> at_map a' = at_map a -> at_run a' = Some k' -> hist k' = hist k -> effect t e a a' [].
Proof.
  intros Ek Em Er Eh. right. exists (hist k). split; [|left; by exists k]. left. split; [done|]. split; [done|]. by exists k'.
Qed.

Lemma effect_add t e a a' k k' o m ev :
  at_run a = Some k -> event_point e = Some (o, m) -> at_map a' = at_map a -> at_run a' = Some k' ->
  hist k' = hist k ++ [mkRecord o ev t m] -> effect t e a a' [].
Proof.
  intros Ek Ep Em Er Eh. right. exists (hist k'). split; [left; split; [done|]; split; [done|]; by exists k'|].
  right. exists o, m, ev. by rewrite Ek.
Qed.

Lemma effect_leave t e a b k k' o m ev passive a' out :
  at_run a = Some k -> event_point e = Some (o, m) -> hist k' = hist k ++ [mkRecord o ev t m] -> at_map b = at_map a ->
  leave passive k' b = Some (a', out) -> effect t e a a' out.
Proof.
  intros Ek Ep Eh Eb H. right. exists (hist k'). split; [by eapply leave_goes_on|]. right. exists o, m, ev. by rewrite Ek.
Qed.

Lemma effect_unwind t e a b k passive a' out :
  at_run a = Some k -> at_map b = at_map a -> leave passive k b = Some (a', out) -> effect t e a a' out.
Proof. intros Ek Eb H. right. exists (hist k). split; [by eapply leave_goes_on|]. left. by exists k. Qed.

Lemma astep_effect t mo cmo passive mainFn e a a' out :
  astep t mo cmo passive mainFn e a = Some (a', out) -> effect t e a a' out.
Proof.
  intros H. unfold astep, plain, up, down, add_if in H.
  destruct (at_run a) as [k|] eqn:Ek; destruct e; simplify_option_eq; repeat (case_match; simplify_option_eq);
    try apply effect_plain;
    try (by eapply effect_keep); try (by eapply effect_add); try (by refine (effect_unwind _ _ _ _ _ _ _ _ Ek _ H));
    try (left; split; [done|]; split; [done|]; right; by eexists).
  - exact (effect_leave t (PLeaveMain o m) a a k (add t o LeaveMain m k) o m LeaveMain passive a' out Ek eq_refl eq_refl eq_refl H).
  - right. eexists. split; [left; split; [done|]; split; [done|]; by eexists|]. right. exists o, m, EnterMain. by rewrite Ek.
Qed.

(** A step of the machine adds at most one event and one report. *)
Lemma astep_good t mo cmo passive mainFn n keys e a a' out :
  0 <= n -> event_ok t keys e -> thread_good n keys a -> astep t mo cmo passive mainFn e a = Some (a', out) ->
  thread_good (n + 1) keys a' /\ Forall (report_good (n + 1) keys) out /\ (length out <= 1)%nat.
Proof.
  intros Hn He [Hm Hr] H%astep_effect.
  destruct H as [(-> & Er & Em)|(h & Hg & Hh)].
  - split; [|by split; [constructor|simpl; lia]]. split.
    + intros i Hi. destruct Em as [Em|(j & -> & Em)]; rewrite Em in Hi; [by apply Hm|]. injection Hi as ->. apply He.
    + intros k Hk. rewrite Er in Hk. by apply hist_good_keep, Hr.
  - assert (hist_good (n + 1) keys h) as Hgood.
    { destruct Hh as [(k & Ek & ->)|(o & m & ev & Ep & ->)]; [by apply hist_good_keep, Hr|].
      apply hist_good_snoc; [|by eapply event_record]. destruct (at_run a) as [k|]; [by apply Hr|].
      split; [simpl; lia|constructor]. }
    destruct Hg as [(-> & Em & k' & Ek' & <-)|(-> & Em & Er)].
    + split; [|by split; [constructor|simpl; lia]]. split; [intros i; rewrite Em; apply Hm|].
      intros k Hk. rewrite Ek' in Hk. by injection Hk as <-.
    + split; [|split; [apply Forall_singleton; split; [|done]|simpl; lia]].
      * split; [|by rewrite Er]. intros i Hi. destruct Em as [Em|Em]; rewrite Em in Hi; [by apply Hm|done].
      * simpl. destruct (at_map a) as [i|]; simpl; [by apply Hm|unfold is_sint; lia].
Qed.

(** ** Refinement *)

(** The names of compiled methods are not empty and consist of 16-bit
    characters, their tokens have 32 bits. *)
Definition names_ok (rt : Runtime) (p0 : ProfilerState) : Prop :=
  forall f k m, function_key rt p0 f = Some k -> key_info rt k = Some m -> info_ok m.

Section refinement.
Context (rt : Runtime) (p0 : ProfilerState) (debug : bool).
Hypothesis Hdef : rewrites_defined rt.
Hypothesis Hnames : names_ok rt p0.

(** The tool stands for [y] after [n] actions. *)
Record sys_inv (n : Z) (s : InstState) (y : sys) : Prop := {
  si_inst : inst_inv rt s (sys_keys y);
  si_keys : Forall (fun k => exists f, function_key rt p0 f = Some k) (sys_keys y);
  si_settings : mainMethodInfo (profilerState s) = mainMethodInfo p0 /\ collectMainOnly (profilerState s) = collectMainOnly p0 /\
    isFinished (profilerState s) = false /\ isPassiveRun (profilerState s) = isPassiveRun p0 /\
    isCollectMainOnly (coverageTracker (profilerState s)) = isCollectMainOnly (coverageTracker p0);
  si_main : mainFunctionId (profilerState s) = sys_main y;
  si_threads : represents (profilerState s) (thread_of y);
  si_pending : serializedCoverage (coverageTracker (profilerState s)) = report_bytes <$> sys_pending y;
  si_ids : serializedCoverageThreadIds (coverageTracker (profilerState s)) = sys_reported y;
  si_visited : Forall (fun r => report_methods r ⊆ allVisitedMethods (coverageTracker (profilerState s))) (sys_pending y);
  si_bounds : 0 <= n /\ Z.of_nat (length (sys_keys y)) <= n /\ Z.of_nat (base.size (sys_threads y)) <= n /\
    Z.of_nat (length (sys_pending y)) <= n;
  si_good : map_Forall (fun _ => thread_good n (sys_keys y)) (sys_threads y);
  si_reports : Forall (report_good n (sys_keys y)) (sys_pending y)
}.

Lemma thread_good_mono n n' keys new a : n <= n' -> thread_good n keys a -> thread_good n' (keys ++ new) a.
Proof. intros Hn [H1 H2]. split; [done|]. intros k Hk. by apply (hist_good_mono n), H2. Qed.
Lemma report_good_mono n n' keys new r : n <= n' -> report_good n keys r -> report_good n' (keys ++ new) r.
Proof. intros Hn [H1 H2]. split; [done|]. by apply (hist_good_mono n). Qed.

Lemma function_key_same p f :
  mainMethodInfo p = mainMethodInfo p0 -> collectMainOnly p = collectMainOnly p0 -> function_key rt p f = function_key rt p0 f.
Proof. intros E1 E2. unfold function_key, key_is_main, IsMain. by rewrite E1, E2. Qed.

(** *** A compilation *)

Lemma compile_step n s y tid f outs y' :
  sys_inv n s y -> sys_step rt p0 (Compile tid f) y = Some (outs, y') ->
  exists s', run_act rt debug (Compile tid f) s = Ok ([], s') /\ outs = [] /\ sys_inv (n + 1) s' y'.
Proof using Hdef.
  intros [I N (E1 & E2 & E3 & E4 & E5) M T P D V (B0 & B1 & B2 & B3) G R] H.
  destruct (jit_run rt tid Hdef s (sys_keys y) f I E3) as (hr & s' & Hr & I' & Es).
  destruct (compile_frame rt tid f s hr s' Hr E3) as [Ev Em]. exists s'.
  split; [cbn [run_act]; by run_step Hr|].
  unfold settings in Es. injection Es as F1 F2 F3 F4. unfold coverage_view in Ev. injection Ev as W1 W2 W3 W4 W5 W6 W7.
  unfold added in I'. rewrite (function_key_same _ _ E1 E2) in I', Em. cbn [sys_step] in H.
  assert (exists new, outs = [] /\ sys_keys y' = sys_keys y ++ new /\ (length new <= 1)%nat /\
    Forall (fun k => exists f, function_key rt p0 f = Some k) new /\ inst_inv rt s' (sys_keys y') /\
    sys_threads y' = sys_threads y /\ sys_pending y' = sys_pending y /\ sys_reported y' = sys_reported y /\
    mainFunctionId (profilerState s') = sys_main y') as (new & -> & K & L & N2 & I2 & Y1 & Y2 & Y3 & Y4).
  { destruct (function_key rt p0 f) as [k|] eqn:Ek; injection H as <- <-.
    - rewrite E2, M in Em. cbn [sys_keys sys_threads sys_pending sys_reported sys_main].
      case_bool_decide; [exists []|exists [k]]; rewrite ?app_nil_r in *; split_and!; try done;
        first [simpl; lia|by constructor|apply Forall_singleton; by exists f].
    - exists []. rewrite app_nil_r in *. rewrite M in Em. split_and!; try done; first [simpl; lia|by constructor]. }
  split; [done|]. split; try done.
  - rewrite K. by apply Forall_app.
  - split_and!; congruence.
  - intros t. destruct (T t). unfold thread_of in *. rewrite Y1. split; first [congruence|done].
  - by rewrite W5, Y2.
  - by rewrite W6, Y3.
  - by rewrite Y2, W3.
  - rewrite K, Y1, Y2, length_app. lia.
  - rewrite K, Y1. intros t a Ha. apply (thread_good_mono n); [lia|by eapply G].
  - rewrite K, Y2. eapply Forall_impl; [exact R|]. intros r. apply report_good_mono. lia.
Qed.

(** *** A probe or an exception callback *)

Lemma happen_step n s y t e outs y' :
  sys_inv n s y -> sys_step rt p0 (Happen t e) y = Some (outs, y') ->
  exists s', run_act rt debug (Happen t e) s = Ok ([], s') /\ outs = [] /\ sys_inv (n + 1) s' y'.
Proof.
  intros [I N (E1 & E2 & E3 & E4 & E5) M T P D V (B0 & B1 & B2 & B3) G R] H. cbn [sys_step] in H.
  case_bool_decide as He; [|done]. apply bind_Some in H as ([a out] & Ha & [= <- <-]).
  pose proof Ha as Ha'. rewrite <- E5, <- E2, <- E4, <- M in Ha'.
  destruct (step_run debug t (profilerState s) (thread_of y t) e a out (T t) E3 Ha') as (p' & Hr & [Hv Hf Hc Hs Hi Hm]).
  assert (thread_good n (sys_keys y) (thread_of y t)) as Gt.
  { unfold thread_of. destruct (sys_threads y !! t) as [a0|] eqn:Et; [by eapply G|]. split; [done|]. intros k. done. }
  destruct (astep_good t _ _ _ _ n (sys_keys y) e _ a out B0 He Gt Ha) as (Ga & Go & Lo).
  eexists. split; [cbn [run_act]; run_step (on_part_run profilerState
    (fun p s => mkInstState p (instrumentedMethods s) (coverageProbes s) (shutdownBlockingRequestsCount s) (bodies s)) _ s _ _ Hr); reflexivity|].
  split; [done|]. unfold config in Hc. injection Hc as C1 C2 C3 C4 C5 C6 C7. split; cbn [profilerState sys_keys sys_threads sys_main sys_pending sys_reported].
  - apply (inv_same rt s); try done. unfold settings. cbn [profilerState shutdownBlockingRequestsCount]. congruence.
  - done.
  - split_and!; congruence.
  - congruence.
  - intros t'. unfold thread_of. cbn [sys_threads]. destruct (decide (t' = t)) as [->|Hne]; [by rewrite lookup_insert_eq|].
    rewrite lookup_insert_ne by done. by apply Hf, T.
  - by rewrite Hs, P, fmap_app.
  - by rewrite Hi, D.
  - rewrite Hm. apply Forall_app. split.
    + eapply Forall_impl; [exact V|]. intros r Hr'. by apply union_subseteq_r'.
    + apply Forall_forall. intros r Hr'. apply union_subseteq_l'. intros m Hm'. apply elem_of_union_list.
      exists (report_methods r). split; [by apply list_elem_of_fmap_2|done].
  - rewrite length_app. split_and!; [lia|lia| |lia].
    rewrite map_size_insert. case_match; unfold id; lia.
  - apply map_Forall_insert_2; [done|]. intros t' a' Ha2. rewrite <- (app_nil_r (sys_keys y)). apply (thread_good_mono n); [lia|by eapply G].
  - apply Forall_app. split; [|done]. eapply Forall_impl; [exact R|]. intros r Hr'. rewrite <- (app_nil_r (sys_keys y)).
    apply (report_good_mono n); [lia|done].
Qed.

(** *** A fetch *)

Lemma mapping_of p y :
  represents p (thread_of y) -> threadIdMapping (threadTracker p) = omap at_map (sys_threads y).
Proof.
  intros T. apply map_eq. intros t. rewrite (v_map _ _ _ (T t)), lookup_omap. unfold thread_of.
  by destruct (sys_threads y !! t).
Qed.

Lemma size_omap {A B} (f : A -> option B) (m : gmap Z A) : (base.size (omap f m) <= base.size m)%nat.
Proof.
  rewrite <- !size_dom. apply subseteq_size. intros i. rewrite !elem_of_dom, lookup_omap.
  intros [x Hx]. apply bind_Some in Hx as (a & Ha & _). by exists a.
Qed.

Lemma length_map_items {A} (m : gmap Z A) : length (map_items m) = base.size m.
Proof. by rewrite (Permutation_length (map_items_perm m)), length_map_to_list. Qed.

Lemma location_same ms keys r :
  key_info rt <$> keys = Some <$> ms -> sys_location rt keys r = location_of ms r.
Proof.
  intros E. unfold sys_location, location_of.
  assert (key_info rt <$> keys !! Z.to_nat (methodId r) = Some <$> ms !! Z.to_nat (methodId r)) as L
    by (rewrite <- !list_lookup_fmap; by rewrite E).
  destruct (keys !! _) as [k|], (ms !! _) as [m|]; try done. cbn [fmap option_fmap option_map] in L. injection L as L.
  cbn [mbind option_bind]. rewrite L. cbn [mbind option_bind]. unfold key_info in L.
  destruct (GetModuleInfo rt (snd k)) as [|[]]; [done|]. destruct (GetAssemblyInfo _ _); [done|]. by injection L as <-.
Qed.

Lemma reports_same ms keys reps :
  key_info rt <$> keys = Some <$> ms -> mapM (sys_report rt keys) reps = mapM (locations_of ms) reps.
Proof.
  intros E. apply mapM_ext. intros r. unfold sys_report, locations_of. f_equal. apply mapM_ext. intros x. by apply location_same.
Qed.

Lemma sys_report_wf n s y :
  sys_inv n s y -> 20 * n < 2 ^ 31 -> report_wf (profilerState s) (sys_pending y).
Proof using Hnames.
  intros [I N _ _ T P _ _ (B0 & B1 & B2 & B3) G R] Hn. pose proof (inv_length rt s _ I) as L. split.
  - done.
  - eapply Forall_impl; [exact R|]. intros r (R1 & R2 & R3). split; [done|]. split; [lia|].
    eapply Forall_impl; [exact R3|]. intros x (X1 & X2 & X3). split; [done|]. split; [unfold is_sint; lia|done].
  - apply Forall_lookup. intros i m Hm. pose proof (iv_infos _ _ _ I) as E.
    assert (key_info rt <$> sys_keys y !! i = Some (Some m)) as E1 by (rewrite <- list_lookup_fmap, E, list_lookup_fmap; by rewrite Hm).
    destruct (sys_keys y !! i) as [k|] eqn:Ek; [|done]. injection E1 as E1.
    destruct (Forall_lookup_1 _ _ _ _ N Ek) as (f & Hf). by apply (Hnames f k).
  - apply Forall_forall. intros [t i] Hin. unfold getMapping, items in Hin. rewrite map_items_perm in Hin.
    apply elem_of_map_to_list in Hin. rewrite (mapping_of _ _ T), lookup_omap in Hin. apply bind_Some in Hin as (a & Ha & Hi).
    by apply (proj1 (G _ _ Ha)).
  - lia.
  - unfold getMapping, items. rewrite length_map_items, (mapping_of _ _ T). pose proof (size_omap at_map (sys_threads y)). lia.
Qed.

Lemma fetch_step n s y outs y' :
  sys_inv n s y -> 20 * n < 2 ^ 31 -> sys_step rt p0 Fetch y = Some (outs, y') ->
  exists s' bytes, run_act rt debug Fetch s = Ok ([bytes], s') /\ (exists out, outs = [out] /\ engine_reads bytes = Some out) /\
    sys_inv (n + 1) s' y'.
Proof using Hnames.
  intros Inv Hn H. pose proof (sys_report_wf n s y Inv Hn) as W.
  destruct Inv as [I N (E1 & E2 & E3 & E4 & E5) M T P D V (B0 & B1 & B2 & B3) G R].
  cbn [sys_step] in H. apply bind_Some in H as (covered & Hc & [= <- <-]).
  destruct (history_run _ _ W) as (bytes & Hr & Hraw). pose proof (inv_length rt s _ I) as L.
  assert (missing (profilerState s) = silent y) as Hm.
  { unfold missing, silent, getMapping, items. by rewrite D, (mapping_of _ _ T). }
  assert (Forall (methods_known (profilerState s)) (sys_pending y)) as Hk.
  { apply Forall_forall. intros r Hr'. split; [by apply (proj1 (Forall_forall _ _) V)|].
    apply (proj1 (Forall_forall _ _) R) in Hr' as (_ & _ & R3). eapply Forall_impl; [exact R3|]. intros x (_ & _ & X). lia. }
  destruct (known_reports (profilerState s) (sys_pending y) (sys_pending y) Hk) as (l & L1 & L2).
  rewrite (reports_same (collectedMethods (coverageTracker (profilerState s)))), L1 in Hc by apply (iv_infos _ _ _ I). injection Hc as <-.
  eexists _, bytes. split; [cbn [run_act]; run_step (on_part_run profilerState
    (fun p s => mkInstState p (instrumentedMethods s) (coverageProbes s) (shutdownBlockingRequestsCount s) (bodies s)) _ s _ _ Hr); reflexivity|].
  split.
  - eexists. split; [done|]. unfold engine_reads. rewrite Hraw. unfold reportsFromRawReports. cbn [reports raw_of]. rewrite Hm.
    apply mapM_Some_app; [done|apply empty_locations].
  - split; cbn [profilerState sys_keys sys_threads sys_main sys_pending sys_reported]; try done.
    + by apply (inv_same rt s).
    + simpl. by rewrite Hm, D.
    + rewrite map_size_empty. simpl. lia.
Qed.

(** *** Any order *)

Lemma sys_refines n s y l outs y' :
  sys_inv n s y -> 20 * (n + Z.of_nat (length l)) < 2 ^ 31 -> sys_run rt p0 l y = Some (outs, y') ->
  exists fetched s', run_acts rt debug l s = Ok (fetched, s') /\ Forall2 (fun bytes out => engine_reads bytes = Some out) fetched outs /\
    sys_inv (n + Z.of_nat (length l)) s' y'.
Proof using Hdef Hnames.
  revert n s y outs. induction l as [|x l IH]; intros n s y outs Inv Hn H.
  { injection H as <- <-. exists [], s. rewrite Z.add_0_r. split; [done|]. by split; [constructor|]. }
  cbn [length] in *. cbn [sys_run] in H. apply bind_Some in H as ([o1 y1] & H1 & H). apply bind_Some in H as ([o2 y2] & H2 & [= <- <-]).
  assert (exists b s1, run_act rt debug x s = Ok (b, s1) /\ Forall2 (fun bytes out => engine_reads bytes = Some out) b o1 /\
    sys_inv (n + 1) s1 y1) as (b & s1 & R1 & F1 & Inv1).
  { destruct x as [tid f|t e|].
    - destruct (compile_step n s y tid f _ _ Inv H1) as (s1 & R1 & -> & Inv1). by exists [], s1.
    - destruct (happen_step n s y t e _ _ Inv H1) as (s1 & R1 & -> & Inv1). by exists [], s1.
    - destruct (fetch_step n s y _ _ Inv ltac:(lia) H1) as (s1 & b & R1 & (out & -> & Ho) & Inv1). exists [b], s1.
      split_and!; [done|by repeat constructor|done]. }
  destruct (IH (n + 1) s1 y1 o2 Inv1 ltac:(lia) H2) as (bs & s2 & R2 & F2 & Inv2). exists (b ++ bs), s2.
  cbn [run_acts]. run_step R1. run_step R2. split; [done|]. split; [by apply Forall2_app|].
  by replace (n + Z.of_nat (S (length l))) with (n + 1 + Z.of_nat (length l)) by lia.
Qed.
End refinement.

(** ** The theorem *)

(** C4: The coverage tool as a whole, as a refinement of the specification
    [sys_run].  Methods are compiled, threads run through probes and exception
    callbacks and reports are fetched, one after the other, in any order in which
    the specification has steps: events name numbered methods, balances and filters stay in range, a
    thread is mapped once, one that ends outside passive mode is mapped, and none
    is aborted inside main.  If the runtime describes its methods and none of them
    makes [RewriteIL] throw, no callback fails, and what the engine reads from
    each fetch is what it is meant to be: one report per activation of main that
    ended since the fetch before, in the order of the ends, with the thread's
    number and, for every event of the thread in order, the assembly, module and
    token of the method that was compiled and the offset in it; then an empty
    report for every mapped thread that was never reported.  The bodies handed out
    carry the numbers of these methods. *)
Theorem coverage_system_refines rt debug s acts outs y :
  rewrites_defined rt -> names_ok rt (profilerState s) -> inst_inv rt s [] ->
  represents (profilerState s) (fun _ => idle) -> isFinished (profilerState s) = false ->
  serializedCoverage (coverageTracker (profilerState s)) = [] -> serializedCoverageThreadIds (coverageTracker (profilerState s)) = [] ->
  20 * Z.of_nat (length acts) < 2 ^ 31 ->
  sys_run rt (profilerState s) acts (mkSys [] ∅ (mainFunctionId (profilerState s)) [] []) = Some (outs, y) ->
  exists fetched s', run_acts rt debug acts s = Ok (fetched, s') /\
    Forall2 (fun bytes out => engine_reads bytes = Some out) fetched outs /\ inst_inv rt s' (sys_keys y).
Proof.
  intros Hdef Hn I T Hf P D Hlen H.
  assert (sys_inv rt (profilerState s) 0 s (mkSys [] ∅ (mainFunctionId (profilerState s)) [] [])) as Inv
    by (by split).
  destruct (sys_refines rt (profilerState s) debug Hdef Hn 0 s _ acts outs y Inv Hlen H) as (fetched & s' & R & F & Inv').
  exists fetched, s'. split; [done|]. split; [done|]. apply Inv'.
Qed.

(** Main is compiled, runs on two threads, one of which ends before the first
    fetch; a third thread is mapped only. *)
Definition sample_acts : list act :=
  [Compile 1 500; Happen 11 (PMap 1); Happen 12 (PMap 2); Happen 13 (PMap 3); Happen 11 (PEnterMain 0 0);
   Happen 12 (PEnterMain 0 0); Compile 2 501; Happen 11 (PBranch 5 0); Happen 11 (PExceptionThrown false);
   Happen 15 (PExceptionThrown true); Happen 11 (PLeaveMain 9 0); Happen 12 (PCoverage 3 0);
   Fetch; Compile 1 502; Happen 14 (PMap 4); Happen 14 (PEnterMain 0 0); Happen 14 (PLeaveMain 9 0); Fetch].

Lemma sample_names : names_ok sample_runtime sample_profiler.
Proof.
  intros f [t m] i Hf [= <-]. unfold function_key in Hf. cbn [GetFunctionInfo sample_runtime] in Hf.
  destruct (f =? 503); [done|]. assert (t = 0x06000001 \/ t = 0x06000002) as Ht.
  { destruct (f =? 502); cbn [key_info] in Hf; case_match; try done; injection Hf; auto. }
  split; [destruct Ht as [-> | ->]; simpl; unfold is_uint; lia|]. split; repeat constructor; simpl; unfold is_uint; lia.
Qed.

Lemma coverage_system_refines_witness :
  exists fetched s', run_acts sample_runtime true sample_acts fresh_state = Ok (fetched, s') /\
    Forall2 (fun bytes out => engine_reads bytes = Some out) fetched
      [[mkReport 1 [mkLocation [65] [77] 0x06000001 0; mkLocation [65] [77] 0x06000001 5; mkLocation [65] [77] 0x06000001 9];
        mkReport 2 []; mkReport 3 []];
       [mkReport 4 [mkLocation [65] [77] 0x06000001 0; mkLocation [65] [77] 0x06000001 9]]] /\
    inst_inv sample_runtime s' [(0x06000001, 7)].
Proof.
  destruct (coverage_system_refines sample_runtime true fresh_state sample_acts
    (fst (default ([], mkSys [] ∅ 0 [] []) (sys_run sample_runtime sample_profiler sample_acts (mkSys [] ∅ 0 [] []))))
    (snd (default ([], mkSys [] ∅ 0 [] []) (sys_run sample_runtime sample_profiler sample_acts (mkSys [] ∅ 0 [] []))))
    sample_defined sample_names fresh_inv) as (fetched & s' & R & F & I).
  - intros t. by split.
  - reflexivity.
  - reflexivity.
  - reflexivity.
  - reflexivity.
  - vm_compute. reflexivity.
  - exists fetched, s'. split; [exact R|]. split; [exact F|exact I].
Defined.
