(* ===== verification/CovInterleave.v ===== *)
(** * Requests and the shutdown, interleaved

    The runtime calls [JITCompilationStarted] on the thread that compiles, so
    callbacks run at the same time as each other and as [Shutdown].  They share
    [profilerState], [instrumentedMethods] and [shutdownBlockingRequestsCount]
    (CovInstrument.v).  Here a callback and the shutdown are sequences of
    steps, each a single access to one of the shared objects, and a run of the
    profiler is any interleaving of them.

    Every access is taken to be atomic.  For the counter ([std::atomic]), the
    table of methods (under [collectedMethodsMutex]) and the signatures (one per
    thread, under a lock) the code provides that.  For [instrumentedMethods], a
    [std::set], and [isFinished], a plain [bool], it does not: the mutex of
    [instrument] is a member of an [Instrumenter] that each callback makes for
    itself, and excludes nobody, so it is not a step.  The model therefore has
    fewer behaviours than the program where these accesses overlap.

    [GetHistory], which is counted like a compilation, is not a request here.  The
    body a rewriting starts from is the one in the module (CovInstrument.v); in the
    program the second rewriting of [method_numbered_twice] starts from the body
    the first one has set. *)

From S2P Require Import Prelude CorHdr ILList ILCode ILImport Runtime ILProbes CovTracker CovReport CovInstrument.
Local Open Scope Z_scope.

(** ** The steps of a callback *)

(** The local variables of [instrument] that its later steps use. *)
Record target := mkTarget { tg_token : Z; tg_module : Z; tg_name : list Z; tg_info : MethodInfo }.
Definition tg_key (t : target) : Z * Z := (tg_token t, tg_module t).

(** What a call of [JITCompilationStarted] is about to do. *)
Inductive phase :=
  | Started
  | Counting
  | Querying
  | Searching (t : target)
  | Collecting (t : target)
  | Inserting (t : target) (currentMethodId : Z)
  | Rewriting (t : target) (currentMethodId : Z)
  | Leaving (hr : Z)
  | Finished (hr : Z).

(** [IfFailRet] inside [instrument]. *)
Definition leave_if_failed {A} (r : Z + A) (k : A -> st InstState phase) : st InstState phase :=
  match r with inl hr => mret (Leaving hr) | inr a => k a end.

Section Steps.
Context (rt : Runtime).

Definition step_request (tid functionId : Z) (ph : phase) : st InstState phase :=
  match ph with
  | Started => s ← st_get; mret (if isFinished (profilerState s) then Finished S_OK else Counting)
  | Counting => st_modify (count_request 1);; mret Querying
  | Querying =>
      leave_if_failed (GetFunctionInfo rt functionId) (fun '(newModuleId, m_jittedToken) =>
      leave_if_failed (GetModuleInfo rt newModuleId) (fun '(moduleName, assembly) =>
      leave_if_failed (GetAssemblyInfo rt assembly) (fun assemblyName =>
        s ← st_get;
        let moduleNameLength := Z.of_nat (length moduleName) in
        if negb (InstrumentationIsNeeded (profilerState s) moduleName moduleNameLength m_jittedToken)
        then mret (Leaving S_OK) else
        (if collectMainOnly (profilerState s) then on_profiler (st_modify (with_mainFunctionId functionId)) else mret tt);;
        mret (Searching (mkTarget m_jittedToken newModuleId moduleName
          (mkMethodInfo m_jittedToken (Z.of_nat (length assemblyName)) assemblyName moduleNameLength moduleName))))))
  | Searching t => s ← st_get;
      mret (if bool_decide (tg_key t ∈ instrumentedMethods s) then Leaving S_OK else Collecting t)
  | Collecting t => currentMethodId ← on_profiler (collectMethod (tg_info t)); mret (Inserting t currentMethodId)
  | Inserting t currentMethodId => st_modify (insert_method (tg_key t));; mret (Rewriting t currentMethodId)
  | Rewriting t currentMethodId =>
      hr ← doInstrumentation rt tid 0 (tg_module t) (tg_token t) currentMethodId (tg_name t); mret (Leaving hr)
  | Leaving hr => st_modify (count_request (-1));; mret (Finished hr)
  | Finished hr => mret (Finished hr)
  end.

(** [Shutdown]: setting the flag, the loop, the report of a passive run. *)
Inductive closing_phase :=
  | Open
  | Spinning
  | Reporting
  | Closed (report : option (list Z)).

Definition set_finished (p : ProfilerState) : ProfilerState :=
  mkProfilerState (threadTracker p) (coverageTracker p) (isPassiveRun p) (collectMainOnly p) true
    (mainMethodInfo p) (mainFunctionId p).

Definition step_shutdown (ph : closing_phase) : st InstState closing_phase :=
  match ph with
  | Open => on_profiler (st_modify set_finished);; mret Spinning
  | Spinning => s ← st_get; mret (if 0 <? shutdownBlockingRequestsCount s then Spinning else Reporting)
  | Reporting => s ← st_get;
      if isPassiveRun (profilerState s) then bytes ← on_profiler serializeCoverageReport; mret (Closed (Some bytes))
      else mret (Closed None)
  | Closed r => mret (Closed r)
  end.

(** ** The system: the shared objects, the callbacks of its threads, the shutdown *)

Record system := mkSystem {
  shared : InstState;
  requests : list (Z * Z * phase);
  closing : closing_phase
}.

Inductive label := Request (i : nat) | Shut.
#[export] Instance label_eq_dec : EqDecision label.
Proof. solve_decision. Defined.

Definition step (l : label) (y : system) : result system :=
  match l with
  | Request i =>
      match requests y !! i with
      | None => Ok y
      | Some (tid, functionId, ph) =>
          '(ph, s) ← step_request tid functionId ph (shared y);
          Ok (mkSystem s (<[i := (tid, functionId, ph)]> (requests y)) (closing y))
      end
  | Shut => '(ph, s) ← step_shutdown (closing y) (shared y); Ok (mkSystem s (requests y) ph)
  end.

Fixpoint run (schedule : list label) (y : system) : result system :=
  match schedule with
  | [] => Ok y
  | l :: schedule => y ← step l y; run schedule y
  end.

Inductive reachable (y0 : system) : system -> Prop :=
  | reach_start : reachable y0 y0
  | reach_step l y y' : reachable y0 y -> step l y = Ok y' -> reachable y0 y'.
End Steps.

(** Calls that have not begun. *)
Definition start (s : InstState) (calls : list (Z * Z)) : system :=
  mkSystem s (map (fun c => (fst c, snd c, Started)) calls) Open.

(** ** A callback alone is [JITCompilationStarted] *)

(** [n] steps of one callback. *)
Fixpoint steps_alone (rt : Runtime) (n : nat) (tid functionId : Z) (ph : phase) : st InstState phase :=
  match n with
  | O => mret ph
  | S n => ph ← step_request rt tid functionId ph; steps_alone rt n tid functionId ph
  end.

Lemma steps_finished rt n tid f hr s : steps_alone rt n tid f (Finished hr) s = Ok (Finished hr, s).
Proof. induction n as [|n IH]; [done|]. exact IH. Qed.

Lemma steps_leaving rt n tid f hr s :
  steps_alone rt (S n) tid f (Leaving hr) s = Ok (Finished hr, count_request (-1) s).
Proof. cbn [steps_alone step_request]. apply steps_finished. Qed.

(** The steps of [instrument], from where the callback has been counted. *)
Lemma steps_instrument rt tid f s :
  steps_alone rt 6 tid f Querying s =
  match instrument rt tid 0 f s with
  | Ok (hr, s') => Ok (Finished hr, count_request (-1) s')
  | Err e => Err e
  end.
Proof.
  unfold instrument, IfFailRet. change (steps_alone rt 6 tid f Querying s) with
    ((step_request rt tid f Querying ≫= steps_alone rt 5 tid f) s). cbn [step_request]. unfold leave_if_failed.
  destruct (GetFunctionInfo rt f) as [hr|[m t]]; [apply steps_leaving|].
  destruct (GetModuleInfo rt m) as [hr|[name assembly]]; [apply steps_leaving|].
  destruct (GetAssemblyInfo rt assembly) as [hr|aname]; [apply steps_leaving|].
  set (info := mkMethodInfo _ _ _ _ _). set (tg := mkTarget t m name info).
  rewrite st_bind_assoc. do 2 rewrite st_get_bind. cbv zeta.
  destruct (negb _); [apply steps_leaving|].
  set (write := if collectMainOnly (profilerState s) then _ else _).
  assert (exists s1, write s = Ok (tt, s1) /\ instrumentedMethods s1 = instrumentedMethods s) as (s1 & Hw & Hi).
  { subst write. destruct (collectMainOnly _); eexists; done. }
  rewrite st_bind_assoc, !(st_bind_run _ _ _ _ _ Hw), <- Hi.
  change ((mret (Searching tg) ≫= steps_alone rt 5 tid f) s1) with
    (steps_alone rt 4 tid f (if bool_decide (tg_key tg ∈ instrumentedMethods s1) then Leaving S_OK else Collecting tg) s1).
  change (tg_key tg) with (t, m). destruct (bool_decide _); [apply steps_leaving|].
  change (steps_alone rt 4 tid f (Collecting tg) s1) with
    (steps_alone rt 2 tid f (Rewriting tg (Z.of_nat (length (collectedMethods (coverageTracker (profilerState s1))))))
      (insert_method (t, m) (collected_state s1 info))).
  run_step (collect_run s1 info). rewrite st_modify_bind.
  set (id := Z.of_nat _). set (s2 := insert_method _ _).
  change (steps_alone rt 2 tid f (Rewriting tg id) s2) with
    (((hr ← doInstrumentation rt tid 0 m t id name; mret (Leaving hr)) ≫= steps_alone rt 1 tid f) s2).
  rewrite st_bind_assoc. unfold mbind at 1, st_bind at 1.
  by destruct (doInstrumentation _ _ _ _ _ _ _ _) as [[hr s3]|e].
Qed.

(** A callback whose steps are not interrupted does exactly what
    [JITCompilationStarted] does: eight steps, the same result, the same state
    and the same exceptions. *)
Theorem callback_alone rt tid f s :
  steps_alone rt 8 tid f Started s =
  match JITCompilationStarted rt tid f s with
  | Ok (hr, s') => Ok (Finished hr, s')
  | Err e => Err e
  end.
Proof.
  unfold JITCompilationStarted. rewrite st_get_bind.
  change (steps_alone rt 8 tid f Started s) with
    (steps_alone rt 7 tid f (if isFinished (profilerState s) then Finished S_OK else Counting) s).
  destruct (isFinished (profilerState s)); [apply steps_finished|]. rewrite st_modify_bind.
  change (steps_alone rt 7 tid f Counting s) with (steps_alone rt 6 tid f Querying (count_request 1 s)).
  rewrite steps_instrument. unfold mbind at 1, st_bind at 1.
  by destruct (instrument rt tid 0 f (count_request 1 s)) as [[hr s1]|e].
Qed.

(** ** What every interleaving keeps *)

Definition collected (s : InstState) : list MethodInfo := collectedMethods (coverageTracker (profilerState s)).

(** The callbacks counted by [shutdownBlockingRequestsCount]. *)
Definition counted (ph : phase) : Z :=
  match ph with Started | Counting | Finished _ => 0 | _ => 1 end.
Definition counted_all (phs : list phase) : Z := foldr (fun ph n => counted ph + n) 0 phs.

(** The number a callback has been given and not used yet. *)
Definition pending (ph : phase) : list Z :=
  match ph with Inserting _ id | Rewriting _ id => [id] | _ => [] end.

Definition numbered (rt : Runtime) (s : InstState) (k : Z * Z) (id : Z) : Prop :=
  0 <= id /\ exists info, collected s !! Z.to_nat id = Some info /\ key_info rt k = Some info.

Definition target_ok (rt : Runtime) (t : target) : Prop :=
  key_info rt (tg_key t) = Some (tg_info t) /\ exists assembly, GetModuleInfo rt (tg_module t) = inr (tg_name t, assembly).

Definition phase_ok (rt : Runtime) (s : InstState) (ph : phase) : Prop :=
  match ph with
  | Searching t | Collecting t => target_ok rt t
  | Inserting t id | Rewriting t id => target_ok rt t /\ numbered rt s (tg_key t) id
  | _ => True
  end.

(** A body is the rewriting of the method whose number its probes carry. *)
Definition body_numbered (rt : Runtime) (s : InstState) (b : NewBody) : Prop :=
  numbered rt s (nb_token b, nb_module b) (nb_methodId b) /\
  exists decoder probes r, GetILFunctionBody rt (nb_module b) (nb_token b) = inr decoder /\
    RewriteIL (Alloc rt) (SetBody rt (nb_module b) (nb_token b)) (junk rt) decoder probes (sint 32 (nb_methodId b))
      (key_is_main rt (profilerState s) (nb_token b, nb_module b)) new_ILRewriter = Ok (nb_body b, r).

Record conc_inv (rt : Runtime) (s : InstState) (phs : list phase) : Prop := {
  cv_count : shutdownBlockingRequestsCount s = counted_all phs;
  cv_phases : Forall (phase_ok rt s) phs;
  cv_bodies : Forall (body_numbered rt s) (bodies s);
  cv_ids : NoDup ((nb_methodId <$> bodies s) ++ concat (pending <$> phs));
  cv_methods : forall k, k ∈ instrumentedMethods s -> exists id, numbered rt s k id;
  cv_collected : Forall (fun info => exists k, key_info rt k = Some info) (collected s)
}.

(** States with more methods and the same main method. *)
Definition extends (s s' : InstState) : Prop :=
  (exists l, collected s' = collected s ++ l) /\
  mainMethodInfo (profilerState s') = mainMethodInfo (profilerState s).

Lemma extends_refl s : extends s s.
Proof. split; [exists []; by rewrite app_nil_r|done]. Qed.

Lemma extends_same s s' : collected s' = collected s ->
  mainMethodInfo (profilerState s') = mainMethodInfo (profilerState s) -> extends s s'.
Proof. intros H1 H2. split; [exists []; by rewrite app_nil_r|done]. Qed.

Lemma key_is_main_extends rt s s' k : extends s s' ->
  key_is_main rt (profilerState s') k = key_is_main rt (profilerState s) k.
Proof. intros [_ H]. unfold key_is_main, IsMain. by rewrite H. Qed.

Lemma numbered_extends rt s s' k id : extends s s' -> numbered rt s k id -> numbered rt s' k id.
Proof.
  intros [[l Hl] _] (H0 & info & Hi & Hk). split; [done|]. exists info. split; [|done].
  rewrite Hl. by apply lookup_app_l_Some.
Qed.

Lemma body_extends rt s s' b : extends s s' -> body_numbered rt s b -> body_numbered rt s' b.
Proof.
  intros E (Hn & d & p & r & Hd & Hr). split; [by eapply numbered_extends|]. exists d, p, r.
  split; [done|]. by rewrite (key_is_main_extends rt s s' _ E).
Qed.

Lemma phase_extends rt s s' ph : extends s s' -> phase_ok rt s ph -> phase_ok rt s' ph.
Proof. intros E. destruct ph; simpl; try done; intros [? ?]; split; eauto using numbered_extends. Qed.

Lemma counted_all_app l1 l2 : counted_all (l1 ++ l2) = counted_all l1 + counted_all l2.
Proof. induction l1; simpl; lia. Qed.

Lemma pending_app l1 l2 : concat (pending <$> (l1 ++ l2)) = concat (pending <$> l1) ++ concat (pending <$> l2).
Proof. by rewrite fmap_app, concat_app. Qed.

(** A step of one callback: the others keep their phases. *)
Section OneStep.
Context (rt : Runtime) (s s' : InstState) (l1 l2 : list phase) (ph ph' : phase).
Hypothesis inv : conc_inv rt s (l1 ++ ph :: l2).
Hypothesis Hext : extends s s'.
Hypothesis Hcount : shutdownBlockingRequestsCount s' = shutdownBlockingRequestsCount s - counted ph + counted ph'.
Hypothesis Hph : phase_ok rt s' ph'.
Hypothesis Hset : forall k, k ∈ instrumentedMethods s' -> k ∈ instrumentedMethods s \/ exists id, numbered rt s' k id.
Hypothesis Hcoll : Forall (fun info => exists k, key_info rt k = Some info) (collected s').

Lemma conc_inv_step new :
  bodies s' = bodies s ++ new -> Forall (body_numbered rt s') new ->
  (forall l, NoDup (l ++ pending ph) -> (forall id, id ∈ l -> id < Z.of_nat (length (collected s))) ->
     NoDup (l ++ (nb_methodId <$> new) ++ pending ph')) ->
  conc_inv rt s' (l1 ++ ph' :: l2).
Proof using inv Hext Hcount Hph Hset Hcoll.
  intros Hb Hnew Hids. destruct inv as [I1 I2 I3 I4 I5 I6].
  assert (forall id, id ∈ (nb_methodId <$> bodies s) ++ concat (pending <$> l1) ++ concat (pending <$> l2) ->
    id < Z.of_nat (length (collected s))) as Hlt.
  { assert (forall k id, numbered rt s k id -> id < Z.of_nat (length (collected s))) as Hn.
    { intros k id (H0 & info & Hi%lookup_lt_Some & _). lia. }
    assert (forall l id, Forall (phase_ok rt s) l -> id ∈ concat (pending <$> l) -> id < Z.of_nat (length (collected s))) as Hp.
    { intros l id Hl Hid. apply list_elem_of_In, in_concat in Hid as (x & Hx & Hid).
      apply list_elem_of_In, list_elem_of_fmap in Hx as (q & -> & Hq). apply list_elem_of_In in Hid.
      apply (proj1 (Forall_forall _ _) Hl) in Hq.
      destruct q; simpl in Hid; try by apply elem_of_nil in Hid.
      - apply list_elem_of_singleton in Hid as ->. by eapply Hn, Hq.
      - apply list_elem_of_singleton in Hid as ->. by eapply Hn, Hq. }
    apply Forall_app in I2 as [J1 [_ J2]%Forall_cons].
    intros id [Hid|[Hid|Hid]%elem_of_app]%elem_of_app; [|exact (Hp l1 id J1 Hid)|exact (Hp l2 id J2 Hid)].
    apply list_elem_of_fmap in Hid as (b & -> & Hin). apply (proj1 (Forall_forall _ _) I3) in Hin as [Hin _]. eauto. }
  split.
  - rewrite Hcount, I1, !counted_all_app. simpl. lia.
  - apply Forall_app in I2 as [J1 [_ J2]%Forall_cons]. apply Forall_app. split; [|constructor; [done|]];
      (eapply Forall_impl; [eassumption|]; intros q; by apply phase_extends).
  - rewrite Hb. apply Forall_app. split; [|done]. eapply Forall_impl; [exact I3|]. intros b. by apply body_extends.
  - rewrite Hb, fmap_app. rewrite pending_app in I4 |- *. cbn [fmap list_fmap concat] in I4 |- *.
    specialize (Hids ((nb_methodId <$> bodies s) ++ concat (pending <$> l1) ++ concat (pending <$> l2))).
    assert (forall A (a b c d : list A), a ++ b ++ (c ++ d) ≡ₚ (a ++ b ++ d) ++ c) as P1.
    { intros. rewrite (Permutation_app_comm c d). by rewrite <- !app_assoc. }
    fold (fmap pending l2 : list (list Z)) in *.
    rewrite P1 in I4. rewrite <- app_assoc.
    assert ((nb_methodId <$> bodies s) ++ (nb_methodId <$> new) ++ concat (pending <$> l1) ++ pending ph' ++ concat (pending <$> l2)
      ≡ₚ ((nb_methodId <$> bodies s) ++ concat (pending <$> l1) ++ concat (pending <$> l2)) ++ (nb_methodId <$> new) ++ pending ph') as ->.
    { solve_Permutation. }
    apply Hids; [done|exact Hlt].
  - intros k [Hk|Hk]%Hset; [|done]. destruct (I5 k Hk) as [id Hid]. exists id. by eapply numbered_extends.
  - done.
Qed.
End OneStep.

(** What [doInstrumentation] changes: signatures, and at most one body more. *)
Lemma doInstrumentation_effect rt tid m t id name s hr s' :
  doInstrumentation rt tid 0 m t id name s = Ok (hr, s') ->
  profilerState s' = profilerState s /\ instrumentedMethods s' = instrumentedMethods s /\
  shutdownBlockingRequestsCount s' = shutdownBlockingRequestsCount s /\
  (bodies s' = bodies s \/ exists body decoder probes r, bodies s' = bodies s ++ [mkNewBody id t m body] /\
     GetILFunctionBody rt m t = inr decoder /\
     RewriteIL (Alloc rt) (SetBody rt m t) (junk rt) decoder probes (sint 32 id)
       (IsMain (profilerState s) name (Z.of_nat (length name)) t) new_ILRewriter = Ok (body, r)).
Proof.
  unfold doInstrumentation, IfFailRet. destruct (GetModuleMetaData rt m) as [h|_].
  { intros [= _ <-]. auto. }
  assert (exists h tb, (if 0 =? m then mret S_OK else initTokens rt tid m) s = Ok (h, with_probes tb s)) as (h & tb & R).
  { destruct (0 =? m); [|apply initTokens_run]. exists S_OK, (coverageProbes s). by destruct s. }
  run_step R. rewrite st_get_bind. unfold rewrite_method. intros H.
  apply st_bind_ok in H as ([] & s1 & H & [= _ <-]). revert H. cbn [profilerState with_probes].
  destruct (GetILFunctionBody rt m t) as [h'|d] eqn:Ed; [intros [= <-]; auto|].
  destruct (RewriteIL _ _ _ _ _ _ _ _) as [[body r]|[h'| | |]] eqn:Er; try done.
  - intros [= <-]. split_and!; [done..|]. right. exists body, d, (probes_of tid tb), r. done.
  - intros [= <-]. auto.
Qed.

Lemma key_info_target rt m t name assembly aname :
  GetModuleInfo rt m = inr (name, assembly) -> GetAssemblyInfo rt assembly = inr aname ->
  target_ok rt (mkTarget t m name
    (mkMethodInfo t (Z.of_nat (length aname)) aname (Z.of_nat (length name)) name)).
Proof. intros Hm Ha. split; [|by exists assembly]. unfold key_info. simpl. by rewrite Hm, Ha. Qed.

(** Every step of a callback keeps the invariant. *)
Lemma step_request_inv rt tid f ph s ph' s' l1 l2 :
  conc_inv rt s (l1 ++ ph :: l2) -> step_request rt tid f ph s = Ok (ph', s') ->
  conc_inv rt s' (l1 ++ ph' :: l2).
Proof.
  intros I H. pose proof (cv_phases _ _ _ I) as Hph. apply Forall_app in Hph as [_ [Hph _]%Forall_cons].
  assert (forall s1 ph1, profilerState s1 = profilerState s -> instrumentedMethods s1 = instrumentedMethods s ->
    bodies s1 = bodies s -> shutdownBlockingRequestsCount s1 = shutdownBlockingRequestsCount s - counted ph + counted ph1 ->
    phase_ok rt s1 ph1 -> pending ph1 = [] -> conc_inv rt s1 (l1 ++ ph1 :: l2)) as Hsame.
  { intros s1 ph1 Ep Ei Eb Ec Hok Hpend. eapply (conc_inv_step rt s s1 l1 l2 ph ph1 I) with (new := []); try done.
    - apply extends_same; unfold collected; by rewrite Ep.
    - intros k. rewrite Ei. auto.
    - unfold collected. rewrite Ep. apply (cv_collected _ _ _ I).
    - by rewrite app_nil_r.
    - intros l Hl _. rewrite Hpend. simpl. rewrite app_nil_r. by apply NoDup_app in Hl as [Hl _]. }
  destruct ph as [| | |t|t|t id|t id|hr|hr]; cbn [step_request] in H.
  - rewrite st_get_bind in H. injection H as <- <-. destruct (isFinished _); apply Hsame; try done; simpl; lia.
  - rewrite st_modify_bind in H. injection H as <- <-. apply Hsame; try done. simpl. lia.
  - unfold leave_if_failed in H. destruct (GetFunctionInfo rt f) as [hr|[m t]]; [injection H as <- <-; apply Hsame; try done; simpl; lia|].
    destruct (GetModuleInfo rt m) as [hr|[name assembly]] eqn:Em; [injection H as <- <-; apply Hsame; try done; simpl; lia|].
    destruct (GetAssemblyInfo rt assembly) as [hr|aname] eqn:Ea; [injection H as <- <-; apply Hsame; try done; simpl; lia|].
    rewrite st_get_bind in H. cbv zeta in H. destruct (negb _); [injection H as <- <-; apply Hsame; try done; simpl; lia|].
    pose proof (key_info_target rt m t name assembly aname Em Ea) as Ht.
    destruct (collectMainOnly (profilerState s)); injection H as <- <-; [|apply Hsame; try done; simpl; lia].
    set (s1 := mkInstState _ _ _ _ _). assert (extends s s1) as Hext by by apply extends_same.
    eapply (conc_inv_step rt s s1 l1 l2 Querying _ I Hext) with (new := []); try done.
    + simpl. lia.
    + simpl. auto.
    + apply (cv_collected _ _ _ I).
    + by rewrite app_nil_r.
  - rewrite st_get_bind in H. injection H as <- <-. destruct (bool_decide _); apply Hsame; try done; simpl; lia.
  - unfold mbind, st_bind in H. rewrite collect_run in H. injection H as <- <-.
    pose proof (Hph : target_ok rt t) as [Hk Hn]. fold (collected s).
    assert (extends s (collected_state s (tg_info t))) as Hext by (split; [by exists [tg_info t]|done]).
    assert (numbered rt (collected_state s (tg_info t)) (tg_key t) (Z.of_nat (length (collected s)))) as Hnum.
    { split; [lia|]. exists (tg_info t). rewrite Nat2Z.id. split; [|done]. by apply list_lookup_middle. }
    eapply (conc_inv_step rt s _ l1 l2 (Collecting t) _ I Hext) with (new := []); try done.
    + simpl. lia.
    + simpl. auto.
    + unfold collected. simpl. apply Forall_app. split; [apply (cv_collected _ _ _ I)|]. constructor; [eauto|done].
    + by rewrite app_nil_r.
    + intros l Hl Hlt. simpl. apply NoDup_app in Hl as (Hl & _ & _). apply NoDup_app. split; [done|].
      split; [|apply NoDup_singleton]. intros id Hid ->%list_elem_of_singleton. apply Hlt in Hid. lia.
  - rewrite st_modify_bind in H. injection H as <- <-.
    assert (extends s (insert_method (tg_key t) s)) as Hext by by apply extends_same.
    eapply (conc_inv_step rt s _ l1 l2 (Inserting t id) (Rewriting t id) I Hext) with (new := []); try done.
    + simpl. lia.
    + intros k. cbn [insert_method instrumentedMethods]. rewrite elem_of_union, elem_of_singleton.
      intros [->|Hk]; [right|by left]. exists id. eapply numbered_extends; [exact Hext|apply Hph].
    + apply (cv_collected _ _ _ I).
    + by rewrite app_nil_r.
  - apply st_bind_ok in H as (hr & s1 & H & [= <- <-]).
    apply doInstrumentation_effect in H as (Ep & Ei & Ec & Hb). destruct Hph as [[Hk [assembly Hn]] Hnum].
    assert (extends s s1) as Hext by (apply extends_same; unfold collected; by rewrite Ep).
    destruct Hb as [Eb|(body & d & p & r & Eb & Hd & Hr)].
    + apply Hsame; try done. simpl. lia.
    + eapply (conc_inv_step rt s s1 l1 l2 (Rewriting t id) (Leaving hr) I Hext) with (new := [_]); try done.
      * simpl. lia.
      * intros k. rewrite Ei. auto.
      * unfold collected. rewrite Ep. apply (cv_collected _ _ _ I).
      * constructor; [|done]. split; [by eapply numbered_extends|]. exists d, p, r. split; [done|].
        unfold key_is_main. cbn [fst snd nb_module nb_token nb_methodId]. by rewrite Hn, Ep.
  - rewrite st_modify_bind in H. injection H as <- <-. apply Hsame; try done. simpl. lia.
  - injection H as <- <-. apply Hsame; try done. simpl. lia.
Qed.

Lemma empty_coverage_collected m c : collectedMethods (empty_coverage m c) = collectedMethods c.
Proof.
  unfold empty_coverage. revert c. induction m as [|[a b] m IH]; intros c; [done|]. simpl. rewrite IH.
  by case_bool_decide.
Qed.

Lemma report_effect p bytes p' : serializeCoverageReport p = Ok (bytes, p') ->
  collectedMethods (coverageTracker p') = collectedMethods (coverageTracker p) /\ mainMethodInfo p' = mainMethodInfo p /\
  isFinished p' = isFinished p /\ collectMainOnly p' = collectMainOnly p.
Proof.
  unfold serializeCoverageReport. rewrite st_get_bind. cbv zeta. intros H.
  apply st_bind_ok in H as (b & p1 & H & H2). unfold st_lift in H. destruct (serialize_methods _ _); [|done].
  injection H as <- <-. rewrite st_modify_bind in H2. injection H2 as _ <-. cbn. by rewrite empty_coverage_collected.
Qed.

(** What the shutdown changes concerns neither methods nor bodies. *)
Lemma step_shutdown_effect ph s ph' s' : step_shutdown ph s = Ok (ph', s') ->
  collected s' = collected s /\ mainMethodInfo (profilerState s') = mainMethodInfo (profilerState s) /\
  instrumentedMethods s' = instrumentedMethods s /\ bodies s' = bodies s /\
  shutdownBlockingRequestsCount s' = shutdownBlockingRequestsCount s.
Proof.
  destruct ph as [| | |r]; cbn [step_shutdown].
  - by intros [= <- <-].
  - rewrite st_get_bind. by intros [= <- <-].
  - rewrite st_get_bind. destruct (isPassiveRun _); [|by intros [= <- <-]]. intros H.
    apply st_bind_ok in H as (b & s1 & H & [= <- <-]). unfold on_profiler, on_part in H.
    destruct (serializeCoverageReport (profilerState s)) as [[b' p]|] eqn:E; [|done]. injection H as <- <-.
    apply report_effect in E as (E1 & E2 & _). unfold collected. simpl. by rewrite E1.
  - by intros [= <- <-].
Qed.

Definition phases (y : system) : list phase := snd <$> requests y.

Lemma conc_inv_shut rt s s' phs :
  conc_inv rt s phs -> collected s' = collected s -> mainMethodInfo (profilerState s') = mainMethodInfo (profilerState s) ->
  instrumentedMethods s' = instrumentedMethods s -> bodies s' = bodies s ->
  shutdownBlockingRequestsCount s' = shutdownBlockingRequestsCount s -> conc_inv rt s' phs.
Proof.
  intros [I1 I2 I3 I4 I5 I6] Hc Hm Hi Hb Hn. assert (extends s s') as Hext by by apply extends_same.
  split; [congruence| | | | |by rewrite Hc].
  - eapply Forall_impl; [exact I2|]. intros ph. by apply phase_extends.
  - rewrite Hb. eapply Forall_impl; [exact I3|]. intros b. by apply body_extends.
  - by rewrite Hb.
  - intros k. rewrite Hi. intros [id Hid]%I5. exists id. by eapply numbered_extends.
Qed.

Lemma step_inv rt l y y' :
  conc_inv rt (shared y) (phases y) -> step rt l y = Ok y' -> conc_inv rt (shared y') (phases y').
Proof.
  intros I. destruct l as [i|]; cbn [step].
  - destruct (requests y !! i) as [[[tid f] ph]|] eqn:Er; [|by intros [= <-]]. intros H.
    apply result_bind_ok in H as ([ph' s'] & H & [= <-]). unfold phases in *. cbn [requests shared].
    apply list_elem_of_split_length in Er as (l1 & l2 & El & ->). rewrite El in *.
    rewrite insert_app_r_alt, Nat.sub_diag by done. rewrite fmap_app in *. cbn in *.
    by eapply step_request_inv.
  - intros H. apply result_bind_ok in H as ([ph' s'] & H & [= <-]). cbn [shared].
    apply step_shutdown_effect in H as (? & ? & ? & ? & ?). by eapply conc_inv_shut.
Qed.

Lemma reachable_inv rt y0 y : conc_inv rt (shared y0) (phases y0) -> reachable rt y0 y -> conc_inv rt (shared y) (phases y).
Proof. intros I. induction 1 as [|l y y' _ IH H]; [done|]. by eapply step_inv. Qed.

(** A profiler that has just been loaded. *)
Definition fresh (s : InstState) : Prop :=
  instrumentedMethods s = ∅ /\ bodies s = [] /\ collected s = [] /\ shutdownBlockingRequestsCount s = 0 /\
  isFinished (profilerState s) = false.

Lemma start_inv rt s calls : fresh s -> conc_inv rt (shared (start s calls)) (phases (start s calls)).
Proof.
  intros (Hi & Hb & Hc & Hn & _). unfold start, phases. cbn [shared requests].
  assert (forall f : phase -> list Z, f Started = [] -> concat (f <$> (snd <$> map (fun c : Z * Z => (fst c, snd c, Started)) calls)) = []) as Hp.
  { intros f Hf. induction calls as [|c calls IH]; [done|]. cbn. by rewrite Hf. }
  split.
  - rewrite Hn. induction calls as [|c calls IH]; [done|]. cbn. apply IH. intros f Hf. specialize (Hp f Hf).
    cbn in Hp. by rewrite Hf in Hp.
  - apply Forall_forall. intros ph (x & -> & Hx)%list_elem_of_fmap. apply list_elem_of_In, in_map_iff in Hx as (c & <- & _). done.
  - by rewrite Hb.
  - rewrite Hb, Hp by done. constructor.
  - rewrite Hi. set_solver.
  - by rewrite Hc.
Qed.

(** C31: Under every interleaving of compilations and the shutdown each body the
    runtime has accepted is the rewriting of the method whose number its probes
    carry, no number is in two bodies, and the counter the shutdown waits for is
    the number of callbacks that are between its increment and its decrement. *)
Theorem interleaved_bodies_numbered rt s calls y :
  fresh s -> reachable rt (start s calls) y ->
  Forall (body_numbered rt (shared y)) (bodies (shared y)) /\
  NoDup (nb_methodId <$> bodies (shared y)) /\
  shutdownBlockingRequestsCount (shared y) = Z.of_nat (length (filter (fun ph => counted ph = 1) (phases y))).
Proof.
  intros Hf Hr. pose proof (reachable_inv rt _ y (start_inv rt s calls Hf) Hr) as I. split; [apply I|].
  split; [apply (proj1 (NoDup_app _ _) (cv_ids _ _ _ I))|].
  rewrite (cv_count _ _ _ I). generalize (phases y) as l. induction l as [|ph l IH]; [done|].
  cbn [counted_all foldr]. rewrite filter_cons. fold (counted_all l). rewrite IH.
  destruct ph; case_decide; simpl in *; lia || done.
Qed.

(** ** The shutdown leaves its loop *)

(** The steps a callback still has to take once the flag is set. *)
Definition todo (ph : phase) : nat :=
  match ph with
  | Started | Finished _ => 0
  | Counting => 7
  | Querying => 6
  | Searching _ => 5
  | Collecting _ => 4
  | Inserting _ _ => 3
  | Rewriting _ _ => 2
  | Leaving _ => 1
  end.

Lemma todo_counted ph : todo ph = 0%nat -> counted ph = 0.
Proof. by destruct ph. Qed.

Lemma doInstrumentation_total rt tid m t id name s :
  rewrites_defined rt -> exists hr s', doInstrumentation rt tid 0 m t id name s = Ok (hr, s').
Proof.
  intros Hd. unfold doInstrumentation, IfFailRet. destruct (GetModuleMetaData rt m) as [h|_]; [by exists h, s|].
  assert (exists h tb, (if 0 =? m then mret S_OK else initTokens rt tid m) s = Ok (h, with_probes tb s)) as (h & tb & R).
  { destruct (0 =? m); [|apply initTokens_run]. exists S_OK, (coverageProbes s). by destruct s. }
  run_step R. rewrite st_get_bind. unfold rewrite_method, mbind, st_bind.
  destruct (GetILFunctionBody rt m t) as [h'|d] eqn:Ed; [eauto|].
  destruct (RewriteIL _ _ _ _ _ _ _ _) as [[body r]|e] eqn:Er; [eauto|].
  destruct (Hd _ _ _ _ _ _ _ Ed Er) as [h' ->]. eauto.
Qed.

(** Once the flag is set, a step brings a callback closer to its end and leaves the flag set. *)
Lemma step_request_progress rt tid f ph s :
  rewrites_defined rt -> isFinished (profilerState s) = true ->
  exists ph' s', step_request rt tid f ph s = Ok (ph', s') /\ (todo ph' <= todo ph - 1)%nat /\
    isFinished (profilerState s') = true.
Proof.
  intros Hd Hf. destruct ph as [| | |t|t|t id|t id|hr|hr]; cbn [step_request].
  - rewrite st_get_bind, Hf. by exists (Finished S_OK), s.
  - by exists Querying, (count_request 1 s).
  - unfold leave_if_failed. destruct (GetFunctionInfo rt f) as [hr|[m t]]; [exists (Leaving hr), s; simpl; auto with lia|].
    destruct (GetModuleInfo rt m) as [hr|[name assembly]]; [exists (Leaving hr), s; simpl; auto with lia|].
    destruct (GetAssemblyInfo rt assembly) as [hr|aname]; [exists (Leaving hr), s; simpl; auto with lia|].
    rewrite st_get_bind. cbv zeta. destruct (negb _); [exists (Leaving S_OK), s; simpl; auto with lia|].
    destruct (collectMainOnly (profilerState s)); eexists _, _; (split; [reflexivity|]); simpl; auto with lia.
  - rewrite st_get_bind. eexists _, s. split; [reflexivity|]. destruct (bool_decide _); simpl; auto with lia.
  - eexists _, _. split; [unfold mbind, st_bind; rewrite collect_run; reflexivity|]. simpl. auto with lia.
  - eexists _, _. split; [reflexivity|]. simpl. auto with lia.
  - destruct (doInstrumentation_total rt tid (tg_module t) (tg_token t) id (tg_name t) s Hd) as (hr & s' & E).
    exists (Leaving hr), s'. split; [by run_step E|]. split; [simpl; lia|].
    apply doInstrumentation_effect in E as (-> & _). done.
  - eexists _, _. split; [reflexivity|]. simpl. auto with lia.
  - by exists (Finished hr), s.
Qed.

Lemma serialize_methods_total l buffer : Forall (fun e => exists rt k, key_info rt k = Some (snd e)) l ->
  exists b, serialize_methods l buffer = Ok b.
Proof.
  intros H. revert buffer. induction H as [|[i m] l (rt & k & Hk) _ IH]; intros buffer; [by exists buffer|].
  cbn [serialize_methods snd] in *.
  assert (forall name v, serializePrimitiveArray 2 name (Z.of_nat (length name)) v = Ok (v ++ flat_map (le_bytes 2) name)) as Hp.
  { intros name v. unfold serializePrimitiveArray. rewrite Nat2Z.id.
    pose proof (read_at_app_r [] name []) as Hr. rewrite app_nil_r in Hr.
    change (read_at name 0 (length name) = Some name) in Hr. by rewrite Hr. }
  unfold key_info in Hk. destruct (GetModuleInfo rt (snd k)) as [|[name assembly]]; [done|].
  destruct (GetAssemblyInfo rt assembly) as [|aname]; [done|]. injection Hk as <-.
  unfold MethodInfo_serialize. cbn [token assemblyNameLength assemblyName moduleNameLength moduleName].
  rewrite Hp. cbn [mbind result_bind]. rewrite Hp. apply IH.
Qed.

Lemma named_methods rt c : Forall (fun info => exists k, key_info rt k = Some info) (collectedMethods c) ->
  Forall (fun e => exists rt k, key_info rt k = Some (snd e)) (methodsToSerialize c).
Proof.
  intros H. apply Forall_forall. intros [i m] Hin. apply list_elem_of_filter in Hin as [_ Hin].
  apply elem_of_lookup_imap in Hin as (j & m' & [= -> <-] & Hm). apply list_elem_of_lookup_2 in Hm.
  apply (proj1 (Forall_forall _ _) H) in Hm as [k Hk]. eauto.
Qed.

Lemma report_runs rt p : Forall (fun info => exists k, key_info rt k = Some info) (collectedMethods (coverageTracker p)) ->
  exists bytes p', serializeCoverageReport p = Ok (bytes, p').
Proof.
  intros H. unfold serializeCoverageReport. rewrite st_get_bind. cbv zeta.
  destruct (serialize_methods_total (methodsToSerialize (coverageTracker p))
    (serializePrimitive 4 (Z.of_nat (length (methodsToSerialize (coverageTracker p)))) [])) as [b Hb].
  { by apply (named_methods rt). }
  unfold st_lift. rewrite Hb. eexists _, _. reflexivity.
Qed.

Lemma step_shutdown_progress rt ph s phs :
  conc_inv rt s phs -> isFinished (profilerState s) = true -> ph <> Open ->
  exists ph' s', step_shutdown ph s = Ok (ph', s') /\ isFinished (profilerState s') = true /\ ph' <> Open.
Proof.
  intros I Hf Ho. destruct ph as [| | |r]; [done| | |]; cbn [step_shutdown].
  - rewrite st_get_bind. eexists _, s. split; [reflexivity|]. by destruct (_ <? _).
  - rewrite st_get_bind. destruct (isPassiveRun _); [|by exists (Closed None), s].
    destruct (report_runs rt (profilerState s) (cv_collected _ _ _ I)) as (bytes & p & E). eexists _, _. split.
    { unfold mbind, st_bind, on_profiler, on_part. rewrite E. reflexivity. }
    apply report_effect in E as (_ & _ & E & _). simpl. by rewrite E.
  - by exists (Closed r), s.
Qed.

Definition phase_at (y : system) (i : nat) : phase := default Started (phases y !! i).
Definition turns (l : label) (schedule : list label) : nat := length (filter (fun l' => l' = l) schedule).

(** The shutdown has set its flag. *)
Definition finishing (rt : Runtime) (y : system) : Prop :=
  conc_inv rt (shared y) (phases y) /\ isFinished (profilerState (shared y)) = true /\ closing y <> Open.

Lemma step_finishing rt l y : rewrites_defined rt -> finishing rt y ->
  exists y', step rt l y = Ok y' /\ finishing rt y' /\
    forall i, (todo (phase_at y' i) <= todo (phase_at y i) - turns (Request i) [l])%nat.
Proof.
  intros Hd (I & Hf & Ho). assert (forall y', step rt l y = Ok y' -> conc_inv rt (shared y') (phases y')) as HI
    by (intros y'; by apply step_inv).
  destruct l as [j|]; cbn [step] in *.
  - destruct (requests y !! j) as [[[tid f] ph]|] eqn:Er.
    + destruct (step_request_progress rt tid f ph (shared y) Hd Hf) as (ph' & s' & E & Ht & Hf').
      rewrite E in *. cbn [mbind result_bind] in *. eexists. split; [reflexivity|]. split; [split; [by apply HI|done]|].
      intros i. unfold phase_at, phases. cbn [requests]. unfold turns. rewrite filter_cons, filter_nil.
      rewrite !list_lookup_fmap. destruct (decide (i = j)) as [->|Hne].
      * rewrite list_lookup_insert_eq by (by eapply lookup_lt_Some). rewrite Er. simpl.
        case_decide; [simpl; lia|done].
      * rewrite list_lookup_insert_ne by done. case_decide; [simplify_eq|]. simpl. lia.
    + exists y. split; [done|]. split; [done|]. intros i. unfold turns. rewrite filter_cons, filter_nil.
      case_decide; [simplify_eq; unfold phase_at, phases; rewrite list_lookup_fmap, Er; simpl; lia|simpl; lia].
  - destruct (step_shutdown_progress rt (closing y) (shared y) _ I Hf Ho) as (ph' & s' & E & Hf' & Ho').
    rewrite E in *. cbn [mbind result_bind] in *. eexists. split; [reflexivity|]. split; [split; [by apply HI|done]|].
    intros i. unfold turns. rewrite filter_cons, filter_nil. case_decide; [done|]. simpl. unfold phase_at, phases. simpl. lia.
Qed.

Lemma run_finishing rt schedule y : rewrites_defined rt -> finishing rt y ->
  exists y', run rt schedule y = Ok y' /\ finishing rt y' /\
    forall i, (todo (phase_at y' i) <= todo (phase_at y i) - turns (Request i) schedule)%nat.
Proof.
  intros Hd. revert y. induction schedule as [|l schedule IH]; intros y Hf.
  - exists y. split; [done|]. split; [done|]. intros i. unfold turns. simpl. lia.
  - destruct (step_finishing rt l y Hd Hf) as (y1 & E1 & Hf1 & Ht1). destruct (IH y1 Hf1) as (y2 & E2 & Hf2 & Ht2).
    exists y2. cbn [run]. rewrite E1. split; [exact E2|]. split; [done|]. intros i. specialize (Ht1 i). specialize (Ht2 i).
    unfold turns in *. rewrite filter_cons, filter_nil in Ht1. rewrite filter_cons. case_decide; simpl in *; lia.
Qed.

Lemma run_app rt sched1 sched2 y : run rt (sched1 ++ sched2) y = run rt sched1 y ≫= run rt sched2.
Proof.
  revert y. induction sched1 as [|l sched1 IH]; intros y; [done|]. cbn [run app].
  unfold mbind at 1 3, result_bind at 1 3. destruct (step rt l y) as [y1|e]; [apply IH|done].
Qed.

Lemma step_request_finished rt tid f ph s ph' s' :
  step_request rt tid f ph s = Ok (ph', s') -> isFinished (profilerState s) = true -> isFinished (profilerState s') = true.
Proof.
  intros H Hf. destruct ph as [| | |t|t|t id|t id|hr|hr]; cbn [step_request] in H.
  - rewrite st_get_bind in H. by injection H as _ <-.
  - by injection H as _ <-.
  - unfold leave_if_failed in H. destruct (GetFunctionInfo rt f) as [hr|[m t]]; [by injection H as _ <-|].
    destruct (GetModuleInfo rt m) as [hr|[name assembly]]; [by injection H as _ <-|].
    destruct (GetAssemblyInfo rt assembly) as [hr|aname]; [by injection H as _ <-|].
    rewrite st_get_bind in H. cbv zeta in H. destruct (negb _); [by injection H as _ <-|].
    destruct (collectMainOnly _); by injection H as _ <-.
  - rewrite st_get_bind in H. by injection H as _ <-.
  - unfold mbind, st_bind in H. rewrite collect_run in H. by injection H as _ <-.
  - by injection H as _ <-.
  - apply st_bind_ok in H as (hr & s1 & H & [= _ <-]). by apply doInstrumentation_effect in H as (-> & _).
  - by injection H as _ <-.
  - by injection H as _ <-.
Qed.

Lemma reachable_finishing rt s calls y : fresh s -> reachable rt (start s calls) y -> closing y <> Open -> finishing rt y.
Proof.
  intros Hf Hr Ho. split; [exact (reachable_inv rt _ y (start_inv rt s calls Hf) Hr)|]. split; [|done].
  revert Ho. induction Hr as [|l y y' Hr IH H]; [done|]. intros Ho. destruct l as [i|]; cbn [step] in H.
  - destruct (requests y !! i) as [[[tid f] ph]|]; [|injection H as <-; auto].
    apply result_bind_ok in H as ([ph' s'] & H & [= <-]). cbn [closing shared] in *. specialize (IH Ho).
    by eapply step_request_finished.
  - apply result_bind_ok in H as ([ph' s'] & H & [= <-]). cbn [closing shared] in *.
    destruct (closing y) eqn:Ec; cbn [step_shutdown] in H.
    + by injection H as <- <-.
    + rewrite st_get_bind in H. injection H as <- <-. by apply IH.
    + rewrite st_get_bind in H. destruct (isPassiveRun _); [|injection H as <- <-; by apply IH].
      apply st_bind_ok in H as (b & s1 & H & [= <- <-]). unfold on_profiler, on_part in H.
      destruct (serializeCoverageReport _) as [[b' p]|] eqn:E; [|done]. injection H as <- <-.
      apply report_effect in E as (_ & _ & E & _). simpl. rewrite E. by apply IH.
    + injection H as <- <-. by apply IH.
Qed.

Lemma all_done y : (forall i, todo (phase_at y i) = 0%nat) -> counted_all (phases y) = 0.
Proof.
  unfold phase_at. generalize (phases y) as l. induction l as [|ph l IH]; intros H; [done|].
  cbn [counted_all foldr]. fold (counted_all l). rewrite IH by (intros i; apply (H (S i))).
  by rewrite (todo_counted ph (H 0%nat)).
Qed.

(** C32: The shutdown leaves its loop: once it has set the flag, every schedule
    that gives seven turns to each callback that had begun brings the counter to
    zero, whatever callbacks begin later and however many turns they get, and
    the shutdown's next turn is the last of its loop. *)
Theorem shutdown_leaves_loop rt s calls y schedule :
  rewrites_defined rt -> fresh s -> reachable rt (start s calls) y -> closing y = Spinning ->
  (forall i ph, phases y !! i = Some ph -> ph <> Started -> (7 <= turns (Request i) schedule)%nat) ->
  exists y', run rt (schedule ++ [Shut]) y = Ok y' /\ shutdownBlockingRequestsCount (shared y') = 0 /\
    (closing y' = Reporting \/ exists report, closing y' = Closed report).
Proof.
  intros Hd Hf Hr Hc Hfair. assert (finishing rt y) as Hy by (eapply reachable_finishing; [done|done|by rewrite Hc]).
  destruct (run_finishing rt schedule y Hd Hy) as (y1 & E1 & (I1 & F1 & O1) & Ht).
  assert (shutdownBlockingRequestsCount (shared y1) = 0) as H0.
  { rewrite (cv_count _ _ _ I1). apply all_done. intros i. specialize (Ht i).
    assert (todo (phase_at y i) <= turns (Request i) schedule)%nat as Hle; [|lia].
    unfold phase_at. destruct (phases y !! i) as [ph|] eqn:Ep; [|simpl; lia]. simpl.
    specialize (Hfair i ph Ep). destruct ph; simpl; try lia; specialize (Hfair ltac:(discriminate)); lia. }
  destruct (step_shutdown_progress rt (closing y1) (shared y1) _ I1 F1 O1) as (ph' & s' & E & _ & _).
  exists (mkSystem s' (requests y1) ph'). rewrite run_app, E1. cbn [mbind result_bind run step]. rewrite E.
  split; [done|]. split; [apply step_shutdown_effect in E as (_ & _ & _ & _ & E); simpl; by rewrite E|].
  simpl. destruct (closing y1); cbn [step_shutdown] in E; [done| | |].
  - rewrite st_get_bind, H0 in E. injection E as <- _. auto.
  - rewrite st_get_bind in E. destruct (isPassiveRun _); [|injection E as <- _; eauto].
    apply st_bind_ok in E as (b & s1 & _ & [= <- _]). eauto.
  - injection E as <- _. eauto.
Qed.

(** ** What the shutdown and the table of methods do not exclude *)

Lemma run_alone rt n i tid f ph s reqs c :
  reqs !! i = Some (tid, f, ph) ->
  run rt (replicate n (Request i)) (mkSystem s reqs c) =
  match steps_alone rt n tid f ph s with
  | Ok (ph', s') => Ok (mkSystem s' (<[i := (tid, f, ph')]> reqs) c)
  | Err e => Err e
  end.
Proof.
  revert ph s reqs. induction n as [|n IH]; intros ph s reqs Hi; cbn [replicate run steps_alone step requests].
  - cbn. by rewrite list_insert_id.
  - rewrite Hi. cbn [shared]. unfold mbind at 1 2 3, result_bind at 1 2, st_bind at 1.
    destruct (step_request rt tid f ph s) as [[ph1 s1]|e]; [|done]. cbn [closing].
    rewrite (IH ph1) by (apply list_lookup_insert_eq; by eapply lookup_lt_Some).
    destruct (steps_alone rt n tid f ph1 s1) as [[ph2 s2]|e]; [|done]. by rewrite list_insert_insert_eq.
Qed.

(** A method that the runtime gives out and whose rewriting succeeds, whatever
    probes, number and role it is rewritten with. *)
Definition always_rewritten (rt : Runtime) (k : Z * Z) : Prop :=
  GetModuleMetaData rt (snd k) = inr tt /\
  exists decoder, GetILFunctionBody rt (snd k) (fst k) = inr decoder /\
    forall probes methodId isMain, exists body r,
      RewriteIL (Alloc rt) (SetBody rt (snd k) (fst k)) (junk rt) decoder probes methodId isMain new_ILRewriter = Ok (body, r).

(** A counted callback up to the point where it has not found its method. *)
Lemma to_collecting rt tid f s k :
  function_key rt (profilerState s) f = Some k -> k ∉ instrumentedMethods s ->
  exists t s1, steps_alone rt 3 tid f Counting s = Ok (Collecting t, s1) /\ tg_key t = k /\
    target_ok rt t /\ collected s1 = collected s /\ instrumentedMethods s1 = instrumentedMethods s /\
    mainMethodInfo (profilerState s1) = mainMethodInfo (profilerState s) /\
    collectMainOnly (profilerState s1) = collectMainOnly (profilerState s) /\
    isFinished (profilerState s1) = isFinished (profilerState s) /\ bodies s1 = bodies s.
Proof.
  intros Hk Hnew.
  change (steps_alone rt 3 tid f Counting s) with
    ((step_request rt tid f Querying ≫= steps_alone rt 1 tid f) (count_request 1 s)).
  unfold function_key in Hk. cbn [step_request]. unfold leave_if_failed.
  destruct (GetFunctionInfo rt f) as [|[m t]]; [done|]. destruct (key_info rt (t, m)) as [info|] eqn:Hinfo; [|done].
  pose proof Hinfo as Hinfo'. unfold key_info in Hinfo'. unfold key_is_main in Hk. cbn [fst snd] in *.
  destruct (GetModuleInfo rt m) as [|[name assembly]] eqn:Hm; [done|].
  destruct (GetAssemblyInfo rt assembly) as [|aname]; [done|].
  injection Hinfo' as <-. rewrite st_bind_assoc, st_get_bind. cbv zeta. unfold InstrumentationIsNeeded.
  cbn [profilerState count_request]. destruct (IsMain _ _ _ _ || negb _) eqn:En; [|done]. injection Hk as <-. cbn [negb].
  set (tg := mkTarget _ _ _ _). set (write := if collectMainOnly (profilerState s) then _ else _).
  assert (exists s1, write (count_request 1 s) = Ok (tt, s1) /\ collected s1 = collected s /\
    instrumentedMethods s1 = instrumentedMethods s /\ mainMethodInfo (profilerState s1) = mainMethodInfo (profilerState s) /\
    collectMainOnly (profilerState s1) = collectMainOnly (profilerState s) /\
    isFinished (profilerState s1) = isFinished (profilerState s) /\ bodies s1 = bodies s)
    as (s1 & Hw & Hc & Hi & Hp).
  { subst write. destruct (collectMainOnly (profilerState s)) eqn:Eo; eexists; by split_and!. }
  exists tg, s1. rewrite st_bind_assoc. split; [|split_and!; [done|split; [done|by exists assembly]|done|done|apply Hp..]].
  run_step Hw. change ((mret (Searching tg) ≫= steps_alone rt 1 tid f) s1) with
    (Ok (if bool_decide (tg_key tg ∈ instrumentedMethods s1) then Leaving S_OK else Collecting tg, s1)).
  by rewrite Hi, bool_decide_eq_false_2.
Qed.

Lemma started_counting rt n tid f s : isFinished (profilerState s) = false ->
  steps_alone rt (S n) tid f Started s = steps_alone rt n tid f Counting s.
Proof. intros Hf. cbn [steps_alone step_request]. rewrite st_bind_assoc, st_get_bind, Hf. done. Qed.

(** The rest of it. *)
Lemma from_collecting rt tid f t s : rewrites_defined rt ->
  exists hr s1, steps_alone rt 4 tid f (Collecting t) s = Ok (Finished hr, s1) /\ collected s1 = collected s ++ [tg_info t].
Proof.
  intros Hd. set (s1 := insert_method (tg_key t) (collected_state s (tg_info t))).
  destruct (doInstrumentation_total rt tid (tg_module t) (tg_token t)
    (Z.of_nat (length (collectedMethods (coverageTracker (profilerState s))))) (tg_name t) s1 Hd) as (hr & s2 & E).
  exists hr, (count_request (-1) s2). split; [|by apply doInstrumentation_effect in E as (Ep & _); unfold collected; simpl; rewrite Ep].
  change (steps_alone rt 4 tid f (Collecting t) s) with
    (((hr ← doInstrumentation rt tid 0 (tg_module t) (tg_token t)
       (Z.of_nat (length (collectedMethods (coverageTracker (profilerState s))))) (tg_name t); mret (Leaving hr)) ≫=
      steps_alone rt 1 tid f) s1).
  rewrite st_bind_assoc. by run_step E.
Qed.

(** The rest of it, for a method that is rewritten. *)
Lemma doInstrumentation_rewrites rt tid m t id name s : always_rewritten rt (t, m) ->
  exists body decoder probes r tb, doInstrumentation rt tid 0 m t id name s =
      Ok (S_OK, add_body (mkNewBody id t m body) (with_probes tb s)) /\
    GetILFunctionBody rt m t = inr decoder /\
    RewriteIL (Alloc rt) (SetBody rt m t) (junk rt) decoder probes (sint 32 id)
      (IsMain (profilerState s) name (Z.of_nat (length name)) t) new_ILRewriter = Ok (body, r).
Proof.
  intros (Hmeta & decoder & Hd & Hr). cbn [fst snd] in *. unfold doInstrumentation, IfFailRet. rewrite Hmeta.
  assert (exists h tb, (if 0 =? m then mret S_OK else initTokens rt tid m) s = Ok (h, with_probes tb s)) as (h & tb & R).
  { destruct (0 =? m); [|apply initTokens_run]. exists S_OK, (coverageProbes s). by destruct s. }
  run_step R. rewrite st_get_bind. cbn [profilerState with_probes]. set (main := IsMain _ _ _ _).
  destruct (Hr (probes_of tid tb) (sint 32 id) main) as (body & r & E). exists body, decoder, (probes_of tid tb), r, tb.
  split; [|done]. unfold rewrite_method, mbind, st_bind. cbn [coverageProbes with_probes]. by rewrite Hd, E.
Qed.

Lemma rewrite_collecting rt tid f t s : target_ok rt t -> always_rewritten rt (tg_key t) ->
  let id := Z.of_nat (length (collected s)) in
  exists body s1, steps_alone rt 4 tid f (Collecting t) s = Ok (Finished S_OK, s1) /\
    collected s1 = collected s ++ [tg_info t] /\
    bodies s1 = bodies s ++ [mkNewBody id (tg_token t) (tg_module t) body] /\
    body_numbered rt s1 (mkNewBody id (tg_token t) (tg_module t) body).
Proof.
  intros [Hinfo [assembly Hm]] Hr id. set (s1 := insert_method (tg_key t) (collected_state s (tg_info t))).
  destruct (doInstrumentation_rewrites rt tid (tg_module t) (tg_token t) id (tg_name t) s1 Hr)
    as (body & decoder & probes & r & tb & E & Hd & Er).
  exists body, (count_request (-1) (add_body (mkNewBody id (tg_token t) (tg_module t) body) (with_probes tb s1))).
  split; [|split; [done|split; [done|]]].
  - change (steps_alone rt 4 tid f (Collecting t) s) with
      (((hr ← doInstrumentation rt tid 0 (tg_module t) (tg_token t) id (tg_name t); mret (Leaving hr)) ≫=
        steps_alone rt 1 tid f) s1).
    rewrite st_bind_assoc. by run_step E.
  - split.
    + split; [simpl; lia|]. exists (tg_info t). split; [|done]. cbn [nb_methodId]. subst id. rewrite Nat2Z.id.
      by apply list_lookup_middle.
    + exists decoder, probes, r. split; [done|]. unfold key_is_main. cbn [nb_token nb_module nb_methodId nb_body fst snd].
      by rewrite Hm.
Qed.

(** The three steps of the shutdown of a passive run when no callback is counted. *)
Lemma shutdown_reports rt s reps : isPassiveRun (profilerState s) = true -> shutdownBlockingRequestsCount s = 0 ->
  report_wf (profilerState s) reps ->
  exists bytes s', (forall reqs, run rt [Shut; Shut; Shut] (mkSystem s reqs Open) = Ok (mkSystem s' reqs (Closed (Some bytes)))) /\
    getRawReports bytes = Ok (raw_of (set_finished (profilerState s)) reps) /\
    collected s' = collected s /\ instrumentedMethods s' = instrumentedMethods s /\ bodies s' = bodies s /\
    mainMethodInfo (profilerState s') = mainMethodInfo (profilerState s) /\
    collectMainOnly (profilerState s') = collectMainOnly (profilerState s).
Proof.
  intros Hp Hn W. assert (report_wf (set_finished (profilerState s)) reps) as W' by (destruct W; by split).
  destruct (report_read _ _ W') as (bytes & Es & Er).
  set (s1 := mkInstState (set_finished (profilerState s)) (instrumentedMethods s) (coverageProbes s)
    (shutdownBlockingRequestsCount s) (bodies s)).
  set (s2 := mkInstState (after_report (set_finished (profilerState s))) (instrumentedMethods s) (coverageProbes s)
    (shutdownBlockingRequestsCount s) (bodies s)).
  assert (on_profiler serializeCoverageReport s1 = Ok (bytes, s2)) as E2 by (unfold on_profiler, on_part; subst s1; cbn [profilerState]; by rewrite Es).
  exists bytes, s2. split; [intros reqs|by split_and!].
  change (run rt [Shut; Shut; Shut] (mkSystem s reqs Open)) with
    (run rt [Shut; Shut] (mkSystem s1 reqs Spinning)).
  assert (step rt Shut (mkSystem s1 reqs Spinning) = Ok (mkSystem s1 reqs Reporting)) as E1.
  { cbn [step closing shared step_shutdown]. rewrite st_get_bind. cbn [shutdownBlockingRequestsCount s1]. by rewrite Hn. }
  cbn [run]. rewrite E1. cbn [mbind result_bind step closing shared step_shutdown]. rewrite st_get_bind.
  change (isPassiveRun (profilerState s1)) with (isPassiveRun (profilerState s)). rewrite Hp. by run_step E2.
Qed.

(** C40: A callback that has tested the flag but not yet incremented the counter
    is not waited for: on a passive run with nothing else under way, the shutdown
    makes its report and ends, and the callback then numbers the next method and
    gives the runtime a body whose probes carry that number, which the report
    does not list.  The method is one that is not instrumented yet and that the
    runtime and [RewriteIL] accept; the stored histories and the names are in
    their formats' ranges. *)
Theorem late_callback_misses_report rt tid f s reps k :
  isFinished (profilerState s) = false -> isPassiveRun (profilerState s) = true ->
  shutdownBlockingRequestsCount s = 0 -> report_wf (profilerState s) reps ->
  function_key rt (profilerState s) f = Some k -> k ∉ instrumentedMethods s -> always_rewritten rt k ->
  let id := Z.of_nat (length (collected s)) in
  exists bytes raw info body y, key_info rt k = Some info /\
    run rt (Request 0 :: [Shut; Shut; Shut] ++ replicate 7 (Request 0)) (start s [(tid, f)]) = Ok y /\
    closing y = Closed (Some bytes) /\ getRawReports bytes = Ok raw /\ methods raw !! id = None /\
    collected (shared y) = collected s ++ [info] /\
    bodies (shared y) = bodies s ++ [mkNewBody id (fst k) (snd k) body] /\
    body_numbered rt (shared y) (mkNewBody id (fst k) (snd k) body).
Proof.
  intros Hf Hp Hn W Hk Hnew Hr id.
  destruct (shutdown_reports rt s reps Hp Hn W) as (bytes & s1 & Es & Er & C1 & N1 & B1 & M1 & O1).
  assert (function_key rt (profilerState s1) f = Some k) as Hk1.
  { rewrite <- Hk. unfold function_key. destruct (GetFunctionInfo rt f) as [|[m t]]; [done|].
    unfold key_is_main, IsMain. by rewrite M1, O1. }
  destruct (to_collecting rt tid f s1 k Hk1 ltac:(by rewrite N1)) as (t & s2 & E2 & <- & T2 & C2 & _ & _ & _ & _ & B2).
  destruct (rewrite_collecting rt tid f t s2 T2 Hr) as (body & s3 & E3 & C3 & B3 & Hb). rewrite C2, C1 in *. rewrite B2, B1 in *.
  exists bytes, (raw_of (set_finished (profilerState s)) reps), (tg_info t), body.
  exists (mkSystem s3 [(tid, f, Finished S_OK)] (Closed (Some bytes))). split; [apply T2|].
  split; [|split; [done|split; [done|split; [|by split_and!]]]].
  - change (run rt (Request 0 :: ([Shut; Shut; Shut] ++ replicate 7 (Request 0))) (start s [(tid, f)])) with
      (step rt (Request 0) (start s [(tid, f)]) ≫= run rt ([Shut; Shut; Shut] ++ replicate 7 (Request 0))).
    assert (step rt (Request 0) (start s [(tid, f)]) = Ok (mkSystem s [(tid, f, Counting)] Open)) as ->.
    { cbn [step start requests map lookup list_lookup fst snd shared step_request]. rewrite st_get_bind, Hf. done. }
    cbn [mbind result_bind]. rewrite run_app, Es. cbn [mbind result_bind].
    change (replicate 7 (Request 0)) with (replicate 3 (Request 0) ++ replicate 4 (Request 0)).
    rewrite run_app, (run_alone rt 3 0 tid f Counting), E2 by done. cbn [mbind result_bind].
    by rewrite (run_alone rt 4 0 tid f (Collecting t)), E3.
  - rewrite raw_methods. case_bool_decide; [|done]. subst id. rewrite Nat2Z.id. apply fmap_None.
    apply lookup_ge_None. done.
Qed.

(** Two threads that compile instances of one method at the same time can
    both find it missing from the table: it gets two numbers and is rewritten
    twice, which one callback after the other never does. *)
Theorem method_numbered_twice rt tid1 tid2 f1 f2 s k :
  rewrites_defined rt -> isFinished (profilerState s) = false -> k ∉ instrumentedMethods s ->
  function_key rt (profilerState s) f1 = Some k -> function_key rt (profilerState s) f2 = Some k ->
  exists info y, key_info rt k = Some info /\
    run rt (replicate 4 (Request 0) ++ replicate 4 (Request 1) ++ replicate 4 (Request 0) ++ replicate 4 (Request 1))
      (start s [(tid1, f1); (tid2, f2)]) = Ok y /\
    collected (shared y) = collected s ++ [info; info].
Proof.
  intros Hd Hf Hnew H1 H2.
  destruct (to_collecting rt tid1 f1 s k H1 Hnew) as (t1 & s1 & E1 & K1 & [I1 _] & C1 & N1 & M1 & O1 & F1 & _).
  rewrite Hf in F1. apply (started_counting rt 3 tid1 f1) in Hf. apply (started_counting rt 3 tid2 f2) in F1.
  assert (function_key rt (profilerState s1) f2 = Some k) as H2'.
  { rewrite <- H2. unfold function_key. destruct (GetFunctionInfo rt f2) as [|[m t]]; [done|].
    unfold key_is_main, IsMain. by rewrite M1, O1. }
  destruct (to_collecting rt tid2 f2 s1 k H2' ltac:(by rewrite N1)) as (t2 & s2 & E2 & K2 & [I2 _] & C2 & _).
  rewrite <- Hf in E1. rewrite <- F1 in E2.
  destruct (from_collecting rt tid1 f1 t1 s2 Hd) as (hr1 & s3 & E3 & C3).
  destruct (from_collecting rt tid2 f2 t2 s3 Hd) as (hr2 & s4 & E4 & C4).
  rewrite K1 in I1. rewrite K2, I1 in I2. injection I2 as Ht. exists (tg_info t1). eexists. split; [exact I1|]. split.
  { unfold start. cbn [map fst snd]. rewrite !run_app, (run_alone rt 4 0 tid1 f1 Started) by done.
    rewrite E1. cbn [mbind result_bind]. rewrite run_app, (run_alone rt 4 1 tid2 f2 Started) by done.
    rewrite E2. cbn [mbind result_bind]. rewrite run_app, (run_alone rt 4 0 tid1 f1 (Collecting t1)) by done.
    rewrite E3. cbn [mbind result_bind]. rewrite (run_alone rt 4 1 tid2 f2 (Collecting t2)) by done.
    rewrite E4. reflexivity. }
  simpl. rewrite C4, C3, C2, C1, <- Ht, <- app_assoc. done.
Qed.

(** ** The theorems at a run

    Two instances of main and another method are compiled; main is collected
    with everything else. *)
Definition started_state : InstState :=
  mkInstState (mkProfilerState new_ThreadTracker (new_CoverageTracker false) true false false
    (Some (mkMethodInfo 0x06000001 1 [65] 1 [77])) 0) ∅ (InitializeProbes (fun _ => 0x1000)) 0 [].

Lemma started_fresh : fresh started_state.
Proof. done. Qed.

Lemma run_reachable rt schedule y0 y y' : reachable rt y0 y -> run rt schedule y = Ok y' -> reachable rt y0 y'.
Proof.
  revert y. induction schedule as [|l schedule IH]; intros y Hr H; cbn [run] in H.
  - by injection H as <-.
  - apply result_bind_ok in H as (y1 & H1 & H). eapply IH; [|exact H]. by eapply reach_step.
Qed.

Definition result_system (r : result system) : system :=
  match r with Ok y => y | Err _ => start started_state [] end.

(** Two callbacks have begun, a third has not; the shutdown has set its flag. *)
Definition spinning_system : system :=
  result_system (run sample_runtime [Request 0; Request 0; Request 0; Request 1; Request 1; Shut; Request 0]
    (start started_state [(1, 500); (2, 502); (3, 501)])).

Lemma spinning_reachable : reachable sample_runtime (start started_state [(1, 500); (2, 502); (3, 501)]) spinning_system.
Proof.
  eapply run_reachable with (schedule := [Request 0; Request 0; Request 0; Request 1; Request 1; Shut; Request 0]);
    [constructor|reflexivity].
Qed.

Lemma interleaved_bodies_numbered_witness :
  Forall (body_numbered sample_runtime (shared spinning_system)) (bodies (shared spinning_system)) /\
  NoDup (nb_methodId <$> bodies (shared spinning_system)) /\
  shutdownBlockingRequestsCount (shared spinning_system) =
    Z.of_nat (length (filter (fun ph => counted ph = 1) (phases spinning_system))).
Proof.
  apply (interleaved_bodies_numbered sample_runtime started_state [(1, 500); (2, 502); (3, 501)]);
    [apply started_fresh|apply spinning_reachable].
Defined.

Definition fair_schedule : list label := concat (replicate 7 [Request 1; Request 2; Shut; Request 0]).

Lemma shutdown_leaves_loop_witness :
  exists y', run sample_runtime (fair_schedule ++ [Shut]) spinning_system = Ok y' /\
    shutdownBlockingRequestsCount (shared y') = 0 /\
    (closing y' = Reporting \/ exists report, closing y' = Closed report).
Proof.
  apply (shutdown_leaves_loop sample_runtime started_state [(1, 500); (2, 502); (3, 501)]);
    [apply sample_defined|apply started_fresh|apply spinning_reachable|reflexivity|].
  intros [|[|[|i]]] ph; [intros _ _; vm_compute; lia|intros _ _; vm_compute; lia|intros _ _; vm_compute; lia|discriminate].
Defined.

Lemma started_report : report_wf (profilerState started_state) [].
Proof. by split; try constructor. Qed.

Lemma sample_rewritten : always_rewritten sample_runtime (0x06000002, 7).
Proof.
  split; [done|]. exists (mkILMethod 0 8 3 [0x2A] []). split; [done|]. intros probes id isMain.
  assert (returns (RewriteIL (Alloc sample_runtime) (SetBody sample_runtime 7 0x06000002) (junk sample_runtime)
    (mkILMethod 0 8 3 [0x2A] []) probes id isMain new_ILRewriter) = true) as E
    by (destruct probes as [[] [] [] [] [] [] [] [] [] [] []], isMain; vm_compute; reflexivity).
  cbn [fst snd]. destruct (RewriteIL _ _ _ _ _ _ _ _) as [[body r]|e]; [eauto|discriminate E].
Qed.

Lemma late_callback_misses_report_witness :
  exists bytes raw info body y, key_info sample_runtime (0x06000002, 7) = Some info /\
    run sample_runtime (Request 0 :: [Shut; Shut; Shut] ++ replicate 7 (Request 0)) (start started_state [(1, 502)]) = Ok y /\
    closing y = Closed (Some bytes) /\ getRawReports bytes = Ok raw /\ methods raw !! 0 = None /\
    collected (shared y) = [info] /\ bodies (shared y) = [mkNewBody 0 0x06000002 7 body] /\
    body_numbered sample_runtime (shared y) (mkNewBody 0 0x06000002 7 body).
Proof.
  apply (late_callback_misses_report sample_runtime 1 502 started_state [] (0x06000002, 7));
    [reflexivity|reflexivity|reflexivity|apply started_report|vm_compute; reflexivity|set_solver|apply sample_rewritten].
Defined.

Lemma method_numbered_twice_witness :
  exists info y, key_info sample_runtime (0x06000001, 7) = Some info /\
    run sample_runtime
      (replicate 4 (Request 0) ++ replicate 4 (Request 1) ++ replicate 4 (Request 0) ++ replicate 4 (Request 1))
      (start started_state [(1, 500); (2, 501)]) = Ok y /\
    collected (shared y) = collected started_state ++ [info; info].
Proof.
  apply (method_numbered_twice sample_runtime 1 2 500 501 started_state (0x06000001, 7));
    [apply sample_defined|reflexivity|set_solver|vm_compute; reflexivity|vm_compute; reflexivity].
Defined.
