(* ===== verification/CovSession.v ===== *)
(** * The life of the coverage tool

    [CorProfiler::Initialize] and [Shutdown] of
    [VSharp.CoverageInstrumenter/profiler/corProfiler.cpp], whole: the wait for a
    debugger, the reference to the runtime, the event mask, the profiler state and
    the final report.  [Shutdown] is taken without concurrent callbacks, whose
    interleaving with it is the subject of CovInterleave.v. *)

From S2P Require Import Prelude Runtime ILExport Com CovTracker CovSpec.
Local Open Scope Z_scope.

Definition eventMask : Z :=
  foldr Z.lor 0 [COR_PRF_MONITOR_JIT_COMPILATION; COR_PRF_DISABLE_ALL_NGEN_IMAGES; COR_PRF_DISABLE_OPTIMIZATIONS;
    COR_PRF_MONITOR_EXCEPTIONS; COR_PRF_MONITOR_CLR_EXCEPTIONS; COR_PRF_DISABLE_TRANSPARENCY_CHECKS_UNDER_FULL_TRUST;
    COR_PRF_DISABLE_INLINING].

Record library := mkLibrary { profilers : com; masks : list Z; state : option ProfilerState }.

Definition on_com {A} : st com A -> st library A := on_part profilers (fun c y => mkLibrary c (masks y) (state y)).

(** An operation on [*profilerState]; undefined while it is null. *)
Definition on_state {A} (m : st ProfilerState A) : st library A := fun y =>
  match state y with
  | None => Err Undefined
  | Some p => match m p with Ok (a, p) => Ok (a, mkLibrary (profilers y) (masks y) (Some p)) | Err e => Err e end
  end.

(** [while (!done)]: a debugger sets the variable; [attached n] says whether it
    has after [n] seconds. *)
Fixpoint wait_debugger (fuel n : nat) (attached : nat -> bool) : st library unit :=
  if attached n then mret tt else
  match fuel with O => st_fail OutOfFuel | Datatypes.S fuel => wait_debugger fuel (Datatypes.S n) attached end.

Section Library.
(** Whether to wait; the answers of the runtime ([None] is success); the rest of
    the environment. *)
Context (waits : bool) (attached : nat -> bool) (fuel : nat) (query_ok : bool) (SetEventMask : Z -> option Z)
  (isPassive : option CovTracker.MethodInfo) (mainOnly : bool).

Definition Initialize (this : Z) : st library Z :=
  wait_debugger fuel 0 (fun n => negb waits || attached n);;
  ok ← on_com (acquire_info this query_ok);
  if negb ok then mret E_FAIL else
  st_modify (fun y => mkLibrary (profilers y) (masks y ++ [eventMask]) (state y));;
  match SetEventMask eventMask with
  | Some hr => mret hr
  | None =>
      st_modify (fun y => mkLibrary (profilers y) (masks y) (Some (new_ProfilerState isPassive mainOnly)));;
      mret S_OK
  end.

Definition Shutdown (this : Z) : st library (Z * option (list Z)) :=
  report ← on_state CovTracker.Shutdown;
  on_com (release_info this);;
  mret (S_OK, report).
End Library.

(** ** The coverage library's start and end *)

Lemma wait_ends fuel n attached (y : library) k :
  attached k = true -> (n <= k <= n + fuel)%nat -> wait_debugger fuel n attached y = Ok (tt, y).
Proof.
  intros Hk. revert n. induction fuel as [|fuel IH]; intros n Hn; cbn [wait_debugger].
  - replace n with k by lia. by rewrite Hk.
  - destruct (attached n) eqn:E; [done|]. apply IH. destruct (decide (n = k)) as [->|]; [congruence|lia].
Qed.

(** The start of the coverage library on every branch: it returns once a
    debugger it waits for has come; a runtime without the interface or one that
    refuses the event mask ends it, the latter with the reference kept; else there
    is a new profiler state. *)
Theorem coverage_Initialize_spec (waits : bool) attached fuel n (query_ok : bool) SetEventMask isPassive mainOnly this y h :
  (n <= fuel)%nat -> (waits = true -> attached n = true) -> uninitialized (profilers y) h this ->
  exists c, com_inv c h /\ infoRefs c = infoRefs (profilers y) + (if query_ok then 1 else 0) /\
    Initialize waits attached fuel query_ok SetEventMask isPassive mainOnly this y =
      Ok (if query_ok then default S_OK (SetEventMask 0xC1600060) else E_FAIL,
          mkLibrary c (masks y ++ (if query_ok then [0xC1600060] else []))
            (if query_ok && match SetEventMask 0xC1600060 with None => true | Some _ => false end
             then Some (new_ProfilerState isPassive mainOnly) else state y)).
Proof.
  intros Hn Ha (I & Hh & Hf). destruct (acquire_run _ h this query_ok I Hh Hf) as (c & R1 & I1 & E1 & F1).
  exists c. split; [done|]. split; [done|]. unfold Initialize.
  assert (wait_debugger fuel 0 (fun n => negb waits || attached n) y = Ok (tt, y)) as R0.
  { apply (wait_ends _ _ _ _ n); [|lia]. destruct waits; [|done]. by apply Ha. }
  run_step R0. unfold on_com. run_step (on_part_run profilers (fun c y => mkLibrary c (masks y) (state y)) _ y _ _ R1).
  destruct query_ok; cbn [negb andb]; [|by rewrite app_nil_r]. rewrite st_modify_bind.
  change eventMask with 0xC1600060. by destruct (SetEventMask _).
Qed.

(** The end of the coverage library gives the reference to the runtime back and
    clears the field, whatever the report, so that the destructor gives back
    nothing more. *)
Lemma coverage_Shutdown_gives_back this y h p report p' :
  com_inv (profilers y) h -> holds h this ->
  fields <$> objects (profilers y) !! this = Some (Profiler true) ->
  state y = Some p -> CovTracker.Shutdown p = Ok (report, p') ->
  exists c, Shutdown this y = Ok ((S_OK, report), mkLibrary c (masks y) (Some p')) /\
    com_inv c h /\ infoRefs c = infoRefs (profilers y) - 1 /\ fields <$> objects c !! this <> Some (Profiler true).
Proof.
  intros I Hh Hf Hy Hr. destruct (give_back_run _ h this I Hh) as (b & c & R1 & I1 & E1 & Hb & F1).
  rewrite Hf, bool_decide_eq_true_2 in Hb by done. subst b. exists c. split_and!; [|done..].
  unfold Shutdown. set (y1 := mkLibrary (profilers y) (masks y) (Some p')).
  rewrite (st_bind_run _ _ y report y1) by (unfold on_state; by rewrite Hy, Hr). unfold on_com.
  by run_step (on_part_run profilers (fun c y => mkLibrary c (masks y) (state y)) _ y1 _ _ R1).
Qed.

Lemma coverage_Initialize_spec_witness :
  exists c, com_inv c sample_held /\ infoRefs c = 1 /\
    Initialize true (fun n => (3 <=? n)%nat) 10 true (fun _ => None) None false 2 (mkLibrary sample_com [] None) =
      Ok (S_OK, mkLibrary c [0xC1600060] (Some (new_ProfilerState None false))).
Proof.
  apply (coverage_Initialize_spec true (fun n => (3 <=? n)%nat) 10 3 true (fun _ => None) None false 2
    (mkLibrary sample_com [] None) sample_held); [lia|done|apply sample_uninitialized].
Defined.
