(* ===== verification/Session.v ===== *)
(** * The life of a session

    How the runtime starts and ends the concolic profiler:
    [CorProfiler::Initialize] and [Shutdown] of
    [VSharp.ClrInteraction/corProfiler.cpp], with the Unix side of [Communicator]
    ([communication/unixFifoCommunicator.cpp]) that opens the connection to the
    engine.

    The operating system and the runtime's answers are parameters.  The state of
    the library joins its COM objects (Com.v), the connection and the session
    (ConcInstrument.v). *)

From S2P Require Import Prelude Runtime ILExport Com CovTracker CovSpec ConcStack MemBuffer Protocol Commands ConcInstrument.
Local Open Scope Z_scope.

(** ** The Unix communicator *)

(** The environment variable [CONCOLIC_PIPE], without its terminating zero, and
    the results of the system calls. *)
Record System := {
  pipe_variable : option (list Z);
  sys_socket : Z;
  sys_connect : Z -> list Z -> Z;
  sys_close : Z -> Z
}.

(** The descriptor [fd], the open ones, the addresses that were connected to,
    and what the connected socket carries. *)
Record endpoint := mkEndpoint { fd : Z; descriptors : list Z; addresses : list (Z * list Z); line : socket }.
Definition with_line (s : socket) (e : endpoint) : endpoint := mkEndpoint (fd e) (descriptors e) (addresses e) s.
Definition on_line {A} : st socket A -> st endpoint A := on_part line with_line.

(** The length of [sun_path] on Linux. *)
Definition sun_path_size : nat := 108.

Section Unix.
Context (sys : System).

Definition Communicator_open : st endpoint bool :=
  st_modify (fun e => mkEndpoint (sys_socket sys) (if sys_socket sys <? 0 then descriptors e else sys_socket sys :: descriptors e)
    (addresses e) (line e));;
  e ← st_get;
  if fd e <? 0 then mret false else
  pipeFile ← st_read (fun _ => pipe_variable sys);
  if Z.of_nat (length pipeFile) <? 1 then st_fail (Thrown "Invalid pipe environment variable!") else
  sun_path ← st_read (fun _ => write_at (replicate sun_path_size 0) 0 pipeFile);
  st_modify (fun e => mkEndpoint (fd e) (descriptors e) (addresses e ++ [(fd e, sun_path)]) (line e));;
  if sys_connect sys (fd e) sun_path <? 0 then mret false else mret true.

Definition Communicator_close : st endpoint bool :=
  e ← st_get;
  if negb (sys_close sys (fd e) =? 0) then mret false else
  st_modify (fun e => mkEndpoint (fd e) (List.filter (fun d => negb (d =? fd e)) (descriptors e)) (addresses e) (line e));;
  mret true.

#[export] Instance unix_communicator : Communicator endpoint := {
  comm_read := fun count => on_line (socket_read count);
  comm_write := fun message => on_line (socket_write message);
  comm_open := Communicator_open
}.
End Unix.

(** ** The concolic library *)

Definition eventMask : Z :=
  foldr Z.lor 0 [COR_PRF_MONITOR_JIT_COMPILATION; COR_PRF_DISABLE_ALL_NGEN_IMAGES; COR_PRF_MONITOR_EXCEPTIONS;
    COR_PRF_MONITOR_CLR_EXCEPTIONS; COR_PRF_DISABLE_TRANSPARENCY_CHECKS_UNDER_FULL_TRUST; COR_PRF_DISABLE_INLINING;
    COR_PRF_MONITOR_GC; COR_PRF_ENABLE_OBJECT_ALLOCATED; COR_PRF_MONITOR_OBJECT_ALLOCATED; COR_PRF_ENABLE_REJIT].

(** [masks]: the calls of [SetEventMask]; [configured]: [currentThread] asks the
    runtime; [instrumenter]: the object exists.  The line of the connection is the
    one of the session. *)
Record library := mkLibrary {
  profilers : com;
  masks : list Z;
  configured : bool;
  instrumenter : bool;
  connection : endpoint;
  running : session
}.

Definition on_com {A} : st com A -> st library A :=
  on_part profilers (fun c y => mkLibrary c (masks y) (configured y) (instrumenter y) (connection y) (running y)).
Definition on_session {A} : st session A -> st library A :=
  on_part running (fun s y => mkLibrary (profilers y) (masks y) (configured y) (instrumenter y) (connection y) s).
Definition on_connection {A} : st endpoint A -> st library A :=
  on_part (fun y => with_line (chan (shared (running y))) (connection y))
    (fun e y => mkLibrary (profilers y) (masks y) (configured y) (instrumenter y) e (with_sock (line e) (running y))).

Section Library.
Context (sys : System) (rt : Runtime) (debug : bool) (fuel : nat).
(** The runtime's answers, and the table of the probes' addresses. *)
Context (query_ok : bool) (ProbesAddresses : list Z).
#[local] Existing Instance unix_communicator.

Definition Initialize (this : Z) : st library Z :=
  ok ← on_com (acquire_info this query_ok);
  if negb ok then mret E_FAIL else
  st_modify (fun y => mkLibrary (profilers y) (masks y ++ [eventMask]) true (instrumenter y) (connection y) (running y));;
  started ← on_connection (startSession (HC := unix_communicator sys) (junk rt) fuel ProbesAddresses);
  if negb started then mret E_FAIL else
  st_modify (fun y => mkLibrary (profilers y) (masks y) (configured y) true (connection y) (with_instr new_Instrumenter (running y)));;
  on_session (configureEntryPoint rt debug fuel);;
  mret S_OK.

Definition Shutdown (this : Z) : st library Z :=
  on_session (on_shared (validateStackEmptyness debug));;
  had ← on_com (release_info this);
  st_modify (fun y => mkLibrary (profilers y) (masks y) (configured y) (instrumenter y && negb had) (connection y) (running y));;
  ok ← on_connection (shutdown (HC := unix_communicator sys));
  mret (if (ok : bool) then S_OK else E_FAIL).
End Library.

(** ** Operations on a part *)

Lemma bind_ext {S A B} (m m' : st S A) (f f' : A -> st S B) s :
  m s = m' s -> (forall a s', f a s' = f' a s') -> (m ≫= f) s = (m' ≫= f') s.
Proof. intros Hm Hf. unfold mbind, st_bind. rewrite Hm. destruct (m' s) as [[a s']|e]; [apply Hf|done]. Qed.

Definition with_profilers (c : com) (y : library) : library :=
  mkLibrary c (masks y) (configured y) (instrumenter y) (connection y) (running y).
Definition with_running (s : session) (y : library) : library :=
  mkLibrary (profilers y) (masks y) (configured y) (instrumenter y) (connection y) s.
Definition with_connection (e : endpoint) (y : library) : library :=
  mkLibrary (profilers y) (masks y) (configured y) (instrumenter y) e (with_sock (line e) (running y)).

Lemma on_com_run {A} (m : st com A) y a c : m (profilers y) = Ok (a, c) -> on_com m y = Ok (a, with_profilers c y).
Proof. apply on_part_run. Qed.
Lemma on_session_run {A} (m : st session A) y a s : m (running y) = Ok (a, s) -> on_session m y = Ok (a, with_running s y).
Proof. apply on_part_run. Qed.
Lemma on_connection_run {A} (m : st endpoint A) y a e :
  m (with_line (chan (shared (running y))) (connection y)) = Ok (a, e) -> on_connection m y = Ok (a, with_connection e y).
Proof.
  intros H. unfold on_connection. exact (on_part_run (fun y => with_line (chan (shared (running y))) (connection y)) _ m y a e H).
Qed.

(** ** The protocol over the communicator is the protocol over its socket *)

Lemma on_line_bind {A B} (m : st socket A) (f : A -> st socket B) e :
  on_line (m ≫= f) e = (on_line m ≫= fun a => on_line (f a)) e.
Proof.
  unfold on_line, on_part, mbind, st_bind. destruct (m (line e)) as [[a s]|]; [|done]. cbn [line with_line].
  by destruct (f a s) as [[b s']|].
Qed.

Lemma on_line_ret {A} (a : A) e : on_line (mret a) e = (mret a : st endpoint A) e.
Proof. by destruct e. Qed.
Lemma on_line_fail {A} er e : on_line (@st_fail socket A er) e = @st_fail endpoint A er e.
Proof. done. Qed.
Lemma on_line_read {A} (x : option A) e : on_line (st_read (fun _ => x)) e = st_read (fun _ => x) e.
Proof. unfold on_line, on_part, st_read. destruct x; [|done]. by destruct e. Qed.

Create HintDb lifted.
#[export] Hint Resolve on_line_bind on_line_ret on_line_fail on_line_read : lifted.
Create Rewrite HintDb lifted.
#[export] Hint Rewrite @on_line_ret @on_line_fail @on_line_read : lifted.

(** Pushes [on_line] through the binds and branches of a computation. *)
Ltac lift_protocol :=
  repeat first
    [ progress intros
    | solve [autorewrite with lifted; auto with lifted]
    | rewrite on_line_bind; apply bind_ext
    | case_match ].

Section Lift.
Context (sys : System) (junk : Z).
#[local] Instance over_unix : Communicator endpoint := unix_communicator sys.

Lemma readConfirmation_lift e : readConfirmation (S := endpoint) junk e = on_line (readConfirmation junk) e.
Proof. unfold readConfirmation. lift_protocol. Qed.
Lemma writeConfirmation_lift e : writeConfirmation (S := endpoint) e = on_line writeConfirmation e.
Proof. unfold writeConfirmation. lift_protocol. Qed.
Lemma readCount_lift e : readCount (S := endpoint) e = on_line readCount e.
Proof. unfold readCount. lift_protocol. Qed.
Lemma writeCount_lift n e : writeCount (S := endpoint) n e = on_line (writeCount n) e.
Proof. unfold writeCount. lift_protocol. Qed.
#[local] Hint Resolve readConfirmation_lift writeConfirmation_lift readCount_lift writeCount_lift : lifted.

Lemma read_loop_lift fuel array bytesRead count e :
  read_loop (S := endpoint) fuel array bytesRead count e = on_line (read_loop fuel array bytesRead count) e.
Proof. revert array bytesRead e. induction fuel as [|fuel IH]; intros; cbn [read_loop]; lift_protocol. Qed.
#[local] Hint Resolve read_loop_lift : lifted.

Lemma readBuffer_lift fuel e : readBuffer (S := endpoint) junk fuel e = on_line (readBuffer junk fuel) e.
Proof. unfold readBuffer. lift_protocol. Qed.
Lemma writeBuffer_lift bytes e : writeBuffer (S := endpoint) junk bytes e = on_line (writeBuffer junk bytes) e.
Proof. unfold writeBuffer. lift_protocol. Qed.
#[local] Hint Resolve readBuffer_lift writeBuffer_lift : lifted.

Lemma handshake_lift fuel e : handshake (S := endpoint) junk fuel e = on_line (handshake junk fuel) e.
Proof. unfold handshake. lift_protocol. Qed.
Lemma sendProbes_lift l e : sendProbes (S := endpoint) junk l e = on_line (sendProbes junk l) e.
Proof. apply writeBuffer_lift. Qed.
End Lift.

(** ** Opening the connection *)

Definition socket_address (path : list Z) : list Z := path ++ replicate (sun_path_size - length path) 0.

(** The variable names a socket that accepts the connection. *)
Record connects (sys : System) (path : list Z) : Prop := {
  cn_variable : pipe_variable sys = Some path;
  cn_path : (1 <= length path <= sun_path_size)%nat;
  cn_socket : 0 <= sys_socket sys;
  cn_connect : 0 <= sys_connect sys (sys_socket sys) (socket_address path)
}.

Definition opened (sys : System) (path : list Z) (e : endpoint) : endpoint :=
  mkEndpoint (sys_socket sys) (sys_socket sys :: descriptors e) (addresses e ++ [(sys_socket sys, socket_address path)]) (line e).

Lemma open_run sys path e : connects sys path -> Communicator_open sys e = Ok (true, opened sys path e).
Proof.
  intros [Hv Hp Hs Hc]. unfold Communicator_open. rewrite st_modify_bind, st_get_bind. cbn [fd].
  destruct (Z.ltb_spec (sys_socket sys) 0); [lia|].
  erewrite st_bind_run; [|unfold st_read; rewrite Hv; reflexivity].
  destruct (Z.ltb_spec (Z.of_nat (length path)) 1); [lia|].
  erewrite st_bind_run.
  2: { unfold st_read, write_at. rewrite length_replicate. destruct (_ && _) eqn:Eb; [reflexivity|exfalso; lia]. }
  rewrite drop_replicate. change (take (Z.to_nat 0) (replicate sun_path_size 0)) with (@nil Z). rewrite app_nil_l.
  change (Z.to_nat 0 + length path)%nat with (length path). fold (socket_address path).
  rewrite st_modify_bind. cbn [fd descriptors addresses line].
  destruct (Z.ltb_spec (sys_connect sys (sys_socket sys) (socket_address path)) 0); [lia|]. done.
Qed.

(** A path longer than the 108 bytes of [sun_path] is written beyond the
    address on the stack, and without the variable a null pointer is measured. *)
Theorem open_long_path_overruns sys e :
  0 <= sys_socket sys ->
  match pipe_variable sys with Some path => (sun_path_size < length path)%nat | None => True end ->
  Communicator_open sys e = Err Undefined.
Proof.
  intros Hs Hp. unfold Communicator_open. rewrite st_modify_bind, st_get_bind. cbn [fd].
  destruct (Z.ltb_spec (sys_socket sys) 0); [lia|]. destruct (pipe_variable sys) as [path|] eqn:Ep; [|by apply st_bind_err].
  erewrite st_bind_run; [|reflexivity]. destruct (Z.ltb_spec (Z.of_nat (length path)) 1); [lia|].
  apply st_bind_err. unfold st_read, write_at. rewrite length_replicate. destruct (_ && _) eqn:Eb; [exfalso; lia|done].
Qed.

(** ** The exchange with the engine *)

Lemma handshake_run junk fuel greeting rest out : greets greeting -> (0 < fuel)%nat ->
  handshake junk fuel (mkSocket (message greeting ++ confirmations 2 ++ rest) out []) =
    Ok (true, mkSocket rest (out ++ confirmations 2 ++ message (take 3 hi)) []).
Proof.
  intros [Hg Hb] Hf. unfold handshake.
  run_step (readBuffer_all junk fuel greeting (confirmations 2 ++ rest) out (greets_length _ _ Hg) Hf Hb).
  erewrite st_bind_run; [|unfold st_read; rewrite Hg; reflexivity]. cbn [negb].
  cbn [confirmations replicate app]. by rewrite writeBuffer_all, <- app_assoc.
Qed.

Lemma startSession_run sys path junk fuel l greeting rest out e :
  connects sys path -> greets greeting -> (0 < fuel)%nat ->
  line e = mkSocket (message greeting ++ confirmations 4 ++ rest) out [] ->
  startSession (HC := unix_communicator sys) junk fuel l e =
    Ok (true, with_line (mkSocket rest
      (out ++ confirmations 2 ++ message (take 3 hi) ++ message (flat_map (le_bytes 8) l)) []) (opened sys path e)).
Proof.
  intros Hc Hg Hf He. unfold startSession, connect. cbn [comm_open unix_communicator]. rewrite st_bind_assoc.
  run_step (open_run sys path e Hc).
  change (confirmations 4 ++ rest) with (confirmations 2 ++ confirmations 2 ++ rest) in He.
  rewrite (bind_ext _ (on_line (handshake junk fuel)) _ (fun ok => if ok then on_line (sendProbes junk l) else mret false)).
  2: { apply handshake_lift. }
  2: { intros [] s; [apply sendProbes_lift|done]. }
  assert (handshake junk fuel (line (opened sys path e)) = Ok (true, mkSocket (confirmations 2 ++ rest)
    (out ++ confirmations 2 ++ message (take 3 hi)) [])) as R1 by (cbn [line opened]; rewrite He; by apply handshake_run).
  run_step (on_part_run line with_line _ _ _ _ R1). unfold sendProbes.
  etransitivity; [exact (on_part_run line with_line _ _ _ _ (writeBuffer_all junk _ rest _))|]. by rewrite <- !app_assoc.
Qed.

(** ** Starting *)

(** The message that names the main method. *)
Definition entry_point (method : Z) (name : list Z) : list Z :=
  le_bytes 4 (Z.of_nat (length name) / 2) ++ le_bytes 4 method ++ name.

Record names_main (method : Z) (name : list Z) : Prop := {
  nm_method : is_uint 32 method;
  nm_even : Z.of_nat (length name) = 2 * (Z.of_nat (length name) / 2);
  nm_size : Z.of_nat (length name) < 2 ^ 31 - 8
}.

(** The instrumenter that knows the main method. *)
Definition configured_for (method : Z) (name : list Z) (i : Instrumenter) : Instrumenter :=
  mkInstrumenter (wchars name) (Z.of_nat (length name) / 2) method (m_mainReached i) (m_jittedToken i) (m_moduleId i)
    (m_signatureTokens i) (imported i) (instrumentedFunctions i) (skippedBeforeMain i) (m_reJitInstrumentedStarted i).

Lemma configureEntryPoint_run rt debug fuel method name rest out s :
  names_main method name -> (0 < fuel)%nat -> chan (shared s) = mkSocket (message (entry_point method name) ++ rest) out [] ->
  configureEntryPoint rt debug fuel s =
    Ok (tt, with_instr (configured_for method name (instr s)) (with_sock (mkSocket rest (out ++ confirmations 2) []) s)).
Proof.
  intros [Hm He Hb] Hf Hs. unfold configureEntryPoint. set (bytes := entry_point method name) in *.
  assert (length bytes = (8 + length name)%nat) as Hl.
  { unfold bytes, entry_point. rewrite !length_app, !length_le_bytes. lia. }
  set (s1 := with_sock _ s).
  rewrite (st_bind_run _ _ s bytes s1).
  2: { apply on_protocol_run. unfold acceptEntryPoint. rewrite Hs.
       by run_step (readBuffer_all (junk rt) fuel bytes rest out ltac:(lia) Hf ltac:(lia)). }
  assert (seg_at bytes 0 bytes) as Hseg.
  { unfold seg_at, read_at. destruct (_ && _) eqn:E; [|exfalso; lia]. change (Z.to_nat 0) with 0%nat. by rewrite drop_0, firstn_all. }
  unfold bytes in Hseg at 2. apply seg_at_app in Hseg as [S1 Hseg]. apply seg_at_app in Hseg as [S2 S3].
  unfold seg_at in S1, S2, S3. repeat rewrite length_le_bytes in S1. repeat rewrite length_le_bytes in S2.
  repeat rewrite length_le_bytes in S3. change (0 + Z.of_nat 4) with 4 in *.
  change (4 + Z.of_nat 4) with 8 in *.
  erewrite st_bind_run; [|unfold st_read; rewrite S1; reflexivity]. cbv zeta. rewrite le_Z_bytes. change (8 * Z.of_nat 4) with 32.
  rewrite sint_wrap, sint_small by (unfold is_sint; lia).
  erewrite st_bind_run; [|unfold st_read; rewrite S2; reflexivity].
  destruct (Z.ltb_spec (Z.of_nat (length name) / 2) 0); [lia|]. rewrite st_ret_bind.
  replace (Z.to_nat (2 * (Z.of_nat (length name) / 2))) with (length name) by lia.
  erewrite st_bind_run; [|unfold st_read; rewrite S3; reflexivity].
  unfold on_instr. rewrite st_modify_bind. unfold assert. rewrite le_Z_bytes. change (8 * Z.of_nat 4) with 32.
  rewrite wrap_small by done. replace (8 + 2 * (Z.of_nat (length name) / 2) =? Z.of_nat (length bytes)) with true by lia.
  by rewrite andb_false_r.
Qed.

(** C35: The start of a session with an engine that greets: the runtime is asked for
    the callbacks, the engine is connected to, answered, sent the addresses of the
    probes and asked for the main method, of which a new instrumenter learns; each
    message is confirmed and nothing else is read or written.  The system calls
    succeed and no read is cut short. *)
Theorem Initialize_starts sys path rt debug fuel l this y h greeting method name rest out :
  uninitialized (profilers y) h this -> connects sys path -> greets greeting -> names_main method name -> (0 < fuel)%nat ->
  chan (shared (running y)) = mkSocket (message greeting ++ confirmations 4 ++ message (entry_point method name) ++ rest) out [] ->
  exists y', Initialize sys rt debug fuel true l this y = Ok (S_OK, y') /\
    chan (shared (running y')) =
      mkSocket rest (out ++ confirmations 2 ++ message (take 3 hi) ++ message (flat_map (le_bytes 8) l) ++ confirmations 2) [] /\
    instr (running y') = configured_for method name new_Instrumenter /\
    masks y' = masks y ++ [0xC1A401E0] /\
    fd (connection y') = sys_socket sys /\ configured y' = true /\ instrumenter y' = true /\
    com_inv (profilers y') h /\ infoRefs (profilers y') = infoRefs (profilers y) + 1 /\
    fields <$> objects (profilers y') !! this = Some (Profiler true).
Proof.
  intros (I & Hh & Hf) Hc Hg Hn Hfuel Hs. destruct (acquire_run _ h this true I Hh Hf) as (c & R1 & I1 & E1 & F1).
  unfold Initialize. run_step (on_com_run _ y _ _ R1). cbn [negb]. rewrite st_modify_bind.
  set (y1 := mkLibrary _ _ true _ _ _).
  run_step (on_connection_run _ y1 _ _ (startSession_run sys path (junk rt) fuel l greeting
    (message (entry_point method name) ++ rest) out (with_line (chan (shared (running y1))) (connection y1)) Hc Hg Hfuel Hs)).
  cbn [negb]. rewrite st_modify_bind. set (y3 := mkLibrary _ _ _ true _ _).
  run_step (on_session_run _ y3 _ _ (configureEntryPoint_run rt debug fuel method name rest
    (out ++ confirmations 2 ++ message (take 3 hi) ++ message (flat_map (le_bytes 8) l)) (running y3) Hn Hfuel eq_refl)).
  eexists. split; [done|]. split_and!; try done. simpl. by rewrite <- !app_assoc.
Qed.

(** Any other greeting ends the start with [E_FAIL]: it is confirmed, nothing is
    sent, and no instrumenter is made; the reference to the runtime is kept. *)
Theorem Initialize_refuses sys path rt debug fuel l this y h greeting rest out :
  uninitialized (profilers y) h this -> connects sys path -> (0 < fuel)%nat ->
  strcmp_eq greeting hi = Some false -> Z.of_nat (length greeting) < 2 ^ 31 ->
  chan (shared (running y)) = mkSocket (message greeting ++ rest) out [] ->
  exists y', Initialize sys rt debug fuel true l this y = Ok (E_FAIL, y') /\
    chan (shared (running y')) = mkSocket rest (out ++ confirmations 2) [] /\
    instr (running y') = instr (running y) /\ instrumenter y' = instrumenter y /\
    com_inv (profilers y') h /\ infoRefs (profilers y') = infoRefs (profilers y) + 1.
Proof.
  intros (I & Hh & Hf) Hc Hfuel Hg Hb Hs. destruct (acquire_run _ h this true I Hh Hf) as (c & R1 & I1 & E1 & F1).
  unfold Initialize. run_step (on_com_run _ y _ _ R1). cbn [negb]. rewrite st_modify_bind.
  set (y1 := mkLibrary _ _ true _ _ _).
  set (e0 := with_line (chan (shared (running y1))) (connection y1)). set (e1 := opened sys path e0).
  set (s2 := mkSocket rest (out ++ confirmations 2) []).
  assert (startSession (HC := unix_communicator sys) (junk rt) fuel l e0 = Ok (false, with_line s2 e1)) as R2.
  { unfold startSession, connect. cbn [comm_open unix_communicator]. rewrite st_bind_assoc. run_step (open_run sys path e0 Hc).
    assert (handshake (junk rt) fuel (line e1) = Ok (false, s2)) as R.
    { change (line e1) with (chan (shared (running y))). rewrite Hs. unfold handshake.
      run_step (readBuffer_all (junk rt) fuel greeting rest out (greets_length _ _ Hg) Hfuel Hb).
      erewrite st_bind_run; [|unfold st_read; rewrite Hg; reflexivity]. done. }
    rewrite (st_bind_run _ _ e1 false (with_line s2 e1)); [done|]. rewrite handshake_lift.
    exact (on_part_run line with_line _ e1 _ _ R). }
  run_step (on_connection_run _ y1 _ _ R2). eexists. split; [done|]. by split_and!.
Qed.

(** ** Ending *)

(** The end of a session whose stacks are empty (or are not looked at): the
    engine is sent the length -1, the instrumenter is destroyed and the reference to
    the runtime given back. *)
Theorem Shutdown_ends sys debug this y h inbox out cs :
  com_inv (profilers y) h -> holds h this -> fields <$> objects (profilers y) !! this = Some (Profiler true) ->
  (debug = true -> forall t k, stacks (shared (running y)) !! t = Some k -> Stack_isEmpty k = true) ->
  chan (shared (running y)) = mkSocket inbox out cs ->
  exists y', Shutdown sys debug this y = Ok (S_OK, y') /\
    chan (shared (running y')) = mkSocket inbox (out ++ [0xFF; 0xFF; 0xFF; 0xFF]) cs /\
    instrumenter y' = false /\ com_inv (profilers y') h /\ infoRefs (profilers y') = infoRefs (profilers y) - 1.
Proof.
  intros I Hh Hf He Hs. destruct (give_back_run _ h this I Hh) as (b & c & R1 & I1 & E1 & Hb & _).
  rewrite Hf in Hb. rewrite bool_decide_eq_true_2 in Hb by done. subst b. unfold Shutdown.
  assert (on_shared (validateStackEmptyness debug) (running y) = Ok (tt, running y)) as R0.
  { unfold on_shared, validateStackEmptyness. destruct debug; [|by destruct (running y)].
    destruct (forallb _ _) eqn:Ef; [by destruct (running y)|]. exfalso. apply not_true_iff_false in Ef. apply Ef.
    apply forallb_forall. intros [t k] Hin. apply (He eq_refl t). apply elem_of_map_to_list, list_elem_of_In.
    by rewrite <- map_items_perm. }
  run_step (on_session_run _ y _ _ R0). run_step (on_com_run _ (with_running (running y) y) _ _ R1). rewrite st_modify_bind.
  set (y1 := mkLibrary _ _ _ _ _ _).
  assert (shutdown (HC := unix_communicator sys) (with_line (chan (shared (running y1))) (connection y1)) =
    Ok (true, with_line (mkSocket inbox (out ++ [0xFF; 0xFF; 0xFF; 0xFF]) cs) (connection y1))) as R2.
  { unfold shutdown. rewrite writeCount_lift. simpl. by rewrite Hs. }
  run_step (on_connection_run _ y1 _ _ R2). eexists. split; [done|]. split_and!; try done. simpl. by rewrite andb_false_r.
Qed.

(** ** The theorems at a run

    The runtime holds one profiler, at address 2; the engine's greeting and the
    main method wait in the socket [/s]. *)
Definition sample_system : System :=
  {| pipe_variable := Some [47; 115]; sys_socket := 3; sys_connect := fun _ _ => 0; sys_close := fun _ => 0 |}.

Lemma sample_connects : connects sample_system [47; 115].
Proof. split; [done|unfold sun_path_size; simpl; lia|done|done]. Qed.

Definition sample_library (b : bool) (inbox : list Z) : library :=
  mkLibrary (mkCom {[2 := mkObject 1 (Profiler b)]} 3 (if b then 1 else 0)) [] b b (mkEndpoint 0 [] [] (mkSocket [] [] []))
    (conc_session false inbox).

Lemma Initialize_starts_witness :
  exists y', Initialize sample_system conc_runtime true 5 true [0x1000; 0x2000] 2
      (sample_library false (message hi ++ confirmations 4 ++ message (entry_point 0x06000001 [77; 0; 78; 0]))) = Ok (S_OK, y') /\
    chan (shared (running y')) = mkSocket []
      (confirmations 2 ++ message [0x48; 0x69; 0x21] ++ message (le_bytes 8 0x1000 ++ le_bytes 8 0x2000) ++ confirmations 2) [] /\
    instr (running y') = configured_for 0x06000001 [77; 0; 78; 0] new_Instrumenter /\ masks y' = [0xC1A401E0].
Proof.
  destruct (Initialize_starts sample_system [47; 115] conc_runtime true 5 [0x1000; 0x2000] 2
    (sample_library false (message hi ++ confirmations 4 ++ message (entry_point 0x06000001 [77; 0; 78; 0]))) sample_held
    hi 0x06000001 [77; 0; 78; 0] [] []) as (y' & R & H1 & H2 & H3 & _).
  - apply sample_uninitialized.
  - apply sample_connects.
  - split; [reflexivity|simpl; lia].
  - split; [split; [lia|reflexivity]|reflexivity|simpl; lia].
  - lia.
  - by rewrite app_nil_r.
  - exists y'. split; [exact R|]. split; [exact H1|]. split; [exact H2|exact H3].
Defined.

Lemma Initialize_refuses_witness :
  exists y', Initialize sample_system conc_runtime true 5 true [0x1000] 2 (sample_library false (message [0x48; 0x69; 0])) = Ok (E_FAIL, y') /\
    chan (shared (running y')) = mkSocket [] (confirmations 2) [].
Proof.
  destruct (Initialize_refuses sample_system [47; 115] conc_runtime true 5 [0x1000] 2 (sample_library false (message [0x48; 0x69; 0]))
    sample_held [0x48; 0x69; 0] [] []) as (y' & R & H1 & _).
  - apply sample_uninitialized.
  - apply sample_connects.
  - lia.
  - reflexivity.
  - simpl. lia.
  - by rewrite app_nil_r.
  - exists y'. split; [exact R|exact H1].
Defined.

Lemma Shutdown_ends_witness :
  exists y', Shutdown sample_system true 2 (sample_library true []) = Ok (S_OK, y') /\
    chan (shared (running y')) = mkSocket [] [0xFF; 0xFF; 0xFF; 0xFF] [].
Proof.
  destruct (Shutdown_ends sample_system true 2 (sample_library true []) sample_held [] [] []) as (y' & R & H & _).
  - apply (sample_com_inv true).
  - apply sample_holds.
  - reflexivity.
  - intros _ t k H. cbn in H. by rewrite lookup_empty in H.
  - reflexivity.
  - exists y'. split; [exact R|exact H].
Defined.

Lemma open_long_path_overruns_witness :
  Communicator_open {| pipe_variable := Some (replicate 109 47); sys_socket := 3; sys_connect := fun _ _ => 0; sys_close := fun _ => 0 |}
    (mkEndpoint 0 [] [] (mkSocket [] [] [])) = Err Undefined.
Proof. apply open_long_path_overruns; simpl; unfold sun_path_size; lia. Defined.
